(* ===== verification/_CoqProject ===== *)
-Q . S2P
Prelude.v
GoStrings.v
GoJson.v
Float.v
JsonPrint.v
Any.v
Filter.v
Pagination.v
Resource.v
Gorm.v
Models.v
Nesting.v
Store.v
Columns.v
Mixins.v
StoreProps.v
StoreSpec.v
Concurrency.v
StoreClaims.v
Registry.v
Hooks.v
Dispatch.v
Queue.v
Events.v
Webhook.v
Auth.v
Keycloak.v
Rest.v
RestProps.v
Grpc.v
GrpcServer.v
Platform.v
Server.v
External.v
Organization.v
Start.v
Router.v
Process.v
Url.v
Wire.v
Catalog.v
Respond.v
Api.v
Messages.v
TaskQueue.v
TaskQueueImpl.v
Loops.v
Cli.v
