(* ===== verification/Prelude.v ===== *)
(** * infractl: a verification development

    infractl (src/) is a control plane for infrastructure in Go.  Providers
    register themselves and their features; each keeps its resources in a
    PostgreSQL table through one generic store; requests come in over REST or
    gRPC behind authentication, tenancy and authorization; changes of resources
    run hooks, publish events and dispatch workflow handlers, and long work goes
    through task queues.  This library models these parts as executable
    definitions, one file per component, and proves what makes them correct.
    This file is its root: the prelude with the notations, the tactic [bprop],
    the hint database [infractl], 64-bit arithmetic and the generic lemmas on
    lists and graphs.

    ** Conventions

    A Go function that returns [(value, error)] is a sum [error + value], one
    that returns only an error an option; [let?] is the early return.  Structs
    are records, pointers and nil-able maps and slices are options, a Go [int]
    or [int64] is a [Z] with its wrap-around [i64] where a computation can
    overflow, strings are byte strings.  The clock, generated ids and the
    outcome of a statement that can fail are arguments.  Code outside the
    repository is a parameter with its documented behaviour as laws: the
    database ([Database], [DatabaseLaws] in Gorm.v, with the instance [MemDB]),
    a jsonb column, which may reorder the members of an object and rewrite a
    number as the same number ([Jsonb] in Columns.v), the gRPC library
    ([GrpcLib], [GrpcLibLaws] in GrpcServer.v), the chi router ([Chi], [ChiLaws]
    in Router.v), the streams of Valkey with a consumer group ([Valkey] in
    Queue.v, [ValkeyServer] in TaskQueueImpl.v), each with an instance that
    satisfies its laws, uuid parsing ([Uuid] in Auth.v), the texts of identifiers
    and times ([Formats] in Wire.v), the policy engine, the key endpoint and the
    signature primitives, the Valkey bus, the RPCs of a sidecar process
    ([sidecar] in External.v), the identity provider, the HTTP transport, URL
    parsing and YAML ([UrlParser], [Yaml] in Cli.v).  The store and the handlers
    are written against interfaces for the JSON of a type ([Marshal] in Models.v,
    [Decoder] in Rest.v); Columns.v and Wire.v discharge them with the encoding
    of Go, given by the struct tags of the domain types ([Codec]).
    The order in which Go ranges over a map is a parameter everywhere it can be
    observed ([RangeOrder], the key lists of Registry.v), so the theorems hold
    for every order.

    ** The files

    - GoStrings.v, GoJson.v, JsonPrint.v, Url.v: the parts of strings, strconv,
      encoding/json, encoding/base64 and net/url the program uses, with the round
      trips of the JSON printer and parser and of encoded queries.  Float.v: the
      reading and the shortest printing of a float64, and that a printed number
      reads as itself.  Any.v: the values encoding/json stores in an empty
      interface.
    - Filter.v (resource/filter.go): the filter language.  A parsed clause is
      built from validated field names, fixed operators and placeholders only,
      so no value or other text of the request reaches the SQL; the operator of
      a term is the leftmost and longest; printed filters parse back.
    - Pagination.v (resource/pagination.go): continue tokens and their round
      trip.
    - Resource.v (resource/model.go, tenants.go): the base resource, its hooks
      and finalizers; the class [Model] of a type that embeds it.  Models.v: the
      domain types of platform/*/model.go and examples/inventory/model.go.
    - Gorm.v: programs over GORM calls ([prog]), the database class and its
      laws, running a program alone ([run]) or a pool of them interleaved
      ([pool_step]), and an in-memory database that satisfies the laws.
    - Nesting.v (resource/nesting.go): parent validation decides existence and
      acyclicity, and its walk ends.
    - Store.v (resource/store.go, store_metrics.go, status_updater.go): every
      operation of the generic store as a program.  StoreProps.v: what each
      returns and changes.  StoreSpec.v: the abstract specification, a map from
      keys to live resources, and the refinement theorem of each operation.
      Concurrency.v: of interleaved writes based on one version of a resource at
      most one succeeds.  StoreClaims.v: the hierarchy invariant over every
      sequence of operations, isolation of tenants, completeness of pagination,
      the type of the version column, and the interleavings the code does not
      protect against.
    - Columns.v (resource/model.go, the struct tags of the models): the JSON of
      the domain types and the columns that hold it; written values are read
      back, and comparing encoded specs compares the specs.  Wire.v: the JSON of
      whole resources and of lists in requests and responses, and its round trip.
      Catalog.v (platform/catalog/model.go): the JSON of catalog items, whose
      field definitions hold values of any type; they are kept, but for numbers a
      float64 cannot hold.  Mixins.v (resource/mixins, resource/traits): the
      network and firmware mixins, the trait interfaces and the traits of a
      machine.
    - Registry.v (provider/registry.go, provider.go): registration, dependency
      resolution as a topological order that exists exactly for acyclic
      registered dependencies, initialization and shutdown order.  Hooks.v
      (provider/hooks.go, refs.go, profiles.go): hooks, reactions and the
      validation of references between resources.
    - Dispatch.v (workflow/): the dispatch table, executors, the phases of a
      dispatch, the polling of runs and the status callback.
    - Queue.v (work/): the in-memory, PostgreSQL and Valkey queues and the work
      loop; exclusive claims under interleaving, the bound on retries, kicks are
      not lost.  Events.v (events/): the buses and event stores; what a
      subscriber receives, and that no channel is closed twice or written to
      after it was closed.
    - TaskQueue.v (the interface Queue of work/queue.go): the contract of a task
      queue as a labelled transition system, the interface of an implementation
      with its laws, the refinement theorem from the laws, and what a client can
      rely on whichever queue it has: only tasks that were enqueued, none twice
      without a failure or a release in between, in the order of arrival.
      TaskQueueImpl.v: the three queues satisfy the laws, with the points where
      they differ.  Messages.v (work/queue.go, events/bus.go): the JSON of tasks
      and events, with byte slices in base64; an event sent over the Valkey bus is
      decoded as it was published.
    - Auth.v (auth/, without Keycloak): tenant sets, tenancy logics, the
      middleware chain as a gate in front of the handlers, the policy
      authorizer.  Keycloak.v (auth/keycloak.go): which tokens are accepted.
    - Rest.v (api/handler.go, platform/*/handler.go,
      examples/inventory/handler.go): the REST handlers as programs of the
      store.  RestProps.v: a request reads and writes only an organization of
      its subject, secrets are masked.  Grpc.v (grpc/, resource/proto/): the
      interceptors, the generic service and the metadata adapter.  GrpcServer.v
      (grpc/server.go, gateway.go): the server with its interceptors and
      services, its stop, and the REST gateway; a call is refused or stays in an
      organization of its caller.  Platform.v: the event and task APIs.
    - Server.v (api/middleware.go, metrics.go, server.go, openapi.go): handlers as
      programs over a response writer, the middleware stack, listening and
      shutdown.  Every request is answered once, panics included, and the status
      that is logged and counted is the one sent, unless the handler panics after
      it wrote.
    - External.v (provider/external.go, discovery.go): sidecar providers.  Which
      are found through the configuration file, what their initialization
      registers, when their hooks let an operation pass, and that the proxy
      changes neither request nor response.
    - Webhook.v (platform/webhook/provider.go): which webhooks an event is
      delivered to, and what the failure count counts.  Organization.v
      (platform/organization/provider.go): the reactions that provision an
      organization, composed with the handler that fires them.
    - Start.v (cmd/infractl-server, platform/*/provider.go,
      examples/inventory/provider.go): the providers of the default profile, the
      start of the process, its capabilities endpoint and its shutdown.  Router.v
      (api/handler.go, api/server.go, main.go): the routes of the server; every
      one is reached, with the kind the authorizer is asked about.  Process.v
      (main.go after the start, StartCleanup in events/pg_bus.go, StartRecovery in
      work/pg_queue.go): the running process as a step relation with its tickers,
      its signal and its shutdown; how long events and claims live, and that a
      signal ends the process in order.  Api.v: router, chain, decoders and the
      handlers of all nine providers composed into one function from a request and
      the tables to an answer and the tables; whatever the request, it is refused
      without effect or stays inside one organization of its subject.  Respond.v:
      how a response is written to the connection, and that the client receives
      through the whole stack what the handler answered.
    - Loops.v (events/pg_bus.go, events/valkey_bus.go, workflow/dispatcher.go):
      the background loops as step relations: the LISTEN connection loses
      notifications only while it is down, and every run is reported once.
    - Cli.v (cmd/infractl): the requests the commands send and what they print;
      composed with the handlers, the flags arrive as given, and the spec of a
      machine does not.

    ** Fuel

    The walk of the ancestors in [ValidateParent] has fuel; Nesting.v proves that
    more fuel than there are rows is enough, and the theorems on it hold for
    every such fuel.  Dependency resolution runs with one more than the number
    of providers, which ResolveDependencies_correct shows to be enough, as it
    does not return the error of exhausted fuel.  The JSON parser's fuel is twice
    the length of its input, since each call consumes a byte or is followed by
    one that does.  The escaping of a string and the matching of a file name
    pattern run with the length of the text, of which every step consumes a byte.

    The search for the shortest decimal of a float64 tries 1 to 17 digits;
    Float.v proves that 17 are enough.  The digits of a natural number are
    computed with as much fuel as it has bits.

    ** Not modelled

    The SQL text and what a schema migration does to the database, the metrics
    endpoint, generated protobuf code, the containers of the integration tests and
    the alignment of tables in the client's output.  Durations that are only
    logged or observed are left out.  A streaming call is modelled by its
    interceptor ([StreamAuthInterceptor] in Grpc.v), not by its messages, since no
    service of the repository streams. *)

From stdpp Require Export base tactics list strings gmap relations sorting.
From Stdlib Require Export ZArith Lia ZifyBool.

(** * Notations of the development

    Go functions that return [(value, error)] are modelled by a sum
    [error + value]; [let?] is the [if err != nil { return err }] idiom. *)

Declare Scope go_scope.
Delimit Scope go_scope with go.

Notation "'let?' x ':=' m 'in' k" :=
  (match m with inl e => inl e | inr x => k end)
  (at level 10, x pattern, m at level 100, k at level 200) : go_scope.

#[export] Set Warnings "-clear-no-such-hyp".

Open Scope go_scope.
Open Scope string_scope.
Open Scope Z_scope.
Open Scope list_scope.

#[global] Arguments String.append : simpl nomatch.

(** * Machine integers

    Go's [int] and [int64] are 64-bit two's complement on the supported
    platforms; [i64] is the wrap-around of an integer operation. *)

Definition i64 (z : Z) : Z := (z + 2 ^ 63) `mod` 2 ^ 64 - 2 ^ 63.

Definition in_i64 (z : Z) : bool := bool_decide (- 2 ^ 63 ≤ z < 2 ^ 63).

Lemma i64_id z : - 2 ^ 63 ≤ z < 2 ^ 63 → i64 z = z.
Proof. intros H. unfold i64. rewrite Z.mod_small; lia. Qed.

Lemma i64_range z : - 2 ^ 63 ≤ i64 z < 2 ^ 63.
Proof. unfold i64. pose proof (Z.mod_pos_bound (z + 2 ^ 63) (2 ^ 64)). lia. Qed.

(** * Tactics *)

(** Split every [match] of the goal and of the hypotheses, closing the absurd
    branches on the way. *)
Ltac split_matches :=
  repeat (case_match; simplify_eq/=; try done).

(** Turn boolean tests into the propositions they decide. *)
Ltac bprop :=
  repeat match goal with
  | H : andb _ _ = true |- _ => apply andb_true_iff in H as [? ?]
  | H : Is_true _ |- _ => apply Is_true_true in H
  | H : bool_decide _ = true |- _ => apply bool_decide_eq_true in H
  | H : bool_decide _ = false |- _ => apply bool_decide_eq_false in H
  | H : negb _ = true |- _ => apply negb_true_iff in H
  | H : negb _ = false |- _ => apply negb_false_iff in H
  | H : orb _ _ = false |- _ => apply orb_false_iff in H as [? ?]
  | H : orb _ _ = true |- _ => apply orb_true_iff in H as [?|?]
  end.

Create HintDb infractl discriminated.
#[export] Hint Resolve i64_id i64_range : infractl.

(** * Lists *)

Section lists.
Context {A : Type}.
Implicit Types (l : list A) (p q : A → bool).

(** [bfilter] is the boolean filter used wherever the source filters a slice
    or where SQL filters a table. *)
Definition bfilter p l : list A := List.filter p l.

Lemma elem_of_bfilter p l x : x ∈ bfilter p l ↔ x ∈ l ∧ p x = true.
Proof. unfold bfilter. rewrite !list_elem_of_In. apply filter_In. Qed.

Lemma bfilter_nil_iff p l : bfilter p l = [] ↔ ∀ x, x ∈ l → p x = false.
Proof.
  split.
  - intros H x Hx. destruct (p x) eqn:E; [|done].
    assert (x ∈ bfilter p l) as Hin by by apply elem_of_bfilter.
    rewrite H in Hin. by apply elem_of_nil in Hin.
  - intros H. destruct (bfilter p l) as [|y t] eqn:E; [done|].
    assert (y ∈ bfilter p l) as Hy by (rewrite E; left).
    apply elem_of_bfilter in Hy as [Hy1 Hy2]. rewrite (H _ Hy1) in Hy2. done.
Qed.

Lemma bfilter_true p l : (∀ x, x ∈ l → p x = true) → bfilter p l = l.
Proof.
  unfold bfilter. induction l as [|x l IH]; intros Hl; [done|]. simpl. rewrite Hl by left. f_equal. apply IH.
  intros y Hy. apply Hl. by right.
Qed.

Lemma bfilter_first p l x xs :
  bfilter p l = x :: xs → ∃ l1 l2, l = l1 ++ x :: l2 ∧ p x = true ∧ (∀ y, y ∈ l1 → p y = false) ∧ bfilter p l2 = xs.
Proof.
  unfold bfilter. induction l as [|y l IH]; simpl; [done|]. destruct (p y) eqn:Ep.
  - intros [= -> <-]. exists [], l. split_and!; [done|done|by intros ? ?%elem_of_nil|done].
  - intros Hf. destruct (IH Hf) as (l1 & l2 & -> & Hx & Hl & Hxs). exists (y :: l1), l2. split_and!; [done|done| |done].
    intros z [->|Hz]%elem_of_cons; auto.
Qed.

Lemma bfilter_ext p q l : (∀ x, x ∈ l → p x = q x) → bfilter p l = bfilter q l.
Proof.
  intros H. apply filter_ext_in. intros x Hx. apply H. by apply list_elem_of_In.
Qed.

Lemma bfilter_app p l1 l2 : bfilter p (l1 ++ l2) = bfilter p l1 ++ bfilter p l2.
Proof. apply List.filter_app. Qed.

Lemma length_bfilter p l : (length (bfilter p l) ≤ length l)%nat.
Proof. apply List.filter_length_le. Qed.

Lemma bfilter_Permutation p l1 l2 : l1 ≡ₚ l2 → bfilter p l1 ≡ₚ bfilter p l2.
Proof.
  induction 1; simpl; unfold bfilter in *; simpl; split_matches;
    try (by constructor); eauto using Permutation_trans.
Qed.

Lemma NoDup_bfilter p l : NoDup l → NoDup (bfilter p l).
Proof.
  intros. apply NoDup_ListNoDup, List.NoDup_filter. by apply NoDup_ListNoDup.
Qed.

(** Two members of a list without duplicate keys that share their key are the
    same member. *)
Lemma NoDup_key_inj {K} (f : A → K) l x y :
  NoDup (f <$> l) → x ∈ l → y ∈ l → f x = f y → x = y.
Proof.
  induction l as [|a l IH]; intros Hnd Hx Hy Hf; [by apply elem_of_nil in Hx|].
  rewrite fmap_cons in Hnd. apply NoDup_cons in Hnd as [Hnot Hnd].
  apply elem_of_cons in Hx as [->|Hx], Hy as [->|Hy]; [done| | |by apply IH];
    exfalso; apply Hnot; apply list_elem_of_fmap; eauto.
Qed.

Lemma NoDup_key_bfilter {K} (f : A → K) p l :
  NoDup (f <$> l) → NoDup (f <$> bfilter p l).
Proof.
  induction l as [|a l IH]; [done|]. rewrite fmap_cons.
  intros [Hnot Hnd]%NoDup_cons. unfold bfilter in *. simpl.
  destruct (p a); [|by apply IH]. rewrite fmap_cons. apply NoDup_cons. split; [|by apply IH].
  intros Hin. apply Hnot. apply list_elem_of_fmap in Hin as (y & -> & Hy).
  apply elem_of_bfilter in Hy as [Hy _]. apply list_elem_of_fmap. eauto.
Qed.

(** The position of a member of a list without duplicates is unique. *)
Lemma NoDup_app_cons_inj (x : A) l1 l2 k1 k2 :
  NoDup (l1 ++ x :: l2) → l1 ++ x :: l2 = k1 ++ x :: k2 → l1 = k1 ∧ l2 = k2.
Proof.
  revert k1. induction l1 as [|a l1 IH]; intros [|b k1] Hnd Heq; simplify_eq/=; [done|..].
  - apply NoDup_cons in Hnd as [Hnot _]. destruct Hnot. set_solver.
  - apply NoDup_cons in Hnd as [Hnot _]. destruct Hnot. set_solver.
  - apply NoDup_cons in Hnd as [_ Hnd]. by edestruct IH as [-> ->]; [done|done|].
Qed.

Lemma StronglySorted_weaken (R R' : relation A) l :
  (∀ a b, R a b → R' a b) → StronglySorted R l → StronglySorted R' l.
Proof. intros Hw. induction 1; constructor; [done|]. by eapply Forall_impl; [|apply Hw]. Qed.

End lists.

(** * Relations: adding an edge to a graph without cycles *)

Section graphs.
Context {V : Type} `{EqDecision V}.
Implicit Types (E : relation V) (a b p n : V).

Definition acyclic E : Prop := ∀ a, ¬ tc E a a.

Lemma acyclic_subrel E E' : (∀ a b, E' a b → E a b) → acyclic E → acyclic E'.
Proof.
  intros Hsub Hac a Ha. apply (Hac a). revert Ha. generalize a at 1 3. intros b.
  induction 1; [by apply tc_once, Hsub|]. eapply tc_l; eauto.
Qed.

(** A measure that every edge decreases rules cycles out. *)
Lemma acyclic_measure E (f : V → nat) : (∀ a b, E a b → (f b < f a)%nat) → acyclic E.
Proof.
  intros Hf a Ha. assert (∀ u v, tc E u v → (f v < f u)%nat) as Ht.
  { induction 1 as [u v Huv|u v w Huv _ IH]; [by apply Hf|]. specialize (Hf _ _ Huv). lia. }
  specialize (Ht _ _ Ha). lia.
Qed.

(** [E'] has the edges of [E] that do not leave [n], and at most the edge
    [n -> p] out of [n], where [p] does not reach [n]. *)
Lemma acyclic_new_edge E E' n p :
  (∀ a b, a ≠ n → E' a b → E a b) →
  (∀ b, E' n b → b = p) →
  ¬ rtc E p n →
  acyclic E → acyclic E'.
Proof.
  intros Hold Hnew Hno Hac.
  assert (Hrtc : ∀ x, rtc E' p x → rtc E p x).
  { intros x Hx. eapply (rtc_ind_r (λ x, rtc E p x) p); [constructor| |exact Hx].
    intros y z _ Hyz IH.
    eapply rtc_r; [exact IH|]. apply Hold; [|done]. by intros ->. }
  assert (Hsplit : ∀ a b, tc E' a b → tc E a b ∨ (rtc E' a n ∧ rtc E' p b)).
  { induction 1 as [a b Hab|a y b Hay Hyb IH].
    - destruct (decide (a = n)) as [->|]; [|left; apply tc_once; auto].
      right. rewrite (Hnew _ Hab). split; constructor.
    - destruct (decide (a = n)) as [->|].
      + rewrite (Hnew _ Hay) in Hyb. right. split; [constructor|by apply tc_rtc].
      + destruct IH as [IH|[IH1 IH2]]; [left; eapply tc_l; eauto|].
        right. split; [eapply rtc_l; eauto|done]. }
  intros a [Ha|[Ha1 Ha2]]%Hsplit; [by eapply Hac|].
  apply Hno, Hrtc. by etrans.
Qed.

End graphs.

(** * Loops that stop at the first error *)

Definition is_inr {A B} (x : A + B) : bool := match x with inr _ => true | inl _ => false end.

Fixpoint mapE {E A B} (f : A → E + B) (l : list A) : E + list B :=
  match l with
  | [] => inr []
  | x :: l => let? y := f x in let? ys := mapE f l in inr (y :: ys)
  end.

Lemma mapE_inr {E A B} (f : A → E + B) l ys :
  mapE f l = inr ys ↔ Forall2 (λ x y, f x = inr y) l ys.
Proof.
  revert ys. induction l as [|x l IH]; intros ys; simpl.
  - split; [intros [= <-]; constructor|]. by inversion 1.
  - split.
    + intros H. destruct (f x) eqn:E1; [done|].
      destruct (mapE f l) eqn:E2; [done|]. injection H as <-.
      constructor; [done|]. by apply IH.
    + inversion 1 as [|?? ? ? Hx Hl]; subst. apply IH in Hl. by rewrite Hx, Hl.
Qed.
