(* ===== verification/GoStrings.v ===== *)
(** The part of Go's [strings] and [strconv] packages the program uses, on
    byte strings: searching, splitting, replacing, joining, trimming, and the
    decimal conversions.  A Go string is its bytes, a Rocq [string]. *)

From S2P Require Import Prelude.
From Stdlib Require Import Ascii DecimalString DecimalZ DecimalPos ZArith.

(** * Character predicates *)

Fixpoint sforall (p : ascii → bool) (s : string) : bool :=
  match s with
  | "" => true
  | String c s => p c && sforall p s
  end.

Fixpoint scount (c : ascii) (s : string) : nat :=
  match s with
  | "" => 0%nat
  | String d s => ((if Ascii.eqb c d then 1 else 0) + scount c s)%nat
  end.

Definition slen (s : string) : Z := Z.of_nat (String.length s).

(** * Slices [s[:n]] and [s[n:]] *)

Fixpoint stake (n : nat) (s : string) : string :=
  match n, s with
  | S n, String c s => String c (stake n s)
  | _, _ => ""
  end.

Fixpoint sdrop (n : nat) (s : string) : string :=
  match n, s with
  | S n, String _ s => sdrop n s
  | _, _ => s
  end.

(** * strings.HasPrefix, HasSuffix, TrimSuffix, Index *)

Definition HasPrefix (s p : string) : bool := String.prefix p s.

Definition HasSuffix (s p : string) : bool :=
  (String.length p <=? String.length s)%nat &&
  String.eqb (sdrop (String.length s - String.length p) s) p.

Definition TrimSuffix (s p : string) : string :=
  if HasSuffix s p then stake (String.length s - String.length p) s else s.

(** [None] is the source's [-1]. *)
Fixpoint Index (s sub : string) : option nat :=
  if HasPrefix s sub then Some 0%nat
  else match s with
       | "" => None
       | String _ s => S <$> Index s sub
       end.

(** * strings.Split, ReplaceAll, Join

    [skip] counts the bytes of a separator that was already recognised. *)

Fixpoint split_go (sep s : string) (skip : nat) : list string :=
  match s with
  | "" => [""]
  | String c s' =>
      match skip with
      | S k => split_go sep s' k
      | O => if HasPrefix s sep
             then "" :: split_go sep s' (String.length sep - 1)
             else match split_go sep s' 0 with
                  | h :: t => String c h :: t
                  | [] => [String c ""]
                  end
      end
  end.

Definition Split (s sep : string) : list string := split_go sep s 0.

Fixpoint replace_go (old new s : string) (skip : nat) : string :=
  match s with
  | "" => ""
  | String c s' =>
      match skip with
      | S k => replace_go old new s' k
      | O => if HasPrefix s old
             then new +:+ replace_go old new s' (String.length old - 1)
             else String c (replace_go old new s' 0)
      end
  end.

Definition ReplaceAll (s old new : string) : string := replace_go old new s 0.

Fixpoint Join (l : list string) (sep : string) : string :=
  match l with
  | [] => ""
  | [s] => s
  | s :: l => s +:+ sep +:+ Join l sep
  end.

(** * strings.TrimSpace

    The UTF-8 encodings of the code points for which [unicode.IsSpace] holds. *)

Definition bstr (l : list nat) : string :=
  foldr (λ n s, String (ascii_of_nat n) s) "" l.

Definition spaces : list string :=
  bstr <$>
  ([[9]; [10]; [11]; [12]; [13]; [32];
    [194; 133]; [194; 160]; [225; 154; 128];
    [226; 128; 128]; [226; 128; 129]; [226; 128; 130]; [226; 128; 131];
    [226; 128; 132]; [226; 128; 133]; [226; 128; 134]; [226; 128; 135];
    [226; 128; 136]; [226; 128; 137]; [226; 128; 138];
    [226; 128; 168]; [226; 128; 169]; [226; 128; 175];
    [226; 129; 159]; [227; 128; 128]]%nat : list (list nat)).

Definition space_prefix (s : string) : option string :=
  head (bfilter (HasPrefix s) spaces).

Definition space_suffix (s : string) : option string :=
  head (bfilter (HasSuffix s) spaces).

Fixpoint trim_left_go (fuel : nat) (s : string) : string :=
  match fuel with
  | O => s
  | S fuel => match space_prefix s with
              | Some p => trim_left_go fuel (sdrop (String.length p) s)
              | None => s
              end
  end.

Fixpoint trim_right_go (fuel : nat) (s : string) : string :=
  match fuel with
  | O => s
  | S fuel => match space_suffix s with
              | Some p => trim_right_go fuel (stake (String.length s - String.length p) s)
              | None => s
              end
  end.

(** Each round removes at least one byte, so the length of the string is
    enough fuel. *)
Definition TrimSpace (s : string) : string :=
  let s := trim_left_go (String.length s) s in
  trim_right_go (String.length s) s.

(** * strconv *)

Definition Itoa (z : Z) : string := NilZero.string_of_int (Z.to_int z).

(** [strconv.ParseInt(s, 10, 64)]: an optional sign and decimal digits, in
    range. *)
Definition ParseInt (s : string) : option Z :=
  let body := match s with
              | String "+" r => if HasPrefix r "-" then "" else r
              | _ => s
              end in
  match NilZero.int_of_string body with
  | Some d => let z := Z.of_int d in if in_i64 z then Some z else None
  | None => None
  end.

Example TrimSpace_ex : TrimSpace "  a b	 " = "a b". Proof. reflexivity. Qed.
Example Split_ex : Split "a OR b OR " " OR " = ["a"; "b"; ""]. Proof. reflexivity. Qed.
Example Replace_ex : ReplaceAll "a || b" " || " " OR " = "a OR b". Proof. reflexivity. Qed.
Example ParseInt_ex : (ParseInt <$> ["-12"; "+7"; "007"; ""; "-"; "+"; "1x"; "+-3"; "9223372036854775808"])
  = [Some (-12); Some 7; Some 7; None; None; None; None; None; None].
Proof. reflexivity. Qed.

(** * Lemmas: characters of strings built by the operations *)

Lemma sapp_assoc s t u : (s +:+ t) +:+ u = s +:+ (t +:+ u).
Proof. induction s as [|c s IH]; simpl; [done|]. by rewrite IH. Qed.

Lemma sapp_nil_r s : s +:+ "" = s.
Proof. induction s as [|c s IH]; simpl; [done|]. by rewrite IH. Qed.

Lemma slength_app s t : String.length (s +:+ t) = (String.length s + String.length t)%nat.
Proof. induction s as [|c s IH]; simpl; [done|]. by rewrite IH. Qed.

Lemma sforall_app p s t : sforall p (s +:+ t) = sforall p s && sforall p t.
Proof. induction s as [|c s IH]; simpl; [done|]. by rewrite IH, andb_assoc. Qed.

Lemma scount_app c s t : scount c (s +:+ t) = (scount c s + scount c t)%nat.
Proof. induction s as [|d s IH]; simpl; [done|]. rewrite IH. lia. Qed.

Lemma sforall_impl (p q : ascii → bool) s :
  (∀ c, p c = true → q c = true) → sforall p s = true → sforall q s = true.
Proof.
  intros Hpq. induction s as [|c s IH]; simpl; [done|]. intros H; bprop.
  by rewrite Hpq, IH.
Qed.

Lemma sforall_sdrop p n s : sforall p s = true → sforall p (sdrop n s) = true.
Proof.
  revert s. induction n as [|n IH]; intros [|c s]; simpl; try done.
  intros H; bprop. by apply IH.
Qed.

Lemma sforall_Join p l sep :
  Forall (λ s, sforall p s = true) l → sforall p sep = true → sforall p (Join l sep) = true.
Proof.
  intros Hl Hsep. induction Hl as [|s l Hs Hl IH]; [done|]. simpl.
  destruct l; [done|]. by rewrite !sforall_app, Hs, Hsep, IH.
Qed.

Lemma scount_Join c l sep :
  scount c sep = 0%nat → scount c (Join l sep) = sum_list (scount c <$> l).
Proof.
  intros Hsep. induction l as [|s l IH]; [done|]. simpl. destruct l as [|t l].
  - simpl. lia.
  - rewrite !scount_app, Hsep, IH. done.
Qed.

Lemma scount_sforall c p s : sforall p s = true → p c = false → scount c s = 0%nat.
Proof.
  intros H Hc. induction s as [|d s IH]; simpl in *; [done|]. bprop.
  rewrite IH by done. destruct (Ascii.eqb_spec c d); [congruence|done].
Qed.

Lemma stake_app s t : stake (String.length s) (s +:+ t) = s.
Proof. induction s as [|c s IH]; simpl; [by destruct t|]. by rewrite IH. Qed.

Lemma sdrop_app s t n : sdrop (String.length s + n) (s +:+ t) = sdrop n t.
Proof. induction s; simpl; auto. Qed.

(** * Lemmas: splitting and replacing *)

Definition lacks (c : ascii) (s : string) : bool := sforall (λ d, negb (Ascii.eqb c d)) s.

Lemma prefix_app s t : String.prefix s (s +:+ t) = true.
Proof. induction s as [|c s IH]; simpl; [by destruct t|]. by destruct (ascii_dec c c). Qed.

Lemma prefix_char c s d t : String.prefix (String c s) (String d t) = true → c = d.
Proof. simpl. by destruct (ascii_dec c d). Qed.

Lemma HasPrefix_app s p : HasPrefix s p = true → ∃ t, s = p +:+ t.
Proof.
  unfold HasPrefix. revert s. induction p as [|c p IH]; intros s; [by exists s|].
  destruct s as [|d s]; simpl; [done|]. destruct (ascii_dec c d) as [->|]; [|done].
  intros [t ->]%IH. by exists t.
Qed.

Lemma HasPrefix_lacks c sub s :
  lacks c sub = false → lacks c s = true → HasPrefix s sub = false.
Proof.
  unfold HasPrefix, lacks. revert s. induction sub as [|d sub IH]; intros s Hsub Hs; [done|].
  destruct s as [|e s]; [done|]. simpl in *. bprop.
  destruct (ascii_dec d e) as [->|]; [|done]. apply IH; [|done].
  by rewrite H in Hsub.
Qed.

Lemma replace_go_lacks c old new s :
  lacks c old = false → lacks c s = true → replace_go old new s 0 = s.
Proof.
  intros Hold. induction s as [|d s IH]; intros Hs; [done|].
  cbn [replace_go]. rewrite (HasPrefix_lacks c) by done.
  unfold lacks in *. simpl in Hs. bprop. by rewrite IH.
Qed.

Lemma split_go_skip sep s t n :
  n = String.length s → split_go sep (s +:+ t) n = split_go sep t 0.
Proof.
  intros ->. induction s as [|c s IH]; simpl; [|done]. done.
Qed.

(** A part that lacks the first byte of the separator is returned whole. *)
Lemma split_go_part c sep s t :
  lacks c s = true →
  split_go (String c sep) (s +:+ String c sep +:+ t) 0 =
  s :: split_go (String c sep) t 0.
Proof.
  intros Hs. induction s as [|d s IH].
  - pose proof (prefix_app (String c sep) t) as Hp.
    change ("" +:+ ?u) with u.
    change (String c sep +:+ t) with (String c (sep +:+ t)) in Hp |- *.
    cbn [split_go]. unfold HasPrefix. rewrite Hp. f_equal.
    apply split_go_skip. simpl. lia.
  - unfold lacks in Hs. simpl in Hs. bprop.
    change (String d s +:+ ?u) with (String d (s +:+ u)). cbn [split_go].
    destruct (HasPrefix _ _) eqn:E.
    { apply prefix_char in E as ->. by rewrite Ascii.eqb_refl in H. }
    by rewrite IH.
Qed.

Lemma split_go_last c sep s :
  lacks c s = true → split_go (String c sep) s 0 = [s].
Proof.
  intros Hs. induction s as [|d s IH]; [done|].
  unfold lacks in Hs. simpl in Hs. bprop. cbn [split_go].
  destruct (HasPrefix _ _) eqn:E.
  { apply prefix_char in E as ->. by rewrite Ascii.eqb_refl in H. }
  by rewrite IH.
Qed.

Lemma Split_Join c sep l :
  l ≠ [] → Forall (λ s, lacks c s = true) l →
  Split (Join l (String c sep)) (String c sep) = l.
Proof.
  intros Hne Hl. unfold Split. induction Hl as [|s l Hs Hl IH]; [done|].
  destruct l as [|t l]; [by apply split_go_last|].
  change (Join (s :: t :: l) ?x) with (s +:+ x +:+ Join (t :: l) x).
  rewrite split_go_part by done. f_equal. by apply IH.
Qed.

(** A separator of one byte. *)
Lemma split_char_cons d c s :
  split_go (String d "") (String c s) 0 =
  if Ascii.eqb c d then "" :: split_go (String d "") s 0
  else match split_go (String d "") s 0 with x :: l => String c x :: l | [] => [String c ""] end.
Proof.
  cbn [split_go]. destruct (HasPrefix (String c s) (String d "")) eqn:E.
  - apply prefix_char in E as <-. by rewrite Ascii.eqb_refl.
  - destruct (Ascii.eqb_spec c d) as [->|Hc]; [|done].
    unfold HasPrefix in E. change (String d s) with (String d "" +:+ s) in E. by rewrite prefix_app in E.
Qed.

Lemma split_char_nonnil d s : split_go (String d "") s 0 ≠ [].
Proof. destruct s; [done|]. rewrite split_char_cons. repeat case_match; done. Qed.

Lemma Join_cons s l sep : l ≠ [] → Join (s :: l) sep = s +:+ sep +:+ Join l sep.
Proof. by destruct l. Qed.

Lemma Join_Split_char d s : Join (Split s (String d "")) (String d "") = s.
Proof.
  unfold Split. induction s as [|c s IH]; [done|]. rewrite split_char_cons.
  pose proof (split_char_nonnil d s) as Hn.
  destruct (Ascii.eqb_spec c d) as [->|Hc].
  - rewrite Join_cons, IH by done. done.
  - destruct (split_go (String d "") s 0) as [|x [|y l]]; [done| |].
    + simpl in *. by rewrite IH.
    + rewrite Join_cons in * by done. change (String c x +:+ ?u) with (String c (x +:+ u)). by rewrite IH.
Qed.

(** * Lemmas: trimming *)

(** Printable ASCII without the space. *)
Definition graphic (c : ascii) : bool :=
  (33 <=? N_of_ascii c)%N && (N_of_ascii c <=? 126)%N.

Lemma HasPrefix_sforall p s t :
  HasPrefix s t = true → sforall p s = true → sforall p t = true.
Proof.
  unfold HasPrefix. revert s. induction t as [|c t IH]; intros [|d s]; simpl; try done.
  destruct (ascii_dec c d) as [->|]; [|done]. intros Hp H; bprop.
  rewrite H. by apply (IH s).
Qed.

Lemma HasSuffix_sforall p s t :
  HasSuffix s t = true → sforall p s = true → sforall p t = true.
Proof.
  unfold HasSuffix. intros H Hs. bprop. apply String.eqb_eq in H0 as <-.
  by apply sforall_sdrop.
Qed.

Lemma spaces_not_graphic t : t ∈ spaces → sforall graphic t = false.
Proof.
  intros Ht. assert (Forall (λ t, sforall graphic t = false) spaces) as HF.
  { repeat (constructor; [reflexivity|]). constructor. }
  by eapply Forall_forall in HF.
Qed.

Lemma head_bfilter_None {A} (p : A → bool) l :
  (∀ x, x ∈ l → p x = false) → head (bfilter p l) = None.
Proof. intros H. by apply bfilter_nil_iff in H as ->. Qed.

Lemma TrimSpace_graphic s : sforall graphic s = true → TrimSpace s = s.
Proof.
  intros Hs.
  assert (space_prefix s = None) as Hp.
  { apply head_bfilter_None. intros t Ht%spaces_not_graphic.
    destruct (HasPrefix s t) eqn:E; [|done]. by rewrite (HasPrefix_sforall _ _ _ E Hs) in Ht. }
  assert (space_suffix s = None) as Hsf.
  { apply head_bfilter_None. intros t Ht%spaces_not_graphic.
    destruct (HasSuffix s t) eqn:E; [|done]. by rewrite (HasSuffix_sforall _ _ _ E Hs) in Ht. }
  assert (∀ n, trim_left_go n s = s) as Hl by (intros [|n]; simpl; by rewrite ?Hp).
  assert (∀ n, trim_right_go n s = s) as Hr by (intros [|n]; simpl; by rewrite ?Hsf).
  unfold TrimSpace. by rewrite Hl, Hr.
Qed.

(** * Lemmas: searching *)

Lemma HasPrefix_lt s sub : (String.length s < String.length sub)%nat → HasPrefix s sub = false.
Proof.
  unfold HasPrefix. revert s. induction sub as [|c sub IH]; intros [|d s] H; simpl in *;
    try done; try lia. destruct (ascii_dec c d); [|done]. apply IH. lia.
Qed.

(** The first byte of [sub] does not occur in [s]: the search skips [s]. *)
Lemma Index_skip c sub s t :
  lacks c s = true →
  Index (s +:+ t) (String c sub) = Nat.add (String.length s) <$> Index t (String c sub).
Proof.
  intros Hs. induction s as [|d s IH].
  - simpl. by destruct (Index t _).
  - unfold lacks in Hs. simpl in Hs. bprop.
    change (String d s +:+ t) with (String d (s +:+ t)). cbn [Index].
    destruct (HasPrefix _ _) eqn:E.
    { apply prefix_char in E as ->. by rewrite Ascii.eqb_refl in H. }
    rewrite IH by done. by destruct (Index t _).
Qed.

Lemma Index_bound s sub n :
  Index s sub = Some n → HasPrefix (sdrop n s) sub = true ∧ ∀ m, (m < n)%nat → HasPrefix (sdrop m s) sub = false.
Proof.
  revert n. induction s as [|c s IH]; intros n; cbn [Index]; destruct (HasPrefix _ sub) eqn:E.
  - intros [= <-]. split; [done|lia].
  - done.
  - intros [= <-]. split; [done|lia].
  - destruct (Index s sub) as [k|]; [|done]. intros [= <-].
    destruct (IH k eq_refl) as [H1 H2]. split; [done|].
    intros [|m] Hm; [done|]. simpl. apply H2. lia.
Qed.

(** * Lemmas: decimal conversions *)

Lemma Z_to_int_nonnil z : Z.to_int z ≠ Decimal.Pos Decimal.Nil ∧ Z.to_int z ≠ Decimal.Neg Decimal.Nil.
Proof.
  pose proof DecimalPos.Unsigned.to_uint_nonnil as Hp.
  destruct z as [|q|q]; simpl; split; try done; intros [= H]; by eapply Hp.
Qed.

Lemma int_of_Itoa z : NilZero.int_of_string (Itoa z) = Some (Z.to_int z).
Proof. destruct (Z_to_int_nonnil z). by apply NilZero.isi. Qed.

Lemma Itoa_no_plus z : match Itoa z with String "+" _ => False | _ => True end.
Proof. unfold Itoa. destruct (Z.to_int z) as [[]|d]; done. Qed.

(** Printing and parsing a 64-bit integer. *)
Lemma ParseInt_Itoa z : in_i64 z = true → ParseInt (Itoa z) = Some z.
Proof.
  intros Hz. pose proof (int_of_Itoa z) as H. pose proof (Itoa_no_plus z) as Hp.
  unfold ParseInt. replace (match Itoa z with String "+" r => _ | _ => _ end) with (Itoa z).
  - rewrite H, DecimalZ.of_to. by rewrite Hz.
  - destruct (Itoa z) as [|[[][][][][][][][]] r]; try done.
Qed.

Lemma Itoa_nonempty z : Itoa z ≠ "".
Proof. unfold Itoa. destruct (Z.to_int z) as [[]|d]; done. Qed.

(** * Keys built with a separator *)

(** A separator the first parts lack determines both parts. *)
Lemma sep_inj c a a' b b' :
  lacks c a = true → lacks c a' = true →
  a +:+ String c b = a' +:+ String c b' → a = a' ∧ b = b'.
Proof.
  revert a'. induction a as [|x a IH]; intros [|x' a'] Ha Ha' Heq; unfold lacks in *; simpl in *; bprop.
  - by injection Heq as ->.
  - injection Heq as -> _. by rewrite Ascii.eqb_refl in *.
  - injection Heq as -> _. by rewrite Ascii.eqb_refl in *.
  - injection Heq as -> Heq. destruct (IH a') as [-> ->]; done.
Qed.
