(* ===== verification/GoJson.v ===== *)
(** The part of Go's [encoding/json] and [encoding/base64] the program uses:
    parsing of a JSON text into its value tree, with the decoding of string
    literals, and unpadded URL-safe base64. *)

From S2P Require Import Prelude GoStrings.
From Stdlib Require Import Ascii NArith DecimalString DecimalPos DecimalFacts.

(** * JSON values

    A number keeps its literal: [json.Unmarshal] parses it at the type of the
    destination. *)

#[warnings="-register-all"]
Inductive json :=
| JNull
| JBool (b : bool)
| JNum (lit : string)
| JStr (s : string)
| JArr (l : list json)
| JObj (kvs : list (string * json)).

(** * Lexical classes *)

Definition code (c : ascii) : N := N_of_ascii c.

Definition chr (n : N) : ascii := ascii_of_N n.

Definition in_range (lo hi : N) (c : ascii) : bool := (lo <=? code c)%N && (code c <=? hi)%N.

Definition is_digit (c : ascii) : bool := in_range 48 57 c.

Definition is_ws (c : ascii) : bool := existsb (N.eqb (code c)) [32; 9; 10; 13]%N.

Fixpoint skip_ws (s : string) : string :=
  match s with
  | String c r => if is_ws c then skip_ws r else s
  | "" => ""
  end.

(** The longest prefix of decimal digits, and the rest. *)
Fixpoint digits (s : string) : string * string :=
  match s with
  | String c r => if is_digit c then let '(d, t) := digits r in (String c d, t) else ("", s)
  | "" => ("", "")
  end.

(** * Numbers: [-? (0 | [1-9][0-9]* ) (. [0-9]+)? ([eE] [+-]? [0-9]+)?] *)

Definition int_part (s : string) : option (string * string) :=
  match s with
  | String "0" r => Some ("0", r)
  | _ => match digits s with
         | ("", _) => None
         | (d, r) => Some (d, r)
         end
  end.

Definition frac_part (s : string) : option (string * string) :=
  match s with
  | String "." r => match digits r with
                    | ("", _) => None
                    | (d, t) => Some (String "." d, t)
                    end
  | _ => Some ("", s)
  end.

Definition exp_sign (s : string) : string * string :=
  match s with
  | String "+" r => ("+", r)
  | String "-" r => ("-", r)
  | _ => ("", s)
  end.

Definition exp_part (s : string) : option (string * string) :=
  match s with
  | String c r =>
      if Ascii.eqb c "e" || Ascii.eqb c "E" then
        let '(sg, r) := exp_sign r in
        match digits r with
        | ("", _) => None
        | (d, t) => Some (String c (sg +:+ d), t)
        end
      else Some ("", s)
  | "" => Some ("", s)
  end.

Definition num_lit (s : string) : option (string * string) :=
  let '(sg, s) := match s with String "-" r => ("-", r) | _ => ("", s) end in
  '(i, s) ← int_part s;
  '(f, s) ← frac_part s;
  '(e, s) ← exp_part s;
  Some (sg +:+ i +:+ f +:+ e, s).

(** * Strings *)

Definition hex_val (c : ascii) : option N :=
  if in_range 48 57 c then Some (code c - 48)%N
  else if in_range 97 102 c then Some (code c - 87)%N
  else if in_range 65 70 c then Some (code c - 55)%N
  else None.

Definition hex4 (s : string) : option (N * string) :=
  match s with
  | String a (String b (String c (String d r))) =>
      a ← hex_val a; b ← hex_val b; c ← hex_val c; d ← hex_val d;
      Some (((a * 16 + b) * 16 + c) * 16 + d, r)%N
  | _ => None
  end.

Definition utf8 (r : N) : string :=
  (if r <? 128 then String (chr r) ""
   else if r <? 2048 then String (chr (192 + r / 64)) (String (chr (128 + r mod 64)) "")
   else if r <? 65536 then
     String (chr (224 + r / 4096))
       (String (chr (128 + (r / 64) mod 64)) (String (chr (128 + r mod 64)) ""))
   else
     String (chr (240 + r / 262144))
       (String (chr (128 + (r / 4096) mod 64))
          (String (chr (128 + (r / 64) mod 64)) (String (chr (128 + r mod 64)) ""))))%N.

Definition rune_error : string := bstr [239; 191; 189]%nat.

Definition cont (c : ascii) : bool := in_range 128 191 c.

(** The number of bytes of the UTF-8 sequence a string starts with, when its
    first byte is above 127; [0] when the sequence is invalid. *)
Definition utf8_len (s : string) : nat :=
  match s with
  | String a (String b r) =>
      if in_range 194 223 a && cont b then 2%nat
      else match r with
           | String c r =>
               if (in_range 224 224 a && in_range 160 191 b && cont c)
                  || ((in_range 225 236 a || in_range 238 239 a) && cont b && cont c)
                  || (in_range 237 237 a && in_range 128 159 b && cont c)
               then 3%nat
               else match r with
                    | String d _ =>
                        if ((in_range 240 240 a && in_range 144 191 b)
                            || (in_range 241 243 a && cont b)
                            || (in_range 244 244 a && in_range 128 143 b))
                           && cont c && cont d
                        then 4%nat else 0%nat
                    | "" => 0%nat
                    end
           | "" => 0%nat
           end
  | _ => 0%nat
  end.

Definition simple_escape (c : ascii) : option ascii :=
  match code c with
  | 34 | 92 | 47 => Some c
  | 98 => Some (chr 8) | 102 => Some (chr 12) | 110 => Some (chr 10)
  | 114 => Some (chr 13) | 116 => Some (chr 9)
  | _ => None
  end%N.

Definition quote : ascii := chr 34.
Definition backslash : ascii := chr 92.

(** The surrogate half that must follow a high surrogate [r1], and the rune the
    pair encodes; a lone half decodes to U+FFFD. *)
Definition low_surrogate (r1 : N) (s : string) : option (N * string) :=
  match s with
  | String b (String "u" r) =>
      if Ascii.eqb b backslash then
        '(r2, t) ← hex4 r;
        if ((55296 <=? r1) && (r1 <=? 56319) && (56320 <=? r2) && (r2 <=? 57343))%N
        then Some (65536 + (r1 - 55296) * 1024 + (r2 - 56320), t)%N
        else None
      else None
  | _ => None
  end.

(** The body of a string literal after its opening quote: the decoded bytes and
    the text after the closing quote.  Every round consumes a byte, so the
    length of the text is enough fuel. *)
Fixpoint str_body (fuel : nat) (s : string) : option (string * string) :=
  match fuel, s with
  | S fuel, String c r =>
      if Ascii.eqb c quote then Some ("", r)
      else if (code c <? 32)%N then None
      else if Ascii.eqb c backslash then
        match r with
        | String "u" r =>
            '(u, r) ← hex4 r;
            let '(out, r) :=
              if ((55296 <=? u) && (u <=? 57343))%N
              then match low_surrogate u r with
                   | Some (rune, t) => (utf8 rune, t)
                   | None => (rune_error, r)
                   end
              else (utf8 u, r) in
            '(t, r) ← str_body fuel r; Some (out +:+ t, r)
        | String e r =>
            e ← simple_escape e;
            '(t, r) ← str_body fuel r; Some (String e t, r)
        | "" => None
        end
      else if (code c <? 128)%N then
        '(t, r) ← str_body fuel r; Some (String c t, r)
      else match utf8_len s with
           | O => '(t, r) ← str_body fuel r; Some (rune_error +:+ t, r)
           | n => '(t, r) ← str_body fuel (sdrop n s); Some (stake n s +:+ t, r)
           end
  | _, _ => None
  end.

Definition str_lit (s : string) : option (string * string) :=
  match s with
  | String c r => if Ascii.eqb c quote then str_body (String.length r) r else None
  | "" => None
  end.

(** * Values

    [max_depth] is the nesting limit of the decoder.  A call consumes at least
    one byte before the next nested call, or is followed by one that does. *)

Definition max_depth : Z := 10000.

Fixpoint value (fuel : nat) (depth : Z) (s : string) : option (json * string) :=
  match fuel with
  | O => None
  | S fuel =>
      match skip_ws s with
      | "" => None
      | String c r as s =>
          if Ascii.eqb c quote then '(t, r) ← str_lit s; Some (JStr t, r)
          else if Ascii.eqb c "{" then
            if max_depth <? depth + 1 then None
            else match skip_ws r with
                 | String "}" r => Some (JObj [], r)
                 | r => '(kvs, r) ← members fuel (depth + 1) r; Some (JObj kvs, r)
                 end
          else if Ascii.eqb c "[" then
            if max_depth <? depth + 1 then None
            else match skip_ws r with
                 | String "]" r => Some (JArr [], r)
                 | r => '(l, r) ← elements_of fuel (depth + 1) r; Some (JArr l, r)
                 end
          else if HasPrefix s "null" then Some (JNull, sdrop 4 s)
          else if HasPrefix s "true" then Some (JBool true, sdrop 4 s)
          else if HasPrefix s "false" then Some (JBool false, sdrop 5 s)
          else '(lit, r) ← num_lit s; Some (JNum lit, r)
      end
  end
with members (fuel : nat) (depth : Z) (s : string) : option (list (string * json) * string) :=
  match fuel with
  | O => None
  | S fuel =>
      '(k, r) ← str_lit (skip_ws s);
      match skip_ws r with
      | String ":" r =>
          '(v, r) ← value fuel depth r;
          match skip_ws r with
          | String "," r => '(kvs, r) ← members fuel depth r; Some ((k, v) :: kvs, r)
          | String "}" r => Some ([(k, v)], r)
          | _ => None
          end
      | _ => None
      end
  end
with elements_of (fuel : nat) (depth : Z) (s : string) : option (list json * string) :=
  match fuel with
  | O => None
  | S fuel =>
      '(v, r) ← value fuel depth s;
      match skip_ws r with
      | String "," r => '(l, r) ← elements_of fuel depth r; Some (v :: l, r)
      | String "]" r => Some ([v], r)
      | _ => None
      end
  end.

(** The whole text is one value, possibly between blanks. *)
Definition parse_json (s : string) : option json :=
  '(v, r) ← value (2 * String.length s + 2) 0 s;
  match skip_ws r with "" => Some v | _ => None end.

(** Field lookup of a struct decoder: the exact name, else the name up to ASCII
    case. *)
Definition lower (c : ascii) : ascii := if in_range 65 90 c then chr (code c + 32) else c.

Fixpoint lower_str (s : string) : string :=
  match s with "" => "" | String c s => String (lower c) (lower_str s) end.

Definition fold_eq (s t : string) : bool := String.eqb (lower_str s) (lower_str t).

(** * base64.RawURLEncoding *)

Definition sextet_char (n : N) : ascii :=
  (if n <? 26 then chr (65 + n)
   else if n <? 52 then chr (71 + n)
   else if n <? 62 then chr (n - 4)
   else if n =? 62 then "-"%char else "_"%char)%N.

Definition char_sextet (c : ascii) : option N :=
  if in_range 65 90 c then Some (code c - 65)%N
  else if in_range 97 122 c then Some (code c - 71)%N
  else if in_range 48 57 c then Some (code c + 4)%N
  else if Ascii.eqb c "-" then Some 62%N
  else if Ascii.eqb c "_" then Some 63%N
  else None.

Fixpoint base64_encode (s : string) : string :=
  match s with
  | "" => ""
  | String a "" =>
      String (sextet_char (code a / 4)) (String (sextet_char ((code a mod 4) * 16)) "")
  | String a (String b "") =>
      String (sextet_char (code a / 4))
        (String (sextet_char ((code a mod 4) * 16 + code b / 16))
           (String (sextet_char ((code b mod 16) * 4)) ""))
  | String a (String b (String c r)) =>
      String (sextet_char (code a / 4))
        (String (sextet_char ((code a mod 4) * 16 + code b / 16))
           (String (sextet_char ((code b mod 16) * 4 + code c / 64))
              (String (sextet_char (code c mod 64)) (base64_encode r))))
  end%N.

(** The decoder ignores line breaks, rejects every other byte outside the
    alphabet and a trailing single character, and ignores the unused low bits
    of the last character. *)
Fixpoint drop_newlines (s : string) : string :=
  match s with
  | "" => ""
  | String c r => if existsb (N.eqb (code c)) [10; 13]%N then drop_newlines r
                  else String c (drop_newlines r)
  end.

Fixpoint base64_groups (s : string) : option string :=
  match s with
  | "" => Some ""
  | String _ "" => None
  | String a (String b "") =>
      a ← char_sextet a; b ← char_sextet b;
      Some (String (chr (a * 4 + b / 16)) "")
  | String a (String b (String c "")) =>
      a ← char_sextet a; b ← char_sextet b; c ← char_sextet c;
      Some (String (chr (a * 4 + b / 16)) (String (chr ((b mod 16) * 16 + c / 4)) ""))
  | String a (String b (String c (String d r))) =>
      a ← char_sextet a; b ← char_sextet b; c ← char_sextet c; d ← char_sextet d;
      t ← base64_groups r;
      Some (String (chr (a * 4 + b / 16))
              (String (chr ((b mod 16) * 16 + c / 4))
                 (String (chr ((c mod 4) * 64 + d)) t)))
  end%N.

Definition base64_decode (s : string) : option string := base64_groups (drop_newlines s).

Example base64_ex : base64_encode "infractl!" = "aW5mcmFjdGwh". Proof. reflexivity. Qed.
Example parse_json_ex :
  parse_json (ReplaceAll " {'o' : -12.5e3 , 'a':[true,null,'x\u00e9\n']} " "'" (String quote "")) =
  Some (JObj [("o", JNum "-12.5e3");
              ("a", JArr [JBool true; JNull; JStr ("x" +:+ bstr [195; 169; 10]%nat)])]).
Proof. vm_compute. reflexivity. Qed.

(** * Lemmas: base64 *)

#[local] Ltac Zify.zify_post_hook ::= Z.to_euclidean_division_equations.

Definition sextet_ok (n : N) : bool :=
  match char_sextet (sextet_char n) with Some m => N.eqb m n | None => false end
  && negb (existsb (N.eqb (code (sextet_char n))) [10; 13]%N).

Lemma sextet_char_ok n : (n < 64)%N → sextet_ok n = true.
Proof.
  intros Hn. assert (forallb sextet_ok (N.of_nat <$> seq 0 64) = true) as HF by by vm_compute.
  rewrite forallb_forall in HF. apply HF. apply list_elem_of_In, list_elem_of_fmap.
  exists (N.to_nat n). rewrite N2Nat.id. split; [done|]. apply elem_of_seq. lia.
Qed.

Lemma sextet_char_inv n : (n < 64)%N → char_sextet (sextet_char n) = Some n.
Proof.
  intros H%sextet_char_ok. unfold sextet_ok in H. bprop.
  destruct (char_sextet _); [|done]. by apply N.eqb_eq in H as ->.
Qed.

Lemma sextet_char_not_newline n :
  (n < 64)%N → existsb (N.eqb (code (sextet_char n))) [10; 13]%N = false.
Proof. intros H%sextet_char_ok. unfold sextet_ok in H. by bprop. Qed.

Lemma code_lt c : (code c < 256)%N.
Proof. apply N_ascii_bounded. Qed.

Lemma chr_code c n : n = code c → chr n = c.
Proof. intros ->. apply ascii_N_embedding. Qed.

(** Induction by groups of three bytes. *)
Lemma string_ind3 (P : string → Prop) :
  P "" → (∀ a, P (String a "")) → (∀ a b, P (String a (String b ""))) →
  (∀ a b c s, P s → P (String a (String b (String c s)))) → ∀ s, P s.
Proof.
  intros H0 H1 H2 H3. fix IH 1.
  intros [|a [|b [|c s]]]; [apply H0|apply H1|apply H2|apply H3, IH].
Qed.

(** The four sextets of three bytes, and the bytes back. *)
Section sextets.
Context (a b c : ascii).
Let Ha := code_lt a.
Let Hb := code_lt b.
Let Hc := code_lt c.

Lemma sextet0 : (code a / 4 < 64)%N.
Proof. lia. Qed.
Lemma sextet1 : ((code a mod 4) * 16 + code b / 16 < 64)%N.
Proof. lia. Qed.
Lemma sextet1' : ((code a mod 4) * 16 < 64)%N.
Proof. lia. Qed.
Lemma sextet2 : ((code b mod 16) * 4 + code c / 64 < 64)%N.
Proof. lia. Qed.
Lemma sextet2' : ((code b mod 16) * 4 < 64)%N.
Proof. lia. Qed.
Lemma sextet3 : (code c mod 64 < 64)%N.
Proof. lia. Qed.

Lemma byte0 : chr (code a / 4 * 4 + ((code a mod 4) * 16 + code b / 16) / 16) = a.
Proof. apply chr_code. clear Hc. lia. Qed.
Lemma byte0' : chr (code a / 4 * 4 + ((code a mod 4) * 16) / 16) = a.
Proof. apply chr_code. clear Hb Hc. lia. Qed.
Lemma byte1 :
  chr (((code a mod 4) * 16 + code b / 16) mod 16 * 16 + ((code b mod 16) * 4 + code c / 64) / 4) = b.
Proof. apply chr_code. lia. Qed.
Lemma byte1' :
  chr (((code a mod 4) * 16 + code b / 16) mod 16 * 16 + ((code b mod 16) * 4) / 4) = b.
Proof. apply chr_code. clear Hc. lia. Qed.
Lemma byte2 : chr (((code b mod 16) * 4 + code c / 64) mod 4 * 64 + code c mod 64) = c.
Proof. apply chr_code. clear Ha. lia. Qed.
End sextets.

Create HintDb sextets discriminated.
#[local] Hint Resolve sextet0 sextet1 sextet1' sextet2 sextet2' sextet3 : sextets.

Lemma base64_encode_clean s : drop_newlines (base64_encode s) = base64_encode s.
Proof.
  induction s using string_ind3; [done|..];
    cbn [base64_encode drop_newlines];
    repeat (rewrite sextet_char_not_newline by auto with sextets); by rewrite ?IHs.
Qed.

Lemma base64_roundtrip s : base64_decode (base64_encode s) = Some s.
Proof.
  unfold base64_decode. rewrite base64_encode_clean.
  induction s using string_ind3; [done|..];
    cbn [base64_encode base64_groups]; repeat (rewrite sextet_char_inv by auto with sextets);
    rewrite ?IHs; cbn [mbind option_bind];
    by rewrite ?byte0, ?byte0', ?byte1, ?byte1', ?byte2.
Qed.

Lemma base64_encode_nonempty s : s ≠ "" → base64_encode s ≠ "".
Proof. destruct s as [|a [|b [|c s]]]; done. Qed.

(** * Lemmas: number literals of printed integers *)

Lemma digits_uint d r :
  match r with String c _ => is_digit c = false | "" => True end →
  digits (DecimalString.NilEmpty.string_of_uint d +:+ r) = (DecimalString.NilEmpty.string_of_uint d, r).
Proof.
  intros Hr. induction d; simpl; try (by rewrite IHd).
  destruct r as [|c r]; [done|]. simpl. by rewrite Hr.
Qed.

(** The text after a number literal that ends it. *)
Definition ends_number (r : string) : bool :=
  match r with
  | String c _ => negb (is_digit c || Ascii.eqb c "." || Ascii.eqb c "e" || Ascii.eqb c "E")
  | "" => true
  end.

Lemma to_uint_no_leading_zero p d : Pos.to_uint p ≠ Decimal.D0 d.
Proof.
  intros H. pose proof (DecimalPos.Unsigned.to_of (Pos.to_uint p)) as Hn.
  rewrite DecimalPos.Unsigned.of_to in Hn. simpl in Hn.
  pose proof (DecimalPos.Unsigned.to_uint_nonzero p) as Hz.
  unfold Decimal.unorm in Hn. destruct (Decimal.nzhead (Pos.to_uint p)) eqn:E;
    rewrite H in Hn; try done; [congruence|].
  by apply DecimalFacts.nzhead_nonzero in E.
Qed.

Lemma num_tail r : ends_number r = true → frac_part r = Some ("", r) ∧ exp_part r = Some ("", r).
Proof.
  destruct r as [|c r]; [done|]. unfold ends_number. intros H. bprop.
  split.
  - destruct c as [[][][][][][][][]]; done.
  - simpl. by rewrite H0, H1.
Qed.

Lemma num_lit_pos p r :
  ends_number r = true →
  int_part (DecimalString.NilEmpty.string_of_uint (Pos.to_uint p) +:+ r) =
  Some (DecimalString.NilEmpty.string_of_uint (Pos.to_uint p), r).
Proof.
  intros Hr. pose proof (to_uint_no_leading_zero p) as H0.
  pose proof (DecimalPos.Unsigned.to_uint_nonnil p) as Hn.
  assert (Hd : match r with String c _ => is_digit c = false | "" => True end).
  { destruct r as [|c r]; [done|]. unfold ends_number in Hr. by bprop. }
  pose proof (digits_uint (Pos.to_uint p) r Hd) as Hdig.
  destruct (Pos.to_uint p); try done; try (by edestruct H0);
    unfold int_part; cbn in Hdig |- *; by rewrite Hdig.
Qed.

Lemma num_lit_Itoa z r : ends_number r = true → num_lit (Itoa z +:+ r) = Some (Itoa z, r).
Proof.
  intros Hr. destruct (num_tail r Hr) as [Hf He].
  assert (Hz : ∀ p, DecimalString.NilZero.string_of_uint (Pos.to_uint p)
                    = DecimalString.NilEmpty.string_of_uint (Pos.to_uint p)).
  { intros p. pose proof (DecimalPos.Unsigned.to_uint_nonnil p). by destruct (Pos.to_uint p). }
  unfold Itoa. destruct z as [|p|p]; cbn [Z.to_int DecimalString.NilZero.string_of_int].
  - unfold num_lit. simpl. by rewrite Hf; simpl; rewrite He.
  - rewrite Hz. pose proof (num_lit_pos p r Hr) as Hi. unfold num_lit.
    replace (match _ with String "-" _ => _ | _ => _ end)
      with ("", DecimalString.NilEmpty.string_of_uint (Pos.to_uint p) +:+ r).
    + rewrite Hi. simpl. rewrite Hf. simpl. rewrite He. simpl. by rewrite !sapp_nil_r.
    + pose proof (DecimalPos.Unsigned.to_uint_nonnil p). by destruct (Pos.to_uint p).
  - rewrite Hz. pose proof (num_lit_pos p r Hr) as Hi. unfold num_lit. simpl.
    rewrite Hi. simpl. rewrite Hf. simpl. rewrite He. simpl. by rewrite !sapp_nil_r.
Qed.
