(* ===== verification/Float.v ===== *)
(** Numbers of type [float64] in JSON: the part of Go's strconv and
    encoding/json that decodes a number into an [interface{}] and encodes it
    again (the free-form values of src/platform/catalog/model.go).  The reading
    is correctly rounded, the writing the shortest that reads back. *)

From S2P Require Import Prelude GoStrings GoJson.
From Stdlib Require Import Ascii NArith DecimalString DecimalPos.

(** * Finite numbers

    Every finite [float64] is a multiple of [2^-1074]: its magnitude is
    [mant * 2^expo] times that unit. *)
Record f64 := MkF64 { neg : bool; mant : Z; expo : Z }.

#[global] Instance f64_eq_dec : EqDecision f64.
Proof. solve_decision. Defined.

(** The mantissa has 53 bits, and its first bit is set unless the exponent is
    the least; the exponent is below that of infinity. *)
Definition canonical (m k : Z) : Prop := 0 ≤ m < 2 ^ 53 ∧ 0 ≤ k ≤ 2045 ∧ (k = 0 ∨ 2 ^ 52 ≤ m).

Definition valid_f64 (f : f64) : Prop := canonical (mant f) (expo f).

(** * Rounding *)

(** The integer nearest to [n / d], the even one of two. *)
Definition rne (n d : Z) : Z :=
  let q := n / d in
  let r := n mod d in
  if 2 * r <? d then q else if d <? 2 * r then q + 1 else if Z.even q then q else q + 1.

(** [a / b], in units of [2^-1074], rounded to 53 bits; the carry of the rounding
    and the overflow. *)
Definition round (a b : Z) : option (Z * Z) :=
  let A := a * 2 ^ 1074 in
  let k := Z.max 0 (Z.log2 (A / b) - 52) in
  let m := rne A (b * 2 ^ k) in
  let '(m, k) := if m =? 2 ^ 53 then (2 ^ 52, k + 1) else (m, k) in
  if 2045 <? k then None else Some (m, k).

(** [10^q] as a fraction. *)
Definition tn (q : Z) : Z := 10 ^ Z.max 0 q.
Definition td (q : Z) : Z := 10 ^ Z.max 0 (- q).

(** [d * 10^q] *)
Definition round_dec (d q : Z) : option (Z * Z) := round (d * tn q) (td q).

(** * strconv.ParseFloat on the literal of a JSON number *)

Definition digit_val (c : ascii) : Z := Z.of_N (code c) - 48.

Fixpoint digits_val (acc : Z) (s : string) : Z :=
  match s with "" => acc | String c s => digits_val (acc * 10 + digit_val c) s end.

(** The exponent stops growing at a value that makes every number zero or
    infinite. *)
Fixpoint exp_val (acc : Z) (s : string) : Z :=
  match s with
  | "" => acc
  | String c s => exp_val (if acc <? 10000 then acc * 10 + digit_val c else acc) s
  end.

Definition split_sign (s : string) : bool * string :=
  match s with String "-" r => (true, r) | _ => (false, s) end.

(** Sign, digits and decimal exponent of a literal. *)
Definition decimal (lit : string) : bool * Z * Z :=
  let '(sg, s) := split_sign lit in
  let '(i, s) := digits s in
  let '(f, s) := match s with String "." r => digits r | _ => ("", s) end in
  let e := match s with
           | String _ (String "-" r) => - exp_val 0 r
           | String _ (String "+" r) => exp_val 0 r
           | String _ r => exp_val 0 r
           | "" => 0
           end in
  (sg, digits_val 0 (i +:+ f), e - Z.of_nat (String.length f)).

Definition ParseFloat (lit : string) : option f64 :=
  let '(sg, d, q) := decimal lit in
  '(m, k) ← round_dec d q; Some (MkF64 sg m k).

(** * strconv.FormatFloat with the shortest precision *)

Definition digit_char (n : Z) : ascii := chr (Z.to_N (n + 48)).

(** A natural number in decimal; the fuel is the number of its bits. *)
Fixpoint utoa_go (fuel : nat) (n : Z) : string :=
  match fuel with
  | O => String (digit_char n) ""
  | S fuel => if n <? 10 then String (digit_char n) "" else utoa_go fuel (n / 10) +:+ String (digit_char (n mod 10)) ""
  end.

Definition utoa (n : Z) : string := utoa_go (Z.to_nat (Z.log2 n)) n.

Definition ndigits (n : Z) : Z := Z.of_nat (String.length (utoa n)).

(** The exponent [p] with [10^p <= n / d < 10^(p+1)]. *)
Definition flog10 (n d : Z) : Z := if d <=? n then ndigits (n / d) - 1 else - ndigits ((d - 1) / n).

(** A decimal of [n] digits that reads back as the number: the nearest, or the one
    above when the nearest lies below the interval of the number. *)
Definition candidate (m k p : Z) (n : Z) : option (Z * Z) :=
  let q := p - n + 1 in
  let num := m * 2 ^ k * td q in
  let den := 2 ^ 1074 * tn q in
  let ok := λ d, bool_decide (round_dec d q = Some (m, k)) in
  let d := rne num den in
  if ok d then Some (d, q) else if ok (num / den + 1) then Some (num / den + 1, q) else None.

Fixpoint shortest_go (m k p : Z) (n : Z) (fuel : nat) : Z * Z :=
  match fuel with
  | O => (0, 0)
  | S fuel => match candidate m k p n with Some x => x | None => shortest_go m k p (n + 1) fuel end
  end.

Fixpoint trim_zeros (fuel : nat) (d q : Z) : Z * Z :=
  match fuel with
  | O => (d, q)
  | S fuel => if d mod 10 =? 0 then trim_zeros fuel (d / 10) (q + 1) else (d, q)
  end.

(** Digits and exponent of the shortest decimal; 17 digits are always enough. *)
Definition shortest (m k : Z) : Z * Z :=
  let '(d, q) := shortest_go m k (flog10 (m * 2 ^ k) (2 ^ 1074)) 1 17 in trim_zeros 17 d q.

Fixpoint zeros (n : nat) : string := match n with O => "" | S n => String "0" (zeros n) end.

(** The formats [f] and [e] of the digits [ds] with the decimal point after the
    first [dp] digits. *)
Definition fmt_f (ds : string) (dp : Z) : string :=
  let n := Z.of_nat (String.length ds) in
  if dp <=? 0 then "0." +:+ zeros (Z.to_nat (- dp)) +:+ ds
  else if n <=? dp then ds +:+ zeros (Z.to_nat (dp - n))
  else stake (Z.to_nat dp) ds +:+ "." +:+ sdrop (Z.to_nat dp) ds.

(** The encoder removes the zero strconv puts before an exponent of one digit. *)
Definition fmt_e (ds : string) (dp : Z) : string :=
  let x := dp - 1 in
  stake 1 ds +:+ (if (1 <? String.length ds)%nat then "." +:+ sdrop 1 ds else "") +:+
  "e" +:+ (if x <? 0 then "-" else "+") +:+ utoa (Z.abs x).

(** Magnitudes below [1e-6] or from [1e21] on are written with an exponent. *)
Definition below (m k : Z) (bound : option (Z * Z)) : bool :=
  match bound with Some (m', k') => m * 2 ^ k <? m' * 2 ^ k' | None => true end.

Definition exponent_form (m k : Z) : bool :=
  below m k (round 1 (10 ^ 6)) || negb (below m k (round (10 ^ 21) 1)).

Definition FormatFloat (f : f64) : string :=
  (if neg f then "-" else "") +:+
  (if mant f =? 0 then "0"
   else
     let '(d, q) := shortest (mant f) (expo f) in
     let ds := utoa d in
     let dp := Z.of_nat (String.length ds) + q in
     if exponent_form (mant f) (expo f) then fmt_e ds dp else fmt_f ds dp).

Example format_ex :
  List.map (λ s, FormatFloat <$> ParseFloat s)
    ["-0"; "-2.50"; "9007199254740993"; "1e21"; "1e20"; "0.000001"; "9.5e-7"; "3e-324"; "1e-400"; "1e309"] =
  List.map Some ["-0"; "-2.5"; "9007199254740992"; "1e+21"; "100000000000000000000"; "0.000001"; "9.5e-7"; "5e-324"; "0"]
  ++ [None].
Proof. vm_compute. reflexivity. Qed.

(** * Rounding *)

Lemma rne_near n d m : 0 < d → (2 * m - 1) * d < 2 * n < (2 * m + 1) * d → rne n d = m.
Proof.
  intros Hd H. unfold rne. pose proof (Z.div_mod n d ltac:(lia)). pose proof (Z.mod_pos_bound n d Hd).
  assert (n / d = m ∨ n / d = m - 1) as [E|E] by nia; rewrite E in *;
    destruct (Z.ltb_spec (2 * (n mod d)) d); try nia;
    destruct (Z.ltb_spec d (2 * (n mod d))); nia.
Qed.

Lemma rne_close n d : 0 < d → - d ≤ 2 * (n - rne n d * d) ≤ d.
Proof.
  intros Hd. unfold rne. pose proof (Z.div_mod n d ltac:(lia)). pose proof (Z.mod_pos_bound n d Hd).
  repeat case_match; bprop; nia.
Qed.

Lemma rne_floor n d : rne n d = n / d ∨ rne n d = n / d + 1.
Proof. unfold rne. repeat case_match; auto. Qed.

Lemma rne_scale n d c : 0 < d → 0 < c → rne (n * c) (d * c) = rne n d.
Proof.
  intros Hd Hc. unfold rne. rewrite Z.div_mul_cancel_r by lia. rewrite Z.mul_mod_distr_r by lia.
  replace (2 * (n mod d * c) <? d * c) with (2 * (n mod d) <? d); [|apply eq_true_iff_eq; rewrite !Z.ltb_lt; nia].
  replace (d * c <? 2 * (n mod d * c)) with (d <? 2 * (n mod d)); [done|apply eq_true_iff_eq; rewrite !Z.ltb_lt; nia].
Qed.

(** Rounding depends on the fraction only. *)
Lemma round_frac a b a' b' : 0 < b → 0 < b' → a * b' = a' * b → round a b = round a' b'.
Proof.
  intros Hb Hb' E. unfold round. set (U := 2 ^ 1074).
  assert (a * U * b' = a' * U * b) as EU by nia.
  assert (a * U / b = a' * U / b') as ->.
  { rewrite <-(Z.div_mul_cancel_r (a * U) b b'), <-(Z.div_mul_cancel_r (a' * U) b' b) by lia.
    by rewrite EU, (Z.mul_comm b b'). }
  set (k := Z.max 0 _). assert (0 < 2 ^ k) by (apply Z.pow_pos_nonneg; lia).
  enough (rne (a * U) (b * 2 ^ k) = rne (a' * U) (b' * 2 ^ k)) as -> by done.
  rewrite <-(rne_scale (a * U) _ b'), <-(rne_scale (a' * U) _ b) by nia. rewrite EU. f_equal. nia.
Qed.

(** The distance to the lower neighbour, in quarters of the unit: at a power of
    two it is half of that to the upper one. *)
Definition lower_gap (m k : Z) : Z := if (0 <? k) && (m =? 2 ^ 52) then 1 else 2.

Section near.
Context (a b m k : Z).
Hypotheses (Hb : 0 < b) (Hc : canonical m k).
Let A := a * 2 ^ 1074.
Hypothesis Hlo : (4 * m - lower_gap m k) * (2 ^ k * b) < 4 * A.
Hypothesis Hhi : 4 * A < (4 * m + 2) * (2 ^ k * b).

Lemma near_exponent :
  Z.max 0 (Z.log2 (A / b) - 52) = k ∨
  (0 < k ∧ m = 2 ^ 52 ∧ A < 2 ^ 52 * (2 ^ k * b) ∧ Z.max 0 (Z.log2 (A / b) - 52) = k - 1).
Proof.
  destruct Hc as (Hm & Hk & Hn). assert (0 < 2 ^ k) by (apply Z.pow_pos_nonneg; lia).
  assert (Hup : A / b < 2 ^ (53 + k)).
  { apply Z.div_lt_upper_bound; [done|]. rewrite Z.pow_add_r by lia. unfold lower_gap in *. nia. }
  assert (Hlog : Z.log2 (A / b) < 53 + k).
  { destruct (Z.le_gt_cases (A / b) 0); [rewrite Z.log2_nonpos; lia|]. by apply Z.log2_lt_pow2. }
  assert (Hge : ∀ j, 0 ≤ j → 2 ^ j * b ≤ A → j ≤ Z.log2 (A / b)).
  { intros j Hj HA. apply Z.log2_le_pow2; [|apply Z.div_le_lower_bound; lia].
    apply Z.lt_le_trans with (2 ^ j); [by apply Z.pow_pos_nonneg|]. apply Z.div_le_lower_bound; lia. }
  destruct (Z.eq_dec k 0) as [->|Hk0]; [left; lia|]. destruct Hn as [|Hn]; [done|].
  destruct (Z.le_gt_cases (2 ^ 52 * (2 ^ k * b)) A) as [HA|HA].
  - left. assert (52 + k ≤ Z.log2 (A / b)); [|lia]. apply Hge; [lia|]. rewrite Z.pow_add_r by lia. lia.
  - right. assert (m = 2 ^ 52) as ->. { unfold lower_gap in Hlo. case_match; bprop; nia. }
    assert (lower_gap (2 ^ 52) k = 1) as Hg by (unfold lower_gap; destruct (Z.ltb_spec 0 k); [done|lia]).
    rewrite Hg in Hlo. assert (51 + k ≤ Z.log2 (A / b)). { apply Hge; [lia|]. rewrite Z.pow_add_r by lia. nia. }
    assert (Z.log2 (A / b) < 52 + k); [|lia]. apply Z.log2_lt_pow2.
    + apply Z.lt_le_trans with 1; [lia|]. apply Z.div_le_lower_bound; nia.
    + apply Z.div_lt_upper_bound; [done|]. rewrite Z.pow_add_r by lia. nia.
Qed.

(** A fraction closer to a number than half the way to its neighbours rounds to
    it. *)
Lemma round_near : round a b = Some (m, k).
Proof.
  pose proof Hc as (Hm & Hk & _). assert (0 < 2 ^ k) by (apply Z.pow_pos_nonneg; lia).
  unfold round. fold A. destruct near_exponent as [->|(Hk0 & Em & HA & ->)].
  - rewrite (rne_near _ _ m); [|nia|unfold lower_gap in Hlo; case_match; nia].
    destruct (Z.eqb_spec m (2 ^ 53)); [lia|]. by replace (2045 <? k) with false by lia.
  - assert (2 ^ k = 2 * 2 ^ (k - 1)) as E by (rewrite <-Z.pow_succ_r by lia; f_equal; lia).
    assert (lower_gap m k = 1) as Hg by (unfold lower_gap; rewrite Em; destruct (Z.ltb_spec 0 k); [done|lia]).
    rewrite (rne_near _ _ (2 ^ 53)); [|nia|rewrite Hg in Hlo; nia].
    rewrite Z.eqb_refl. replace (k - 1 + 1) with k by lia. replace (2045 <? k) with false by lia. by rewrite Em.
Qed.
End near.

Lemma round_0 b : 0 < b → round 0 b = Some (0, 0).
Proof. intros Hb. apply round_near; [done|unfold canonical; lia|..]; change (lower_gap 0 0) with 2; lia. Qed.

(** * Powers of ten *)

Lemma tn_pos q : 0 < tn q.
Proof. apply Z.pow_pos_nonneg; lia. Qed.

Lemma td_pos q : 0 < td q.
Proof. apply Z.pow_pos_nonneg; lia. Qed.

Lemma ten_shift q j : 0 ≤ j → tn (q + j) * td q = 10 ^ j * tn q * td (q + j).
Proof.
  intros Hj. unfold tn, td. rewrite <-!Z.pow_add_r by lia. f_equal. lia.
Qed.

Lemma round_dec_shift d q j : 0 ≤ j → round_dec (d * 10 ^ j) q = round_dec d (q + j).
Proof.
  intros Hj. apply round_frac; [apply td_pos..|].
  transitivity (d * (10 ^ j * tn q * td (q + j))); [ring|]. rewrite <-ten_shift by done. ring.
Qed.

(** * Decimal numerals *)

Lemma digit_char_val n : 0 ≤ n < 10 → digit_val (digit_char n) = n ∧ is_digit (digit_char n) = true.
Proof.
  intros Hn. assert (∃ i, (i < 10)%nat ∧ n = Z.of_nat i) as (i & Hi & ->) by (exists (Z.to_nat n); lia).
  do 10 (destruct i as [|i]; [by vm_compute|]). lia.
Qed.

Lemma digits_val_app acc s t : digits_val acc (s +:+ t) = digits_val (digits_val acc s) t.
Proof. revert acc. induction s as [|c s IH]; intros acc; [done|]. simpl. apply IH. Qed.

(** What holds of the numeral of [n]. *)
Record numeral (n : Z) (s : string) : Prop := {
  num_digits : sforall is_digit s = true;
  num_val : ∀ acc, digits_val acc s = acc * 10 ^ Z.of_nat (String.length s) + n;
  num_len : (0 < String.length s)%nat;
  num_upper : n < 10 ^ Z.of_nat (String.length s);
  num_lower : 0 < n → 10 ^ (Z.of_nat (String.length s) - 1) ≤ n;
}.

Lemma utoa_go_numeral fuel n : 0 ≤ n < 2 ^ (Z.of_nat fuel + 1) → numeral n (utoa_go fuel n).
Proof.
  assert (Hone : ∀ n, 0 ≤ n < 10 → numeral n (String (digit_char n) "")).
  { intros i Hi. destruct (digit_char_val i Hi) as [Hv Hd]. split; simpl; rewrite ?Hd, ?Hv; lia || done. }
  revert n. induction fuel as [|fuel IH]; intros n Hn; [apply Hone; simpl in Hn; lia|]. cbn [utoa_go].
  destruct (Z.ltb_spec n 10) as [|Hge]; [apply Hone; lia|].
  pose proof (Z.div_mod n 10 ltac:(lia)). pose proof (Z.mod_pos_bound n 10 ltac:(lia)).
  destruct (digit_char_val (n mod 10) ltac:(lia)) as [Hv Hd].
  destruct (IH (n / 10)) as [I1 I2 I3 I4 I5].
  { rewrite Nat2Z.inj_succ, Z.add_succ_l, Z.pow_succ_r in Hn by lia. lia. }
  split; rewrite ?slength_app, ?sforall_app; simpl; rewrite ?I1, ?Hd; try done; try lia.
  - intros acc. rewrite digits_val_app, I2. cbn [digits_val]. rewrite Hv, Nat2Z.inj_add, Z.pow_add_r by lia. simpl. lia.
  - rewrite Nat2Z.inj_add, Z.pow_add_r by lia. simpl. lia.
  - intros _. specialize (I5 ltac:(lia)).
    replace (Z.of_nat (String.length (utoa_go fuel (n / 10)) + 1) - 1) with
      (Z.succ (Z.of_nat (String.length (utoa_go fuel (n / 10))) - 1)) by lia.
    rewrite Z.pow_succ_r by lia. lia.
Qed.

Lemma utoa_numeral n : 0 ≤ n → numeral n (utoa n).
Proof.
  intros Hn. apply utoa_go_numeral. rewrite Z2Nat.id by apply Z.log2_nonneg. split; [done|].
  destruct (Z.eq_dec n 0) as [->|]; [done|]. apply Z.log2_spec. lia.
Qed.

Lemma ndigits_spec n : 0 < n → 1 ≤ ndigits n ∧ 10 ^ (ndigits n - 1) ≤ n < 10 ^ ndigits n.
Proof. intros Hn. destruct (utoa_numeral n ltac:(lia)) as [_ _ H1 H2 H3]. unfold ndigits. split; [lia|]. auto. Qed.

Lemma flog10_spec n d : 0 < n → 0 < d →
  d * tn (flog10 n d) ≤ n * td (flog10 n d) ∧ n * td (flog10 n d + 1) < d * tn (flog10 n d + 1).
Proof.
  intros Hn Hd. unfold flog10. destruct (Z.leb_spec d n).
  - assert (0 < n / d) as Hq by (apply Z.div_str_pos; lia). pose proof (Z.div_mod n d ltac:(lia)).
    pose proof (Z.mod_pos_bound n d Hd). destruct (ndigits_spec _ Hq) as (Hx1 & Hx2 & Hx3).
    set (x := ndigits (n / d)) in *. clearbody x. unfold tn, td.
    rewrite !(Z.max_l 0 (- _)), !(Z.max_r 0 _) by lia. replace (x - 1 + 1) with x by lia. change (10 ^ 0) with 1. nia.
  - assert (0 < (d - 1) / n) as Hq by (apply Z.div_str_pos; lia). pose proof (Z.div_mod (d - 1) n ltac:(lia)).
    pose proof (Z.mod_pos_bound (d - 1) n Hn). destruct (ndigits_spec _ Hq) as (Hx1 & Hx2 & Hx3).
    set (x := ndigits ((d - 1) / n)) in *. clearbody x. unfold tn, td.
    rewrite (Z.max_l 0 (- x)), (Z.max_l 0 (- x + 1)), !Z.max_r by lia. replace (- (- x + 1)) with (x - 1) by lia. rewrite Z.opp_involutive.
    change (10 ^ 0) with 1. nia.
Qed.

(** * The shortest decimal *)

Section shortest.
Context (m k : Z).
Hypotheses (Hc : canonical m k) (Hm0 : 0 < m).
Let N := m * 2 ^ k.
Let D := 2 ^ 1074.
Let p := flog10 N D.

Lemma N_pos : 0 < N.
Proof. unfold N. destruct Hc as (_ & Hk & _). assert (0 < 2 ^ k) by (apply Z.pow_pos_nonneg; lia). nia. Qed.

Lemma D_pos : 0 < D.
Proof. by apply Z.pow_pos_nonneg. Qed.

(** Seventeen digits identify the number. *)
Lemma seventeen q : q = p - 16 → round_dec (rne (N * td q) (D * tn q)) q = Some (m, k).
Proof.
  intros Hq. pose proof N_pos as HN. pose proof D_pos as HD.
  destruct (flog10_spec N D HN HD) as [Hp _]. fold p in Hp.
  pose proof (ten_shift q 16 ltac:(lia)) as Hs. replace (q + 16) with p in Hs by lia.
  pose proof (tn_pos q). pose proof (td_pos q). pose proof (tn_pos p). pose proof (td_pos p).
  set (d := rne (N * td q) (D * tn q)).
  assert (- (D * tn q) ≤ 2 * (N * td q - d * (D * tn q)) ≤ D * tn q) as Hd by (apply rne_close; nia).
  assert (Hsmall : 10 ^ 16 * (D * tn q) ≤ N * td q).
  { apply Z.mul_le_mono_pos_r with (p := td p); [done|].
    transitivity (D * tn p * td q); [|nia]. apply Z.eq_le_incl.
    transitivity (D * (10 ^ 16 * tn q * td p)); [ring|]. rewrite <-Hs. ring. }
  assert (0 ≤ d) by nia. pose proof Hc as (Hm & Hk & _). assert (0 < 2 ^ k) by (apply Z.pow_pos_nonneg; lia).
  assert (N * td q = m * (2 ^ k * td q)) as HNq by (unfold N; ring). rewrite HNq in *.
  assert (0 < 2 ^ k * td q) by nia. assert (0 < D * tn q) by nia.
  unfold round_dec. apply round_near; [apply td_pos|done| |]; fold D;
    replace (d * tn q * D) with (d * (D * tn q)) by ring; set (X := D * tn q) in *; set (Y := 2 ^ k * td q) in *;
    clearbody X Y d; clear - Hd Hsmall Hm H5 H6.
  - unfold lower_gap. case_match; bprop; nia.
  - nia.
Qed.

Lemma candidate_sound n d q : candidate m k p n = Some (d, q) → round_dec d q = Some (m, k) ∧ q = p - n + 1 ∧ 0 ≤ d ≤ N * td q / (D * tn q) + 1.
Proof.
  unfold candidate. fold N. fold D. set (q0 := p - n + 1). pose proof N_pos. pose proof D_pos.
  pose proof (tn_pos q0). pose proof (td_pos q0).
  assert (0 ≤ N * td q0 / (D * tn q0)) by (apply Z.div_pos; nia).
  pose proof (rne_floor (N * td q0) (D * tn q0)).
  case_bool_decide; [|case_bool_decide; [|done]]; intros [= <- <-]; (split; [done|]); lia.
Qed.

Lemma candidate_17 : is_Some (candidate m k p 17).
Proof.
  unfold candidate. fold N. fold D. replace (p - 17 + 1) with (p - 16) by lia.
  rewrite bool_decide_eq_true_2 by (by apply seventeen). by eexists.
Qed.

Lemma shortest_go_sound fuel n : n + Z.of_nat fuel = 18 → 1 ≤ n ≤ 17 →
  ∃ i, 1 ≤ i ≤ 17 ∧ candidate m k p i = Some (shortest_go m k p n fuel).
Proof.
  revert n. induction fuel as [|fuel IH]; intros n Hs Hn; [lia|]. simpl. destruct (candidate m k p n) eqn:E; [by exists n|].
  destruct (Z.eq_dec n 17) as [->|]; [|apply IH; lia]. destruct candidate_17 as [x Hx]. congruence.
Qed.

Lemma trim_zeros_spec fuel d q d' q' :
  trim_zeros fuel d q = (d', q') → q ≤ q' ≤ q + Z.of_nat fuel ∧ d = d' * 10 ^ (q' - q).
Proof.
  revert d q. induction fuel as [|fuel IH]; intros d q; simpl.
  - intros [= <- <-]. rewrite Z.sub_diag. lia.
  - destruct (Z.eqb_spec (d mod 10) 0) as [Hd|].
    + intros H. apply IH in H as [Hq E]. split; [lia|]. apply Z.div_exact in Hd; [|done]. rewrite Hd, E.
      replace (q' - q) with (Z.succ (q' - (q + 1))) by lia. rewrite Z.pow_succ_r by lia. ring.
    + intros [= <- <-]. rewrite Z.sub_diag. lia.
Qed.

(** The order of magnitude of a finite number. *)
Lemma p_bound : -400 ≤ p ≤ 400.
Proof.
  destruct (flog10_spec N D N_pos D_pos) as [Hlo Hhi]. fold p in Hlo, Hhi. pose proof N_pos. pose proof D_pos.
  assert (HN : N < 2 ^ 2098).
  { destruct Hc as (Hm & Hk & _). assert (2 ^ k ≤ 2 ^ 2045) by (apply Z.pow_le_mono_r; lia).
    assert (0 < 2 ^ k) by (apply Z.pow_pos_nonneg; lia). unfold N. change (2 ^ 2098) with (2 ^ 53 * 2 ^ 2045). nia. }
  assert (Hten : ∀ x, 400 ≤ x → 2 ^ 1074 < 10 ^ x ∧ 2 ^ 2098 < 10 ^ x * 2 ^ 1074).
  { intros x Hx. assert (10 ^ 400 ≤ 10 ^ x) by (apply Z.pow_le_mono_r; lia).
    assert (2 ^ 1074 < 10 ^ 400 ∧ 2 ^ 2098 < 10 ^ 400 * 2 ^ 1074) by (split; by vm_compute).
    assert (0 < 2 ^ 1074) by (by vm_compute). nia. }
  fold D in Hten. split; apply Z.nlt_ge; intros Hp.
  - unfold tn, td in Hhi. rewrite (Z.max_l 0 (p + 1)), (Z.max_r 0 (- (p + 1))) in Hhi by lia.
    destruct (Hten (- (p + 1)) ltac:(lia)). change (10 ^ 0) with 1 in Hhi. nia.
  - unfold tn, td in Hlo. rewrite (Z.max_r 0 p), (Z.max_l 0 (- p)) in Hlo by lia.
    destruct (Hten p ltac:(lia)). change (10 ^ 0) with 1 in Hlo. nia.
Qed.

Lemma shortest_spec d q :
  shortest m k = (d, q) → round_dec d q = Some (m, k) ∧ 0 < d ≤ 10 ^ 17 ∧ -500 ≤ q ≤ 500.
Proof.
  unfold shortest. fold N. fold D. fold p. pose proof p_bound as Hp.
  destruct (shortest_go_sound 17 1) as (i & Hi & Hg); [lia..|].
  destruct (shortest_go m k p 1 17) as [d0 q0]. apply candidate_sound in Hg as (Hr & Hq0 & Hd0).
  intros Ht. apply trim_zeros_spec in Ht as [Hq ->]. rewrite round_dec_shift in Hr by lia.
  replace (q0 + (q - q0)) with q in Hr by lia. split; [done|]. split; [|lia].
  assert (1 ≤ 10 ^ (q - q0)) by (assert (0 < 10 ^ (q - q0)) by (apply Z.pow_pos_nonneg; lia); lia).
  assert (Hd : d ≠ 0).
  { intros ->. unfold round_dec in Hr. rewrite Z.mul_0_l, round_0 in Hr by apply td_pos. simplify_eq. lia. }
  assert (N * td q0 / (D * tn q0) < 10 ^ 17); [|nia].
  destruct (flog10_spec N D N_pos D_pos) as [_ Hhi]. fold p in Hhi.
  pose proof (ten_shift q0 i ltac:(lia)) as Hs. replace (q0 + i) with (p + 1) in Hs by lia.
  assert (10 ^ i ≤ 10 ^ 17) by (apply Z.pow_le_mono_r; lia).
  pose proof (tn_pos q0). pose proof (td_pos q0). pose proof (td_pos (p + 1)). pose proof D_pos.
  apply Z.div_lt_upper_bound; [nia|].
  apply Z.mul_lt_mono_pos_r with (p := td (p + 1)); [done|].
  apply Z.lt_le_trans with (D * tn (p + 1) * td q0); [nia|]. rewrite <-Z.mul_assoc, Hs. nia.
Qed.
End shortest.

(** * Literals

    A literal by its parts: sign, integer digits, fraction digits, and sign and
    digits of an exponent. *)

Definition frac_text (f : string) : string := match f with "" => "" | _ => "." +:+ f end.

Definition exp_text (e : option (bool * string)) : string :=
  match e with None => "" | Some (sg, ds) => "e" +:+ (if sg : bool then "-" else "+") +:+ ds end.

Definition literal (sg : bool) (i f : string) (e : option (bool * string)) : string :=
  (if sg then "-" else "") +:+ i +:+ frac_text f +:+ exp_text e.

Definition leading (i : string) : Prop :=
  match i with "" => False | String c t => c ≠ "0"%char ∨ t = "" end.

Record parts (i f : string) (e : option (bool * string)) : Prop := {
  parts_int : sforall is_digit i = true;
  parts_leading : leading i;
  parts_frac : sforall is_digit f = true;
  parts_exp : match e with None => True | Some (_, ds) => sforall is_digit ds = true ∧ ds ≠ "" end;
}.

Definition no_digit (r : string) : Prop := match r with String c _ => is_digit c = false | "" => True end.

Lemma digits_all s r : sforall is_digit s = true → no_digit r → digits (s +:+ r) = (s, r).
Proof.
  intros Hs Hr. induction s as [|c s IH]; simpl in *.
  - destruct r as [|c r]; [done|]. simpl in *. by rewrite Hr.
  - bprop. by rewrite H, IH.
Qed.

Lemma ends_no_digit r : ends_number r = true → no_digit r.
Proof. destruct r as [|c r]; [done|]. unfold ends_number. intros H. simpl. by bprop. Qed.

Lemma exp_no_digit e r : ends_number r = true → no_digit (exp_text e +:+ r).
Proof. destruct e as [[[] ds]|]; [done|done|]. apply ends_no_digit. Qed.

Lemma frac_no_digit f e r : ends_number r = true → no_digit (frac_text f +:+ exp_text e +:+ r).
Proof. destruct f; [apply exp_no_digit|done]. Qed.

Section literals.
Context (sg : bool) (i f : string) (e : option (bool * string)).
Hypothesis Hp : parts i f e.

Lemma int_part_lit r : ends_number r = true →
  int_part (i +:+ frac_text f +:+ exp_text e +:+ r) = Some (i, frac_text f +:+ exp_text e +:+ r).
Proof.
  intros Hr. destruct Hp as [Hi Hl _ _]. pose proof (frac_no_digit f e r Hr) as Hn.
  pose proof (digits_all i _ Hi Hn) as Hd. destruct i as [|c t]; [done|]. simpl in Hl. cbn [String.append] in *.
  destruct (ascii_dec c "0") as [->|Hc]; [by destruct Hl as [? | ->]|].
  unfold int_part. rewrite Hd. destruct c as [[][][][][][][][]]; try done.
Qed.

Lemma frac_part_lit r : ends_number r = true →
  frac_part (frac_text f +:+ exp_text e +:+ r) = Some (frac_text f, exp_text e +:+ r).
Proof.
  intros Hr. destruct Hp as [_ _ Hf _]. destruct f as [|c t] eqn:E.
  - simpl. destruct e as [[[] ds]|]; [done|done|]. by apply num_tail.
  - cbn [frac_text String.append]. unfold frac_part.
    pose proof (digits_all (String c t) _ Hf (exp_no_digit e r Hr)) as Hd. cbn [String.append] in Hd. by rewrite Hd.
Qed.

Lemma exp_part_lit r : ends_number r = true → exp_part (exp_text e +:+ r) = Some (exp_text e, r).
Proof.
  intros Hr. destruct Hp as [_ _ _ He]. destruct e as [[s ds]|]; [|by apply num_tail].
  destruct He as [He Hne]. pose proof (digits_all ds r He (ends_no_digit r Hr)) as Hd.
  destruct ds as [|c t]; [done|]. destruct s; cbn [exp_text exp_part String.append] in *; simpl (Ascii.eqb _ _);
    cbn [orb exp_sign]; by rewrite Hd.
Qed.

Lemma no_sign t : match i +:+ t with String "-" r => ("-", r) | _ => ("", i +:+ t) end = ("", i +:+ t).
Proof.
  destruct Hp as [Hi Hl _ _]. destruct i as [|c u]; [done|]. simpl in Hi. bprop. by destruct c as [[][][][][][][][]].
Qed.

(** The scanner reads the literal and stops after it. *)
Lemma num_lit_literal r : ends_number r = true → num_lit (literal sg i f e +:+ r) = Some (literal sg i f e, r).
Proof.
  intros Hr. unfold num_lit, literal. rewrite !sapp_assoc.
  replace (match _ with String "-" _ => _ | _ => _ end)
    with (if sg then "-" else "", i +:+ frac_text f +:+ exp_text e +:+ r) by (destruct sg; [done|symmetry; apply no_sign]).
  rewrite int_part_lit by done. simpl. rewrite frac_part_lit by done. simpl.
  by rewrite exp_part_lit.
Qed.

(** The value of the literal. *)
Lemma decimal_literal :
  decimal (literal sg i f e) =
  (sg, digits_val 0 (i +:+ f),
   match e with None => 0 | Some (s, ds) => if s : bool then - exp_val 0 ds else exp_val 0 ds end - Z.of_nat (String.length f)).
Proof.
  pose proof Hp as [Hi Hl Hf He]. unfold decimal, literal.
  replace (split_sign _) with (sg, i +:+ frac_text f +:+ exp_text e).
  2: { destruct sg; [done|]. destruct i as [|c t]; [done|]. simpl in Hi. bprop. by destruct c as [[][][][][][][][]]. }
  pose proof (digits_all i (frac_text f +:+ exp_text e) Hi) as Hd.
  pose proof (frac_no_digit f e "" eq_refl) as Hn. rewrite sapp_nil_r in Hn. rewrite (Hd Hn). clear Hd Hn.
  destruct f as [|c t] eqn:Ef; cbn [frac_text String.append].
  - destruct e as [[[] ds]|]; cbn [exp_text String.append]; try done.
  - pose proof (digits_all (String c t) (exp_text e) Hf) as Hd.
    pose proof (exp_no_digit e "" eq_refl) as Hn. rewrite sapp_nil_r in Hn. cbn [String.append] in Hd. rewrite (Hd Hn).
    destruct e as [[[] ds]|]; cbn [exp_text String.append]; done.
Qed.
End literals.

(** * Printed numbers *)

Lemma digits_val_upper acc s :
  sforall is_digit s = true → digits_val acc s < (acc + 1) * 10 ^ Z.of_nat (String.length s).
Proof.
  revert acc. induction s as [|c s IH]; intros acc Hs; simpl digits_val; [simpl; lia|].
  cbn [String.length]. rewrite Nat2Z.inj_succ, Z.pow_succ_r by lia. simpl in Hs. bprop.
  specialize (IH (acc * 10 + digit_val c) H0). unfold is_digit, in_range in H. bprop.
  assert (0 < 10 ^ Z.of_nat (String.length s)) by (apply Z.pow_pos_nonneg; lia). unfold digit_val in *. nia.
Qed.

(** The numeral of a positive number does not start with a zero. *)
Lemma numeral_head n s : 0 < n → numeral n s → ∃ c t, s = String c t ∧ c ≠ "0"%char.
Proof.
  intros Hn [Hd Hv Hl _ Hlo]. destruct s as [|c t]; [simpl in Hl; lia|]. exists c, t. split; [done|]. intros ->.
  specialize (Hlo Hn). specialize (Hv 0). simpl in Hd. pose proof (digits_val_upper 0 t Hd) as Hu.
  cbn [digits_val String.length] in *. change (0 * 10 + digit_val "0") with 0 in Hv. rewrite Hv in Hu.
  replace (Z.of_nat (S (String.length t)) - 1) with (Z.of_nat (String.length t)) in Hlo by lia. lia.
Qed.

Lemma exp_val_small acc s : 0 ≤ acc → sforall is_digit s = true → digits_val acc s < 100000 → exp_val acc s = digits_val acc s.
Proof.
  assert (Hmono : ∀ s acc, 0 ≤ acc → sforall is_digit s = true → acc ≤ digits_val acc s).
  { intros t. induction t as [|c t IH]; intros x Hx Ht; simpl in *; [lia|]. bprop. unfold is_digit, in_range in H. bprop.
    specialize (IH (x * 10 + digit_val c)). unfold digit_val in *. lia. }
  revert acc. induction s as [|c s IH]; intros acc Ha Hs Hlt; simpl in *; [done|]. bprop.
  assert (0 ≤ digit_val c) as Hc by (unfold is_digit, in_range, digit_val in *; bprop; lia).
  specialize (Hmono s (acc * 10 + digit_val c) ltac:(lia) H0). destruct (Z.ltb_spec acc 10000); [|lia]. apply IH; [lia|done..].
Qed.

Lemma sforall_zeros n : sforall is_digit (zeros n) = true.
Proof. induction n; done. Qed.

Lemma digits_val_zeros acc n : digits_val acc (zeros n) = acc * 10 ^ Z.of_nat n.
Proof.
  revert acc. induction n as [|n IH]; intros acc; [simpl; lia|]. cbn [zeros digits_val]. rewrite IH, Nat2Z.inj_succ, Z.pow_succ_r by lia.
  change (digit_val "0") with 0. lia.
Qed.

Lemma zeros_length n : String.length (zeros n) = n.
Proof. induction n as [|n IH]; [done|]. simpl. by rewrite IH. Qed.

Lemma stake_sdrop n s : stake n s +:+ sdrop n s = s.
Proof. revert s. induction n as [|n IH]; intros [|c s]; simpl; try done. by rewrite IH. Qed.

Lemma sdrop_length n s : String.length (sdrop n s) = (String.length s - n)%nat.
Proof. revert s. induction n as [|n IH]; intros [|c s]; simpl; try done. Qed.

Lemma sforall_stake p n s : sforall p s = true → sforall p (stake n s) = true.
Proof. intros H. rewrite <-(stake_sdrop n s), sforall_app in H. by bprop. Qed.

(** The text [s] is a literal of the number that [d * 10^q] rounds to. *)
Record shows (s : string) (sg : bool) (d q : Z) : Prop := {
  shows_lit : ∀ r, ends_number r = true → num_lit (s +:+ r) = Some (s, r);
  shows_val : ∃ d' q', decimal s = (sg, d', q') ∧ round_dec d' q' = round_dec d q;
}.

Lemma literal_shows sg i f e d q s d' :
  s = literal sg i f e → parts i f e → digits_val 0 (i +:+ f) = d' →
  round_dec d' (match e with None => 0 | Some (s, ds) => if s : bool then - exp_val 0 ds else exp_val 0 ds end
                - Z.of_nat (String.length f)) = round_dec d q →
  shows s sg d q.
Proof.
  intros -> Hp <- Hr. split; [intros r; by apply num_lit_literal|]. rewrite decimal_literal by done. eauto.
Qed.

Lemma frac_text_ne f : (0 < String.length f)%nat → frac_text f = "." +:+ f.
Proof. destruct f; simpl; [lia|done]. Qed.

Section formats.
Context (sg : bool) (d q : Z) (ds : string).
Hypotheses (Hd : 0 < d) (Hds : numeral d ds).
Let dp := Z.of_nat (String.length ds) + q.

Lemma numeral_val : digits_val 0 ds = d.
Proof. destruct Hds as [_ Hv _ _ _]. rewrite Hv. lia. Qed.

Lemma leading_app t : leading (ds +:+ t).
Proof. destruct (numeral_head d ds Hd Hds) as (c & u & -> & Hc). by left. Qed.

Lemma leading_stake n : (0 < n)%nat → leading (stake n ds).
Proof. destruct (numeral_head d ds Hd Hds) as (c & u & -> & Hc). destruct n; [lia|]. by left. Qed.

Lemma fmt_f_shows : shows ((if sg then "-" else "") +:+ fmt_f ds dp) sg d q.
Proof.
  pose proof (num_digits _ _ Hds) as Hdig. pose proof (num_len _ _ Hds) as Hl. unfold fmt_f.
  destruct (Z.leb_spec dp 0) as [Hdp|Hdp]; [|destruct (Z.leb_spec (Z.of_nat (String.length ds)) dp) as [Hdn|Hdn]].
  - apply literal_shows with "0" (zeros (Z.to_nat (- dp)) +:+ ds) None d.
    + unfold literal. rewrite frac_text_ne by (rewrite slength_app; lia). simpl exp_text. by rewrite sapp_nil_r.
    + split; [done|by right| |done]. by rewrite sforall_app, sforall_zeros.
    + cbn [String.append digits_val]. rewrite digits_val_app, digits_val_zeros. apply numeral_val.
    + rewrite slength_app, zeros_length. f_equal. lia.
  - set (z := dp - _). apply literal_shows with (ds +:+ zeros (Z.to_nat z)) "" None (d * 10 ^ q).
    + unfold literal. simpl. by rewrite !sapp_nil_r.
    + split; [by rewrite sforall_app, sforall_zeros, Hdig|apply leading_app|done|done].
    + rewrite sapp_nil_r, digits_val_app, numeral_val, digits_val_zeros. do 2 f_equal. lia.
    + simpl. rewrite round_dec_shift by lia. done.
  - apply literal_shows with (stake (Z.to_nat dp) ds) (sdrop (Z.to_nat dp) ds) None d.
    + unfold literal. rewrite frac_text_ne by (rewrite sdrop_length; lia). simpl exp_text. by rewrite sapp_nil_r.
    + split; [by apply sforall_stake|apply leading_stake; lia|by apply sforall_sdrop|done].
    + rewrite stake_sdrop. apply numeral_val.
    + rewrite sdrop_length. f_equal. lia.
Qed.

Lemma fmt_e_shows : -10000 < dp < 10000 → shows ((if sg then "-" else "") +:+ fmt_e ds dp) sg d q.
Proof.
  intros Hdp. pose proof (num_digits _ _ Hds) as Hdig. pose proof (num_len _ _ Hds) as Hl. unfold fmt_e.
  destruct (utoa_numeral (Z.abs (dp - 1)) ltac:(lia)) as [Hxd Hxv Hxl _ _].
  assert (exp_val 0 (utoa (Z.abs (dp - 1))) = Z.abs (dp - 1)) as Hx.
  { specialize (Hxv 0). rewrite exp_val_small by (done || lia). lia. }
  apply literal_shows with (stake 1 ds) (sdrop 1 ds) (Some (dp - 1 <? 0, utoa (Z.abs (dp - 1)))) d.
  - unfold literal. cbn [exp_text]. do 2 f_equal. case_match eqn:E; bprop.
    + by rewrite frac_text_ne by (rewrite sdrop_length; lia).
    + destruct (sdrop 1 ds) eqn:E'; [done|]. apply (f_equal String.length) in E'. rewrite sdrop_length in E'. simpl in E'. lia.
  - split; [by apply sforall_stake|apply leading_stake; lia|by apply sforall_sdrop|]. split; [done|]. intros E. rewrite E in Hxl. simpl in Hxl. lia.
  - rewrite stake_sdrop. apply numeral_val.
  - rewrite Hx, sdrop_length. f_equal. case_match; lia.
Qed.
End formats.

Lemma FormatFloat_shows f : valid_f64 f → ∃ d q, shows (FormatFloat f) (neg f) d q ∧ round_dec d q = Some (mant f, expo f).
Proof.
  intros Hf. unfold FormatFloat. destruct (Z.eqb_spec (mant f) 0) as [Hm|Hm].
  - exists 0, 0. destruct Hf as (_ & _ & [Hk|Hk]); [|lia]. split.
    + by apply literal_shows with "0" "" None 0; [|split; [done|by right|done|done]|..].
    + rewrite Hm, Hk. by apply round_0.
  - assert (0 < mant f) by (destruct Hf; lia). destruct (shortest (mant f) (expo f)) as [d q] eqn:E.
    apply shortest_spec in E as (Hr & Hd & Hq); [|done..]. exists d, q. split; [|done].
    pose proof (utoa_numeral d ltac:(lia)) as Hds. destruct (exponent_form _ _).
    + apply fmt_e_shows; [lia|done|]. pose proof (num_lower _ _ Hds ltac:(lia)) as Hlow.
      assert (Z.of_nat (String.length (utoa d)) ≤ 18); [|lia]. apply Z.nlt_ge. intros Hlt.
      assert (10 ^ 18 ≤ 10 ^ (Z.of_nat (String.length (utoa d)) - 1)) by (apply Z.pow_le_mono_r; lia). lia.
    + apply fmt_f_shows; [lia|done].
Qed.

(** The scanner reads a printed number as one token. *)
Lemma num_lit_FormatFloat f r :
  valid_f64 f → ends_number r = true → num_lit (FormatFloat f +:+ r) = Some (FormatFloat f, r).
Proof. intros Hf. destruct (FormatFloat_shows f Hf) as (d & q & Hs & _). apply Hs. Qed.

(** Two literals of one value: same sign, same digits up to the exponent. *)
Definition same_number (l l' : string) : Prop :=
  let '(sg, d, q) := decimal l in
  let '(sg', d', q') := decimal l' in
  sg = sg' ∧ d * tn q * td q' = d' * tn q' * td q.

Lemma ParseFloat_same l l' : same_number l l' → ParseFloat l = ParseFloat l'.
Proof.
  unfold same_number, ParseFloat. destruct (decimal l) as [[sg d] q], (decimal l') as [[sg' d'] q']. intros [-> E].
  unfold round_dec. by rewrite (round_frac _ _ (d' * tn q') (td q')) by (done || apply td_pos).
Qed.

(** A printed number is read as the number it was. *)
Lemma ParseFloat_FormatFloat f : valid_f64 f → ParseFloat (FormatFloat f) = Some f.
Proof.
  intros Hf. destruct (FormatFloat_shows f Hf) as (d & q & [_ (d' & q' & E & Hr)] & Hs).
  unfold ParseFloat. rewrite E, Hr, Hs. simpl. by destruct f.
Qed.

(** * Read numbers are finite numbers *)

Lemma round_canonical a b m k : 0 ≤ a → 0 < b → round a b = Some (m, k) → canonical m k.
Proof.
  intros Ha Hb. unfold round. set (A := a * 2 ^ 1074). assert (0 ≤ A) by (unfold A; apply Z.mul_nonneg_nonneg; [done|by vm_compute]).
  set (x := A / b). set (j := Z.max 0 (Z.log2 x - 52)). assert (0 ≤ x) by (by apply Z.div_pos).
  assert (0 < 2 ^ j) by (apply Z.pow_pos_nonneg; lia).
  assert (A / (b * 2 ^ j) = x / 2 ^ j) as E by (unfold x; rewrite Z.div_div by lia; done).
  assert (0 ≤ x / 2 ^ j) by (by apply Z.div_pos).
  assert (x / 2 ^ j < 2 ^ 53) as Hu.
  { apply Z.div_lt_upper_bound; [done|]. rewrite <-Z.pow_add_r by lia.
    destruct (Z.eq_dec x 0) as [->|]; [apply Z.pow_pos_nonneg; lia|].
    apply Z.lt_le_trans with (2 ^ Z.succ (Z.log2 x)); [apply Z.log2_spec; lia|apply Z.pow_le_mono_r; lia]. }
  assert (j = 0 ∨ 2 ^ 52 ≤ x / 2 ^ j) as Hl.
  { destruct (Z.eq_dec j 0); [by left|right]. apply Z.div_le_lower_bound; [done|]. rewrite <-Z.pow_add_r by lia.
    transitivity (2 ^ Z.log2 x); [apply Z.pow_le_mono_r; lia|]. apply Z.log2_spec.
    destruct (Z.eq_dec x 0) as [E0|]; [|lia]. unfold j in *. rewrite E0 in *. simpl in *. lia. }
  pose proof (rne_floor A (b * 2 ^ j)) as Hr. rewrite E in Hr.
  destruct (Z.eqb_spec (rne A (b * 2 ^ j)) (2 ^ 53)); case_match; try done; intros [= <- <-]; unfold canonical; lia.
Qed.

Lemma digits_split s : sforall is_digit (digits s).1 = true.
Proof.
  induction s as [|c s IH]; [done|]. simpl. destruct (is_digit c) eqn:E; [|done]. destruct (digits s). simpl in *. by rewrite E.
Qed.

Lemma digits_val_nonneg s acc : 0 ≤ acc → sforall is_digit s = true → 0 ≤ digits_val acc s.
Proof.
  revert acc. induction s as [|c s IH]; intros acc Ha Hs; simpl in *; [done|]. bprop. apply IH; [|done].
  unfold is_digit, in_range, digit_val in *. bprop. lia.
Qed.

Lemma ParseFloat_valid lit f : ParseFloat lit = Some f → valid_f64 f.
Proof.
  unfold ParseFloat. destruct (decimal lit) as [[sg d] q] eqn:E. assert (0 ≤ d) as Hd.
  { unfold decimal in E. destruct (split_sign lit) as [g s]. destruct (digits s) as [i s'] eqn:Ei.
    pose proof (digits_split s) as Hi. rewrite Ei in Hi. destruct (match s' with String "." r => _ | _ => _ end) as [fr s''] eqn:Ef.
    assert (sforall is_digit fr = true) as Hf.
    { assert ((fr, s'') = ("", s') ∨ ∃ r, (fr, s'') = digits r) as [[= -> _]|[r Hr]]; [|done|].
      - destruct s' as [|c t]; [left; congruence|]. destruct (ascii_dec c ".") as [->|Hc]; [right; eauto|].
        left. rewrite <-Ef. destruct c as [[][][][][][][][]]; done.
      - pose proof (digits_split r) as H. by rewrite <-Hr in H. }
    injection E as _ <- _. apply digits_val_nonneg; [done|]. rewrite sforall_app. simpl in Hi. by rewrite Hi, Hf. }
  destruct (round_dec d q) as [[m k]|] eqn:Er; [|done]. simpl. intros [= <-].
  unfold round_dec in Er. apply round_canonical in Er; [done| |apply td_pos]. pose proof (tn_pos q). nia.
Qed.

(** * Integers *)

(** The magnitude in units of [2^-1074]. *)
Definition magnitude (f : f64) : Z := mant f * 2 ^ expo f.

Lemma uint_digits d : sforall is_digit (NilEmpty.string_of_uint d) = true.
Proof. induction d; simpl; try done; by rewrite IHd. Qed.

Lemma uint_val_acc d acc : digits_val (Z.pos acc) (NilEmpty.string_of_uint d) = Z.pos (Pos.of_uint_acc d acc).
Proof.
  revert acc. induction d as [|d IH|d IH|d IH|d IH|d IH|d IH|d IH|d IH|d IH|d IH]; intros acc; [done|..];
    cbn [NilEmpty.string_of_uint digits_val Pos.of_uint_acc]; rewrite <-IH; f_equal; unfold digit_val; simpl (code _); lia.
Qed.

Lemma uint_val d : digits_val 0 (NilEmpty.string_of_uint d) = Z.of_uint d.
Proof. induction d as [|d IH|d IH|d IH|d IH|d IH|d IH|d IH|d IH|d IH|d IH]; [done|apply IH|..]; apply uint_val_acc. Qed.

Lemma decimal_Itoa z : decimal (Itoa z) = (z <? 0, Z.abs z, 0).
Proof.
  assert (∀ p, parts (NilEmpty.string_of_uint (Pos.to_uint p)) "" None) as Hp.
  { intros p. split; [apply uint_digits| |done|done]. pose proof (to_uint_no_leading_zero p) as H0.
    pose proof (DecimalPos.Unsigned.to_uint_nonnil p) as Hn. destruct (Pos.to_uint p); try done; try (by left). by destruct (H0 u). }
  assert (∀ p, digits_val 0 (NilEmpty.string_of_uint (Pos.to_uint p)) = Z.pos p) as Hv.
  { intros p. rewrite uint_val. unfold Z.of_uint. by rewrite DecimalPos.Unsigned.of_to. }
  assert (∀ p, NilZero.string_of_uint (Pos.to_uint p) = NilEmpty.string_of_uint (Pos.to_uint p)) as Hz.
  { intros p. pose proof (DecimalPos.Unsigned.to_uint_nonnil p). by destruct (Pos.to_uint p). }
  unfold Itoa. destruct z as [|p|p]; cbn [Z.to_int NilZero.string_of_int]; [done|..]; rewrite Hz.
  - pose proof (decimal_literal false _ _ _ (Hp p)) as E. unfold literal in E. cbn [frac_text exp_text String.append] in E.
    rewrite !sapp_nil_r, Hv in E. exact E.
  - pose proof (decimal_literal true _ _ _ (Hp p)) as E. unfold literal in E. cbn [frac_text exp_text String.append] in E.
    rewrite !sapp_nil_r, Hv in E. exact E.
Qed.

(** A finite number given by a canonical pair is read exactly. *)
Lemma round_exact a m k : canonical m k → a * 2 ^ 1074 = m * 2 ^ k → round a 1 = Some (m, k).
Proof.
  intros Hc E. assert (0 < 2 ^ k) by (destruct Hc as (_ & ? & _); apply Z.pow_pos_nonneg; lia).
  apply round_near; [done|done|..]; rewrite E; unfold lower_gap; [case_match|]; nia.
Qed.

(** The integers up to [2^53] are read exactly. *)
Lemma ParseFloat_int z : Z.abs z ≤ 2 ^ 53 →
  ∃ f, ParseFloat (Itoa z) = Some f ∧ neg f = (z <? 0) ∧ magnitude f = Z.abs z * 2 ^ 1074.
Proof.
  intros Hz. unfold ParseFloat. rewrite decimal_Itoa. unfold round_dec. change (td 0) with 1. change (tn 0) with 1. rewrite Z.mul_1_r.
  assert (∃ m k, canonical m k ∧ Z.abs z * 2 ^ 1074 = m * 2 ^ k) as (m & k & Hc & E).
  { destruct (Z.eq_dec z 0) as [->|Hz0]; [exists 0, 0; unfold canonical; lia|].
    destruct (Z.eq_dec (Z.abs z) (2 ^ 53)) as [->|Hne]; [exists (2 ^ 52), 1075; unfold canonical; split; [lia|by vm_compute]|].
    pose proof (Z.log2_spec (Z.abs z) ltac:(lia)) as [Hl Hu]. pose proof (Z.log2_nonneg (Z.abs z)).
    assert (Z.log2 (Z.abs z) < 53) by (apply Z.log2_lt_pow2; lia). set (l := Z.log2 (Z.abs z)) in *.
    assert (0 < 2 ^ (52 - l)) by (apply Z.pow_pos_nonneg; lia).
    assert (2 ^ (52 - l) * 2 ^ l = 2 ^ 52) as E1 by (rewrite <-Z.pow_add_r by lia; f_equal; lia).
    exists (Z.abs z * 2 ^ (52 - l)), (1022 + l). split.
    - rewrite Z.pow_succ_r in Hu by lia. unfold canonical. split; [|split; [lia|right; nia]].
      change (2 ^ 53) with (2 * 2 ^ 52). nia.
    - rewrite <-Z.mul_assoc, <-Z.pow_add_r by lia. do 2 f_equal. lia. }
  rewrite (round_exact _ m k) by done. simpl. eexists. split; [done|]. split; [done|]. by rewrite E.
Qed.
