(* ===== verification/JsonPrint.v ===== *)
(** [json.Marshal]: the text of a JSON value as Go's encoder writes it, with its
    escaping of strings, and the parser of GoJson.v as its inverse.  The columns
    of the resources and the bodies of the requests are written by it. *)

From S2P Require Import Prelude GoStrings GoJson Float.
From Stdlib Require Import Ascii NArith DecimalString.

(** * Strings

    The encoder escapes the quote, the backslash, the control characters, the
    three characters that are special in HTML and the two line separators of
    Unicode, and replaces every byte that is not part of a valid UTF-8 sequence
    by the escape of U+FFFD. *)

Definition hex_digit (n : N) : ascii := (if n <? 10 then chr (48 + n) else chr (87 + n))%N.

Definition u_escape (n : N) : string :=
  String backslash (String "u"
    (String (hex_digit (n / 4096)) (String (hex_digit ((n / 256) mod 16))
      (String (hex_digit ((n / 16) mod 16)) (String (hex_digit (n mod 16)) "")))))%N.

Definition esc_byte (c : ascii) : string :=
  match code c with
  | 34 | 92 => String backslash (String c "")
  | 8 => String backslash "b" | 12 => String backslash "f" | 10 => String backslash "n"
  | 13 => String backslash "r" | 9 => String backslash "t"
  | 60 => u_escape 60 | 62 => u_escape 62 | 38 => u_escape 38
  | n => if n <? 32 then u_escape n else String c ""
  end%N.

Definition line_separator : string := bstr [226; 128; 168]%nat.
Definition paragraph_separator : string := bstr [226; 128; 169]%nat.

Definition esc_rune (t : string) : string :=
  if String.eqb t line_separator then u_escape 8232
  else if String.eqb t paragraph_separator then u_escape 8233 else t.

(** Each round consumes a byte or more: the length is enough fuel. *)
Fixpoint esc_go (fuel : nat) (s : string) : string :=
  match fuel, s with
  | S fuel, String c r =>
      if (code c <? 128)%N then esc_byte c +:+ esc_go fuel r
      else match utf8_len s with
           | O => u_escape 65533 +:+ esc_go fuel r
           | n => esc_rune (stake n s) +:+ esc_go fuel (sdrop n s)
           end
  | _, _ => ""
  end.

Definition print_str (s : string) : string :=
  String quote (esc_go (String.length s) s +:+ String quote "").

(** What a string becomes when it is written and read back. *)
Fixpoint to_valid_go (fuel : nat) (s : string) : string :=
  match fuel, s with
  | S fuel, String c r =>
      if (code c <? 128)%N then String c (to_valid_go fuel r)
      else match utf8_len s with
           | O => rune_error +:+ to_valid_go fuel r
           | n => stake n s +:+ to_valid_go fuel (sdrop n s)
           end
  | _, _ => ""
  end.

Definition to_valid (s : string) : string := to_valid_go (String.length s) s.

Definition valid_utf8 (s : string) : bool := String.eqb (to_valid s) s.

(** * Values *)

Fixpoint print_json (v : json) : string :=
  match v with
  | JNull => "null"
  | JBool true => "true"
  | JBool false => "false"
  | JNum lit => lit
  | JStr s => print_str s
  | JArr l => "[" +:+ Join (List.map print_json l) "," +:+ "]"
  | JObj kvs =>
      "{" +:+ Join (List.map (λ kv, print_str kv.1 +:+ ":" +:+ print_json kv.2) kvs) "," +:+ "}"
  end.

Definition member (kv : string * json) : string := print_str kv.1 +:+ ":" +:+ print_json kv.2.

Fixpoint height (v : json) : nat :=
  match v with
  | JArr l => S (list_max (List.map height l))
  | JObj kvs => S (list_max (List.map (λ kv, height kv.2) kvs))
  | _ => O
  end.

Section json_ind.
Variable P : json → Prop.
Hypothesis Hnull : P JNull.
Hypothesis Hbool : ∀ b, P (JBool b).
Hypothesis Hnum : ∀ l, P (JNum l).
Hypothesis Hstr : ∀ s, P (JStr s).
Hypothesis Harr : ∀ l, Forall P l → P (JArr l).
Hypothesis Hobj : ∀ kvs, Forall (λ kv, P kv.2) kvs → P (JObj kvs).

(** Induction through the nested lists. *)
Fixpoint json_rect' (v : json) : P v :=
  match v with
  | JNull => Hnull
  | JBool b => Hbool b
  | JNum l => Hnum l
  | JStr s => Hstr s
  | JArr l => Harr l ((fix go l : Forall P l :=
                         match l with [] => Forall_nil_2 _ | v :: l => Forall_cons_2 _ _ _ (json_rect' v) (go l) end) l)
  | JObj kvs => Hobj kvs ((fix go l : Forall (λ kv, P kv.2) l :=
                             match l with [] => Forall_nil_2 _ | kv :: l => Forall_cons_2 _ _ _ (json_rect' kv.2) (go l) end) kvs)
  end.
End json_ind.

(** The values the program writes: valid strings without the NUL character,
    which jsonb rejects, integers, finite floating point numbers other than
    negative zero, which jsonb does not keep, and objects without repeated keys. *)
Definition str_ok (s : string) : Prop := valid_utf8 s = true ∧ lacks "000" s = true.

#[warnings="-register-all"]
Inductive wf_json : json → Prop :=
| wf_null : wf_json JNull
| wf_bool b : wf_json (JBool b)
| wf_int z : wf_json (JNum (Itoa z))
| wf_float f : valid_f64 f → (mant f = 0 → neg f = false) → wf_json (JNum (FormatFloat f))
| wf_str s : str_ok s → wf_json (JStr s)
| wf_arr l : Forall wf_json l → wf_json (JArr l)
| wf_obj kvs : NoDup kvs.*1 → Forall (λ kv, str_ok kv.1 ∧ wf_json kv.2) kvs → wf_json (JObj kvs).

Example print_ex :
  print_json (JObj [("k", JArr [JNum "1"; JStr ("<" +:+ bstr [10; 226; 128; 168; 255]%nat); JNull])]) =
  ReplaceAll "{'k':[1,'\u003c\n\u2028\ufffd',null]}" "'" (String quote "").
Proof. vm_compute. reflexivity. Qed.

(** * Lemmas: strings *)

Lemma esc_byte_read c f t :
  (code c < 128)%N →
  str_body (S f) (esc_byte c +:+ t) = '(x, r) ← str_body f t; Some (String c x, r).
Proof.
  intros Hc. destruct c as [[][][][][][][][]]; try (by vm_compute in Hc);
    try (cbn; by destruct (str_body f t) as [[]|]).
Qed.

Lemma esc_byte_length c : (0 < String.length (esc_byte c))%nat.
Proof. destruct c as [[][][][][][][][]]; vm_compute; lia. Qed.

Lemma utf8_len_chunk s n :
  utf8_len s = S n → s = stake (S n) s +:+ sdrop (S n) s ∧
  String.length (stake (S n) s) = S n ∧ ∀ t, utf8_len (stake (S n) s +:+ t) = S n.
Proof.
  destruct s as [|a [|b r]]; [done..|]. unfold utf8_len.
  destruct (in_range 194 223 a && cont b) eqn:E2.
  { intros [= <-]. cbn. by rewrite E2. }
  destruct r as [|c r]; [done|]. destruct (_ || _ || _) eqn:E3 at 1.
  { intros [= <-]. cbn. by rewrite E2, E3. }
  destruct r as [|d r]; [done|]. destruct (_ && _ && _) eqn:E4 at 1; [|done].
  intros [= <-]. cbn. by rewrite E2, E3, E4.
Qed.

Lemma sdrop_app_exact s t : sdrop (String.length s) (s +:+ t) = t.
Proof. by induction s. Qed.

Lemma high_byte c : (128 <= code c)%N →
  Ascii.eqb c quote = false ∧ (code c <? 32)%N = false ∧ Ascii.eqb c backslash = false ∧ (code c <? 128)%N = false.
Proof.
  intros H. split_and!; try lia; apply Ascii.eqb_neq; intros ->; by vm_compute in H.
Qed.

Lemma chunk_read c s n f t :
  utf8_len (String c s) = S n → (128 <= code c)%N →
  str_body (S f) (stake (S n) (String c s) +:+ t) =
  '(x, r) ← str_body f t; Some (stake (S n) (String c s) +:+ x, r).
Proof.
  intros Hl Hc. destruct (utf8_len_chunk _ n Hl) as (Hs & Hlen & Ht).
  destruct (high_byte c Hc) as (E1 & E2 & E3 & E4).
  specialize (Ht t). pose proof (sdrop_app_exact (stake (S n) (String c s)) t) as Hd.
  pose proof (stake_app (stake (S n) (String c s)) t) as Hk. rewrite Hlen in Hd, Hk.
  cbn [stake] in *. simpl String.append in *. cbn [str_body]. rewrite E1, E2, E3, E4, Ht.
  cbn [stake sdrop] in *. rewrite Hd. injection Hk as ->. done.
Qed.

Lemma escape_read n f t :
  n = 65533%N ∨ n = 8232%N ∨ n = 8233%N →
  str_body (S f) (u_escape n +:+ t) = '(x, r) ← str_body f t; Some (utf8 n +:+ x, r).
Proof. intros [->|[->| ->]]; reflexivity. Qed.

Lemma rune_read c s n f t :
  utf8_len (String c s) = S n → (128 <= code c)%N →
  str_body (S f) (esc_rune (stake (S n) (String c s)) +:+ t) =
  '(x, r) ← str_body f t; Some (stake (S n) (String c s) +:+ x, r).
Proof.
  intros Hl Hc. unfold esc_rune. destruct (String.eqb_spec (stake (S n) (String c s)) line_separator) as [->|_].
  { by rewrite escape_read by auto. }
  destruct (String.eqb_spec (stake (S n) (String c s)) paragraph_separator) as [->|_].
  { by rewrite escape_read by auto. }
  by apply chunk_read.
Qed.

(** The text of a string reads back as the string with its invalid bytes
    replaced. *)
Lemma str_body_print n s f r :
  (String.length s ≤ n)%nat → (String.length (esc_go n s) < f)%nat →
  str_body f (esc_go n s +:+ String quote r) = Some (to_valid_go n s, r).
Proof.
  revert s f. induction n as [|n IH]; intros s f Hn Hf.
  { destruct s; [|simpl in Hn; lia]. destruct f; [simpl in Hf; lia|done]. }
  destruct s as [|c s]; [destruct f; [simpl in Hf; lia|done]|].
  destruct f as [|f]; [lia|]. cbn [esc_go to_valid_go] in *. simpl in Hn.
  destruct (code c <? 128)%N eqn:Ec.
  { rewrite sapp_assoc, esc_byte_read by lia. rewrite slength_app in Hf.
    assert (0 < String.length (esc_byte c))%nat.
    { apply esc_byte_length. }
    rewrite IH by lia. done. }
  assert (128 <= code c)%N as Hc by lia.
  destruct (utf8_len (String c s)) as [|k] eqn:El.
  { rewrite sapp_assoc, escape_read by auto. rewrite slength_app in Hf. cbn in Hf.
    rewrite IH by lia. done. }
  rewrite sapp_assoc, rune_read by done. rewrite slength_app in Hf.
  destruct (utf8_len_chunk _ _ El) as (Hs & Hlen & _).
  assert (0 < String.length (esc_rune (stake (S k) (String c s))))%nat.
  { unfold esc_rune. destruct (String.eqb _ _); [cbn; lia|]. destruct (String.eqb _ _); [cbn; lia|].
    rewrite Hlen. lia. }
  assert (String.length (String c s) = S k + String.length (sdrop (S k) (String c s)))%nat as Hd
    by (rewrite Hs at 1; by rewrite slength_app, Hlen).
  cbn [sdrop String.length] in *. rewrite IH by lia. done.
Qed.

Lemma str_lit_print s r : str_lit (print_str s +:+ r) = Some (to_valid s, r).
Proof.
  unfold print_str, to_valid. simpl. rewrite sapp_assoc. simpl.
  apply str_body_print; [done|]. rewrite slength_app. simpl. lia.
Qed.

Lemma str_lit_ok s r : str_ok s → str_lit (print_str s +:+ r) = Some (s, r).
Proof.
  intros [Hv _]. rewrite str_lit_print. unfold valid_utf8 in Hv. by apply String.eqb_eq in Hv as ->.
Qed.

(** * Lemmas: values *)

(** The first character of a number literal. *)
Lemma num_lit_head c t lit r : num_lit (String c t) = Some (lit, r) → is_digit c || Ascii.eqb c "-" = true.
Proof. destruct c as [[][][][][][][][]]; try done; cbn; intros H; exfalso; cbn in H; by destruct t. Qed.

(** A literal the scanner reads as one token, whatever ends it. *)
Definition number_text (lit : string) : Prop :=
  ∀ r, ends_number r = true → num_lit (lit +:+ r) = Some (lit, r).

Lemma wf_number lit : wf_json (JNum lit) → number_text lit.
Proof. inversion 1; subst; intros r; [by apply num_lit_Itoa|by apply num_lit_FormatFloat]. Qed.

Lemma number_head lit : number_text lit → ∃ c t, lit = String c t ∧ is_digit c || Ascii.eqb c "-" = true.
Proof.
  intros Hn. specialize (Hn "" eq_refl). rewrite sapp_nil_r in Hn.
  destruct lit as [|c t]; [done|]. eauto using num_lit_head.
Qed.

Lemma num_head_value c t fuel depth :
  is_digit c || Ascii.eqb c "-" = true →
  value (S fuel) depth (String c t) = '(lit, r) ← num_lit (String c t); Some (JNum lit, r).
Proof. intros H. destruct c as [[][][][][][][][]]; try done; by vm_compute in H. Qed.

Lemma value_quote fuel depth t :
  value (S fuel) depth (String quote t) = '(x, r) ← str_lit (String quote t); Some (JStr x, r).
Proof. done. Qed.

(** After an opening bracket and a character that neither is blank nor closes
    the list at once, the elements are read. *)
Lemma value_arr fuel depth c t :
  depth + 1 ≤ max_depth → is_ws c = false → Ascii.eqb c "]" = false →
  value (S fuel) depth (String "[" (String c t)) =
  '(l, r) ← elements_of fuel (depth + 1) (String c t); Some (JArr l, r).
Proof.
  intros Hd Hws Hc. assert (E : (max_depth <? depth + 1) = false) by lia.
  destruct c as [[][][][][][][][]]; try done; cbn -[max_depth]; by rewrite E.
Qed.

Lemma value_obj fuel depth t :
  depth + 1 ≤ max_depth →
  value (S fuel) depth (String "{" (String quote t)) =
  '(l, r) ← members fuel (depth + 1) (String quote t); Some (JObj l, r).
Proof.
  intros Hd. assert (E : (max_depth <? depth + 1) = false) by lia. cbn -[max_depth]. by rewrite E.
Qed.

Lemma print_str_head s r : ∃ t, print_str s +:+ r = String quote t.
Proof. unfold print_str. simpl. eauto. Qed.

(** The text of a value begins neither with a blank nor with a closing bracket. *)
Lemma print_head v r :
  wf_json v → ∃ c t, print_json v +:+ r = String c t ∧ is_ws c = false ∧ Ascii.eqb c "]" = false.
Proof.
  destruct v as [|[]|lit| | |]; intros Hwf; simpl; try (do 2 eexists; done).
  destruct (number_head lit (wf_number lit Hwf)) as (c & t & -> & Hc). simpl. do 2 eexists. split; [done|].
  split; destruct c as [[][][][][][][][]]; try done; by vm_compute in Hc.
Qed.

(** [reads v] is the statement of the round trip for a value, in any context. *)
Definition reads (v : json) : Prop :=
  ∀ fuel depth r, (2 * String.length (print_json v) ≤ fuel)%nat →
    depth + Z.of_nat (height v) ≤ max_depth → ends_number r = true →
    value fuel depth (print_json v +:+ r) = Some (v, r).

Lemma print_nonempty v : wf_json v → (0 < String.length (print_json v))%nat.
Proof. intros Hv. destruct (print_head v "" Hv) as (c & t & E & _). rewrite sapp_nil_r in E. rewrite E. simpl. lia. Qed.

Lemma elements_read l fuel depth r :
  l ≠ [] → Forall wf_json l → Forall reads l →
  (2 * String.length (Join (List.map print_json l) ",") < fuel)%nat →
  Forall (λ v, depth + Z.of_nat (height v) ≤ max_depth) l →
  elements_of fuel depth (Join (List.map print_json l) "," +:+ "]" +:+ r) = Some (l, r).
Proof.
  intros Hne Hwf Hr. revert fuel. induction l as [|v l IH]; intros fuel Hf Hh; [done|].
  destruct fuel as [|fuel]; [lia|]. apply Forall_cons in Hwf as [Hv Hwf], Hr as [Hrv Hr], Hh as [Hhv Hh].
  destruct l as [|w l].
  { cbn [List.map Join elements_of] in *. rewrite Hrv by (done || lia). done. }
  change (Join (List.map print_json (v :: w :: l)) ",")
    with (print_json v +:+ "," +:+ Join (List.map print_json (w :: l)) ",") in *.
  set (J := Join (List.map print_json (w :: l)) ",") in *. clearbody J.
  rewrite !slength_app in Hf. cbn [String.length] in Hf. rewrite !sapp_assoc. cbn [elements_of].
  rewrite Hrv by (done || lia). cbn [mbind option_bind]. simpl (skip_ws _). cbn beta iota.
  rewrite IH by (done || lia). done.
Qed.

Lemma members_read kvs fuel depth r :
  kvs ≠ [] → Forall (λ kv, str_ok kv.1 ∧ wf_json kv.2) kvs → Forall (λ kv, reads kv.2) kvs →
  (2 * String.length (Join (List.map member kvs) ",") < fuel)%nat →
  Forall (λ kv : string * json, depth + Z.of_nat (height kv.2) ≤ max_depth) kvs →
  members fuel depth (Join (List.map member kvs) "," +:+ "}" +:+ r) = Some (kvs, r).
Proof.
  intros Hne Hwf Hr. revert fuel. induction kvs as [|[k v] l IH]; intros fuel Hf Hh; [done|].
  destruct fuel as [|fuel]; [lia|].
  apply Forall_cons in Hwf as [[Hk Hv] Hwf], Hr as [Hrv Hr], Hh as [Hhv Hh]. simpl in Hk, Hv, Hrv, Hhv.
  assert (Hhead : ∀ t, skip_ws (member (k, v) +:+ t) = member (k, v) +:+ t).
  { intros t. unfold member. cbn [fst snd]. rewrite sapp_assoc. by destruct (print_str_head k ((":" +:+ print_json v) +:+ t)) as [u ->]. }
  assert (Hmem : ∀ t, str_lit (member (k, v) +:+ t) = Some (k, ":" +:+ print_json v +:+ t)).
  { intros t. unfold member. cbn [fst snd]. rewrite !sapp_assoc. by rewrite str_lit_ok. }
  assert (Hlen : (String.length (print_json v) < String.length (member (k, v)))%nat).
  { unfold member. rewrite !slength_app. simpl. lia. }
  destruct l as [|kw l].
  { cbn [List.map Join members] in *. rewrite Hhead, Hmem. cbn [mbind option_bind]. simpl (skip_ws _). cbn beta iota.
    rewrite Hrv by (done || lia). done. }
  change (Join (List.map member ((k, v) :: kw :: l)) ",")
    with (member (k, v) +:+ "," +:+ Join (List.map member (kw :: l)) ",") in *.
  set (J := Join (List.map member (kw :: l)) ",") in *. clearbody J.
  rewrite !slength_app in Hf. cbn [String.length] in Hf. rewrite !sapp_assoc. cbn [members].
  rewrite Hhead, Hmem. cbn [mbind option_bind]. simpl (skip_ws _). cbn beta iota.
  rewrite Hrv by (done || lia). cbn [mbind option_bind]. simpl (skip_ws _). cbn beta iota.
  rewrite IH by (done || lia). done.
Qed.

Lemma height_le (l : list nat) n : n ∈ l → (n ≤ list_max l)%nat.
Proof. intros H. pose proof (proj1 (list_max_le l (list_max l)) (le_n _)) as HF. rewrite List.Forall_forall in HF. by apply HF, list_elem_of_In. Qed.

Lemma heights_below {A} (f : A → json) l depth :
  depth + Z.of_nat (S (list_max (List.map (λ a, height (f a)) l))) ≤ max_depth →
  Forall (λ a, depth + 1 + Z.of_nat (height (f a)) ≤ max_depth) l.
Proof.
  intros H. apply Forall_forall. intros a Ha.
  assert (height (f a) ≤ list_max (List.map (λ a, height (f a)) l))%nat; [|lia].
  apply height_le, list_elem_of_In, in_map_iff. exists a. by rewrite <-list_elem_of_In.
Qed.

Lemma value_print v : wf_json v → reads v.
Proof.
  induction v as [|b|lit|s|l IH|kvs IH] using json_rect'; intros Hwf fuel depth r Hf Hh Hr;
    pose proof (print_nonempty _ Hwf); (destruct fuel as [|fuel]; [lia|]).
  - by destruct r.
  - by destruct b, r.
  - cbn [print_json]. apply wf_number in Hwf. destruct (number_head lit Hwf) as (c & t & E & Hc). pose proof (Hwf r Hr) as Hn.
    rewrite E in Hn |- *. cbn [String.append] in *. rewrite num_head_value by done. by rewrite Hn.
  - inversion Hwf; subst. cbn [print_json]. pose proof (str_lit_ok s r ltac:(done)) as Hs.
    destruct (print_str_head s r) as [t Ht]. rewrite Ht in Hs |- *. rewrite value_quote. by rewrite Hs.
  - assert (Forall wf_json l) as Hl by by inversion Hwf. assert (Forall reads l) as Hrl.
    { apply Forall_forall. intros v Hv. rewrite !Forall_forall in *. auto. }
    cbn [print_json] in *. apply (heights_below (λ v, v)) in Hh as Hhs. rewrite !slength_app in Hf. cbn [String.length] in Hf.
    destruct l as [|v l].
    { assert (E : (max_depth <? depth + 1) = false) by (simpl in Hh; lia). cbn -[max_depth]. by rewrite E. }
    pose proof (elements_read (v :: l) fuel (depth + 1) r ltac:(done) Hl Hrl ltac:(lia) Hhs) as He.
    rewrite !sapp_assoc. set (J := Join _ _ +:+ _ +:+ r) in *.
    assert (∃ c t, J = String c t ∧ is_ws c = false ∧ Ascii.eqb c "]" = false) as (c & t & HJ & Hws & Hc).
    { unfold J. apply Forall_cons in Hl as [Hv _]. cbn [List.map Join]. destruct (List.map print_json l);
        rewrite ?sapp_assoc; by apply print_head. }
    clearbody J. subst J. cbn [String.append]. rewrite value_arr by (done || cbn [height] in Hh; lia). by rewrite He.
  - assert (Forall (λ kv, str_ok kv.1 ∧ wf_json kv.2) kvs) as Hl by by inversion Hwf.
    assert (Forall (λ kv, reads kv.2) kvs) as Hrl.
    { rewrite !Forall_forall in *. intros kv Hkv. apply IH; [done|]. by apply Hl. }
    change (print_json (JObj kvs)) with ("{" +:+ Join (List.map member kvs) "," +:+ "}") in *.
    apply (heights_below snd) in Hh as Hhs. rewrite !slength_app in Hf. cbn [String.length] in Hf.
    destruct kvs as [|[k v] l].
    { assert (E : (max_depth <? depth + 1) = false) by (simpl in Hh; lia). cbn -[max_depth]. by rewrite E. }
    pose proof (members_read ((k, v) :: l) fuel (depth + 1) r ltac:(done) Hl Hrl ltac:(lia) Hhs) as He.
    rewrite !sapp_assoc. set (J := Join _ _ +:+ _ +:+ r) in *.
    assert (∃ t, J = String quote t) as [t HJ].
    { unfold J. cbn [List.map Join]. destruct (List.map member l); unfold member; cbn [fst snd]; rewrite ?sapp_assoc; apply print_str_head. }
    clearbody J. subst J. cbn [String.append]. rewrite value_obj by (cbn [height] in Hh; lia). by rewrite He.
Qed.

(** A written value reads back as itself. *)
Lemma parse_print v :
  wf_json v → Z.of_nat (height v) ≤ max_depth → parse_json (print_json v) = Some v.
Proof.
  intros Hwf Hh. unfold parse_json. pose proof (value_print v Hwf (2 * String.length (print_json v) + 2)%nat 0 "") as Hv.
  rewrite sapp_nil_r in Hv. rewrite Hv by (done || lia). done.
Qed.

(** A [json.Encoder] ends the text with a newline. *)
Definition encode_line (v : json) : string := print_json v +:+ String (chr 10) "".

Lemma parse_encode_line v :
  wf_json v → Z.of_nat (height v) ≤ max_depth → parse_json (encode_line v) = Some v.
Proof.
  intros Hwf Hh. unfold parse_json, encode_line.
  rewrite (value_print v Hwf) by (rewrite ?slength_app; done || lia). done.
Qed.

(** The JSON texts of different values differ. *)
Lemma print_inj v w :
  wf_json v → wf_json w → Z.of_nat (height v) ≤ max_depth → Z.of_nat (height w) ≤ max_depth →
  print_json v = print_json w → v = w.
Proof.
  intros Hv Hw Hhv Hhw E. pose proof (parse_print v Hv Hhv) as H. rewrite E, parse_print in H by done. by injection H.
Qed.

(** * Plain strings *)

Definition plain (c : ascii) : bool := (1 <=? code c)%N && (code c <? 128)%N.

Lemma to_valid_plain s n : sforall plain s = true → (String.length s ≤ n)%nat → to_valid_go n s = s.
Proof.
  revert n. induction s as [|c s IH]; intros [|n] Hs Hn; simpl in *; try done; try lia.
  unfold plain in Hs at 1. bprop. rewrite H1. by rewrite IH by (done || lia).
Qed.

Lemma plain_str_ok s : sforall plain s = true → str_ok s.
Proof.
  intros Hs. split.
  - unfold valid_utf8, to_valid. rewrite to_valid_plain by done. apply String.eqb_refl.
  - unfold lacks. eapply sforall_impl; [|done]. intros c Hc. apply negb_true_iff, Ascii.eqb_neq. intros <-. by vm_compute in Hc.
Qed.

Lemma uint_plain d : sforall plain (DecimalString.NilEmpty.string_of_uint d) = true.
Proof. induction d; simpl; try done; by rewrite IHd. Qed.

Lemma Itoa_plain z : sforall plain (Itoa z) = true.
Proof.
  assert (∀ d, sforall plain (DecimalString.NilZero.string_of_uint d) = true) as Hu.
  { intros d. destruct d; try apply uint_plain. done. }
  unfold Itoa, DecimalString.NilZero.string_of_int. destruct (Z.to_int z); [apply Hu|]. simpl. apply Hu.
Qed.
