(* ===== verification/Any.v ===== *)
(** Free-form JSON values: what encoding/json stores in an [interface{}] (the
    field values of src/platform/catalog/model.go), and how it writes them back. *)

From S2P Require Import Prelude GoStrings GoJson Float JsonPrint.
From Stdlib Require Import Ascii.

(** * Values

    A number is a [float64].  A [map[string]interface{}] is its association list
    in the order of the keys. *)
#[warnings="-register-all"]
Inductive any :=
| ANil
| ABool (b : bool)
| ANum (f : f64)
| AStr (s : string)
| AArr (l : list any)
| AObj (kvs : list (string * any)).

(** Assignment to a key of a map. *)
Fixpoint put (k : string) (v : any) (m : list (string * any)) : list (string * any) :=
  match m with
  | [] => [(k, v)]
  | (k', v') :: r =>
      match String.compare k k' with
      | Lt => (k, v) :: m
      | Eq => (k, v) :: r
      | Gt => (k', v') :: put k v r
      end
  end.

(** Decoding fails on a number out of the range of [float64] only. *)
Fixpoint decode_any (j : json) : option any :=
  match j with
  | JNull => Some ANil
  | JBool b => Some (ABool b)
  | JNum lit => ANum <$> ParseFloat lit
  | JStr s => Some (AStr s)
  | JArr l =>
      AArr <$> (fix go l :=
        match l with [] => Some [] | j :: l => x ← decode_any j; xs ← go l; Some (x :: xs) end) l
  | JObj kvs =>
      AObj <$> (fix go m kvs :=
        match kvs with [] => Some m | (k, j) :: kvs => x ← decode_any j; go (put k x m) kvs end) [] kvs
  end.

(** The encoder writes the members of a map in the order of their keys. *)
Fixpoint encode_any (v : any) : json :=
  match v with
  | ANil => JNull
  | ABool b => JBool b
  | ANum f => JNum (FormatFloat f)
  | AStr s => JStr s
  | AArr l => JArr (List.map encode_any l)
  | AObj kvs => JObj (List.map (λ kv, (kv.1, encode_any kv.2)) kvs)
  end.

Section any_ind.
Variable P : any → Prop.
Hypothesis Hnil : P ANil.
Hypothesis Hbool : ∀ b, P (ABool b).
Hypothesis Hnum : ∀ f, P (ANum f).
Hypothesis Hstr : ∀ s, P (AStr s).
Hypothesis Harr : ∀ l, Forall P l → P (AArr l).
Hypothesis Hobj : ∀ kvs, Forall (λ kv, P kv.2) kvs → P (AObj kvs).

(** Induction through the nested lists. *)
Fixpoint any_rect' (v : any) : P v :=
  match v with
  | ANil => Hnil
  | ABool b => Hbool b
  | ANum f => Hnum f
  | AStr s => Hstr s
  | AArr l => Harr l ((fix go l : Forall P l :=
                         match l with [] => Forall_nil_2 _ | v :: l => Forall_cons_2 _ _ _ (any_rect' v) (go l) end) l)
  | AObj kvs => Hobj kvs ((fix go l : Forall (λ kv, P kv.2) l :=
                             match l with [] => Forall_nil_2 _ | kv :: l => Forall_cons_2 _ _ _ (any_rect' kv.2) (go l) end) kvs)
  end.
End any_ind.

(** ** The order of keys *)

Definition key_lt (a b : string * any) : Prop := String.compare a.1 b.1 = Lt.

Lemma compare_lt_trans s t u : String.compare s t = Lt → String.compare t u = Lt → String.compare s u = Lt.
Proof.
  revert t u. induction s as [|c s IH]; intros [|d t] [|e u]; simpl; try done.
  unfold Ascii.compare. destruct (N.compare_spec (N_of_ascii c) (N_of_ascii d)) as [E1|L1|]; try done;
    destruct (N.compare_spec (N_of_ascii d) (N_of_ascii e)) as [E2|L2|]; try done; intros H1 H2.
  - rewrite E1, E2, N.compare_refl. eauto.
  - by rewrite E1, (proj2 (N.compare_lt_iff _ _) L2).
  - by rewrite <-E2, (proj2 (N.compare_lt_iff _ _) L1).
  - by rewrite (proj2 (N.compare_lt_iff _ _) (N.lt_trans _ _ _ L1 L2)).
Qed.

#[global] Instance key_lt_trans : Transitive key_lt.
Proof. intros a b c. apply compare_lt_trans. Qed.

Lemma compare_gt s t : String.compare s t = Gt → String.compare t s = Lt.
Proof. rewrite String.compare_antisym. by destruct (String.compare t s). Qed.

Lemma compare_refl s : String.compare s s = Eq.
Proof. induction s as [|c s IH]; [done|]. simpl. unfold Ascii.compare. by rewrite N.compare_refl. Qed.

(** ** Maps *)

Lemma put_keys k v m x : x ∈ put k v m → x = (k, v) ∨ x ∈ m.
Proof.
  induction m as [|[k' v'] m IH]; simpl; [intros H; apply list_elem_of_singleton in H; auto|].
  destruct (String.compare k k'); rewrite !elem_of_cons; naive_solver.
Qed.

Lemma put_sorted k v m : StronglySorted key_lt m → StronglySorted key_lt (put k v m).
Proof.
  induction 1 as [|[k' v'] m Hm IH Hk]; simpl; [by repeat constructor|].
  destruct (String.compare k k') eqn:E.
  - apply String.compare_eq_iff in E as ->. by constructor.
  - constructor; [by constructor|]. constructor; [done|]. eapply Forall_impl; [exact Hk|]. intros x. by transitivity (k', v').
  - constructor; [done|]. apply Forall_forall. intros x [->|Hx]%put_keys; [by apply compare_gt|].
    rewrite Forall_forall in Hk. auto.
Qed.

(** Assigning a new key adds the member. *)
Lemma put_fresh k v m : k ∉ m.*1 → put k v m ≡ₚ (k, v) :: m.
Proof.
  induction m as [|[k' v'] m IH]; intros Hk; simpl; [done|]. rewrite fmap_cons in Hk. apply not_elem_of_cons in Hk as [Hne Hk].
  destruct (String.compare k k') eqn:E; [by apply String.compare_eq_iff in E|done|]. rewrite IH by done. constructor.
Qed.

Definition put_all (m l : list (string * any)) : list (string * any) := foldl (λ m kv, put kv.1 kv.2 m) m l.

Lemma put_all_sorted m l : StronglySorted key_lt m → StronglySorted key_lt (put_all m l).
Proof. revert m. induction l as [|[k v] l IH]; intros m Hm; [done|]. simpl. by apply IH, put_sorted. Qed.

Lemma put_all_perm m l : NoDup (l.*1 ++ m.*1) → put_all m l ≡ₚ l ++ m.
Proof.
  revert m. induction l as [|[k v] l IH]; intros m Hnd; [done|]. simpl.
  rewrite fmap_cons in Hnd. apply NoDup_cons in Hnd as [Hk Hnd]. simpl in Hk. apply not_elem_of_app in Hk as [Hkl Hkm].
  pose proof (put_fresh k v m Hkm) as Hp. rewrite IH, Hp; [by rewrite <-Permutation_middle|].
  rewrite Hp, fmap_cons, <-Permutation_middle. apply NoDup_cons. split; [by apply not_elem_of_app|done].
Qed.

(** A map is rebuilt from its members in any order. *)
Lemma put_all_rebuild l l' : StronglySorted key_lt l → NoDup l.*1 → l ≡ₚ l' → put_all [] l' = l.
Proof.
  intros Hs Hnd Hp. apply (StronglySorted_unique_strong key_lt); [|by apply put_all_sorted; constructor|done|].
  - intros a b _ _ H1 H2. pose proof (compare_lt_trans _ _ _ H1 H2) as H. by rewrite compare_refl in H.
  - rewrite put_all_perm; [by rewrite app_nil_r|]. rewrite app_nil_r. by rewrite <-Hp.
Qed.

Lemma sorted_keys l : StronglySorted key_lt l → NoDup l.*1.
Proof.
  induction 1 as [|[k v] l Hl IH Hk]; [constructor|]. rewrite fmap_cons. constructor; [|done].
  intros ([k' v'] & E & Hin)%list_elem_of_fmap. simpl in E. subst k'. rewrite Forall_forall in Hk. specialize (Hk _ Hin).
  unfold key_lt in Hk. simpl in Hk. by rewrite compare_refl in Hk.
Qed.

(** * Well-formed values

    Valid strings, finite numbers for which [c] holds, maps in order. *)
#[warnings="-register-all"]
Inductive formed (c : f64 → Prop) : any → Prop :=
| formed_nil : formed c ANil
| formed_bool b : formed c (ABool b)
| formed_num f : valid_f64 f → c f → formed c (ANum f)
| formed_str s : str_ok s → formed c (AStr s)
| formed_arr l : Forall (formed c) l → formed c (AArr l)
| formed_obj kvs : StronglySorted key_lt kvs → Forall (λ kv, str_ok kv.1 ∧ formed c kv.2) kvs → formed c (AObj kvs).

(** A jsonb column has no negative zero. *)
Definition has_sign (f : f64) : Prop := mant f = 0 → neg f = false.

Lemma fst_encoded (kvs : list (string * any)) : (List.map (λ kv, (kv.1, encode_any kv.2)) kvs).*1 = kvs.*1.
Proof. induction kvs as [|kv kvs IH]; [done|]. simpl. by f_equal. Qed.

Lemma encode_wf v : formed has_sign v → wf_json (encode_any v).
Proof.
  induction v as [| | | |l IH|kvs IH] using any_rect'; inversion 1; subst; simpl; try by constructor.
  - constructor. apply List.Forall_map. rewrite !Forall_forall in *. auto.
  - constructor; [rewrite fst_encoded; by apply sorted_keys|]. apply List.Forall_map. rewrite !Forall_forall in *.
    intros [k x] Hx. simpl. specialize (IH _ Hx). destruct (H2 _ Hx). auto.
Qed.

(** ** Decoded values are well formed *)

#[warnings="-register-all"]
Inductive text_ok : json → Prop :=
| tx_null : text_ok JNull
| tx_bool b : text_ok (JBool b)
| tx_num l : text_ok (JNum l)
| tx_str s : str_ok s → text_ok (JStr s)
| tx_arr l : Forall text_ok l → text_ok (JArr l)
| tx_obj kvs : Forall (λ kv, str_ok kv.1 ∧ text_ok kv.2) kvs → text_ok (JObj kvs).

Lemma put_forall (P : string * any → Prop) k v m : P (k, v) → Forall P m → Forall P (put k v m).
Proof. rewrite !Forall_forall. intros Hk Hm x [->|Hx]%put_keys; auto. Qed.

Lemma decode_formed j v : text_ok j → decode_any j = Some v → formed (λ _, True) v.
Proof.
  revert v. induction j as [| |lit| |l IH|kvs IH] using json_rect'; intros v Ht; simpl; try (intros [= <-]; constructor; by inversion Ht).
  - destruct (ParseFloat lit) eqn:E; simpl; [|done]. intros [= <-]. constructor; [by eapply ParseFloat_valid|done].
  - intros (xs & H & ->)%fmap_Some. constructor. assert (Forall text_ok l) as Hl by by inversion Ht. clear Ht.
    revert xs H. induction l as [|j l IHl]; intros xs; [by intros [= <-]|]. apply Forall_cons in IH as [IHj IH], Hl as [Hj Hl].
    destruct (decode_any j) as [x|]; [|done]. simpl. intros (ys & Hy & [= <-])%bind_Some. constructor; auto.
  - intros (m & H & ->)%fmap_Some. assert (Forall (λ kv, str_ok kv.1 ∧ text_ok kv.2) kvs) as Hl by by inversion Ht. clear Ht.
    assert (StronglySorted key_lt m ∧ Forall (λ kv, str_ok kv.1 ∧ formed (λ _, True) kv.2) m) as [? ?]; [|by constructor].
    revert H. generalize (SSorted_nil key_lt : StronglySorted key_lt []).
    generalize (List.Forall_nil (λ kv, str_ok kv.1 ∧ formed (λ _, True) kv.2)). generalize (@nil (string * any)).
    induction kvs as [|[k j] kvs IHl]; intros acc Ha Hs; [by intros [= <-]|]. apply Forall_cons in IH as [IHj IH], Hl as [[Hk Hj] Hl].
    simpl in *. destruct (decode_any j) as [x|]; [|done]. simpl. apply IHl; [done|done| |by apply put_sorted].
    apply put_forall; [|done]. split; [done|]. by apply IHj.
Qed.
