(* ===== verification/Filter.v ===== *)
(** The filter language of list requests (src/resource/filter.go): parsing of
    an expression into a SQL WHERE clause with positional arguments. *)

From S2P Require Import Prelude GoStrings.
From Stdlib Require Import Ascii.

(** * Tables of the parser *)

Definition jsonbPrefixes : list string := ["labels."; "annotations."].

Definition operators : list string := [">="; "<="; "!="; "=="; ">"; "<"; "="].

(** [operatorMap] has the single entry ["==" -> "="]. *)
Definition operatorMap (op : string) : option string :=
  if String.eqb op "==" then Some "=" else None.

(** The errors the parser returns, by the message they format. *)
Inductive FilterError :=
| ErrMissingOperator (term : string)
| ErrEmptyField (term : string)
| ErrInvalidField (term field : string).

(** * The parser, as in the source *)

Definition replaceKeyword (s keyword replacement : string) : string :=
  ReplaceAll s keyword replacement.

Definition splitKeyword (s keyword : string) : list string := Split s keyword.

Definition splitOR (expr : string) : list string :=
  let normalized := replaceKeyword expr " || " " OR " in
  splitKeyword normalized " OR ".

Definition splitAND (expr : string) : list string :=
  let normalized := replaceKeyword expr " AND " "," in
  let normalized := replaceKeyword normalized " && " "," in
  Split normalized ",".

(** One iteration of the search of [extractFieldOpValue]: [best] is the pair
    [bestIdx], [bestOp], [None] while [bestIdx < 0]. *)
Definition better (term : string) (best : option (nat * string)) (candidate : string)
  : option (nat * string) :=
  match Index term candidate with
  | None => best
  | Some idx =>
      match best with
      | None => Some (idx, candidate)
      | Some (bestIdx, bestOp) =>
          if (idx <? bestIdx)%nat
             || ((idx =? bestIdx)%nat && (String.length bestOp <? String.length candidate)%nat)
          then Some (idx, candidate)
          else best
      end
  end.

Definition extractFieldOpValue (term : string)
  : FilterError + (string * string * string) :=
  match foldl (better term) None operators with
  | None => inl (ErrMissingOperator term)
  | Some (bestIdx, bestOp) =>
      let field := TrimSpace (stake bestIdx term) in
      let value := TrimSpace (sdrop (bestIdx + String.length bestOp) term) in
      inr (field, bestOp, value)
  end.

(** The loop of [fieldToSQL] over the JSONB prefixes. *)
Fixpoint fieldToSQL_go (prefixes : list string) (field : string) : string :=
  match prefixes with
  | [] => field
  | prefix :: rest =>
      if HasPrefix field prefix then
        let column := TrimSuffix prefix "." in
        let key := sdrop (String.length prefix) field in
        column +:+ "->>'" +:+ key +:+ "'"
      else fieldToSQL_go rest field
  end.

Definition fieldToSQL (field : string) : string := fieldToSQL_go jsonbPrefixes field.

Definition char_between (lo hi c : ascii) : bool :=
  (N_of_ascii lo <=? N_of_ascii c)%N && (N_of_ascii c <=? N_of_ascii hi)%N.

(** The source ranges over the runes of the name; a byte above 127 starts or
    continues a rune outside the allowed ASCII classes, so testing the bytes
    rejects the same names. *)
Definition isFieldChar (c : ascii) : bool :=
  char_between "a" "z" c || char_between "A" "Z" c ||
  char_between "0" "9" c || Ascii.eqb c "_" || Ascii.eqb c ".".

Definition isValidFieldName (name : string) : bool :=
  if (slen name =? 0) || (64 <? slen name) then false
  else sforall isFieldChar name.

Definition parseTerm (term : string) : FilterError + (string * string) :=
  let? (field, op, val) := extractFieldOpValue term in
  if String.eqb field "" then inl (ErrEmptyField term)
  else if negb (isValidFieldName field) then inl (ErrInvalidField term field)
  else
    let op := match operatorMap op with Some mapped => mapped | None => op end in
    let sqlField := fieldToSQL field in
    inr (sqlField +:+ " " +:+ op +:+ " ?", val).

(** The inner loop of [ParseFilter]: the AND terms of one group; [args] is the
    argument slice shared by all groups. *)
Fixpoint and_loop (andTerms andClauses args : list string)
  : FilterError + (list string * list string) :=
  match andTerms with
  | [] => inr (andClauses, args)
  | term :: rest =>
      let term := TrimSpace term in
      if String.eqb term "" then and_loop rest andClauses args
      else
        let? (tc, tv) := parseTerm term in
        and_loop rest (andClauses ++ [tc]) (args ++ [tv])
  end.

(** The outer loop of [ParseFilter]: the OR groups. *)
Fixpoint or_loop (orGroups orClauses args : list string)
  : FilterError + (list string * list string) :=
  match orGroups with
  | [] => inr (orClauses, args)
  | group :: rest =>
      let group := TrimSpace group in
      if String.eqb group "" then or_loop rest orClauses args
      else
        let? (andClauses, args) := and_loop (splitAND group) [] args in
        match andClauses with
        | [] => or_loop rest orClauses args
        | [c] => or_loop rest (orClauses ++ [c]) args
        | _ => or_loop rest (orClauses ++ [Join andClauses " AND "]) args
        end
  end.

Definition ParseFilter (expr : string) : FilterError + (string * list string) :=
  if String.eqb expr "" then inr ("", [])
  else
    let? (orClauses, args) := or_loop (splitOR expr) [] [] in
    match orClauses with
    | [] => inr ("", [])
    | [c] => inr (c, args)
    | _ => inr (Join ((λ c, "(" +:+ c +:+ ")") <$> orClauses) " OR ", args)
    end.

Example ParseFilter_ex1 :
  ParseFilter "status=active,region>=us OR labels.env == prod && x!=1" =
  inr ("(status = ? AND region >= ?) OR (labels->>'env' = ? AND x != ?)",
       ["active"; "us"; "prod"; "1"]).
Proof. reflexivity. Qed.

Example ParseFilter_ex2 : ParseFilter "name; DROP TABLE=1" =
  inl (ErrInvalidField "name; DROP TABLE=1" "name; DROP TABLE").
Proof. reflexivity. Qed.

(** * Reference: filters in disjunctive normal form *)

Record fterm := FTerm { ft_field : string; ft_op : string; ft_value : string }.

(** A filter is a disjunction of groups, each a conjunction of terms. *)
Abbreviation filter_dnf := (list (list fterm)).

Definition sql_op (op : string) : string := default op (operatorMap op).

Definition render_term (t : fterm) : string :=
  fieldToSQL (ft_field t) +:+ " " +:+ sql_op (ft_op t) +:+ " ?".

Definition render_group (g : list fterm) : string := Join (render_term <$> g) " AND ".

Definition render (f : filter_dnf) : string :=
  match f with
  | [] => ""
  | [g] => render_group g
  | _ => Join ((λ g, "(" +:+ render_group g +:+ ")") <$> f) " OR "
  end.

Definition dnf_args (f : filter_dnf) : list string := ft_value <$> concat f.

Definition nonblank (s : string) : bool := negb (String.eqb s "").

Definition ref_term (term : string) : FilterError + fterm :=
  let? (field, op, val) := extractFieldOpValue term in
  if String.eqb field "" then inl (ErrEmptyField term)
  else if negb (isValidFieldName field) then inl (ErrInvalidField term field)
  else inr (FTerm field op val).

Definition ref_group (group : string) : FilterError + list fterm :=
  mapE ref_term (bfilter nonblank (TrimSpace <$> splitAND group)).

Definition is_nonempty {A} (l : list A) : bool := match l with [] => false | _ => true end.

Definition ref_filter (expr : string) : FilterError + filter_dnf :=
  let? gs := mapE ref_group (bfilter nonblank (TrimSpace <$> splitOR expr)) in
  inr (bfilter is_nonempty gs).

(** * The loops compute the reference *)

Lemma parseTerm_ref term :
  parseTerm term = let? t := ref_term term in inr (render_term t, ft_value t).
Proof.
  unfold parseTerm, ref_term. destruct (extractFieldOpValue term) as [|[[field op] val]]; [done|].
  destruct (String.eqb field ""); [done|]. destruct (isValidFieldName field); [|done].
  unfold render_term, sql_op. simpl. by destruct (operatorMap op).
Qed.

Lemma and_loop_ref terms cs args :
  and_loop terms cs args =
  let? ts := mapE ref_term (bfilter nonblank (TrimSpace <$> terms)) in
  inr (cs ++ (render_term <$> ts), args ++ (ft_value <$> ts)).
Proof.
  revert cs args. induction terms as [|t terms IH]; intros cs args; cbn [and_loop].
  - simpl. by rewrite !app_nil_r.
  - rewrite fmap_cons. unfold bfilter, nonblank at 1. cbn [List.filter].
    destruct (String.eqb (TrimSpace t) ""); simpl; [apply IH|].
    rewrite parseTerm_ref. destruct (ref_term (TrimSpace t)) as [|u]; [done|].
    rewrite IH. destruct (mapE _ _) as [|us]; [done|].
    simpl. by rewrite <-!app_assoc.
Qed.

Lemma or_loop_ref groups cs args :
  or_loop groups cs args =
  let? gs := mapE ref_group (bfilter nonblank (TrimSpace <$> groups)) in
  inr (cs ++ (render_group <$> bfilter is_nonempty gs), args ++ dnf_args gs).
Proof.
  revert cs args. induction groups as [|g groups IH]; intros cs args; cbn [or_loop].
  - unfold dnf_args. simpl. by rewrite !app_nil_r.
  - rewrite fmap_cons. unfold bfilter at 1, nonblank at 1. cbn [List.filter].
    destruct (String.eqb (TrimSpace g) "") eqn:E; cbn [negb]; [apply IH|].
    rewrite and_loop_ref. cbn [mapE]. unfold ref_group at 1.
    destruct (mapE ref_term _) as [|ts]; [done|]. cbn [app].
    unfold bfilter in IH. destruct ts as [|t [|u ts]]; cbn [fmap list_fmap app].
    all: rewrite IH; destruct (mapE ref_group _) as [|gs]; [done|].
    all: unfold dnf_args; simpl; rewrite ?app_nil_r, ?fmap_app, <-?app_assoc; done.
Qed.

Lemma bfilter_concat_nonempty {A} (l : list (list A)) :
  concat (bfilter is_nonempty l) = concat l.
Proof. induction l as [|[|x g] l IH]; simpl; [done|done|]. unfold bfilter in *. by rewrite IH. Qed.

Lemma ParseFilter_ref expr :
  ParseFilter expr = let? f := ref_filter expr in inr (render f, dnf_args f).
Proof.
  unfold ParseFilter, ref_filter. destruct (String.eqb_spec expr "") as [->|_]; [done|].
  rewrite or_loop_ref. destruct (mapE _ _) as [|gs]; [done|]. cbn [app].
  unfold dnf_args. rewrite <-(bfilter_concat_nonempty gs).
  destruct (bfilter is_nonempty gs) as [|g [|h f]]; simpl; [done|done|].
  by rewrite <-list_fmap_compose.
Qed.

(** * The operator search *)

(** [best] is the leftmost occurrence among [cands], the longest at a tie. *)
Definition best_of (term : string) (cands : list string) (best : option (nat * string)) : Prop :=
  match best with
  | None => ∀ c, c ∈ cands → Index term c = None
  | Some (i, op) =>
      op ∈ cands ∧ Index term op = Some i ∧
      ∀ c j, c ∈ cands → Index term c = Some j →
        (i < j)%nat ∨ (i = j ∧ (String.length c ≤ String.length op)%nat)
  end.

Lemma better_best_of term done best c :
  best_of term done best → best_of term (done ++ [c]) (better term best c).
Proof.
  unfold better. intros Hb. destruct (Index term c) as [idx|] eqn:Ec.
  - destruct best as [[i op]|]; simpl in Hb.
    + destruct Hb as (Hin & Hop & Hmin).
      destruct (_ || _) eqn:Et.
      * split; [set_solver|]. split; [done|]. intros d j [Hd|Hd%list_elem_of_singleton]%elem_of_app Hj.
        -- specialize (Hmin _ _ Hd Hj). lia.
        -- subst. rewrite Ec in Hj. injection Hj as <-. lia.
      * split; [set_solver|]. split; [done|]. intros d j [Hd|Hd%list_elem_of_singleton]%elem_of_app Hj; [eauto|].
        subst. rewrite Ec in Hj. injection Hj as <-. lia.
    + split; [set_solver|]. split; [done|]. intros d j [Hd|Hd%list_elem_of_singleton]%elem_of_app Hj.
      * by rewrite (Hb _ Hd) in Hj.
      * subst. rewrite Ec in Hj. injection Hj as <-. lia.
  - destruct best as [[i op]|]; simpl in *.
    + destruct Hb as (Hin & Hop & Hmin). split; [set_solver|]. split; [done|].
      intros d j [Hd|Hd%list_elem_of_singleton]%elem_of_app Hj; [eauto|congruence].
    + intros d [Hd|Hd%list_elem_of_singleton]%elem_of_app; [eauto|congruence].
Qed.

Lemma foldl_better_best_of term done cands best :
  best_of term done best → best_of term (done ++ cands) (foldl (better term) best cands).
Proof.
  revert done best. induction cands as [|c cands IH]; intros done best Hb.
  - by rewrite app_nil_r.
  - simpl. rewrite cons_middle, app_assoc. by apply IH, better_best_of.
Qed.

Lemma operators_best_of term : best_of term operators (foldl (better term) None operators).
Proof. apply (foldl_better_best_of term []). intros c Hc. by apply elem_of_nil in Hc. Qed.

(** The operator of a term is the leftmost occurrence of any operator, and the
    longest one at that position: with no operator in the term the error says so,
    otherwise the field is the trimmed text before it and the value the trimmed
    text after it.  (So [a>=1] is read with [>=] and never as [a > "=1"].) *)
Theorem extract_leftmost_longest term :
  match extractFieldOpValue term with
  | inl e => e = ErrMissingOperator term ∧ ∀ op, op ∈ operators → Index term op = None
  | inr (field, op, value) =>
      op ∈ operators ∧ ∃ i, Index term op = Some i ∧
      field = TrimSpace (stake i term) ∧ value = TrimSpace (sdrop (i + String.length op) term) ∧
      ∀ op' j, op' ∈ operators → Index term op' = Some j →
        (i < j)%nat ∨ (i = j ∧ (String.length op' ≤ String.length op)%nat)
  end.
Proof.
  unfold extractFieldOpValue. pose proof (operators_best_of term) as Hb.
  destruct (foldl _ _ _) as [[i op]|]; simpl in Hb; [|done].
  destruct Hb as (Hop & Hi & Hbest). split; [done|]. exists i. done.
Qed.

(** * What a parsed clause is made of *)

Definition valid_term (t : fterm) : Prop :=
  isValidFieldName (ft_field t) = true ∧ ft_op t ∈ operators.

(** The characters a clause may hold: those of a field name, and those of the
    operators, the JSONB accessor, the parentheses and the placeholder. *)
Definition clauseChar (c : ascii) : bool :=
  isFieldChar c || existsb (Ascii.eqb c) [" "; "?"; "'"; "("; ")"; "-"; ">"; "<"; "="; "!"]%char.

Lemma ref_term_valid s t : ref_term s = inr t → valid_term t.
Proof.
  unfold ref_term, extractFieldOpValue. pose proof (operators_best_of s) as Hb.
  destruct (foldl _ _ _) as [[i op]|]; [|done].
  destruct (String.eqb _ ""); [done|].
  destruct (isValidFieldName _) eqn:E; [|done]. intros [= <-].
  split; [done|]. by destruct Hb.
Qed.

Lemma ref_filter_valid expr f : ref_filter expr = inr f → Forall (Forall valid_term) f.
Proof.
  unfold ref_filter. destruct (mapE ref_group _) as [|gs] eqn:E; [done|]. intros [= <-].
  apply mapE_inr in E. apply Forall_forall. intros g [Hg _]%elem_of_bfilter.
  apply list_elem_of_lookup in Hg as [i Hi]. eapply Forall2_lookup_r in E as (s & _ & Hs); [|done].
  unfold ref_group in Hs. apply mapE_inr in Hs. apply Forall_forall. intros t Ht.
  apply list_elem_of_lookup in Ht as [j Hj]. eapply Forall2_lookup_r in Hs as (u & _ & Hu); [|done].
  by eapply ref_term_valid.
Qed.

Lemma isValidFieldName_chars s : isValidFieldName s = true → sforall isFieldChar s = true.
Proof. unfold isValidFieldName. by destruct (_ || _). Qed.

Lemma fieldToSQL_eq s :
  fieldToSQL s =
  if HasPrefix s "labels." then "labels->>'" +:+ sdrop 7 s +:+ "'"
  else if HasPrefix s "annotations." then "annotations->>'" +:+ sdrop 12 s +:+ "'"
  else s.
Proof. reflexivity. Qed.

Lemma fieldToSQL_chars s :
  sforall isFieldChar s = true →
  sforall clauseChar (fieldToSQL s) = true ∧ scount "?" (fieldToSQL s) = 0%nat.
Proof.
  intros Hs. assert (Hd : ∀ n, sforall isFieldChar (sdrop n s) = true) by (intros; by apply sforall_sdrop).
  assert (Himp : ∀ c, isFieldChar c = true → clauseChar c = true) by (unfold clauseChar; by intros c ->).
  rewrite fieldToSQL_eq. split_matches; rewrite ?sforall_app, ?scount_app.
  all: rewrite ?(sforall_impl _ _ _ Himp (Hd _)), ?(sforall_impl _ _ _ Himp Hs).
  all: rewrite ?(scount_sforall "?" _ _ (Hd _) eq_refl), ?(scount_sforall "?" _ _ Hs eq_refl).
  all: done.
Qed.

Lemma sql_op_chars op :
  op ∈ operators → sforall clauseChar (sql_op op) = true ∧ scount "?" (sql_op op) = 0%nat.
Proof.
  unfold operators. rewrite !elem_of_cons. intros H.
  repeat destruct H as [->|H]; try done. by apply elem_of_nil in H.
Qed.

Lemma render_term_chars t :
  valid_term t → sforall clauseChar (render_term t) = true ∧ scount "?" (render_term t) = 1%nat.
Proof.
  intros [Hf%isValidFieldName_chars%fieldToSQL_chars Ho%sql_op_chars].
  unfold render_term. rewrite !sforall_app, !scount_app. simpl.
  destruct Hf as [-> ->], Ho as [-> ->]. done.
Qed.

Lemma render_group_chars g :
  Forall valid_term g →
  sforall clauseChar (render_group g) = true ∧ scount "?" (render_group g) = length g.
Proof.
  intros Hg. split.
  - apply sforall_Join; [|done]. apply Forall_fmap. eapply Forall_impl; [done|].
    intros t Ht. by apply render_term_chars.
  - unfold render_group. rewrite scount_Join by done.
    induction Hg as [|t g Ht Hg IH]; [done|].
    rewrite !fmap_cons. cbn [sum_list_with length]. rewrite IH. unfold id.
    by rewrite (proj2 (render_term_chars t Ht)).
Qed.

Lemma render_chars f :
  Forall (Forall valid_term) f →
  sforall clauseChar (render f) = true ∧ scount "?" (render f) = length (dnf_args f).
Proof.
  intros Hf. unfold dnf_args. rewrite length_fmap.
  destruct f as [|g [|h f]]; [done| |].
  - apply Forall_cons in Hf as [Hf _]. unfold render. cbn [concat]. rewrite app_nil_r.
    apply render_group_chars, Hf.
  - unfold render. split.
    + apply sforall_Join; [|done]. apply Forall_fmap. eapply Forall_impl; [done|].
      intros k Hk%render_group_chars. simpl. rewrite sforall_app. by destruct Hk as [-> _].
    + rewrite scount_Join by done. generalize (g :: h :: f) Hf. clear.
      induction 1 as [|g f Hg Hf IH]; [done|].
      rewrite !fmap_cons. cbn [sum_list_with concat]. rewrite IH, length_app. unfold id.
      rewrite !scount_app. destruct (render_group_chars g Hg) as [_ ->]. simpl. lia.
Qed.

(** C10: a filter that parses is safe to hand to the database.  Whatever the input
    text, the clause is the rendering of a disjunction of conjunctions of terms
    whose field names passed the validation and whose operators come from the
    fixed table; it holds only the characters of those names, operators and of
    the fixed SQL syntax, no text of a value, and it has exactly one placeholder
    per argument, the arguments being the values in order. *)
Theorem ParseFilter_sound expr clause args :
  ParseFilter expr = inr (clause, args) →
  ∃ f : filter_dnf,
    Forall (Forall valid_term) f ∧
    clause = render f ∧ args = dnf_args f ∧
    sforall clauseChar clause = true ∧ scount "?" clause = length args.
Proof.
  rewrite ParseFilter_ref. destruct (ref_filter expr) as [|f] eqn:E; [done|]. intros [= <- <-].
  apply ref_filter_valid in E. destruct (render_chars f E). by exists f.
Qed.

(** * Printing a filter and parsing it back *)

Definition print_term (t : fterm) : string := ft_field t +:+ ft_op t +:+ ft_value t.
Definition print_group (g : list fterm) : string := Join (print_term <$> g) ",".
Definition print_filter (f : filter_dnf) : string := Join (print_group <$> f) " OR ".

Definition plainChar (c : ascii) : bool :=
  graphic c && negb (Ascii.eqb "," c) && negb (Ascii.eqb "|" c).

(** Terms that the concrete syntax can express: a valid field, a known
    operator, and a value without blanks, [,] or [|] that does not extend the
    operator. *)
Definition printable (t : fterm) : Prop :=
  valid_term t ∧ sforall plainChar (ft_value t) = true ∧ HasPrefix (ft_value t) "=" = false.

Lemma isFieldChar_plain c : isFieldChar c = true → plainChar c = true.
Proof. by destruct c as [[][][][][][][][]]. Qed.

Lemma operator_plain op : op ∈ operators → sforall plainChar op = true.
Proof.
  unfold operators. rewrite !elem_of_cons. intros H.
  repeat destruct H as [->|H]; try done. by apply elem_of_nil in H.
Qed.

Lemma print_term_plain t : printable t → sforall plainChar (print_term t) = true.
Proof.
  intros ([Hf Ho] & Hv & _). unfold print_term. rewrite !sforall_app, Hv, (operator_plain _ Ho).
  apply isValidFieldName_chars in Hf.
  by rewrite (sforall_impl _ _ _ isFieldChar_plain Hf).
Qed.

Lemma field_lacks c s :
  sforall isFieldChar s = true → isFieldChar c = false → lacks c s = true.
Proof.
  intros Hs Hc. eapply sforall_impl; [|exact Hs]. intros d Hd. simpl.
  destruct (Ascii.eqb_spec c d); [congruence|done].
Qed.

Lemma operator_head op : op ∈ operators → ∃ c r, op = String c r ∧ isFieldChar c = false.
Proof.
  unfold operators. rewrite !elem_of_cons. intros H.
  repeat destruct H as [->|H]; try (by do 2 eexists). by apply elem_of_nil in H.
Qed.

(** Before the operator of a printed term there is none; at its position the
    printed operator is the longest one. *)
Lemma print_term_Index t c :
  printable t → c ∈ operators →
  Index (print_term t) c =
  Nat.add (String.length (ft_field t)) <$> Index (ft_op t +:+ ft_value t) c.
Proof.
  intros ([Hf Ho] & _) Hc. unfold print_term.
  destruct (operator_head c Hc) as (d & r & -> & Hd).
  apply Index_skip, field_lacks; [|done]. by apply isValidFieldName_chars.
Qed.

Lemma operator_longest op op' v :
  op ∈ operators → op' ∈ operators → HasPrefix v "=" = false →
  HasPrefix (op +:+ v) op' = true → (String.length op ≤ String.length op')%nat → op' = op.
Proof.
  unfold operators. rewrite !elem_of_cons. intros H H' Hv.
  assert (Hv' : String.prefix "=" v = false) by exact Hv.
  repeat destruct H as [->|H]; repeat destruct H' as [->|H']; unfold HasPrefix; simpl;
    rewrite ?Hv'; try done; try (by apply elem_of_nil in H); try (by apply elem_of_nil in H');
    try (destruct v; done); try lia.
Qed.

Lemma extract_print_term t :
  printable t →
  foldl (better (print_term t)) None operators = Some (String.length (ft_field t), ft_op t).
Proof.
  intros Ht. pose proof Ht as ([Hf Ho] & Hv & Heq).
  pose proof (operators_best_of (print_term t)) as Hb.
  assert (Hop : Index (print_term t) (ft_op t) = Some (String.length (ft_field t))).
  { rewrite print_term_Index by done. destruct (operator_head _ Ho) as (c & r & -> & _).
    change (String c r +:+ ft_value t) with (String c (r +:+ ft_value t)). cbn [Index].
    unfold HasPrefix. change (String c (r +:+ ft_value t)) with (String c r +:+ ft_value t).
    rewrite prefix_app. simpl. f_equal. lia. }
  destruct (foldl _ _ _) as [[i op']|]; simpl in Hb.
  - destruct Hb as (Hin & Hi & Hmin). specialize (Hmin _ _ Ho Hop).
    rewrite print_term_Index in Hi by done.
    destruct (Index (ft_op t +:+ ft_value t) op') as [k|] eqn:Ek; [|done].
    injection Hi as <-. assert (k = 0%nat) as -> by lia.
    apply Index_bound in Ek as [Ek _]. simpl in Ek.
    rewrite (operator_longest (ft_op t) op' (ft_value t)); [|done|done|done|done|lia].
    by rewrite Nat.add_0_r.
  - by rewrite (Hb _ Ho) in Hop.
Qed.

Lemma plain_graphic s : sforall plainChar s = true → sforall graphic s = true.
Proof. apply sforall_impl. unfold plainChar. intros c H. by bprop. Qed.

Lemma isFieldChar_graphic c : isFieldChar c = true → graphic c = true.
Proof. intros H%isFieldChar_plain. unfold plainChar in H. by bprop. Qed.

Lemma ref_print_term t : printable t → ref_term (print_term t) = inr t.
Proof.
  intros Ht. pose proof Ht as ([Hf Ho] & Hv & _). pose proof (isValidFieldName_chars _ Hf) as Hc.
  unfold ref_term, extractFieldOpValue. rewrite extract_print_term by done.
  unfold print_term. rewrite stake_app, sdrop_app.
  replace (String.length (ft_op t)) with (String.length (ft_op t) + 0)%nat by lia.
  rewrite sdrop_app. cbn [sdrop].
  rewrite !TrimSpace_graphic by eauto using plain_graphic, sforall_impl, isFieldChar_graphic.
  destruct (String.eqb_spec (ft_field t) "") as [He|_]; [by rewrite He in Hf|].
  rewrite Hf. simpl. by destruct t.
Qed.

Lemma plain_lacks c s : sforall plainChar s = true → plainChar c = false → lacks c s = true.
Proof.
  intros Hs Hc. eapply sforall_impl; [|exact Hs]. intros d Hd. simpl.
  destruct (Ascii.eqb_spec c d); [congruence|done].
Qed.

Definition groupChar (c : ascii) : bool := graphic c && negb (Ascii.eqb "|" c).

Lemma groupChar_lacks c s : sforall groupChar s = true → groupChar c = false → lacks c s = true.
Proof.
  intros Hs Hc. eapply sforall_impl; [|exact Hs]. intros d Hd. simpl.
  destruct (Ascii.eqb_spec c d); [congruence|done].
Qed.

Lemma print_group_chars g :
  Forall printable g → sforall groupChar (print_group g) = true.
Proof.
  intros Hg. apply sforall_Join; [|done]. apply Forall_fmap. eapply Forall_impl; [done|].
  intros t Ht%print_term_plain. eapply sforall_impl; [|exact Ht].
  unfold plainChar, groupChar. intros c H. bprop. by rewrite H, H0.
Qed.

Lemma trim_nonblank l :
  Forall (λ s, sforall graphic s = true ∧ s ≠ "") l → bfilter nonblank (TrimSpace <$> l) = l.
Proof.
  induction 1 as [|s l [Hs Hne] Hl IH]; [done|]. rewrite fmap_cons, TrimSpace_graphic by done.
  unfold bfilter in *. simpl. unfold nonblank at 1. destruct (String.eqb_spec s ""); [done|].
  simpl. by rewrite IH.
Qed.

Lemma print_term_nonempty t : printable t → print_term t ≠ "".
Proof.
  intros ([Hf _] & _) H. unfold print_term in H. destruct (ft_field t); [done|]. discriminate.
Qed.

Lemma print_group_nonempty g : g ≠ [] → Forall printable g → print_group g ≠ "".
Proof.
  intros Hne Hg. destruct Hg as [|t g Ht Hg]; [done|]. apply print_term_nonempty in Ht.
  unfold print_group. rewrite fmap_cons.
  destruct g as [|u g]; simpl; [done|]. by destruct (print_term t).
Qed.

Lemma ref_print_group g : g ≠ [] → Forall printable g → ref_group (print_group g) = inr g.
Proof.
  intros Hne Hg. pose proof (print_group_chars g Hg) as Hc.
  assert (Hsp : lacks " " (print_group g) = true) by by apply groupChar_lacks.
  unfold ref_group, splitAND, replaceKeyword, ReplaceAll.
  rewrite (replace_go_lacks " " " AND ") by done. rewrite (replace_go_lacks " " " && ") by done.
  unfold print_group. rewrite Split_Join.
  - rewrite trim_nonblank.
    + apply mapE_inr. apply Forall2_fmap_l, Forall_Forall2_diag.
      eapply Forall_impl; [done|]. apply ref_print_term.
    + apply Forall_fmap. eapply Forall_impl; [done|]. intros t Ht. simpl.
      eauto using plain_graphic, print_term_plain, print_term_nonempty.
  - by destruct g.
  - apply Forall_fmap. eapply Forall_impl; [done|]. intros t Ht.
    apply plain_lacks; [by apply print_term_plain|done].
Qed.

Lemma ref_print_filter f :
  f ≠ [] → Forall (λ g, g ≠ [] ∧ Forall printable g) f → ref_filter (print_filter f) = inr f.
Proof.
  intros Hne Hf. unfold ref_filter, splitOR, replaceKeyword, ReplaceAll, splitKeyword.
  rewrite (replace_go_lacks "|" " || "); [|done|].
  2:{ apply sforall_Join; [|done]. apply Forall_fmap. eapply Forall_impl; [done|].
      intros g [_ Hg]. apply groupChar_lacks; [by apply print_group_chars|done]. }
  unfold print_filter. rewrite Split_Join.
  - rewrite trim_nonblank.
    + assert (mapE ref_group (print_group <$> f) = inr f) as ->.
      { apply mapE_inr. apply Forall2_fmap_l, Forall_Forall2_diag.
        eapply Forall_impl; [done|]. intros g [H1 H2]. by apply ref_print_group. }
      f_equal. clear Hne. induction Hf as [|[|t g] f [Hg _] Hf IH]; [done|done|].
      unfold bfilter in *. simpl. by rewrite IH.
    + apply Forall_fmap. eapply Forall_impl; [done|]. intros g [H1 H2]. simpl. split.
      * eapply sforall_impl; [|by apply print_group_chars]. unfold groupChar. intros c H. by bprop.
      * by apply print_group_nonempty.
  - by destruct f.
  - apply Forall_fmap. eapply Forall_impl; [done|]. intros g [_ Hg].
    apply groupChar_lacks; [by apply print_group_chars|done].
Qed.

(** C19: printing a filter and parsing it back.  A disjunction of conjunctions with
    valid field names, known operators and values without blanks, commas and
    bars, written in the concrete syntax, is parsed into its rendering and its
    values. *)
Theorem ParseFilter_print f :
  f ≠ [] → Forall (λ g, g ≠ [] ∧ Forall printable g) f →
  ParseFilter (print_filter f) = inr (render f, dnf_args f).
Proof. intros Hne Hf. by rewrite ParseFilter_ref, ref_print_filter. Qed.

(** * Witnesses *)

Lemma ParseFilter_sound_witness :
  scount "?" "(name = ?) OR (labels->>'env' >= ? AND x != ?)" = 3%nat.
Proof.
  destruct (ParseFilter_sound "name==a OR labels.env >= b,x!=c"
    "(name = ?) OR (labels->>'env' >= ? AND x != ?)" ["a"; "b"; "c"] eq_refl) as (f & _ & _ & _ & _ & Hc).
  exact Hc.
Defined.

Lemma ParseFilter_print_witness :
  ParseFilter "name=a,labels.env>=b OR x!=c" =
  inr ("(name = ? AND labels->>'env' >= ?) OR (x != ?)", ["a"; "b"; "c"]).
Proof.
  apply (ParseFilter_print [[FTerm "name" "=" "a"; FTerm "labels.env" ">=" "b"]; [FTerm "x" "!=" "c"]]); [done|].
  repeat constructor; simpl; try done; unfold valid_term; simpl; try (split; [reflexivity|]);
    unfold operators; set_solver.
Defined.
