(* ===== verification/Pagination.v ===== *)
(** Continue tokens of paginated lists (src/resource/pagination.go). *)

From S2P Require Import Prelude GoStrings GoJson.
From Stdlib Require Import Ascii.

(** * Data *)

Record ContinueToken := MkToken { Offset : Z; RV : Z }.

Inductive TokenError :=
| ErrTokenEncoding   (* invalid continue token encoding *)
| ErrTokenPayload.   (* invalid continue token payload *)

(** * Encoding *)

Definition quoted (s : string) : string := String quote (s +:+ String quote "").

(** [json.Marshal(token)]: the field [rv] is omitted when it is zero. *)
Definition marshal_token (t : ContinueToken) : string :=
  "{" +:+ quoted "o" +:+ ":" +:+ Itoa (Offset t) +:+
  (if RV t =? 0 then "" else "," +:+ quoted "rv" +:+ ":" +:+ Itoa (RV t)) +:+ "}".

Definition EncodeContinueToken (token : ContinueToken) : string :=
  base64_encode (marshal_token token).

(** * Decoding *)

(** An integer field of a struct: [null] leaves it, an integer literal in range
    sets it, anything else is a type error. *)
Definition unmarshal_int (v : json) (old : Z) : option Z :=
  match v with
  | JNull => Some old
  | JNum lit => ParseInt lit
  | _ => None
  end.

Definition unmarshal_field (t : ContinueToken) (kv : string * json) : option ContinueToken :=
  let '(k, v) := kv in
  if fold_eq k "o" then o ← unmarshal_int v (Offset t); Some (MkToken o (RV t))
  else if fold_eq k "rv" then rv ← unmarshal_int v (RV t); Some (MkToken (Offset t) rv)
  else Some t.

Fixpoint unmarshal_fields (t : ContinueToken) (kvs : list (string * json))
  : option ContinueToken :=
  match kvs with
  | [] => Some t
  | kv :: kvs => t ← unmarshal_field t kv; unmarshal_fields t kvs
  end.

(** [json.Unmarshal(data, &token)] into the zero token. *)
Definition unmarshal_token (data : string) : option ContinueToken :=
  v ← parse_json data;
  match v with
  | JNull => Some (MkToken 0 0)
  | JObj kvs => unmarshal_fields (MkToken 0 0) kvs
  | _ => None
  end.

Definition DecodeContinueToken (s : string) : TokenError + ContinueToken :=
  match base64_decode s with
  | None => inl ErrTokenEncoding
  | Some data =>
      match unmarshal_token data with
      | None => inl ErrTokenPayload
      | Some token => inr token
      end
  end.

Example token_ex1 : EncodeContinueToken (MkToken 50 0) = "eyJvIjo1MH0". Proof. reflexivity. Qed.
Example token_ex2 : DecodeContinueToken "eyJvIjo1MH0" = inr (MkToken 50 0). Proof. reflexivity. Qed.
Example token_ex3 : DecodeContinueToken "e30" = inr (MkToken 0 0). Proof. reflexivity. Qed.
Example token_ex4 : DecodeContinueToken "!" = inl ErrTokenEncoding. Proof. reflexivity. Qed.
Example token_ex5 : DecodeContinueToken "eyJvIjoxLjV9" = inl ErrTokenPayload. Proof. reflexivity. Qed.

(** * Round trip *)

Definition token_in_range (t : ContinueToken) : bool := in_i64 (Offset t) && in_i64 (RV t).

(** A member with a printed integer, as [members] reads it. *)
Lemma value_Itoa fuel depth z r :
  ends_number r = true → value (S fuel) depth (Itoa z +:+ r) = Some (JNum (Itoa z), r).
Proof.
  intros Hr. pose proof (num_lit_Itoa z r Hr) as Hn.
  assert (Hc : ∃ c s, Itoa z +:+ r = String c s ∧ (is_digit c || Ascii.eqb c "-") = true).
  { pose proof (Itoa_nonempty z) as Hne. revert Hne. unfold Itoa.
    destruct (Z.to_int z) as [[]|d]; intros; do 2 eexists; split; try reflexivity; done. }
  destruct Hc as (c & s & Hs & Hc). rewrite Hs in Hn |- *.
  cbn [value]. replace (skip_ws (String c s)) with (String c s).
  2:{ simpl. destruct c as [[][][][][][][][]]; try done. }
  destruct c as [[][][][][][][][]]; try discriminate Hc; cbn; cbn in Hn; by rewrite Hn.
Qed.

Lemma members_last fuel depth k z :
  str_lit (quoted k +:+ ":" +:+ Itoa z +:+ "}") = Some (k, ":" +:+ Itoa z +:+ "}") →
  members (S (S fuel)) depth (quoted k +:+ ":" +:+ Itoa z +:+ "}") = Some ([(k, JNum (Itoa z))], "").
Proof.
  intros Hk. cbn [members]. change (skip_ws (quoted k +:+ ?r)) with (quoted k +:+ r).
  rewrite Hk. cbn [mbind option_bind].
  change (skip_ws (":" +:+ ?r)) with (String ":" r). cbv beta iota.
  rewrite value_Itoa by done. done.
Qed.

Lemma members_more fuel depth k z r :
  str_lit (quoted k +:+ ":" +:+ Itoa z +:+ "," +:+ r) = Some (k, ":" +:+ Itoa z +:+ "," +:+ r) →
  members (S (S fuel)) depth (quoted k +:+ ":" +:+ Itoa z +:+ "," +:+ r) =
  '(kvs, r) ← members (S fuel) depth r; Some ((k, JNum (Itoa z)) :: kvs, r).
Proof.
  intros Hk. cbn [members]. change (skip_ws (quoted k +:+ ?r)) with (quoted k +:+ r).
  rewrite Hk. cbn [mbind option_bind].
  change (skip_ws (":" +:+ ?r)) with (String ":" r). cbv beta iota.
  rewrite value_Itoa by done. done.
Qed.

Lemma parse_marshal_token t :
  parse_json (marshal_token t) =
  Some (JObj (("o", JNum (Itoa (Offset t)))
              :: if RV t =? 0 then [] else [("rv", JNum (Itoa (RV t)))])).
Proof.
  unfold parse_json, marshal_token.
  set (body := quoted "o" +:+ _). change ("{" +:+ body) with (String "{" body).
  assert (Hv : ∀ f, value (S (S (S (S f)))) 0 (String "{" body) =
    '(kvs, r) ← members (S (S (S f))) 1 body; Some (JObj kvs, r)) by reflexivity.
  assert (Hf : ∃ f, (2 * String.length (String "{" body) + 2 = S (S (S (S f))))%nat).
  { eexists (2 * String.length body)%nat. simpl. lia. }
  destruct Hf as [f ->]. rewrite Hv. subst body. destruct (RV t =? 0).
  - change ("" +:+ "}") with "}". rewrite members_last by done. done.
  - rewrite !sapp_assoc. change ("," +:+ ?a +:+ ?b) with ("," +:+ (a +:+ b)).
    rewrite members_more by done. rewrite members_last by done. done.
Qed.

Lemma DecodeEncode_token t :
  token_in_range t = true → DecodeContinueToken (EncodeContinueToken t) = inr t.
Proof.
  unfold token_in_range. intros H. bprop.
  unfold DecodeContinueToken, EncodeContinueToken. rewrite base64_roundtrip.
  unfold unmarshal_token. rewrite parse_marshal_token. cbn [mbind option_bind].
  destruct t as [o rv]. cbn [Offset RV] in *. destruct (Z.eqb_spec rv 0) as [->|_].
  - cbn. by rewrite ParseInt_Itoa.
  - cbn. rewrite ParseInt_Itoa by done. cbn. by rewrite ParseInt_Itoa.
Qed.

(** Continue tokens survive encoding: every token with 64-bit fields is
    decoded from its encoding, and no encoding is the empty string, which stands
    for the absence of a token. *)
Theorem continue_token_roundtrip t :
  token_in_range t = true →
  DecodeContinueToken (EncodeContinueToken t) = inr t ∧ EncodeContinueToken t ≠ "".
Proof.
  intros H. split; [by apply DecodeEncode_token|].
  by apply base64_encode_nonempty.
Qed.

Lemma continue_token_roundtrip_witness :
  DecodeContinueToken "eyJvIjo1MH0" = inr (MkToken 50 0).
Proof. apply (continue_token_roundtrip (MkToken 50 0)). vm_compute. reflexivity. Defined.
