(* ===== verification/Resource.v ===== *)
(** The base model every domain resource embeds (src/resource/model.go,
    src/resource/tenants.go): its fields, its lifecycle hooks and its
    finalizer list. *)

From S2P Require Import Prelude.

(** * Data *)

(** A [uuid.UUID] is 16 bytes, represented by their big-endian value; a
    [time.Time] is its distance to the zero time. *)
Abbreviation uuid := N.
Abbreviation Time := Z.

Definition SystemTenantID : uuid := 0%N.
Definition SharedTenantID : uuid := 281474976710655%N. (* ...-ffffffffffff *)

(** Pointers and the nil-able maps and slices are options. *)
Record Resource := MkResource {
  OrgID : uuid;
  Name : string;
  Parent : option string;
  Labels : option (gmap string string);
  Annotations : option (gmap string string);
  Finalizers : option (list string);
  Generation : Z;
  ResourceVersion : Z;
  Owner : option string;
  Creator : string;
  CreatedAt : Time;
  UpdatedAt : Time;
  DeletionTimestamp : option Time;
  DeletedAt : option Time;
}.

(** The setters the interfaces [ResourceAccessor] and [FinalizerAccessor] give
    to the store, and the columns GORM writes on its own. *)

Definition SetOrgID (id : uuid) (r : Resource) : Resource :=
  MkResource id (Name r) (Parent r) (Labels r) (Annotations r) (Finalizers r) (Generation r)
    (ResourceVersion r) (Owner r) (Creator r) (CreatedAt r) (UpdatedAt r) (DeletionTimestamp r)
    (DeletedAt r).

Definition SetParent (p : option string) (r : Resource) : Resource :=
  MkResource (OrgID r) (Name r) p (Labels r) (Annotations r) (Finalizers r) (Generation r)
    (ResourceVersion r) (Owner r) (Creator r) (CreatedAt r) (UpdatedAt r) (DeletionTimestamp r)
    (DeletedAt r).

Definition SetFinalizers (f : option (list string)) (r : Resource) : Resource :=
  MkResource (OrgID r) (Name r) (Parent r) (Labels r) (Annotations r) f (Generation r)
    (ResourceVersion r) (Owner r) (Creator r) (CreatedAt r) (UpdatedAt r) (DeletionTimestamp r)
    (DeletedAt r).

Definition SetGeneration (v : Z) (r : Resource) : Resource :=
  MkResource (OrgID r) (Name r) (Parent r) (Labels r) (Annotations r) (Finalizers r) v
    (ResourceVersion r) (Owner r) (Creator r) (CreatedAt r) (UpdatedAt r) (DeletionTimestamp r)
    (DeletedAt r).

Definition SetResourceVersion (v : Z) (r : Resource) : Resource :=
  MkResource (OrgID r) (Name r) (Parent r) (Labels r) (Annotations r) (Finalizers r) (Generation r)
    v (Owner r) (Creator r) (CreatedAt r) (UpdatedAt r) (DeletionTimestamp r) (DeletedAt r).

Definition SetTimes (created updated : Time) (r : Resource) : Resource :=
  MkResource (OrgID r) (Name r) (Parent r) (Labels r) (Annotations r) (Finalizers r) (Generation r)
    (ResourceVersion r) (Owner r) (Creator r) created updated (DeletionTimestamp r) (DeletedAt r).

Definition SetDeletionTimestamp (t : option Time) (r : Resource) : Resource :=
  MkResource (OrgID r) (Name r) (Parent r) (Labels r) (Annotations r) (Finalizers r) (Generation r)
    (ResourceVersion r) (Owner r) (Creator r) (CreatedAt r) (UpdatedAt r) t (DeletedAt r).

Definition SetDeletedAt (t : option Time) (r : Resource) : Resource :=
  MkResource (OrgID r) (Name r) (Parent r) (Labels r) (Annotations r) (Finalizers r) (Generation r)
    (ResourceVersion r) (Owner r) (Creator r) (CreatedAt r) (UpdatedAt r) (DeletionTimestamp r) t.

Definition GetFinalizers (r : Resource) : list string := default [] (Finalizers r).

(** * Hooks *)

Definition BeforeCreate (r : Resource) : Resource :=
  let r := if Generation r =? 0 then SetGeneration 1 r else r in
  if ResourceVersion r =? 0 then SetResourceVersion 1 r else r.

Definition BeforeUpdate (r : Resource) : Resource := r.

(** * Finalizers *)

Fixpoint has_finalizer (l : list string) (name : string) : bool :=
  match l with
  | [] => false
  | f :: l => if String.eqb f name then true else has_finalizer l name
  end.

Definition HasFinalizer (r : Resource) (name : string) : bool :=
  has_finalizer (GetFinalizers r) name.

Definition AddFinalizer (r : Resource) (name : string) : Resource :=
  if HasFinalizer r name then r
  else SetFinalizers (Some (GetFinalizers r ++ [name])) r.

(** The loop of [RemoveFinalizer]: the first occurrence is cut out. *)
Fixpoint remove_first (l : list string) (name : string) : option (list string) :=
  match l with
  | [] => None
  | f :: l => if String.eqb f name then Some l else cons f <$> remove_first l name
  end.

Definition RemoveFinalizer (r : Resource) (name : string) : Resource :=
  match remove_first (GetFinalizers r) name with
  | Some l => SetFinalizers (Some l) r
  | None => r
  end.

(** * Domain resources

    A type [R] stored by the generic store embeds [Resource]: [base] is the
    embedded struct, a lens into [R].  The booleans and [SpecBytes] are the
    outcome of the type assertions the store makes on [*R]:
    [ResourceAccessor], [FinalizerAccessor] and [GenerationTracker] (whose
    method may fail). *)

Class Model (R : Type) := {
  base : R → Resource;
  with_base : Resource → R → R;
  isResourceAccessor : bool;
  isFinalizerAccessor : bool;
  SpecBytes : option (R → option string);
}.

Class ModelLaws (R : Type) `{Model R} : Prop := {
  base_with_base : ∀ b r, base (with_base b r) = b;
  with_base_base : ∀ r, with_base (base r) r = r;
  with_base_twice : ∀ b b' r, with_base b (with_base b' r) = with_base b r;
}.

(** Apply a change of the embedded struct. *)
Definition on_base {R} `{Model R} (f : Resource → Resource) (r : R) : R := with_base (f (base r)) r.

Lemma base_on_base {R} `{ModelLaws R} f r : base (on_base f r) = f (base r).
Proof. apply base_with_base. Qed.

(** * Finalizer lemmas *)

Lemma has_finalizer_iff l name : has_finalizer l name = true ↔ name ∈ l.
Proof.
  induction l as [|f l IH]; simpl; [set_solver|].
  destruct (String.eqb_spec f name) as [->|Hne]; set_solver.
Qed.

Lemma remove_first_spec l name :
  match remove_first l name with
  | Some l' => ∃ l1 l2, l = l1 ++ name :: l2 ∧ l' = l1 ++ l2 ∧ name ∉ l1
  | None => name ∉ l
  end.
Proof.
  induction l as [|f l IH]; simpl; [set_solver|].
  destruct (String.eqb_spec f name) as [->|Hne].
  - exists [], l. set_solver.
  - destruct (remove_first l name) as [l'|]; simpl; [|set_solver].
    destruct IH as (l1 & l2 & -> & -> & Hn). exists (f :: l1), l2. set_solver.
Qed.

(** The finalizer list is a set, and adding and removing act on it as such:
    no duplicates appear, adding adds exactly the name, removing removes exactly
    the name, and every other finalizer stays. *)
Theorem finalizers_set r name :
  NoDup (GetFinalizers r) →
  (NoDup (GetFinalizers (AddFinalizer r name)) ∧
   ∀ f, HasFinalizer (AddFinalizer r name) f = true ↔ f = name ∨ HasFinalizer r f = true) ∧
  (NoDup (GetFinalizers (RemoveFinalizer r name)) ∧
   ∀ f, HasFinalizer (RemoveFinalizer r name) f = true ↔ f ≠ name ∧ HasFinalizer r f = true).
Proof.
  intros Hnd. unfold HasFinalizer. split.
  - unfold AddFinalizer, HasFinalizer. destruct (has_finalizer _ name) eqn:E.
    + split; [done|]. intros f. apply has_finalizer_iff in E. rewrite !has_finalizer_iff.
      split; [auto|]. by intros [->|].
    + assert (name ∉ GetFinalizers r) as Hn.
      { intros Hin%has_finalizer_iff. congruence. }
      unfold GetFinalizers at 1 3. cbn [Finalizers SetFinalizers default].
      split; [apply NoDup_app; split_and!; [done|set_solver|apply NoDup_singleton]|].
      intros f. rewrite !has_finalizer_iff. set_solver.
  - unfold RemoveFinalizer. pose proof (remove_first_spec (GetFinalizers r) name) as Hs.
    destruct (remove_first _ name) as [l|].
    + destruct Hs as (l1 & l2 & Heq & -> & Hn).
      unfold GetFinalizers at 1 2. cbn [Finalizers SetFinalizers default].
      rewrite Heq in Hnd |- *. apply NoDup_app in Hnd as (H1 & H2 & [H3 H4]%NoDup_cons).
      split; [apply NoDup_app; set_solver|].
      intros f. rewrite !has_finalizer_iff. set_solver.
    + split; [done|]. intros f. rewrite !has_finalizer_iff. set_solver.
Qed.

Lemma finalizers_set_witness :
  let r := MkResource 1 "a" None None None (Some ["x"; "y"]) 1 1 None "" 0 0 None None in
  NoDup (GetFinalizers (AddFinalizer r "z")) ∧ GetFinalizers (RemoveFinalizer r "x") = ["y"].
Proof.
  intros r. split; [|reflexivity].
  apply (finalizers_set r "z"). unfold r, GetFinalizers. simpl. apply (bool_decide_unpack _). reflexivity.
Defined.
