(* ===== verification/Gorm.v ===== *)
(** The database interface of the program.

    The store talks to PostgreSQL through GORM, neither of which is part of the
    repository.  A store operation is therefore a program ([prog]) over the GORM
    calls it makes, and the database is an instance of the class [Database]: a
    state type, the effect of each call, and the rows of the table.  The class
    [DatabaseLaws] states the documented behaviour the store relies on: scoping
    of soft-deleted rows, the primary key constraint, what each call returns and
    which rows it changes.  [MemDB] is an instance, used by the witnesses. *)

From S2P Require Import Prelude GoStrings Resource.

(** * Errors of a database call *)

Inductive dberr :=
| ErrRecordNotFound          (* gorm.ErrRecordNotFound *)
| ErrDuplicatedKey           (* gorm.ErrDuplicatedKey *)
| PgError (code : string)    (* pgconn.PgError *)
| DriverError (msg : string).

#[global] Instance dberr_eq_dec : EqDecision dberr.
Proof. solve_decision. Defined.

(** A column value of a [map[string]interface{}] update. *)
Inductive column :=
| CNull
| CInt (z : Z)
| CStr (s : string)
| CTime (t : Time)
| CJson (s : string).

#[global] Instance column_eq_dec : EqDecision column.
Proof. solve_decision. Defined.

Section gorm.
Context {R : Type} `{Model R}.

(** * Calls *)

(** The primary key of a row. *)
Definition key (r : R) : uuid * string := (OrgID (base r), Name (base r)).

(** GORM's soft-delete scope: [deleted_at IS NULL]. *)
Definition live (r : R) : bool := match DeletedAt (base r) with None => true | Some _ => false end.

(** The WHERE terms of a query: a condition the code writes out, or a clause
    with its arguments produced at run time. *)
Inductive where_term :=
| WPred (p : R → bool)
| WRaw (clause : string) (args : list string).

(** ORDER BY, LIMIT and OFFSET of a [Find]. *)
Record page := MkPage { q_order : string; q_limit : Z; q_offset : Z }.

Inductive action :=
| ACount (ws : list where_term)
| AFirst (p : R → bool)
| ASelect (p : R → bool)
| AFind (ws : list where_term) (pg : page)
| ACreate (r : R)
| ASave (r : R)
| AUpdates (p : R → bool) (f : R → R)
| AUpdateColumns (p : R → bool) (fields : gmap string column)
| ADelete (p : R → bool) (t : Time).

(** What a call returns: rows, a count of rows, or the number of rows it
    affected, or its error. *)
Definition result (a : action) : Type :=
  match a with
  | ACount _ => dberr + Z
  | AFirst _ => dberr + R
  | ASelect _ | AFind _ _ => dberr + list R
  | ACreate _ => option dberr
  | ASave _ | AUpdates _ _ | AUpdateColumns _ _ | ADelete _ _ => dberr + Z
  end.

(** * Programs over the calls *)

Inductive prog (A : Type) : Type :=
| Ret (a : A)
| Act (c : action) (k : result c → prog A).

Arguments Ret {A} _.
Arguments Act {A} _ _.

Fixpoint prog_bind {A B} (m : prog A) (f : A → prog B) : prog B :=
  match m with
  | Ret a => f a
  | Act c k => Act c (λ r, prog_bind (k r) f)
  end.

Definition call (c : action) : prog (result c) := Act c Ret.

(** * The database *)

Class Database (D : Type) := {
  exec : ∀ c : action, D → result c * D;
  rows : D → list R;
  raw_eval : string → list string → R → bool;
  raw_ok : string → list string → bool;
  order_by : string → list R → list R;
  set_columns : gmap string column → R → R;
  columns_ok : gmap string column → bool;
  healthy : D → bool;
}.

Section semantics.
Context {D : Type} `{Database D}.

Definition sat (ws : list where_term) (r : R) : bool :=
  forallb (λ w, match w with WPred p => p r | WRaw c args => raw_eval c args r end) ws.

(** The rows a query sees. *)
Definition visible (p : R → bool) (rs : list R) : list R := bfilter (λ r, live r && p r) rs.

Definition page_of (pg : page) (l : list R) : list R :=
  let l := order_by (q_order pg) l in
  let l := if 0 <? q_offset pg then drop (Z.to_nat (q_offset pg)) l else l in
  if 0 <=? q_limit pg then take (Z.to_nat (q_limit pg)) l else l.

Definition update_rows (p : R → bool) (f : R → R) (rs : list R) : list R :=
  (λ r, if live r && p r then f r else r) <$> rs.

(** What a call may do to the rows [rs] and return. *)
Definition act_ok (c : action) (rs : list R) : result c → list R → Prop :=
  match c with
  | ACount ws => λ res rs', rs' = rs ∧
      ∀ n, res = inr n → n = Z.of_nat (length (visible (sat ws) rs))
  | AFirst p => λ res rs', rs' = rs ∧
      match res with
      | inr r => r ∈ visible p rs
      | inl ErrRecordNotFound => visible p rs = []
      | inl _ => True
      end
  | ASelect p => λ res rs', rs' = rs ∧ ∀ l, res = inr l → l ≡ₚ visible p rs
  | AFind ws pg => λ res rs', rs' = rs ∧
      ∀ l, res = inr l → l = page_of pg (visible (sat ws) rs)
  | ACreate r => λ res rs',
      match res with
      | None => rs' ≡ₚ r :: rs
      | Some e => rs' = rs ∧
          (e = ErrDuplicatedKey ∨ e = PgError "23505" → key r ∈ key <$> rs)
      end
  | ASave r => λ res rs',
      match res with
      | inr n => rs' ≡ₚ r :: bfilter (λ s, bool_decide (key s ≠ key r)) rs ∧ n = 1
      | inl _ => rs' = rs
      end
  | AUpdates p f => λ res rs',
      match res with
      | inr n => rs' = update_rows p f rs ∧ n = Z.of_nat (length (visible p rs))
      | inl _ => rs' = rs
      end
  | AUpdateColumns p fields => λ res rs',
      match res with
      | inr n => rs' = update_rows p (set_columns fields) rs ∧ n = Z.of_nat (length (visible p rs))
      | inl _ => rs' = rs
      end
  | ADelete p t => λ res rs',
      match res with
      | inr n => rs' = update_rows p (on_base (SetDeletedAt (Some t))) rs
                 ∧ n = Z.of_nat (length (visible p rs))
      | inl _ => rs' = rs
      end
  end.

(** What a healthy database owes: no call fails but for the data. *)
Definition act_answers (c : action) (rs : list R) : result c → Prop :=
  match c with
  | ACount ws | AFind ws _ => λ res,
      (∀ cl args, WRaw cl args ∈ ws → raw_ok cl args = true) → is_inr res = true
  | AFirst p => λ res, is_inr res = true ∨ res = inl ErrRecordNotFound
  | ASelect _ => λ res, is_inr res = true
  | ACreate r => λ res,
      (key r ∉ key <$> rs → res = None) ∧
      (key r ∈ key <$> rs → res = Some ErrDuplicatedKey ∨ res = Some (PgError "23505"))
  | AUpdates p f => λ res,
      (∀ r, r ∈ rs → p r = true → key (f r) = key r) → is_inr res = true
  | AUpdateColumns p fields => λ res,
      columns_ok fields = true → (∀ r, r ∈ rs → p r = true → key (set_columns fields r) = key r) →
      is_inr res = true
  | ASave _ | ADelete _ _ => λ res, is_inr res = true
  end.

End semantics.

(** The documented behaviour of the database: every call acts as described, the
    primary key is unique over all rows, deleted ones included, an ORDER BY
    permutes the rows, an update by columns sets the columns it names and keeps
    the others, and a healthy database answers. *)
Class DatabaseLaws (D : Type) `{Database D} : Prop := {
  exec_ok : ∀ c d, act_ok c (rows d) (exec c d).1 (rows (exec c d).2);
  rows_unique : ∀ d, NoDup (key <$> rows d);
  order_by_perm : ∀ o l, order_by o l ≡ₚ l;
  raw_eval_empty : ∀ r, raw_eval "" [] r = true;
  set_columns_version : ∀ fields v r, fields !! "resource_version" = Some (CInt v) →
    ResourceVersion (base (set_columns fields r)) = v;
  set_columns_version_kept : ∀ fields r, fields !! "resource_version" = None →
    ResourceVersion (base (set_columns fields r)) = ResourceVersion (base r);
  set_columns_key : ∀ fields r, fields !! "org_id" = None → fields !! "name" = None →
    key (set_columns fields r) = key r;
  set_columns_parent : ∀ fields r, fields !! "parent" = None →
    Parent (base (set_columns fields r)) = Parent (base r);
  set_columns_deleted : ∀ fields r, fields !! "deleted_at" = None →
    DeletedAt (base (set_columns fields r)) = DeletedAt (base r);
  exec_answers : ∀ c d, healthy d = true → act_answers c (rows d) (exec c d).1;
  exec_healthy : ∀ c d, healthy d = true → healthy (exec c d).2 = true;
}.

(** * Running a program, alone or interleaved with others *)

Section running.
Context {D : Type} `{Database D}.

Fixpoint run {A} (m : prog A) (d : D) : A * D :=
  match m with
  | Ret a => (a, d)
  | Act c k => let '(r, d) := exec c d in run (k r) d
  end.

(** One client of a pool makes its next call. *)
Inductive pool_step {A} : list (prog A) * D → list (prog A) * D → Prop :=
| pool_step_call i ps d c k :
    ps !! i = Some (Act c k) →
    pool_step (ps, d) (<[i := k (exec c d).1]> ps, (exec c d).2).

End running.
End gorm.

Arguments where_term : clear implicits.
Arguments action : clear implicits.
Arguments result {R} _.
Arguments prog : clear implicits.
Arguments Ret {R A} _.
Arguments Act {R A} _ _.
Arguments Database R D : clear implicits.
Arguments DatabaseLaws R {_} D {_}.

#[global] Instance prog_mret R : MRet (prog R) := λ A, Ret.
#[global] Instance prog_mbind R : MBind (prog R) := λ A B f m, prog_bind m f.

(** * Consequences of the laws *)

Section laws.
Context {R : Type} `{ModelLaws R} {D : Type} `{!Database R D} `{!DatabaseLaws R D}.
Implicit Types (d : D) (p : R → bool) (f : R → R) (rs : list R).

Lemma elem_of_visible p rs r : r ∈ visible p rs ↔ r ∈ rs ∧ live r = true ∧ p r = true.
Proof. unfold visible. rewrite elem_of_bfilter, andb_true_iff. done. Qed.

Lemma run_bind {A B} (m : prog R A) (g : A → prog R B) d :
  run (m ≫= g) d = let '(a, d') := run m d in run (g a) d'.
Proof.
  revert d. induction m as [a|c k IH]; intros d; [done|]. simpl.
  destruct (exec c d) as [r d']. apply IH.
Qed.

Lemma run_healthy {A} (m : prog R A) d : healthy d = true → healthy (run m d).2 = true.
Proof.
  revert d. induction m as [a|c k IH]; intros d Hh; simpl; [done|].
  pose proof (exec_healthy c d Hh). destruct (exec c d) as [x d']. by apply IH.
Qed.

(** The rows visible under a condition on the primary key: at most one. *)
Lemma visible_key_unique p d r r' :
  (∀ s s', p s = true → p s' = true → key s = key s') →
  r ∈ visible p (rows d) → r' ∈ visible p (rows d) → r = r'.
Proof.
  intros Hp (Hr & _ & Hpr)%elem_of_visible (Hr' & _ & Hpr')%elem_of_visible.
  eapply (NoDup_key_inj key); eauto using rows_unique.
Qed.

Lemma elem_of_update_rows p f rs r :
  r ∈ update_rows p f rs ↔
  ∃ s, s ∈ rs ∧ r = if live s && p s then f s else s.
Proof. unfold update_rows. rewrite list_elem_of_fmap. naive_solver. Qed.

Lemma update_rows_keys p f rs :
  (∀ r, r ∈ rs → p r = true → key (f r) = key r) → key <$> update_rows p f rs = key <$> rs.
Proof.
  intros Hk. unfold update_rows. rewrite <-list_fmap_compose. apply list_fmap_ext.
  intros i r Hi. simpl. destruct (live r && p r) eqn:E; [|done]. bprop.
  apply Hk; [|done]. by eapply list_elem_of_lookup_2.
Qed.

Lemma visible_ext p q rs : (∀ r, p r = q r) → visible p rs = visible q rs.
Proof. intros Hpq. apply bfilter_ext. intros r _. by rewrite Hpq. Qed.

Lemma length_visible_nil p rs : Z.of_nat (length (visible p rs)) = 0 ↔ visible p rs = [].
Proof. destruct (visible p rs); simpl; split; try done; lia. Qed.

Lemma update_rows_none p f rs : visible p rs = [] → update_rows p f rs = rs.
Proof.
  intros Hv. unfold update_rows. rewrite <-(list_fmap_id rs) at 2. apply list_fmap_ext.
  intros i r Hi. simpl. destruct (live r && p r) eqn:E; [|done].
  assert (r ∈ visible p rs) as Hin.
  { bprop. apply elem_of_visible. eauto using list_elem_of_lookup_2. }
  rewrite Hv in Hin. by apply elem_of_nil in Hin.
Qed.

Lemma exec_count_rows ws d : rows (exec (ACount ws) d).2 = rows d.
Proof. apply (exec_ok (ACount ws) d). Qed.
Lemma exec_first_rows p d : rows (exec (AFirst p) d).2 = rows d.
Proof. apply (exec_ok (AFirst p) d). Qed.
Lemma exec_select_rows p d : rows (exec (ASelect p) d).2 = rows d.
Proof. apply (exec_ok (ASelect p) d). Qed.
Lemma exec_find_rows ws pg d : rows (exec (AFind ws pg) d).2 = rows d.
Proof. apply (exec_ok (AFind ws pg) d). Qed.

End laws.

(** * An in-memory database *)

Section mem.
Context {R : Type} `{ModelLaws R}.

Record MemDB := MkMem { m_rows : list R; m_up : bool }.

(** A list of rows that breaks the primary key is no table. *)
Definition mem_rows (d : MemDB) : list R :=
  if bool_decide (NoDup (key <$> m_rows d)) then m_rows d else [].

Fixpoint insert_by_name (r : R) (l : list R) : list R :=
  match l with
  | [] => [r]
  | s :: l' => if String.leb (Name (base r)) (Name (base s)) then r :: l
               else s :: insert_by_name r l'
  end.

Definition sort_by_name (l : list R) : list R := foldr insert_by_name [] l.

(** The raw clauses of the witnesses. *)
Definition mem_raw (clause : string) (args : list string) (r : R) : bool :=
  match args with
  | [v] => if String.eqb clause "name != ?" then negb (String.eqb (Name (base r)) v) else true
  | _ => true
  end.

(** The columns of the embedded struct the witnesses write. *)
Definition mem_set_columns (fields : gmap string column) (r : R) : R :=
  on_base (λ b,
    let b := match fields !! "resource_version" with
             | Some (CInt v) => SetResourceVersion v b | _ => b end in
    let b := match fields !! "parent" with
             | Some (CStr p) => SetParent (Some p) b
             | Some CNull => SetParent None b | _ => b end in
    match fields !! "updated_at" with
    | Some (CTime t) => SetTimes (CreatedAt b) t b | _ => b end) r.

Definition mem_down (c : action R) : result c :=
  match c with
  | ACreate _ => Some (DriverError "down")
  | ACount _ | AFirst _ | ASelect _ | AFind _ _ | ASave _ | AUpdates _ _
  | AUpdateColumns _ _ | ADelete _ _ =>
      inl (DriverError "down")
  end.

Definition mem_page (pg : page) (l : list R) : list R :=
  let l := sort_by_name l in
  let l := if 0 <? q_offset pg then drop (Z.to_nat (q_offset pg)) l else l in
  if 0 <=? q_limit pg then take (Z.to_nat (q_limit pg)) l else l.

Definition mem_sat (ws : list (where_term R)) (r : R) : bool :=
  forallb (λ w, match w with WPred p => p r | WRaw c args => mem_raw c args r end) ws.

Definition mem_update (p : R → bool) (f : R → R) (d : MemDB) : (dberr + Z) * MemDB :=
  let rs' := update_rows p f (mem_rows d) in
  if bool_decide (NoDup (key <$> rs'))
  then (inr (Z.of_nat (length (visible p (mem_rows d)))), MkMem rs' (m_up d))
  else (inl (PgError "23505"), d).

Definition mem_exec (c : action R) (d : MemDB) : result c * MemDB :=
  if m_up d then
    match c with
    | ACount ws => (inr (Z.of_nat (length (visible (mem_sat ws) (mem_rows d)))), d)
    | AFirst p =>
        (match visible p (mem_rows d) with r :: _ => inr r | [] => inl ErrRecordNotFound end, d)
    | ASelect p => (inr (visible p (mem_rows d)), d)
    | AFind ws pg => (inr (mem_page pg (visible (mem_sat ws) (mem_rows d))), d)
    | ACreate r =>
        if bool_decide (key r ∈ key <$> mem_rows d) then (Some (PgError "23505"), d)
        else (None, MkMem (mem_rows d ++ [r]) (m_up d))
    | ASave r =>
        (inr 1, MkMem (r :: bfilter (λ s, bool_decide (key s ≠ key r)) (mem_rows d)) (m_up d))
    | AUpdates p f => mem_update p f d
    | AUpdateColumns p fields => mem_update p (mem_set_columns fields) d
    | ADelete p t => mem_update p (on_base (SetDeletedAt (Some t))) d
    end
  else (mem_down c, d).

#[global] Instance MemDB_Database : Database R MemDB := {
  exec := mem_exec; rows := mem_rows; raw_eval := mem_raw;
  raw_ok := λ _ _, true; order_by := λ _, sort_by_name;
  set_columns := mem_set_columns; columns_ok := λ _, true; healthy := m_up;
}.

Lemma insert_by_name_perm r l : insert_by_name r l ≡ₚ r :: l.
Proof.
  induction l as [|s l IH]; simpl; [done|]. destruct (String.leb _ _); [done|].
  rewrite IH. apply Permutation_swap.
Qed.

Lemma mem_rows_unique d : NoDup (key <$> mem_rows d).
Proof. unfold mem_rows. case_bool_decide; [done|]. constructor. Qed.

Lemma mem_rows_valid l b : NoDup (key <$> l) → mem_rows (MkMem l b) = l.
Proof. intros Hl. unfold mem_rows. simpl. by rewrite bool_decide_true. Qed.

Lemma mem_update_ok p f d :
  match (mem_update p f d).1 with
  | inr n => mem_rows (mem_update p f d).2 = update_rows p f (mem_rows d)
             ∧ n = Z.of_nat (length (visible p (mem_rows d)))
  | inl _ => mem_rows (mem_update p f d).2 = mem_rows d
  end.
Proof.
  unfold mem_update. case_bool_decide; simpl; [|done]. by rewrite mem_rows_valid.
Qed.

#[global] Instance MemDB_laws : DatabaseLaws R MemDB.
Proof.
  split; simpl.
  - intros c d. unfold mem_exec. destruct (m_up d) eqn:Eup.
    + destruct c; simpl.
      * split; [done|]. by intros n [= <-].
      * split; [done|]. destruct (visible p (mem_rows d)); [done|left].
      * split; [done|]. by intros l [= <-].
      * split; [done|]. by intros l [= <-].
      * case_bool_decide as Hk; simpl; [done|].
        rewrite mem_rows_valid; [by rewrite Permutation_app_comm|].
        rewrite fmap_app. apply NoDup_app. split_and!; [apply mem_rows_unique| |apply NoDup_singleton].
        intros x Hx ->%list_elem_of_singleton. done.
      * rewrite mem_rows_valid; [done|]. rewrite fmap_cons. apply NoDup_cons. split.
        -- intros (s & Hs & [_ Hs']%elem_of_bfilter)%list_elem_of_fmap. by bprop.
        -- apply NoDup_key_bfilter, mem_rows_unique.
      * apply mem_update_ok.
      * apply mem_update_ok.
      * apply mem_update_ok.
    + destruct c; simpl; try done. split; [done|]. intros [|]; done.
  - apply mem_rows_unique.
  - intros _ l. induction l as [|r l IH]; simpl; [done|].
    by rewrite insert_by_name_perm, IH.
  - done.
  - intros fields v r Hv. unfold mem_set_columns. rewrite base_on_base, Hv. split_matches.
  - intros fields r Hv. unfold mem_set_columns. rewrite base_on_base, Hv. split_matches.
  - intros fields r _ _. unfold mem_set_columns, key. rewrite base_on_base. split_matches.
  - intros fields r Hv. unfold mem_set_columns. rewrite base_on_base, Hv. split_matches.
  - intros fields r Hv. unfold mem_set_columns. rewrite base_on_base. split_matches.
  - intros c d Hup. unfold mem_exec. rewrite Hup. destruct c; simpl; try done.
    + destruct (visible p (mem_rows d)); [by right|by left].
    + split; intros Hk; [by rewrite bool_decide_false|]. rewrite bool_decide_true by done. by right.
    + intros Hk. unfold mem_update. rewrite bool_decide_true; [done|].
      rewrite update_rows_keys by done. apply mem_rows_unique.
    + intros _ Hk. unfold mem_update. rewrite bool_decide_true; [done|].
      rewrite update_rows_keys by done. apply mem_rows_unique.
    + unfold mem_update. rewrite bool_decide_true; [done|].
      rewrite update_rows_keys; [apply mem_rows_unique|].
      intros r _ _. unfold key. by rewrite base_on_base.
  - intros c d Hup. unfold mem_exec, mem_update. rewrite Hup.
    destruct c; simpl; try done; by case_bool_decide.
Qed.

End mem.

Arguments MemDB : clear implicits.
