(* ===== verification/Models.v ===== *)
(** The domain types of the platform providers and of the inventory example
    (src/platform/*/model.go, src/examples/inventory/model.go): each embeds the
    base resource and wraps a spec and a status in [JSONField]. *)

From S2P Require Import Prelude Any Resource.

(** * The common shape *)

Record Object (Spec Status : Type) := MkObject {
  o_base : Resource;
  o_spec : Spec;
  o_status : Status;
}.
Arguments MkObject {Spec Status} _ _ _.
Arguments o_base {Spec Status} _.
Arguments o_spec {Spec Status} _.
Arguments o_status {Spec Status} _.

(** Every type implements [SpecBytes] by [resource.MarshalSpec(x.Spec.Data)];
    [MarshalSpec] is [json.Marshal], given per spec type. *)
Class Marshal (Spec : Type) := MarshalSpec : Spec → option string.

#[global] Instance Object_Model {Spec Status} `{Marshal Spec} : Model (Object Spec Status) := {
  base := o_base;
  with_base := λ b o, MkObject b (o_spec o) (o_status o);
  isResourceAccessor := true;
  isFinalizerAccessor := true;
  SpecBytes := Some (λ o, MarshalSpec (o_spec o));
}.

#[global] Instance Object_ModelLaws {Spec Status} `{Marshal Spec} : ModelLaws (Object Spec Status).
Proof. split; [done|by intros []|done]. Qed.

(** * Tenants and organizations *)

Record TenantSpec := MkTenantSpec { DisplayName : string; Description : string }.
Record TenantStatus := MkTenantStatus { t_Phase : string; t_Message : string }.
Abbreviation Tenant := (Object TenantSpec TenantStatus).

Record OrganizationSpec := MkOrganizationSpec { org_DisplayName : string; org_Description : string }.
Record OrganizationStatus := MkOrganizationStatus {
  org_Phase : string;
  org_Message : string;
  ExternalID : string;
}.
Abbreviation Organization := (Object OrganizationSpec OrganizationStatus).

(** * Policies *)

(** A slice is an option of a list: [None] is the nil slice. *)
Record Rule := MkRule {
  Subjects : option (list string);
  Resources : option (list string);
  Actions : option (list string);
  Effect : string;
}.
Record PolicySpec := MkPolicySpec { p_Description : string; Rules : option (list Rule) }.
Record PolicyStatus := MkPolicyStatus { p_Phase : string }.
Abbreviation Policy := (Object PolicySpec PolicyStatus).

(** * Secrets *)

Definition TypeOpaque : string := "opaque".
Definition TypeTLS : string := "tls".
Definition TypeToken : string := "token".

(** A nil map is [None]. *)
Record SecretSpec := MkSecretSpec { s_Type : string; s_Data : option (gmap string string) }.
Record SecretStatus := MkSecretStatus { s_Phase : string }.
Abbreviation Secret := (Object SecretSpec SecretStatus).

Definition Redacted (s : Secret) : Secret :=
  MkObject (o_base s)
    (MkSecretSpec (s_Type (o_spec s)) (option_map (λ m : gmap string string, (λ _, "***") <$> m) (s_Data (o_spec s))))
    (o_status s).

(** A redacted secret keeps the type, the keys and the metadata, and holds no
    value of the original: two secrets that differ only in their values have the
    same redaction. *)
Theorem Redacted_hides (s : Secret) :
  o_base (Redacted s) = o_base s ∧ s_Type (o_spec (Redacted s)) = s_Type (o_spec s) ∧
  (dom <$> s_Data (o_spec (Redacted s)) : option (gset string)) = dom <$> s_Data (o_spec s) ∧
  ∀ m m', s_Data (o_spec s) = Some m → dom m' =@{gset string} dom m →
    Redacted s = Redacted (MkObject (o_base s) (MkSecretSpec (s_Type (o_spec s)) (Some m')) (o_status s)).
Proof.
  unfold Redacted. simpl. split_and!; [done|done| |].
  - destruct (s_Data (o_spec s)) as [m|]; simpl; [|done]. by rewrite dom_fmap_L.
  - intros m m' -> Hd. simpl. do 3 f_equal. apply map_eq. intros k. rewrite !lookup_fmap.
    destruct (m !! k) as [v|] eqn:E, (m' !! k) as [v'|] eqn:E'; try done; exfalso.
    + apply elem_of_dom_2 in E. rewrite <-Hd in E. by apply not_elem_of_dom in E'.
    + apply elem_of_dom_2 in E'. rewrite Hd in E'. by apply not_elem_of_dom in E.
Qed.

(** * Catalog items; the default and the value of a field are of any type. *)

Record FieldDefinition := MkFieldDefinition {
  Field : string;
  Locked : bool;
  Default : any;
  Value : any;
}.
Record ProvisioningMetadata := MkProvisioningMetadata {
  Collection : string;
  ResourceAction : string;
}.
Record CatalogItemSpec := MkCatalogItemSpec {
  Title : string;
  c_Description : string;
  c_ResourceType : string;
  Published : bool;
  Provisioning : ProvisioningMetadata;
  FieldDefinitions : option (list FieldDefinition);
}.
Record CatalogItemStatus := MkCatalogItemStatus { c_Phase : string }.
Abbreviation CatalogItem := (Object CatalogItemSpec CatalogItemStatus).

(** * Webhooks *)

Record WebhookSpec := MkWebhookSpec {
  URL : string;
  w_Secret : string;
  Events : option (list string);
  Kinds : option (list string);
  Active : bool;
}.
Record WebhookStatus := MkWebhookStatus {
  w_Phase : string;
  LastDeliveryAt : string;
  LastStatusCode : Z;
  FailureCount : Z;
}.
Abbreviation Webhook := (Object WebhookSpec WebhookStatus).

(** * Machines *)

(** A [traits.PowerState] is one of three strings. *)
Definition PowerOn : string := "on".
Definition PowerOff : string := "off".
Definition PowerUnknown : string := "unknown".

Record BMCSpec := MkBMCSpec { BMCAddr : string; BMCUser : string; BMCPassword : string }.
Record BMCStatus := MkBMCStatus { m_PowerState : string; BMCReachable : bool }.
Record Condition := MkCondition {
  cond_Type : string;
  cond_Status : string;
  cond_Reason : string;
  cond_Message : string;
}.
Record LifecycleStatus := MkLifecycleStatus { l_Phase : string; l_Conditions : option (list Condition) }.
Record MachineSpec := MkMachineSpec {
  m_BMC : BMCSpec;
  Arch : string;
  CPUs : Z;
  MemoryMB : Z;
  DiskGB : Z;
}.
Record MachineStatus := MkMachineStatus {
  m_BMCStatus : BMCStatus;
  m_Lifecycle : LifecycleStatus;
  m_Message : string;
}.
Abbreviation Machine := (Object MachineSpec MachineStatus).

Definition BMCAddress (m : Machine) : string := BMCAddr (m_BMC (o_spec m)).

Definition PowerState (m : Machine) : string :=
  let p := m_PowerState (m_BMCStatus (o_status m)) in
  if String.eqb p "on" then PowerOn else if String.eqb p "off" then PowerOff else PowerUnknown.

Definition Phase (m : Machine) : string := l_Phase (m_Lifecycle (o_status m)).

(** The loop appends to a nil slice, so the copy of an empty slice is nil. *)
Definition Conditions (m : Machine) : option (list Condition) :=
  match default [] (l_Conditions (m_Lifecycle (o_status m))) with
  | [] => None
  | l => Some (List.map (λ c, MkCondition (cond_Type c) (cond_Status c) (cond_Reason c) (cond_Message c)) l)
  end.

(** * A concrete resource type for the witnesses: a document with a text spec *)

#[global] Instance Marshal_text : Marshal string := Some.
Abbreviation Doc := (Object string string).

Definition doc (org : uuid) (name : string) (parent : option string) (version : Z) (spec : string) : Doc :=
  MkObject (MkResource org name parent None None None 1 version None "" 1 1 None None) spec "".
