(* ===== verification/Nesting.v ===== *)
(** Parent references between resources (src/resource/nesting.go): validation of
    a parent, with the walk of its ancestors, and the queries for children; the
    theorem that a validated parent keeps the hierarchy free of cycles. *)

From S2P Require Import Prelude GoStrings Resource Gorm Models Filter Pagination.

(** * Errors of the resource package *)

Inductive storeErr :=
| ErrNotFound
| ErrAlreadyExists
| ErrConflict
| ErrFinalizersPending
| ErrParentNotFound
| ErrCircularParent
| ErrHasChildren
| ErrParsingFilter (e : FilterError)
| ErrDecodingToken (e : TokenError)
| ErrWrapped (context : string) (e : dberr)   (* fmt.Errorf("context: %w", e) *)
| OutOfFuel.                                  (* the model's walk bound, never the program's *)

Section nesting.
Context {R : Type} `{Model R}.

(** * Conditions *)

(** [org_id = ? AND name = ?] *)
Definition by_key (orgID : uuid) (name : string) (r : R) : bool :=
  N.eqb (OrgID (base r)) orgID && String.eqb (Name (base r)) name.

(** [org_id = ? AND parent = ?] *)
Definition by_parent (orgID : uuid) (name : string) (r : R) : bool :=
  N.eqb (OrgID (base r)) orgID &&
  match Parent (base r) with Some p => String.eqb p name | None => false end.

(** * Operations *)

(** The loop of [ValidateParent].  [Scan(&parent)] leaves the value of the last
    row, or nil without one. *)
Fixpoint walk_ancestors (fuel : nat) (orgID : uuid) (visited : gset string) (current : string)
  : prog R (option storeErr) :=
  match fuel with
  | O => Ret (Some OutOfFuel)
  | S fuel =>
      if String.eqb current "" then Ret None
      else if bool_decide (current ∈ visited) then Ret (Some ErrCircularParent)
      else
        res ← call (ASelect (by_key orgID current));
        match res with
        | inl e => Ret (Some (ErrWrapped "walking ancestor chain" e))
        | inr l =>
            match last l ≫= (λ r, Parent (base r)) with
            | None => Ret None
            | Some parent => walk_ancestors fuel orgID ({[current]} ∪ visited) parent
            end
        end
  end.

Definition ValidateParent (fuel : nat) (orgID : uuid) (name parentName : string)
  : prog R (option storeErr) :=
  if String.eqb parentName name then Ret (Some ErrCircularParent)
  else
    count ← call (ACount [WPred (by_key orgID parentName)]);
    match count with
    | inl e => Ret (Some (ErrWrapped "checking parent existence" e))
    | inr count =>
        if count =? 0 then Ret (Some ErrParentNotFound)
        else walk_ancestors fuel orgID {[name]} parentName
    end.

Definition HasChildren (orgID : uuid) (name : string) : prog R (storeErr + bool) :=
  count ← call (ACount [WPred (by_parent orgID name)]);
  match count with
  | inl e => Ret (inl (ErrWrapped "checking children" e))
  | inr count => Ret (inr (0 <? count))
  end.

Definition ListChildren (orgID : uuid) (name : string) : prog R (storeErr + list string) :=
  res ← call (ASelect (by_parent orgID name));
  match res with
  | inl e => Ret (inl (ErrWrapped "listing children" e))
  | inr l => Ret (inr (List.map (λ r, Name (base r)) l))
  end.

(** * The hierarchy *)

(** [a] has the parent [b] in the organization: an edge of the graph.  The empty
    string counts as no parent. *)
Definition parent_edge (rs : list R) (orgID : uuid) (a b : string) : Prop :=
  ∃ r, r ∈ rs ∧ live r = true ∧ OrgID (base r) = orgID ∧ Name (base r) = a ∧
       Parent (base r) = Some b ∧ b ≠ "".

Definition hierarchy_acyclic (rs : list R) : Prop := ∀ orgID, acyclic (parent_edge rs orgID).

(** Every parent reference of a live row names a live row. *)
Definition parents_exist (rs : list R) : Prop :=
  ∀ r p, r ∈ rs → live r = true → Parent (base r) = Some p → p ≠ "" →
    ∃ q, q ∈ rs ∧ live q = true ∧ key q = (OrgID (base r), p).

Lemma by_key_true orgID name r : by_key orgID name r = true ↔ key r = (orgID, name).
Proof.
  unfold by_key, key. rewrite andb_true_iff, N.eqb_eq, String.eqb_eq. split.
  - by intros [-> ->].
  - by intros [= -> ->].
Qed.

Lemma by_parent_true orgID name r :
  by_parent orgID name r = true ↔ OrgID (base r) = orgID ∧ Parent (base r) = Some name.
Proof.
  unfold by_parent. rewrite andb_true_iff, N.eqb_eq.
  destruct (Parent (base r)) as [p|]; [rewrite String.eqb_eq|]; naive_solver.
Qed.

End nesting.

Section nesting_proofs.
Context {R : Type} `{ModelLaws R} {D : Type} `{!Database R D} `{!DatabaseLaws R D}.
Implicit Types (d : D).

(** The rows do not change during the validation. *)
Lemma walk_rows fuel orgID visited current d :
  rows (run (walk_ancestors fuel orgID visited current) d).2 = rows d.
Proof.
  revert visited current d. induction fuel as [|fuel IH]; intros visited current d; [done|].
  simpl. destruct (String.eqb current ""); [done|]. case_bool_decide; [done|].
  simpl. pose proof (exec_select_rows (by_key orgID current) d) as Hr.
  destruct (exec _ d) as [[e|l] d']; simpl in *; [done|].
  destruct (last l ≫= _) as [p|]; simpl; [|done]. by rewrite IH.
Qed.

Lemma ValidateParent_rows fuel orgID name parentName d :
  rows (run (ValidateParent fuel orgID name parentName) d).2 = rows d.
Proof.
  unfold ValidateParent. destruct (String.eqb parentName name); [done|].
  simpl. pose proof (exec_count_rows [WPred (by_key orgID parentName)] d) as Hr.
  destruct (exec _ d) as [[e|n] d']; simpl in *; [done|].
  destruct (n =? 0); simpl; [done|]. by rewrite walk_rows.
Qed.

(** The parent the walk reads is the edge out of the current row. *)
Lemma select_parent d orgID current l :
  l ≡ₚ visible (by_key orgID current) (rows d) →
  (last l ≫= (λ r, Parent (base r)) = None → ∀ b, ¬ parent_edge (rows d) orgID current b) ∧
  (∀ p, last l ≫= (λ r, Parent (base r)) = Some p →
        ∀ b, parent_edge (rows d) orgID current b → b = p).
Proof.
  intros Hl.
  assert (Hu : ∀ r b, r ∈ visible (by_key orgID current) (rows d) → parent_edge (rows d) orgID current b →
               Parent (base r) = Some b).
  { intros r b Hr (s & Hs & Hlive & Ho & Hn & Hp & _).
    assert (r = s) as ->; [|done].
    eapply visible_key_unique; [|exact Hr|].
    - intros t t' ->%by_key_true ->%by_key_true. done.
    - apply elem_of_visible. split_and!; [done|done|]. apply by_key_true. unfold key. by rewrite Ho, Hn. }
  assert (Hex : ∀ b, parent_edge (rows d) orgID current b → ∃ r, last l = Some r ∧ r ∈ visible (by_key orgID current) (rows d)).
  { intros b (s & Hs & Hlive & Ho & Hn & Hp & _).
    assert (s ∈ l) as Hsl.
    { rewrite Hl. apply elem_of_visible. split_and!; [done|done|]. apply by_key_true. unfold key. by rewrite Ho, Hn. }
    destruct (last l) as [r|] eqn:E.
    - exists r. split; [done|]. rewrite <-Hl. by eapply last_Some_elem_of.
    - apply last_None in E as ->. by apply elem_of_nil in Hsl. }
  split.
  - intros Hnone b Hb. destruct (Hex b Hb) as (r & Hr & Hin). rewrite Hr in Hnone. simpl in Hnone.
    rewrite (Hu _ _ Hin Hb) in Hnone. done.
  - intros p Hp b Hb. destruct (Hex b Hb) as (r & Hr & Hin). rewrite Hr in Hp. simpl in Hp.
    rewrite (Hu _ _ Hin Hb) in Hp. congruence.
Qed.

(** A walk that ends without error met no visited name on the way up. *)
Lemma walk_sound fuel orgID visited current d :
  (run (walk_ancestors fuel orgID visited current) d).1 = None →
  current ≠ "" → ∀ x, rtc (parent_edge (rows d) orgID) current x → x ∉ visited.
Proof.
  revert visited current d. induction fuel as [|fuel IH]; intros visited current d; [done|].
  cbn [walk_ancestors]. destruct (String.eqb_spec current "") as [->|Hne]; [done|].
  case_bool_decide as Hv; [done|]. simpl.
  pose proof (exec_ok (ASelect (by_key orgID current)) d) as [Hrows Hsel].
  destruct (exec _ d) as [[e|l] d']; simpl in *; [done|].
  destruct (select_parent d orgID current l) as [Hnone Hsome]; [by apply Hsel|].
  destruct (last l ≫= _) as [p|]; simpl.
  - intros Hrun _ x Hx. destruct Hx as [|? y ? Hy Hx]; [done|].
    pose proof Hy as (_ & _ & _ & _ & _ & _ & Hy0).
    rewrite (Hsome p eq_refl y Hy) in Hx, Hy0.
    rewrite <-Hrows in Hx. pose proof (IH _ _ _ Hrun Hy0 _ Hx). set_solver.
  - intros _ _ x Hx. destruct Hx as [|? y ? Hy Hx]; [done|]. by apply Hnone in Hy.
Qed.

(** A validated parent exists and does not descend from the resource. *)
Lemma ValidateParent_sound fuel orgID name parentName d :
  (run (ValidateParent fuel orgID name parentName) d).1 = None → parentName ≠ "" →
  ¬ rtc (parent_edge (rows d) orgID) parentName name ∧
  ∃ q, q ∈ rows d ∧ live q = true ∧ key q = (orgID, parentName).
Proof.
  unfold ValidateParent. destruct (String.eqb parentName name); [done|]. simpl.
  pose proof (exec_ok (ACount [WPred (by_key orgID parentName)]) d) as [Hrows Hcnt].
  destruct (exec _ d) as [[e|n] d']; simpl in *; [done|].
  destruct (Z.eqb_spec n 0) as [|Hn]; simpl; [done|]. intros Hrun Hne. split.
  - rewrite <-Hrows. intros Hx. pose proof (walk_sound _ _ _ _ _ Hrun Hne _ Hx). set_solver.
  - specialize (Hcnt n eq_refl). destruct (visible _ (rows d)) as [|q vs] eqn:E; [by subst n|].
    assert (q ∈ visible (sat [WPred (by_key orgID parentName)]) (rows d)) as Hq by (rewrite E; left).
    apply elem_of_visible in Hq as (Hq1 & Hq2 & Hq3). exists q.
    split_and!; [done|done|]. apply by_key_true. simpl in Hq3. by rewrite andb_true_r in Hq3.
Qed.

(** The walk reads only live rows of the organization. *)
Lemma select_last d orgID current l r :
  l ≡ₚ visible (by_key orgID current) (rows d) → last l = Some r →
  r ∈ rows d ∧ live r = true ∧ key r = (orgID, current).
Proof.
  intros Hl Hr%last_Some_elem_of. rewrite Hl in Hr.
  apply elem_of_visible in Hr as (H1 & H2 & H3). by rewrite by_key_true in H3.
Qed.

(** The rows of the organization that the walk has not visited. *)
Definition unvisited (orgID : uuid) (visited : gset string) (rs : list R) : list R :=
  bfilter (λ r, N.eqb (OrgID (base r)) orgID && bool_decide (Name (base r) ∉ visited)) rs.

Lemma unvisited_shrinks orgID visited (rs : list R) r current :
  r ∈ rs → key r = (orgID, current) → current ∉ visited →
  (length (unvisited orgID ({[current]} ∪ visited) rs) < length (unvisited orgID visited rs))%nat.
Proof.
  intros Hr Hk Hv. injection Hk as Ho Hn. apply list_elem_of_split in Hr as (l1 & l2 & ->).
  assert (Hle : ∀ l : list R, (length (unvisited orgID ({[current]} ∪ visited) l)
                     ≤ length (unvisited orgID visited l))%nat).
  { intros l. unfold unvisited, bfilter. induction l as [|s l IH]; [done|]. simpl.
    destruct (N.eqb _ _); simpl; [|done]. do 2 case_bool_decide; simpl; try lia. set_solver. }
  unfold unvisited in *. rewrite !bfilter_app, !length_app.
  pose proof (Hle l1). pose proof (Hle l2). unfold bfilter in *. simpl.
  rewrite Ho, Hn, N.eqb_refl. simpl.
  rewrite (bool_decide_false (current ∉ {[current]} ∪ visited)) by set_solver.
  rewrite bool_decide_true by done. simpl. lia.
Qed.

Lemma walk_fuel fuel orgID visited current d :
  (length (unvisited orgID visited (rows d)) < fuel)%nat →
  (run (walk_ancestors fuel orgID visited current) d).1 ≠ Some OutOfFuel.
Proof.
  revert visited current d. induction fuel as [|fuel IH]; intros visited current d Hf; [lia|].
  cbn [walk_ancestors]. destruct (String.eqb current ""); [done|].
  case_bool_decide as Hv; [done|]. simpl.
  pose proof (exec_ok (ASelect (by_key orgID current)) d) as [Hrows Hsel].
  destruct (exec _ d) as [[e|l] d']; simpl in *; [done|].
  destruct (last l) as [r|] eqn:El; simpl; [|done].
  destruct (Parent (base r)) as [p|]; simpl; [|done].
  destruct (select_last d orgID current l r) as (H1 & H2 & H3); [by apply Hsel|done|].
  apply IH. rewrite Hrows. pose proof (unvisited_shrinks orgID visited (rows d) r current H1 H3 Hv). lia.
Qed.

(** A walk that reports a cycle found one, or reached a visited name. *)
Lemma walk_circular fuel orgID visited current d :
  (run (walk_ancestors fuel orgID visited current) d).1 = Some ErrCircularParent →
  ∃ x, rtc (parent_edge (rows d) orgID) current x ∧
       (x ∈ visited ∨ tc (parent_edge (rows d) orgID) x x).
Proof.
  revert visited current d. induction fuel as [|fuel IH]; intros visited current d; [done|].
  cbn [walk_ancestors]. destruct (String.eqb current ""); [done|].
  case_bool_decide as Hv; [intros _; exists current; eauto using rtc_refl|]. simpl.
  pose proof (exec_ok (ASelect (by_key orgID current)) d) as [Hrows Hsel].
  destruct (exec _ d) as [[e|l] d']; simpl in *; [done|].
  destruct (last l) as [r|] eqn:El; simpl; [|done].
  destruct (Parent (base r)) as [p|] eqn:Ep; simpl; [|done]. intros Hrun.
  destruct (select_last d orgID current l r) as (H1 & H2 & H3); [by apply Hsel|done|].
  destruct (decide (p = "")) as [->|Hp]; [by destruct fuel|].
  assert (parent_edge (rows d) orgID current p) as Hedge.
  { exists r. injection H3 as Ho Hn. split_and!; done. }
  apply IH in Hrun as (x & Hx & Hcase). rewrite Hrows in Hx, Hcase.
  exists x. split; [by eapply rtc_l|].
  destruct Hcase as [[->%elem_of_singleton|]%elem_of_union|]; [|by left|by right].
  right. by eapply tc_rtc_r; [apply tc_once|].
Qed.

(** A healthy database answers every call of the validation. *)
Lemma walk_no_driver_error fuel orgID visited current d ctx e :
  healthy d = true → (run (walk_ancestors fuel orgID visited current) d).1 ≠ Some (ErrWrapped ctx e).
Proof.
  revert visited current d. induction fuel as [|fuel IH]; intros visited current d Hh; [done|].
  cbn [walk_ancestors]. destruct (String.eqb current ""); [done|].
  case_bool_decide; [done|]. simpl.
  pose proof (exec_answers (ASelect (by_key orgID current)) d Hh) as Ha.
  pose proof (exec_healthy (ASelect (by_key orgID current)) d Hh) as Hh'.
  destruct (exec _ d) as [[e'|l] d']; simpl in *; [done|].
  destruct (last l ≫= _) as [p|]; simpl; [by apply IH|done].
Qed.

Lemma walk_outcome fuel orgID visited current d :
  match (run (walk_ancestors fuel orgID visited current) d).1 with
  | None | Some ErrCircularParent | Some (ErrWrapped _ _) | Some OutOfFuel => True
  | _ => False
  end.
Proof.
  revert visited current d. induction fuel as [|fuel IH]; intros visited current d; [done|].
  cbn [walk_ancestors]. destruct (String.eqb current ""); [done|].
  case_bool_decide; [done|]. simpl. destruct (exec _ d) as [[e'|l] d']; simpl; [done|].
  destruct (last l ≫= _) as [p|]; simpl; [by apply IH|done].
Qed.

(** The answer on the row count: [ErrParentNotFound] without a live row, else
    the answer of the walk on unchanged rows. *)
Lemma ValidateParent_unfold fuel orgID name parentName d :
  healthy d = true → parentName ≠ name →
  ∃ d', healthy d' = true ∧ rows d' = rows d ∧
  (run (ValidateParent fuel orgID name parentName) d).1 =
  if bool_decide (visible (by_key orgID parentName) (rows d) = []) then Some ErrParentNotFound
  else (run (walk_ancestors fuel orgID {[name]} parentName) d').1.
Proof.
  intros Hh Hne. unfold ValidateParent. destruct (String.eqb_spec parentName name) as [|_]; [done|].
  simpl. pose proof (exec_ok (ACount [WPred (by_key orgID parentName)]) d) as [Hrows Hcnt].
  pose proof (exec_answers (ACount [WPred (by_key orgID parentName)]) d Hh) as Ha.
  pose proof (exec_healthy (ACount [WPred (by_key orgID parentName)]) d Hh) as Hh'.
  destruct (exec _ d) as [[e|n] d']; simpl in *.
  { discriminate Ha. intros cl args Hin. by apply list_elem_of_singleton in Hin. }
  exists d'. split_and!; [done|done|]. specialize (Hcnt n eq_refl).
  rewrite (visible_ext _ (by_key orgID parentName)) in Hcnt
    by (intros r; simpl; apply andb_true_r).
  case_bool_decide as Hv.
  - rewrite Hv in Hcnt. by subst n.
  - destruct (Z.eqb_spec n 0) as [Hn|]; [|done].
    exfalso. apply Hv, length_visible_nil. by rewrite <-Hcnt.
Qed.

Lemma rtc_parent_live rs orgID a b :
  rtc (parent_edge rs orgID) a b → a ≠ b → ∃ q, q ∈ visible (by_key orgID a) rs.
Proof.
  intros Hr Hne. destruct Hr as [|? y ? (r & Hr & Hl & Ho & Hn & _) _]; [done|].
  exists r. apply elem_of_visible. split_and!; [done|done|]. apply by_key_true.
  unfold key. by rewrite Ho, Hn.
Qed.

(** C9: on a hierarchy without cycles and a database that answers,
    [ValidateParent] decides whether the reference may be set.  It reports
    [ErrCircularParent] exactly when the resource is the parent or one of its
    ancestors, [ErrParentNotFound] exactly when the parent is another name that
    no live row of the organization has, and accepts the parent in all other
    cases; the walk of the ancestors terminates within one step per row. *)
Theorem ValidateParent_decides fuel orgID name parentName d :
  healthy d = true → hierarchy_acyclic (rows d) → (length (rows d) < fuel)%nat → parentName ≠ "" →
  let res := (run (ValidateParent fuel orgID name parentName) d).1 in
  let exists_ := ∃ q, q ∈ visible (by_key orgID parentName) (rows d) in
  let ancestor := rtc (parent_edge (rows d) orgID) parentName name in
  (res = Some ErrCircularParent ↔ ancestor) ∧
  (res = Some ErrParentNotFound ↔ parentName ≠ name ∧ ¬ exists_) ∧
  (res = None ↔ exists_ ∧ ¬ ancestor).
Proof.
  intros Hh Hac Hf Hne. cbv zeta. destruct (decide (parentName = name)) as [->|Hn].
  { unfold ValidateParent. rewrite String.eqb_refl. simpl.
    pose proof (rtc_refl (parent_edge (rows d) orgID) name). naive_solver. }
  destruct (ValidateParent_unfold fuel orgID name parentName d Hh Hn) as (d' & Hh' & Hr & ->).
  case_bool_decide as Hv.
  { rewrite Hv. split_and!; split; try done.
    - intros [q Hq]%rtc_parent_live; [|done]. rewrite Hv in Hq. by apply elem_of_nil in Hq.
    - intros _. split; [done|]. by intros [q ?%elem_of_nil].
    - by intros [[q ?%elem_of_nil] _]. }
  assert (∃ q, q ∈ visible (by_key orgID parentName) (rows d)) as Hex.
  { destruct (visible _ (rows d)) as [|q]; [done|]. exists q. left. }
  pose proof (walk_outcome fuel orgID {[name]} parentName d') as Hout.
  pose proof (walk_sound fuel orgID {[name]} parentName d') as Hs.
  pose proof (walk_circular fuel orgID {[name]} parentName d') as Hc.
  pose proof (λ c e, walk_no_driver_error fuel orgID {[name]} parentName d' c e Hh') as Hd.
  assert ((run (walk_ancestors fuel orgID {[name]} parentName) d').1 ≠ Some OutOfFuel) as Hfu.
  { apply walk_fuel. rewrite Hr. eapply Nat.le_lt_trans; [apply length_bfilter|done]. }
  rewrite Hr in *.
  destruct (run _ d').1 as [[]|]; try done; try (by exfalso; eapply Hd).
  - destruct (Hc eq_refl) as (x & Hx & [->%elem_of_singleton|Hcyc]); [naive_solver|].
    by destruct (Hac orgID x).
  - assert (¬ rtc (parent_edge (rows d) orgID) parentName name) as Hna.
    { intros Ha. specialize (Hs eq_refl Hne _ Ha). set_solver. }
    naive_solver.
Qed.

End nesting_proofs.

(** * Witness *)

Lemma ValidateParent_decides_witness :
  let d : MemDB Doc := MkMem [doc 1 "a" None 1 "s"; doc 1 "b" (Some "a") 1 "s"; doc 1 "c" (Some "b") 1 "s"] true in
  (run (ValidateParent 4 1%N "a" "c") d).1 = Some ErrCircularParent ∧
  rtc (parent_edge (rows d) 1%N) "c" "a".
Proof.
  intros d. split; [vm_compute; reflexivity|].
  assert (hierarchy_acyclic (rows d)) as Hac.
  { intros o. apply (acyclic_measure _ (λ n, if String.eqb n "c" then 2 else if String.eqb n "b" then 1 else 0)%nat).
    intros x y (r & Hr & _ & _ & Hn & Hp & _). vm_compute in Hr. set_unfold.
    destruct Hr as [->|[->|[->|[]]]]; simpl in *; simplify_eq; simpl; lia. }
  apply (ValidateParent_decides (D := MemDB Doc) 4 1%N "a" "c" d); [reflexivity|exact Hac|vm_compute; lia|done|].
  vm_compute. reflexivity.
Defined.
