(* ===== verification/Store.v ===== *)
(** The generic resource store (src/resource/store.go), its instrumented wrapper
    (src/resource/store_metrics.go) and the status updater
    (src/resource/status_updater.go).

    An operation is a program over the GORM calls it makes.  The arguments [now]
    are the readings of the clock, [fuel] bounds the walk of [ValidateParent].
    [Create] and [Update] write through the pointer they are given: they return
    the resource as they leave it, next to the error. *)

From S2P Require Import Prelude GoStrings Resource Gorm Filter Pagination Nesting.

(** * Data *)

Record ListOptions := MkListOptions {
  Limit : Z;
  Continue : string;
  FilterExpr : string;
  Sort : string;
}.

Record ListResult (R : Type) := MkList {
  Items : list R;
  NextContinue : string;
  Total : Z;
}.
Arguments MkList {R} _ _ _.
Arguments Items {R} _.
Arguments NextContinue {R} _.
Arguments Total {R} _.

Definition isDuplicateKeyError (e : dberr) : bool :=
  match e with
  | ErrDuplicatedKey => true
  | PgError code => String.eqb code "23505"
  | _ => false
  end.

(** * GenericStore *)

Section store.
Context {R : Type} `{Model R}.

Definition validateParent (fuel : nat) (res : R) : prog R (option storeErr) :=
  if isResourceAccessor then
    match Parent (base res) with
    | None => Ret None
    | Some parent =>
        if String.eqb parent "" then Ret None
        else ValidateParent fuel (OrgID (base res)) (Name (base res)) parent
    end
  else Ret None.

(** What GORM does to the value it is about to insert: the promoted
    [BeforeCreate] hook, and the creation and update times that are zero. *)
Definition prepare_create (now : Time) (res : R) : R :=
  let res := if isResourceAccessor then on_base BeforeCreate res else res in
  on_base (λ b, SetTimes (if CreatedAt b =? 0 then now else CreatedAt b)
                         (if UpdatedAt b =? 0 then now else UpdatedAt b) b) res.

Definition Create (fuel : nat) (now : Time) (res : R) : prog R (option storeErr * R) :=
  err ← validateParent fuel res;
  match err with
  | Some e => Ret (Some e, res)
  | None =>
      let res := prepare_create now res in
      err ← call (ACreate res);
      match err with
      | Some e =>
          if isDuplicateKeyError e then Ret (Some ErrAlreadyExists, res)
          else Ret (Some (ErrWrapped "creating resource" e), res)
      | None => Ret (None, res)
      end
  end.

Definition Get (orgID : uuid) (name : string) : prog R (storeErr + R) :=
  res ← call (AFirst (by_key orgID name));
  match res with
  | inl ErrRecordNotFound => Ret (inl ErrNotFound)
  | inl e => Ret (inl (ErrWrapped "getting resource" e))
  | inr r => Ret (inr r)
  end.

(** [org_id = ?] *)
Definition by_org (orgID : uuid) (r : R) : bool := N.eqb (OrgID (base r)) orgID.

(** The WHERE terms of a list request. *)
Definition list_where (orgID : uuid) (expr : string) : FilterError + list (where_term R) :=
  if String.eqb expr "" then inr [WPred (by_org orgID)]
  else
    let? (clause, args) := ParseFilter expr in
    inr [WPred (by_org orgID); WRaw clause args].

(** The offset of a list request: zero without a token. *)
Definition list_offset (token : string) : TokenError + Z :=
  if String.eqb token "" then inr 0
  else let? t := DecodeContinueToken token in inr (Offset t).

Definition list_limit (limit : Z) : Z := if limit <=? 0 then 50 else limit.

Definition list_order (sort : string) : string :=
  if String.eqb sort "" then "name ASC" else sort.

Definition List (orgID : uuid) (opts : ListOptions) : prog R (storeErr + ListResult R) :=
  match list_where orgID (FilterExpr opts) with
  | inl e => Ret (inl (ErrParsingFilter e))
  | inr query =>
      total ← call (ACount query);
      match total with
      | inl e => Ret (inl (ErrWrapped "counting resources" e))
      | inr total =>
          match list_offset (Continue opts) with
          | inl e => Ret (inl (ErrDecodingToken e))
          | inr offset =>
              items ← call (AFind query
                              (MkPage (list_order (Sort opts)) (list_limit (Limit opts)) offset));
              match items with
              | inl e => Ret (inl (ErrWrapped "listing resources" e))
              | inr items =>
                  let nextOffset := i64 (offset + Z.of_nat (length items)) in
                  let continueToken :=
                    if nextOffset <? total then EncodeContinueToken (MkToken nextOffset 0) else "" in
                  Ret (inr (MkList items continueToken total))
              end
          end
      end
  end.

(** [org_id = ? AND name = ? AND resource_version = ?] *)
Definition by_key_version (orgID : uuid) (name : string) (version : Z) (r : R) : bool :=
  by_key orgID name r && (ResourceVersion (base r) =? version).

(** The write of [Select("*").Updates(res)]: every column but the primary key,
    which the condition fixes, with GORM's own update time. *)
Definition write_all (now : Time) (res : R) : R :=
  on_base (λ b, SetTimes (CreatedAt b) now b) res.

(** The generation after the comparison of the two specs. *)
Definition bump_generation (existing res : R) : R :=
  match SpecBytes with
  | None => res
  | Some specBytes =>
      match specBytes existing, specBytes res with
      | Some oldSpec, Some newSpec =>
          if String.eqb oldSpec newSpec then res
          else on_base (λ b, SetGeneration (i64 (Generation b + 1)) b) res
      | _, _ => res
      end
  end.

(** The tail of [Update]: the guarded write. *)
Definition update_write (now : Time) (clientVersion : Z) (res : R)
  : prog R (option storeErr * R) :=
  let res := on_base (SetResourceVersion (i64 (clientVersion + 1))) res in
  let '(orgID, name) := key res in
  n ← call (AUpdates (by_key_version orgID name clientVersion) (λ _, write_all now res));
  match n with
  | inl e => Ret (Some (ErrWrapped "updating resource" e), write_all now res)
  | inr n =>
      if n =? 0 then Ret (Some ErrConflict, write_all now res)
      else Ret (None, write_all now res)
  end.

Definition Update (fuel : nat) (now : Time) (res : R) : prog R (option storeErr * R) :=
  err ← validateParent fuel res;
  match err with
  | Some e => Ret (Some e, res)
  | None =>
      if isResourceAccessor then
        let '(orgID, name) := key res in
        let clientVersion := ResourceVersion (base res) in
        match SpecBytes with
        | None => update_write now clientVersion res
        | Some _ =>
            existing ← call (AFirst (by_key orgID name));
            match existing with
            | inl ErrRecordNotFound => Ret (Some ErrNotFound, res)
            | inl e => Ret (Some (ErrWrapped "fetching existing resource" e), res)
            | inr existing => update_write now clientVersion (bump_generation existing res)
            end
        end
      else
        n ← call (ASave (write_all now res));
        match n with
        | inl e => Ret (Some (ErrWrapped "updating resource" e), write_all now res)
        | inr n =>
            if n =? 0 then Ret (Some ErrNotFound, write_all now res)
            else Ret (None, write_all now res)
        end
  end.

(** The caller's map is written to; it is returned as the call leaves it. *)
Definition PartialUpdate (now : Time) (orgID : uuid) (name : string) (resourceVersion : Z)
    (fields : gmap string column) : prog R (option storeErr * gmap string column) :=
  let fields := <["resource_version" := CInt (i64 (resourceVersion + 1))]> fields in
  let fields := <["updated_at" := CTime now]> fields in
  n ← call (AUpdateColumns (by_key_version orgID name resourceVersion) fields);
  match n with
  | inl e => Ret (Some (ErrWrapped "partial updating resource" e), fields)
  | inr n =>
      if n =? 0 then
        count ← call (ACount [WPred (by_key orgID name)]);
        let count := match count with inl _ => 0 | inr c => c end in
        if count =? 0 then Ret (Some ErrNotFound, fields) else Ret (Some ErrConflict, fields)
      else Ret (None, fields)
  end.

Definition Delete (now : Time) (orgID : uuid) (name : string) : prog R (option storeErr) :=
  existing ← call (AFirst (by_key orgID name));
  match existing with
  | inl ErrRecordNotFound => Ret (Some ErrNotFound)
  | inl e => Ret (Some (ErrWrapped "fetching resource for delete" e))
  | inr existing =>
      hasChildren ← HasChildren orgID name;
      match hasChildren with
      | inl (ErrWrapped c e) => Ret (Some (ErrWrapped ("checking children: " +:+ c) e))
      | inl e => Ret (Some e)
      | inr true => Ret (Some ErrHasChildren)
      | inr false =>
          if isFinalizerAccessor && (0 <? length (GetFinalizers (base existing)))%nat then
            n ← call (AUpdates (by_key orgID name)
                        (on_base (λ b, SetTimes (CreatedAt b) now (SetDeletionTimestamp (Some now) b))));
            match n with
            | inl e => Ret (Some (ErrWrapped "setting deletion timestamp" e))
            | inr _ => Ret (Some ErrFinalizersPending)
            end
          else
            n ← call (ADelete (by_key orgID name) now);
            match n with
            | inl e => Ret (Some (ErrWrapped "deleting resource" e))
            | inr n => if n =? 0 then Ret (Some ErrNotFound) else Ret None
            end
      end
  end.

(** * StatusUpdater

    [marshal] is [json.Marshal] on the map of status fields. *)

Inductive statusErr :=
| ErrMarshalingStatus
| ErrStatus (e : storeErr).

Definition UpdateStatus (marshal : gmap string column → option string) (table : string)
    (now : Time) (orgID : uuid) (name : string) (fields : gmap string column)
  : prog R (option statusErr) :=
  match marshal fields with
  | None => Ret (Some ErrMarshalingStatus)
  | Some status =>
      n ← call (AUpdateColumns (by_key orgID name)
                  (<["status" := CStr status]> (<["updated_at" := CTime now]> ∅)));
      match n with
      | inl e => Ret (Some (ErrStatus (ErrWrapped ("updating status in " +:+ table) e)))
      | inr n => if n =? 0 then Ret (Some (ErrStatus ErrNotFound)) else Ret None
      end
  end.

(** * InstrumentedStore

    The duration of a call is observed under the labels table, operation and
    error code. *)

Definition record_code (err : option storeErr) : string :=
  match err with
  | None => ""
  | Some (ErrWrapped _ (PgError code)) => code
  | Some _ => "error"
  end.

Definition record_labels (table op : string) (err : option storeErr) : string * string * string :=
  (table, op, record_code err).

Definition instrument {A} (table op : string) (err : A → option storeErr) (m : prog R A)
  : prog R (A * (string * string * string)) :=
  a ← m; Ret (a, record_labels table op (err a)).

Definition sum_err {A} (x : storeErr + A) : option storeErr :=
  match x with inl e => Some e | inr _ => None end.

Definition InstrumentedCreate table fuel now res :=
  instrument table "create" fst (Create fuel now res).
Definition InstrumentedGet table orgID name :=
  instrument table "get" sum_err (Get orgID name).
Definition InstrumentedList table orgID opts :=
  instrument table "list" sum_err (List orgID opts).
Definition InstrumentedUpdate table fuel now res :=
  instrument table "update" fst (Update fuel now res).
Definition InstrumentedPartialUpdate table now orgID name rv fields :=
  instrument table "partial_update" fst (PartialUpdate now orgID name rv fields).
Definition InstrumentedDelete table now orgID name :=
  instrument table "delete" id (Delete now orgID name).

End store.
