(* ===== verification/Columns.v ===== *)
(** The JSON columns of the resources (src/resource/model.go, [JSONMap],
    [JSONArray] and [JSONField]): how the specs, statuses, labels and finalizers
    of the domain types are written to jsonb columns and read back, with the
    struct tags of src/platform/*/model.go, src/examples/inventory/model.go and
    src/resource/mixins. *)

From S2P Require Import Prelude GoStrings GoJson Float JsonPrint Resource Gorm Models Nesting Store.

(** * The jsonb type

    PostgreSQL does not keep the text of a jsonb value: it keeps the value, with
    the members of an object in an order of its own, and numbers without an
    exponent; the text of an integer stays as it is. *)

#[warnings="-register-all"]
Inductive jperm : json → json → Prop :=
| jp_refl v : jperm v v
| jp_num l l' : (∀ z, l ≠ Itoa z) → same_number l l' → jperm (JNum l) (JNum l')
| jp_arr l l' : Forall2 jperm l l' → jperm (JArr l) (JArr l')
| jp_obj kvs mid kvs' :
    Forall2 (λ a b, a.1 = b.1 ∧ jperm a.2 b.2) kvs mid → mid ≡ₚ kvs' → jperm (JObj kvs) (JObj kvs').

(** [jsonb t] is the text a column returns after [t] was written to it. *)
Class Jsonb := {
  jsonb : string → string;
  jsonb_law : ∀ t v, parse_json t = Some v → wf_json v →
    ∃ v', parse_json (jsonb t) = Some v' ∧ jperm v v';
}.

#[global] Program Instance Jsonb_text : Jsonb := { jsonb := λ t, t }.
Next Obligation. intros t v Hv _. exists v. eauto using jp_refl. Qed.

Lemma jperm_arr l j : jperm (JArr l) j → ∃ l', j = JArr l' ∧ Forall2 jperm l l'.
Proof.
  inversion 1; subst; [|by eauto]. exists l. split; [done|]. apply Reflexive_instance_0. intros v. apply jp_refl.
Qed.

Lemma jperm_obj kvs j :
  jperm (JObj kvs) j → ∃ mid kvs', j = JObj kvs' ∧
    Forall2 (λ a b, a.1 = b.1 ∧ jperm a.2 b.2) kvs mid ∧ mid ≡ₚ kvs'.
Proof.
  inversion 1; subst; [|by eauto]. exists kvs, kvs. split_and!; [done| |done].
  apply Reflexive_instance_0. intros v. split; [done|apply jp_refl].
Qed.

(** * Codecs: json.Marshal and json.Unmarshal at a type

    [unmarshal x j] decodes into a variable that holds [x].  [codec_ok] holds of
    the values that are written without loss: valid strings, integers of 64 bits,
    and no empty slice or map in a field with [omitempty], which reads back as
    nil.  *)

Class Codec (T : Type) := {
  zero : T;
  marshal : T → json;
  unmarshal : T → json → option T;
  codec_ok : T → Prop;
  codec_depth : nat;
  codec_wf : ∀ x, codec_ok x → wf_json (marshal x) ∧ (height (marshal x) ≤ codec_depth)%nat;
  codec_read : ∀ x j, codec_ok x → jperm (marshal x) j → unmarshal zero j = Some x;
}.

Definition unmarshal_string (x : string) (j : json) : option string :=
  match j with JStr s => Some s | JNull => Some x | _ => None end.

#[global] Program Instance string_Codec : Codec string := {
  zero := ""; marshal := JStr; unmarshal := unmarshal_string; codec_ok := str_ok; codec_depth := 0;
}.
Next Obligation. intros x Hx. split; [by constructor|done]. Qed.
Next Obligation. intros x j _ H. by inversion H. Qed.

Definition unmarshal_bool (x : bool) (j : json) : option bool :=
  match j with JBool b => Some b | JNull => Some x | _ => None end.

#[global] Program Instance bool_Codec : Codec bool := {
  zero := false; marshal := JBool; unmarshal := unmarshal_bool; codec_ok := λ _, True; codec_depth := 0;
}.
Next Obligation. intros x Hx. split; [by constructor|done]. Qed.
Next Obligation. intros x j _ H. by inversion H. Qed.

(** A number literal with a fraction or an exponent, or out of range, is an
    error for an [int]. *)
Definition unmarshal_int (x : Z) (j : json) : option Z :=
  match j with JNum lit => ParseInt lit | JNull => Some x | _ => None end.

#[global] Program Instance int_Codec : Codec Z := {
  zero := 0; marshal := λ z, JNum (Itoa z); unmarshal := unmarshal_int;
  codec_ok := λ z, in_i64 z = true; codec_depth := 0;
}.
Next Obligation. intros x Hx. split; [by constructor|done]. Qed.
Next Obligation.
  intros x j Hx H. inversion H as [|? ? Hne| |]; subst; [|by destruct (Hne x)]. simpl. by apply ParseInt_Itoa.
Qed.

(** A slice is decoded element by element into the elements it already has, and
    into zero values after them. *)
Fixpoint unmarshal_elems {A} `{Codec A} (old : list A) (l : list json) : option (list A) :=
  match l with
  | [] => Some []
  | j :: l => x ← unmarshal (default zero (head old)) j; xs ← unmarshal_elems (tail old) l; Some (x :: xs)
  end.

Definition unmarshal_slice {A} `{Codec A} (x : option (list A)) (j : json) : option (option (list A)) :=
  match j with
  | JNull => Some None
  | JArr l => Some <$> unmarshal_elems (default [] x) l
  | _ => None
  end.

Definition marshal_slice {A} `{Codec A} (x : option (list A)) : json :=
  match x with None => JNull | Some l => JArr (List.map marshal l) end.

Definition slice_ok {A} `{Codec A} (x : option (list A)) : Prop :=
  match x with None => True | Some l => Forall codec_ok l end.

Lemma marshal_list_height {A} `{Codec A} l :
  Forall codec_ok l → (height (JArr (List.map marshal l)) ≤ S (codec_depth (T := A)))%nat.
Proof.
  intros Hl. simpl. apply le_n_S, list_max_le, List.Forall_map, List.Forall_map, Forall_forall.
  intros a Ha. rewrite Forall_forall in Hl. by apply codec_wf, Hl.
Qed.

#[global] Program Instance slice_Codec {A} `{Codec A} : Codec (option (list A)) := {
  zero := None; marshal := marshal_slice; unmarshal := unmarshal_slice;
  codec_ok := slice_ok;
  codec_depth := S (codec_depth (T := A));
}.
Next Obligation.
  intros A ? [l|] Hl; [|split; [constructor|simpl; lia]]. split; [|by apply marshal_list_height].
  constructor. apply List.Forall_map. eapply Forall_impl; [exact Hl|]. intros a Ha. by apply codec_wf.
Qed.
Next Obligation.
  intros A ? [l|] j Hl H; [|by inversion H]. apply jperm_arr in H as (l' & -> & Hl'). simpl.
  enough (unmarshal_elems [] l' = Some l) as -> by done.
  revert l' Hl'. induction Hl as [|a l Ha _ IH]; intros l' Hl'; inversion Hl'; subst; [done|].
  simpl. erewrite codec_read by done. simpl. by rewrite IH.
Qed.

(** The encoder writes the members of a map in the order of their keys. *)
Definition key_le (a b : string * string) : Prop := Is_true (String.leb a.1 b.1).
#[global] Instance key_le_dec : RelDecision key_le := λ a b, _.

Definition marshal_map (x : option (gmap string string)) : json :=
  match x with
  | None => JNull
  | Some m => JObj (List.map (λ kv, (kv.1, JStr kv.2)) (merge_sort key_le (map_to_list m)))
  end.

Fixpoint unmarshal_members (m : gmap string string) (kvs : list (string * json)) : option (gmap string string) :=
  match kvs with
  | [] => Some m
  | (k, j) :: kvs => v ← unmarshal_string "" j; unmarshal_members (<[k := v]> m) kvs
  end.

(** The members are added to the map the variable holds. *)
Definition unmarshal_map (x : option (gmap string string)) (j : json) : option (option (gmap string string)) :=
  match j with
  | JNull => Some None
  | JObj kvs => Some <$> unmarshal_members (default ∅ x) kvs
  | _ => None
  end.

Definition map_ok (x : option (gmap string string)) : Prop :=
  match x with None => True | Some m => map_Forall (λ k v, str_ok k ∧ str_ok v) m end.

Lemma unmarshal_members_all m kvs :
  unmarshal_members m (List.map (λ kv, (kv.1, JStr kv.2)) kvs) = Some (foldl (λ m kv, <[kv.1 := kv.2]> m) m kvs).
Proof. revert m. induction kvs as [|[k v] kvs IH]; intros m; [done|]. simpl. apply IH. Qed.

Lemma insert_all_list_to_map (kvs : list (string * string)) (m : gmap string string) :
  NoDup kvs.*1 → (∀ k, k ∈ kvs.*1 → m !! k = None) →
  foldl (λ m kv, <[kv.1 := kv.2]> m) m kvs = list_to_map kvs ∪ m.
Proof.
  revert m. induction kvs as [|[k v] kvs IH]; intros m Hnd Hm; simpl; [by rewrite (left_id_L ∅ (∪))|].
  rewrite fmap_cons in Hnd. apply NoDup_cons in Hnd as [Hk Hnd]. simpl in Hk.
  rewrite IH; [|done|].
  - rewrite <-insert_union_l. symmetry. apply insert_union_r. by apply not_elem_of_list_to_map.
  - intros k' Hk'. rewrite lookup_insert_ne by (intros ->; done). apply Hm. rewrite fmap_cons. by right.
Qed.

Lemma fst_members (kvs : list (string * string)) :
  (List.map (λ kv, (kv.1, JStr kv.2)) kvs).*1 = kvs.*1.
Proof. induction kvs as [|kv kvs IH]; [done|]. simpl. by f_equal. Qed.

#[global] Program Instance map_Codec : Codec (option (gmap string string)) := {
  zero := None; marshal := marshal_map; unmarshal := unmarshal_map;
  codec_ok := map_ok;
  codec_depth := 1;
}.
Next Obligation.
  intros [m|] Hm; [|split; [constructor|simpl; lia]].
  pose proof (merge_sort_Permutation key_le (map_to_list m)) as Hp. split.
  - simpl. constructor.
    + rewrite fst_members, Hp. apply NoDup_fst_map_to_list.
    + apply List.Forall_map, Forall_forall. intros [k v] Hkv. rewrite Hp in Hkv.
      apply elem_of_map_to_list in Hkv. apply Hm in Hkv as [Hk Hv]. split; [done|by constructor].
  - simpl. apply le_n_S, list_max_le, List.Forall_map, List.Forall_map, Forall_forall. by intros.
Qed.
Next Obligation.
  intros [m|] j Hm H; [|by inversion H]. simpl in H. apply jperm_obj in H as (mid & kvs' & -> & Hmid & Hp).
  assert (mid = List.map (λ kv : string * string, (kv.1, JStr kv.2)) (merge_sort key_le (map_to_list m))) as ->.
  { clear Hp. revert Hmid. generalize (merge_sort key_le (map_to_list m)). intros l. revert mid.
    induction l as [|[k v] l IH]; intros mid Hmid; inversion Hmid as [|? [k' j'] ? ? [Hk Hj]]; subst; [done|].
    simpl in *. subst. inversion Hj; subst. f_equal. by apply IH. }
  symmetry in Hp. apply Permutation_map_inv in Hp as (l & -> & Hl). rewrite merge_sort_Permutation in Hl. simpl.
  rewrite unmarshal_members_all, insert_all_list_to_map.
  - simpl. rewrite (right_id_L ∅ (∪)). do 2 f_equal. rewrite <-(list_to_map_to_list m). symmetry.
    apply list_to_map_proper; [|done]. apply NoDup_fst_map_to_list.
  - rewrite <-Hl. apply NoDup_fst_map_to_list.
  - intros. apply lookup_empty.
Qed.

(** * Structs

    A field is its tag, what the encoder emits for it ([None] when [omitempty]
    leaves it out), and how the decoder assigns it.  [copy x y] is [y] with the
    field of [x]; [blank y] says the field of [y] has its zero value. *)

Record field (T : Type) := MkField {
  tag : string;
  emit : T → option json;
  assign : T → json → option T;
  copy : T → T → T;
  blank : T → Prop;
  field_ok : T → Prop;
  field_depth : nat;
  tag_ok : str_ok tag;
  emit_wf : ∀ x j, field_ok x → emit x = Some j → wf_json j ∧ (height j ≤ field_depth)%nat;
  assign_read : ∀ x y j j', field_ok x → blank y → emit x = Some j → jperm j j' → assign y j' = Some (copy x y);
  omit_copy : ∀ x y, field_ok x → blank y → emit x = None → copy x y = y;
}.
Arguments tag {T}. Arguments emit {T}. Arguments assign {T}. Arguments copy {T}. Arguments blank {T}.
Arguments field_ok {T}. Arguments field_depth {T}. Arguments tag_ok {T}. Arguments emit_wf {T}.
Arguments assign_read {T}. Arguments omit_copy {T}.

Definition emit_field {T A} `{Codec A} (omit : A → bool) (g : T → A) (x : T) : option json :=
  if omit (g x) then None else Some (marshal (g x)).

Definition assign_field {T A} `{Codec A} (g : T → A) (s : A → T → T) (x : T) (j : json) : option T :=
  a ← unmarshal (g x) j; Some (s a x).

(** Writing a field with its own value changes nothing; a tag is a plain string.
    Both are found by computation for a concrete record and tag. *)
Class FieldLaw {T A} (g : T → A) (s : A → T → T) : Prop := field_law : ∀ y, s (g y) y = y.
Class TagLaw (name : string) : Prop := tag_law : str_ok name.
#[global] Hint Extern 0 (FieldLaw _ _) => by intros [] : typeclass_instances.
#[global] Hint Extern 0 (TagLaw _) => split; vm_compute; reflexivity : typeclass_instances.

(** The field read by [g] and written by [s]. *)
Program Definition fld {T A} `{Codec A} (name : string) (omit : A → bool) (g : T → A) (s : A → T → T)
    {Hs : FieldLaw g s} {Hname : TagLaw name} : field T :=
  MkField T name (emit_field omit g) (assign_field g s) (λ x y, s (g x) y) (λ y, g y = zero)
    (λ x, codec_ok (g x) ∧ (omit (g x) = true → g x = zero)) (codec_depth (T := A)) Hname _ _ _.
Next Obligation. intros T A ? name omit g s Hs Hn x j [Hok _]. unfold emit_field. simpl. case_match; [done|]. intros [= <-]. by apply codec_wf. Qed.
Next Obligation.
  intros T A ? name omit g s Hs Hn x y j j' [Hok _] Hb. unfold emit_field, assign_field. simpl.
  case_match; [done|]. intros [= <-] Hj. simpl in Hb. rewrite Hb. by erewrite codec_read.
Qed.
Next Obligation.
  intros T A ? name omit g s Hs Hn x y [_ Ho] Hb. unfold emit_field. simpl in *. case_match; [|done].
  intros _. rewrite Ho by done. rewrite <-Hb. apply Hs.
Qed.

(** The fields of an embedded struct belong to the outer one. *)
Program Definition embed {T U} (g : T → U) (s : U → T → T) {Hs : FieldLaw g s} (f : field U) : field T :=
  MkField T (tag f) (λ x, emit f (g x)) (λ x j, u ← assign f (g x) j; Some (s u x))
    (λ x y, s (copy f (g x) (g y)) y) (λ y, blank f (g y)) (λ x, field_ok f (g x)) (field_depth f) (tag_ok f) _ _ _.
Next Obligation. intros T U g s Hs f x j H He. exact (emit_wf f (g x) j H He). Qed.
Next Obligation. intros T U g s Hs f x y j j' Hx Hy He Hj. simpl in *. by erewrite assign_read. Qed.
Next Obligation. intros T U g s Hs f x y Hx Hy He. simpl in *. by rewrite omit_copy. Qed.

Section structs.
Context {T : Type}.
Implicit Types (fs all : list (field T)) (f : field T).

Definition marshal_struct fs (x : T) : json := JObj (omap (λ f, pair (tag f) <$> emit f x) fs).

(** The field a member of the text belongs to: the exact tag first, else the
    first tag equal up to case; other members are ignored. *)
Definition resolve fs (k : string) : option string :=
  if existsb (λ f, String.eqb (tag f) k) fs then Some k
  else tag <$> List.find (λ f, fold_eq (tag f) k) fs.

Fixpoint assign_members f (kvs : list (string * json)) (y : T) : option T :=
  match kvs with
  | [] => Some y
  | (_, j) :: kvs => y ← assign f y j; assign_members f kvs y
  end.

Definition matched all f (kvs : list (string * json)) : list (string * json) :=
  bfilter (λ kv, bool_decide (resolve all kv.1 = Some (tag f))) kvs.

(** The decoder assigns the members in the order of the text; two fields do not
    share memory, so the assignments are grouped by field here. *)
Fixpoint assign_fields all fs (kvs : list (string * json)) (y : T) : option T :=
  match fs with
  | [] => Some y
  | f :: fs => y ← assign_members f (matched all f kvs) y; assign_fields all fs kvs y
  end.

Definition unmarshal_struct fs (y : T) (j : json) : option T :=
  match j with
  | JNull => Some y
  | JObj kvs => assign_fields fs fs kvs y
  | _ => None
  end.

(** The result of copying the fields one after the other, and that each is still
    blank when its turn comes. *)
Fixpoint fill fs (x y : T) : T :=
  match fs with [] => y | f :: fs => fill fs x (copy f x y) end.

Fixpoint fill_blank fs (x y : T) : Prop :=
  match fs with [] => True | f :: fs => blank f y ∧ fill_blank fs x (copy f x y) end.

Lemma resolve_tag fs f : f ∈ fs → resolve fs (tag f) = Some (tag f).
Proof.
  intros Hf. unfold resolve. replace (existsb _ fs) with true; [done|]. symmetry. apply existsb_exists.
  exists f. split; [by apply list_elem_of_In|]. apply String.eqb_refl.
Qed.

Lemma bfilter_key (kvs : list (string * json)) k j :
  NoDup kvs.*1 → (k, j) ∈ kvs → bfilter (λ kv, bool_decide (kv.1 = k)) kvs = [(k, j)].
Proof.
  induction kvs as [|[k' j'] kvs IH]; intros Hnd Hin; [by apply elem_of_nil in Hin|].
  rewrite fmap_cons in Hnd. apply NoDup_cons in Hnd as [Hk Hnd]. unfold bfilter in *. simpl in *.
  apply elem_of_cons in Hin as [[= <- <-]|Hin].
  - rewrite bool_decide_eq_true_2 by done. f_equal. apply bfilter_nil_iff. intros [k2 j2] H2. apply bool_decide_eq_false.
    simpl. intros ->. apply Hk. apply list_elem_of_fmap. by exists (k, j2).
  - rewrite bool_decide_eq_false_2; [by apply IH|]. intros ->. apply Hk. apply list_elem_of_fmap. by exists (k, j).
Qed.

Lemma emitted_tags fs x : sublist (omap (λ f, pair (tag f) <$> emit f x) fs).*1 (tag <$> fs).
Proof. induction fs as [|f fs IH]; [constructor|]. simpl. destruct (emit f x); simpl; by constructor. Qed.

Lemma emitted_elem fs x k j :
  (k, j) ∈ omap (λ f, pair (tag f) <$> emit f x) fs ↔ ∃ f, f ∈ fs ∧ tag f = k ∧ emit f x = Some j.
Proof.
  rewrite list_elem_of_omap. split.
  - intros (f & Hf & He). destruct (emit f x) eqn:E; simpl in He; simplify_eq. eauto.
  - intros (f & Hf & <- & He). exists f. by rewrite He.
Qed.

Lemma same_keys (l l' : list (string * json)) :
  Forall2 (λ a b, a.1 = b.1 ∧ jperm a.2 b.2) l l' → l.*1 = l'.*1.
Proof. induction 1 as [|a b l l' [H _] _ IH]; [done|]. rewrite !fmap_cons. by f_equal. Qed.

Section reading.
Context (all : list (field T)) (x : T) (kvs mid : list (string * json)).
Hypothesis Htags : NoDup (tag <$> all).
Hypothesis Hok : Forall (λ f, field_ok f x) all.
Hypothesis Hmid : Forall2 (λ a b : string * json, a.1 = b.1 ∧ jperm a.2 b.2) (omap (λ f, pair (tag f) <$> emit f x) all) mid.
Hypothesis Hperm : mid ≡ₚ kvs.

Lemma read_keys : NoDup kvs.*1.
Proof.
  rewrite <-Hperm. replace mid.*1 with (omap (λ f, pair (tag f) <$> emit f x) all).*1.
  - eapply sublist_NoDup; [exact Htags|apply emitted_tags].
  - by apply same_keys.
Qed.

Lemma read_present f j : f ∈ all → emit f x = Some j → ∃ j', (tag f, j') ∈ kvs ∧ jperm j j'.
Proof.
  intros Hf He. assert ((tag f, j) ∈ omap (λ f, pair (tag f) <$> emit f x) all) as Hin.
  { apply emitted_elem. eauto. }
  apply list_elem_of_lookup in Hin as [i Hi]. destruct (Forall2_lookup_l _ _ _ _ _ Hmid Hi) as ([k' j'] & Hi' & [Hk Hj]).
  simpl in *. subst k'. exists j'. split; [|done]. rewrite <-Hperm. by apply list_elem_of_lookup_2 in Hi'.
Qed.

Lemma read_origin k j : (k, j) ∈ kvs → ∃ f, f ∈ all ∧ tag f = k ∧ is_Some (emit f x).
Proof.
  rewrite <-Hperm. intros [i Hi]%list_elem_of_lookup.
  destruct (Forall2_lookup_r _ _ _ _ _ Hmid Hi) as ([k' j'] & Hi' & [Hk Hj]). simpl in *. subst k'.
  apply list_elem_of_lookup_2, emitted_elem in Hi' as (f & Hf & Ht & He). eauto.
Qed.

Lemma matched_key f : f ∈ all → matched all f kvs = bfilter (λ kv, bool_decide (kv.1 = tag f)) kvs.
Proof.
  intros Hf. apply bfilter_ext. intros [k j] Hkj. simpl. apply read_origin in Hkj as (g & Hg & <- & _).
  rewrite resolve_tag by done. apply bool_decide_ext. split; congruence.
Qed.

Lemma assign_one f y : f ∈ all → blank f y → assign_members f (matched all f kvs) y = Some (copy f x y).
Proof.
  intros Hf Hb. rewrite matched_key by done. assert (field_ok f x) as Hfok by by eapply Forall_forall in Hok.
  destruct (emit f x) as [j|] eqn:He.
  - destruct (read_present f j Hf He) as (j' & Hin & Hj). rewrite (bfilter_key _ _ j') by (done || apply read_keys).
    simpl. by erewrite assign_read.
  - rewrite omit_copy by done. replace (bfilter _ kvs) with (@nil (string * json)); [done|]. symmetry.
    apply bfilter_nil_iff. intros [k j] (g & Hg & <- & [? Hs])%read_origin. simpl. apply bool_decide_eq_false.
    intros Ht. rewrite (NoDup_key_inj tag all g f) in Hs by done. congruence.
Qed.

Lemma assign_all fs y : (∀ f, f ∈ fs → f ∈ all) → fill_blank fs x y → assign_fields all fs kvs y = Some (fill fs x y).
Proof.
  revert y. induction fs as [|f fs IH]; intros y Hsub Hb; [done|]. simpl. destruct Hb as [Hb1 Hb2].
  rewrite assign_one by (done || apply Hsub; left). simpl. apply IH; [|done]. intros g Hg. apply Hsub. by right.
Qed.
End reading.

Lemma struct_read fs x y j :
  NoDup (tag <$> fs) → Forall (λ f, field_ok f x) fs → fill_blank fs x y →
  jperm (marshal_struct fs x) j → unmarshal_struct fs y j = Some (fill fs x y).
Proof.
  intros Ht Hok Hb (mid & kvs & -> & Hmid & Hp)%jperm_obj. simpl. by eapply assign_all.
Qed.

Lemma struct_wf fs x :
  NoDup (tag <$> fs) → Forall (λ f, field_ok f x) fs →
  wf_json (marshal_struct fs x) ∧ (height (marshal_struct fs x) ≤ S (list_max (field_depth <$> fs)))%nat.
Proof.
  intros Ht Hok. rewrite Forall_forall in Hok. split.
  - constructor; [eapply sublist_NoDup; [exact Ht|apply emitted_tags]|]. apply Forall_forall.
    intros [k j] (f & Hf & <- & He)%emitted_elem. split; [apply tag_ok|]. by eapply emit_wf; [apply Hok|].
  - simpl. apply le_n_S, list_max_le, List.Forall_map. apply Forall_forall.
    intros [k j] (f & Hf & <- & He)%emitted_elem. simpl. transitivity (field_depth f).
    + by eapply emit_wf; [apply Hok|].
    + apply height_le, list_elem_of_fmap. eauto.
Qed.

(** A struct type is its fields: tags without repetition, and fields that
    determine the value. *)
Program Definition struct_codec (z : T) (fs : list (field T))
    (Htags : NoDup (tag <$> fs)) (Hfill : ∀ x, fill fs x z = x) (Hblank : ∀ x, fill_blank fs x z) : Codec T := {|
  zero := z; marshal := marshal_struct fs; unmarshal := unmarshal_struct fs;
  codec_ok := λ x, Forall (λ f, field_ok f x) fs;
  codec_depth := S (list_max (field_depth <$> fs));
|}.
Next Obligation. intros z fs Htags Hfill Hblank x. by apply struct_wf. Qed.
Next Obligation. intros z fs Htags Hfill Hblank x j Hok Hj. rewrite <-(Hfill x). by apply struct_read. Qed.
End structs.

(** ** The text of one struct read as another

    The members that belong to a field are those of the fields whose tags resolve
    to it. *)

Definition sources {T U} (all : list (field U)) (f : field U) (gs : list (field T)) : list (field T) :=
  bfilter (λ g, bool_decide (resolve all (tag g) = Some (tag f))) gs.

Lemma matched_struct {T U} (all : list (field U)) f (gs : list (field T)) x :
  matched all f (omap (λ g, pair (tag g) <$> emit g x) gs) =
  omap (λ g, pair (tag g) <$> emit g x) (sources all f gs).
Proof.
  unfold matched, sources, bfilter. induction gs as [|g gs IH]; [done|]. cbn.
  destruct (emit g x) as [j|] eqn:E; cbn; rewrite IH; destruct (bool_decide _); cbn; by rewrite ?E.
Qed.

(** A field is read as it was written by the field [G] of the other struct, when
    both have the same type. *)
Lemma assign_same {T U A} `{Codec A} (all : list (field U)) (gs : list (field T)) (G : field T)
    name (omit omit' : A → bool) (g : U → A) (s : A → U → U) `{!FieldLaw g s} `{!TagLaw name} (g' : T → A) x y :
  sources all (fld name omit g s) gs = [G] → Forall (λ f, field_ok f x) gs →
  emit G x = emit_field omit' g' x → (field_ok G x → codec_ok (g' x) ∧ (omit' (g' x) = true → g' x = zero)) →
  g y = zero →
  assign_members (fld name omit g s) (omap (λ g, pair (tag g) <$> emit g x) (sources all (fld name omit g s) gs)) y =
  Some (s (g' x) y).
Proof.
  intros Hs Hgs He HG Hy. destruct HG as [Hok Hom].
  { rewrite Forall_forall in Hgs. apply Hgs. apply (elem_of_bfilter (λ g, bool_decide (resolve all (tag g) = Some name))).
    unfold sources in Hs. cbn in Hs. rewrite Hs. left. }
  rewrite Hs. cbn. rewrite He. unfold emit_field. destruct (omit' (g' x)) eqn:E; cbn.
  - rewrite Hom, <-Hy by done. f_equal. symmetry. apply FieldLaw0.
  - unfold assign_field. rewrite Hy. by rewrite (codec_read (g' x) (marshal (g' x)) Hok (jp_refl _)).
Qed.

(** * The domain types

    [keep] is a field without [omitempty]; the other tests are the empty values
    the option leaves out. *)

Definition keep {A} : A → bool := λ _, false.
Definition empty_string (s : string) : bool := String.eqb s "".
Definition zero_int (z : Z) : bool := z =? 0.
Definition empty_slice {A} (x : option (list A)) : bool := match x with None | Some [] => true | _ => false end.
Definition empty_map (x : option (gmap string string)) : bool :=
  match x with None => true | Some m => bool_decide (m = ∅) end.

Ltac distinct_tags := apply (bool_decide_unpack _); vm_compute; exact I.
Ltac filled :=
  intros [];
  repeat match goal with
  | x : BMCSpec |- _ => destruct x
  | x : BMCStatus |- _ => destruct x
  | x : LifecycleStatus |- _ => destruct x
  end; by repeat (split; [done|]).

Notation "'struct!' z fs" := (struct_codec z fs ltac:(distinct_tags) ltac:(filled) ltac:(filled))
  (at level 10, z at level 9, fs at level 9, only parsing).

#[global] Instance TenantSpec_Codec : Codec TenantSpec :=
  struct! (MkTenantSpec "" "")
    [fld "display_name" empty_string DisplayName (λ v x, MkTenantSpec v (Description x));
     fld "description" empty_string Description (λ v x, MkTenantSpec (DisplayName x) v)].

#[global] Instance TenantStatus_Codec : Codec TenantStatus :=
  struct! (MkTenantStatus "" "")
    [fld "phase" keep t_Phase (λ v x, MkTenantStatus v (t_Message x));
     fld "message" empty_string t_Message (λ v x, MkTenantStatus (t_Phase x) v)].

#[global] Instance OrganizationSpec_Codec : Codec OrganizationSpec :=
  struct! (MkOrganizationSpec "" "")
    [fld "display_name" empty_string org_DisplayName (λ v x, MkOrganizationSpec v (org_Description x));
     fld "description" empty_string org_Description (λ v x, MkOrganizationSpec (org_DisplayName x) v)].

#[global] Instance OrganizationStatus_Codec : Codec OrganizationStatus :=
  struct! (MkOrganizationStatus "" "" "")
    [fld "phase" keep org_Phase (λ v x, MkOrganizationStatus v (org_Message x) (ExternalID x));
     fld "message" empty_string org_Message (λ v x, MkOrganizationStatus (org_Phase x) v (ExternalID x));
     fld "external_id" empty_string ExternalID (λ v x, MkOrganizationStatus (org_Phase x) (org_Message x) v)].

#[global] Instance Rule_Codec : Codec Rule :=
  struct! (MkRule None None None "")
    [fld "subjects" keep Subjects (λ v x, MkRule v (Resources x) (Actions x) (Effect x));
     fld "resources" keep Resources (λ v x, MkRule (Subjects x) v (Actions x) (Effect x));
     fld "actions" keep Actions (λ v x, MkRule (Subjects x) (Resources x) v (Effect x));
     fld "effect" keep Effect (λ v x, MkRule (Subjects x) (Resources x) (Actions x) v)].

#[global] Instance PolicySpec_Codec : Codec PolicySpec :=
  struct! (MkPolicySpec "" None)
    [fld "description" empty_string p_Description (λ v x, MkPolicySpec v (Rules x));
     fld "rules" keep Rules (λ v x, MkPolicySpec (p_Description x) v)].

#[global] Instance PolicyStatus_Codec : Codec PolicyStatus :=
  struct! (MkPolicyStatus "") [fld "phase" keep p_Phase (λ v _, MkPolicyStatus v)].

#[global] Instance SecretSpec_Codec : Codec SecretSpec :=
  struct! (MkSecretSpec "" None)
    [fld "type" keep s_Type (λ v x, MkSecretSpec v (s_Data x));
     fld "data" empty_map s_Data (λ v x, MkSecretSpec (s_Type x) v)].

#[global] Instance SecretStatus_Codec : Codec SecretStatus :=
  struct! (MkSecretStatus "") [fld "phase" keep s_Phase (λ v _, MkSecretStatus v)].

#[global] Instance CatalogItemStatus_Codec : Codec CatalogItemStatus :=
  struct! (MkCatalogItemStatus "") [fld "phase" keep c_Phase (λ v _, MkCatalogItemStatus v)].

#[global] Instance WebhookSpec_Codec : Codec WebhookSpec :=
  struct! (MkWebhookSpec "" "" None None false)
    [fld "url" keep URL (λ v x, MkWebhookSpec v (w_Secret x) (Events x) (Kinds x) (Active x));
     fld "secret" empty_string w_Secret (λ v x, MkWebhookSpec (URL x) v (Events x) (Kinds x) (Active x));
     fld "events" keep Events (λ v x, MkWebhookSpec (URL x) (w_Secret x) v (Kinds x) (Active x));
     fld "kinds" empty_slice Kinds (λ v x, MkWebhookSpec (URL x) (w_Secret x) (Events x) v (Active x));
     fld "active" keep Active (λ v x, MkWebhookSpec (URL x) (w_Secret x) (Events x) (Kinds x) v)].

#[global] Instance WebhookStatus_Codec : Codec WebhookStatus :=
  struct! (MkWebhookStatus "" "" 0 0)
    [fld "phase" keep w_Phase (λ v x, MkWebhookStatus v (LastDeliveryAt x) (LastStatusCode x) (FailureCount x));
     fld "last_delivery_at" empty_string LastDeliveryAt
       (λ v x, MkWebhookStatus (w_Phase x) v (LastStatusCode x) (FailureCount x));
     fld "last_status_code" zero_int LastStatusCode
       (λ v x, MkWebhookStatus (w_Phase x) (LastDeliveryAt x) v (FailureCount x));
     fld "failure_count" keep FailureCount
       (λ v x, MkWebhookStatus (w_Phase x) (LastDeliveryAt x) (LastStatusCode x) v)].

(** The mixins are embedded without a tag: their fields are promoted. *)
Definition BMCSpec_fields : list (field BMCSpec) :=
  [fld "bmc_addr" empty_string BMCAddr (λ v x, MkBMCSpec v (BMCUser x) (BMCPassword x));
   fld "bmc_user" empty_string BMCUser (λ v x, MkBMCSpec (BMCAddr x) v (BMCPassword x));
   fld "bmc_password" empty_string BMCPassword (λ v x, MkBMCSpec (BMCAddr x) (BMCUser x) v)].

Definition BMCStatus_fields : list (field BMCStatus) :=
  [fld "power_state" empty_string m_PowerState (λ v x, MkBMCStatus v (BMCReachable x));
   fld "bmc_reachable" keep BMCReachable (λ v x, MkBMCStatus (m_PowerState x) v)].

#[global] Instance Condition_Codec : Codec Condition :=
  struct! (MkCondition "" "" "" "")
    [fld "type" keep cond_Type (λ v x, MkCondition v (cond_Status x) (cond_Reason x) (cond_Message x));
     fld "status" keep cond_Status (λ v x, MkCondition (cond_Type x) v (cond_Reason x) (cond_Message x));
     fld "reason" empty_string cond_Reason (λ v x, MkCondition (cond_Type x) (cond_Status x) v (cond_Message x));
     fld "message" empty_string cond_Message (λ v x, MkCondition (cond_Type x) (cond_Status x) (cond_Reason x) v)].

Definition LifecycleStatus_fields : list (field LifecycleStatus) :=
  [fld "phase" keep l_Phase (λ v x, MkLifecycleStatus v (l_Conditions x));
   fld "conditions" empty_slice l_Conditions (λ v x, MkLifecycleStatus (l_Phase x) v)].

#[global] Instance MachineSpec_Codec : Codec MachineSpec :=
  struct! (MkMachineSpec (MkBMCSpec "" "" "") "" 0 0 0)
    (List.map (embed m_BMC (λ v x, MkMachineSpec v (Arch x) (CPUs x) (MemoryMB x) (DiskGB x))) BMCSpec_fields ++
     [fld "arch" empty_string Arch (λ v x, MkMachineSpec (m_BMC x) v (CPUs x) (MemoryMB x) (DiskGB x));
      fld "cpus" zero_int CPUs (λ v x, MkMachineSpec (m_BMC x) (Arch x) v (MemoryMB x) (DiskGB x));
      fld "memory_mb" zero_int MemoryMB (λ v x, MkMachineSpec (m_BMC x) (Arch x) (CPUs x) v (DiskGB x));
      fld "disk_gb" zero_int DiskGB (λ v x, MkMachineSpec (m_BMC x) (Arch x) (CPUs x) (MemoryMB x) v)]).

#[global] Instance MachineStatus_Codec : Codec MachineStatus :=
  struct! (MkMachineStatus (MkBMCStatus "" false) (MkLifecycleStatus "" None) "")
    (List.map (embed m_BMCStatus (λ v x, MkMachineStatus v (m_Lifecycle x) (m_Message x))) BMCStatus_fields ++
     List.map (embed m_Lifecycle (λ v x, MkMachineStatus (m_BMCStatus x) v (m_Message x))) LifecycleStatus_fields ++
     [fld "message" empty_string m_Message (λ v x, MkMachineStatus (m_BMCStatus x) (m_Lifecycle x) v)]).

(** * The column types *)

(** [json.Marshal] cannot fail on a type with a codec: it holds no channel, no
    function and no float. *)
Definition json_Marshal {T} `{Codec T} (x : T) : option string := Some (print_json (marshal x)).

Definition json_Unmarshal {T} `{Codec T} (x : T) (data : string) : option T :=
  j ← parse_json data; unmarshal x j.

(** Every domain type's [MarshalSpec]. *)
#[global] Instance codec_Marshal {T} `{Codec T} : Marshal T | 100 := json_Marshal.

(** A [driver.Value]: NULL, bytes, text, or a value of another type. *)
Inductive driver_value := VNull | VBytes (data : string) | VText (data : string) | VOther.

Inductive columnErr := ErrMarshaling (what : string) | ErrUnsupportedType (what : string) | ErrUnmarshal.

Definition marshal_column {T} `{Codec T} (what : string) (x : T) : columnErr + driver_value :=
  match json_Marshal x with Some b => inr (VBytes b) | None => inl (ErrMarshaling what) end.

Definition scan_column {T} `{Codec T} (what : string) (x : T) (src : driver_value) : columnErr + T :=
  match src with
  | VNull => inr zero
  | VBytes data | VText data =>
      match json_Unmarshal x data with Some x => inr x | None => inl ErrUnmarshal end
  | VOther => inl (ErrUnsupportedType what)
  end.

Abbreviation JSONMap := (option (gmap string string)).
Abbreviation JSONArray := (option (list string)).

Definition JSONMap_Value (m : JSONMap) : columnErr + driver_value :=
  match m with None => inr VNull | Some _ => marshal_column "JSONMap" m end.

Definition JSONMap_Scan (m : JSONMap) (src : driver_value) : columnErr + JSONMap :=
  scan_column "JSONMap.Scan" m src.

Definition JSONArray_Value (a : JSONArray) : columnErr + driver_value :=
  match a with None => inr VNull | Some _ => marshal_column "JSONArray" a end.

Definition JSONArray_Scan (a : JSONArray) (src : driver_value) : columnErr + JSONArray :=
  scan_column "JSONArray.Scan" a src.

(** The wrapper has one field, [Data]. *)
Definition JSONField_Value {T} `{Codec T} (f : T) : columnErr + driver_value := marshal_column "JSONField" f.

Definition JSONField_Scan {T} `{Codec T} (f : T) (src : driver_value) : columnErr + T :=
  scan_column "JSONField.Scan" f src.

(** What the driver hands to [Scan] for a value it was given by [Value]: jsonb
    arrives as bytes or as text. *)
Inductive returned `{Jsonb} : columnErr + driver_value → driver_value → Prop :=
| ret_null : returned (inr VNull) VNull
| ret_bytes b : returned (inr (VBytes b)) (VBytes (jsonb b))
| ret_text b : returned (inr (VBytes b)) (VText (jsonb b)).

(** * Theorems *)

Lemma json_read `{Jsonb} {T} `{Codec T} (x : T) :
  codec_ok x → Z.of_nat (codec_depth (T := T)) ≤ max_depth →
  json_Unmarshal zero (jsonb (print_json (marshal x))) = Some x.
Proof.
  intros Hok Hd. destruct (codec_wf x Hok) as [Hwf Hh]. unfold json_Unmarshal.
  destruct (jsonb_law _ _ (parse_print _ Hwf ltac:(lia)) Hwf) as (v' & Hv' & Hp).
  rewrite Hv'. simpl. by apply codec_read.
Qed.

Lemma column_read `{Jsonb} {T} `{Codec T} (what what' : string) (x : T) src :
  codec_ok x → Z.of_nat (codec_depth (T := T)) ≤ max_depth →
  returned (marshal_column what x) src → scan_column what' zero src = inr x.
Proof.
  intros Hok Hd. unfold marshal_column, json_Marshal. inversion 1; subst; simpl; by rewrite json_read.
Qed.

(** C23: The JSON columns lose nothing.  What [Value] writes for a label map, a
    finalizer list, a spec or a status is read back by [Scan] as the same value,
    whatever order the jsonb column gives the members and whether the driver
    delivers bytes or text; a nil map or list is NULL and stays distinct from an
    empty one. *)
Theorem columns_roundtrip `{Jsonb} :
  (∀ (m : JSONMap) src, codec_ok m → returned (JSONMap_Value m) src → JSONMap_Scan None src = inr m) ∧
  (∀ (a : JSONArray) src, codec_ok a → returned (JSONArray_Value a) src → JSONArray_Scan None src = inr a) ∧
  (∀ T (HT : Codec T) (x : T) src, codec_ok x → Z.of_nat (codec_depth (T := T)) ≤ max_depth →
     returned (JSONField_Value x) src → JSONField_Scan zero src = inr x).
Proof.
  split_and!.
  - intros [m|] src Hok; [|by inversion 1]. by exact (column_read "JSONMap" "JSONMap.Scan" (Some m) src Hok ltac:(done)).
  - intros [a|] src Hok; [|by inversion 1]. by exact (column_read "JSONArray" "JSONArray.Scan" (Some a) src Hok ltac:(done)).
  - intros T HT x src Hok Hd. by apply column_read.
Qed.

(** C24: The generation follows the spec.  The comparison of the two specs by the
    bytes of their JSON is the comparison of the specs: an update that changes
    no field of the spec leaves the generation of the written resource alone, one
    that changes any field increments it. *)
Theorem generation_tracks_spec {Spec Status} `{Codec Spec} (old res : Object Spec Status) :
  codec_ok (o_spec old) → codec_ok (o_spec res) → Z.of_nat (codec_depth (T := Spec)) ≤ max_depth →
  (o_spec old = o_spec res → bump_generation old res = res) ∧
  (o_spec old ≠ o_spec res →
     bump_generation old res = on_base (λ b, SetGeneration (i64 (Generation b + 1)) b) res).
Proof.
  intros Hold Hres Hd. unfold bump_generation. simpl. unfold MarshalSpec, codec_Marshal, json_Marshal.
  split; [by intros ->; rewrite String.eqb_refl|]. intros Hne.
  destruct (String.eqb_spec (print_json (marshal (o_spec old))) (print_json (marshal (o_spec res)))) as [E|]; [|done].
  destruct Hne. destruct (codec_wf _ Hold), (codec_wf _ Hres). apply print_inj in E; [|done|done|lia|lia].
  pose proof (codec_read _ _ Hold (jp_refl _)) as Hr. rewrite E, (codec_read _ _ Hres (jp_refl _)) in Hr. by injection Hr.
Qed.

(** * Witnesses *)

Definition machine_status : MachineStatus :=
  MkMachineStatus (MkBMCStatus "on" true)
    (MkLifecycleStatus "Ready" (Some [MkCondition "OSInstalled" "False" "Installing" "<50%> & rising"])) "".

Example machine_status_text :
  json_Marshal machine_status = Some (ReplaceAll
    "{'power_state':'on','bmc_reachable':true,'phase':'Ready','conditions':[{'type':'OSInstalled','status':'False','reason':'Installing','message':'\u003c50%\u003e \u0026 rising'}]}"
    "'" (String quote "")).
Proof. vm_compute. reflexivity. Qed.

(** A concrete value of a struct type is ok by computation. *)
Ltac concrete_ok :=
  repeat match goal with
  | |- Forall _ _ => constructor
  | |- _ ∧ _ => split
  | |- codec_ok _ => hnf
  | |- field_ok _ _ => hnf
  | |- str_ok _ => split; vm_compute; reflexivity
  | |- _ → _ => let H := fresh in intros H; vm_compute in H; (discriminate H || (vm_compute; reflexivity))
  | |- True => exact I
  | |- _ = _ => vm_compute; reflexivity
  end.

Lemma columns_roundtrip_witness :
  JSONField_Scan zero (VText (print_json (marshal machine_status))) = inr machine_status ∧
  JSONMap_Scan None VNull = inr None ∧
  JSONArray_Scan None (VBytes "[]") = inr (Some []).
Proof.
  split_and!.
  - apply (proj2 (proj2 columns_roundtrip) _ _ machine_status); [concrete_ok|vm_compute; discriminate|].
    exact (ret_text (print_json (marshal machine_status))).
  - apply (proj1 columns_roundtrip); [exact I|constructor].
  - apply (proj1 (proj2 columns_roundtrip)); [constructor|]. exact (ret_bytes "[]").
Defined.

Definition tenant_named (name : string) : Tenant :=
  MkObject (MkResource 1 "acme" None None None None 3 7 None "" 1 1 None None) (MkTenantSpec name "") (MkTenantStatus "" "").

Lemma generation_tracks_spec_witness :
  Generation (base (bump_generation (tenant_named "Acme") (tenant_named "ACME"))) = 4 ∧
  Generation (base (bump_generation (tenant_named "Acme") (tenant_named "Acme"))) = 3.
Proof.
  split.
  - destruct (generation_tracks_spec (tenant_named "Acme") (tenant_named "ACME")) as [_ H];
      [concrete_ok|concrete_ok|vm_compute; discriminate|]. rewrite H; [reflexivity|]. vm_compute. discriminate.
  - destruct (generation_tracks_spec (tenant_named "Acme") (tenant_named "Acme")) as [H _];
      [concrete_ok|concrete_ok|vm_compute; discriminate|]. rewrite H; reflexivity.
Defined.
