(* ===== verification/Mixins.v ===== *)
(** The mixins and traits of resource types (src/resource/mixins,
    src/resource/traits): the structs a spec or status embeds, with their JSON,
    and the interfaces a resource type can implement.  Machines implement two of
    them (src/examples/inventory/model.go). *)

From S2P Require Import Prelude GoStrings GoJson Float JsonPrint Resource Gorm Models Nesting Store Columns.

(** * Mixins *)

Module mixins.

Record Address := MkAddress { a_Address : string; a_Type : string; a_Gateway : string; a_Prefix : Z }.

Record NetworkInterfaceSpec := MkNetworkInterfaceSpec { ns_Name : string; ns_MACAddress : string }.

Record NetworkInterfaceStatus := MkNetworkInterfaceStatus {
  ni_Name : string;
  ni_MACAddress : string;
  ni_Addresses : option (list Address);
  ni_State : string;
}.

Record FirmwareSpec := MkFirmwareSpec { fw_DesiredVersion : string }.

Record FirmwareStatus := MkFirmwareStatus { fw_CurrentVersion : string; fw_UpdateState : string }.

#[global] Instance Address_Codec : Codec Address :=
  struct! (MkAddress "" "" "" 0)
    [fld "address" keep a_Address (λ v x, MkAddress v (a_Type x) (a_Gateway x) (a_Prefix x));
     fld "type" keep a_Type (λ v x, MkAddress (a_Address x) v (a_Gateway x) (a_Prefix x));
     fld "gateway" empty_string a_Gateway (λ v x, MkAddress (a_Address x) (a_Type x) v (a_Prefix x));
     fld "prefix" keep a_Prefix (λ v x, MkAddress (a_Address x) (a_Type x) (a_Gateway x) v)].

#[global] Instance NetworkInterfaceSpec_Codec : Codec NetworkInterfaceSpec :=
  struct! (MkNetworkInterfaceSpec "" "")
    [fld "name" keep ns_Name (λ v x, MkNetworkInterfaceSpec v (ns_MACAddress x));
     fld "mac_address" empty_string ns_MACAddress (λ v x, MkNetworkInterfaceSpec (ns_Name x) v)].

#[global] Instance NetworkInterfaceStatus_Codec : Codec NetworkInterfaceStatus :=
  struct! (MkNetworkInterfaceStatus "" "" None "")
    [fld "name" keep ni_Name (λ v x, MkNetworkInterfaceStatus v (ni_MACAddress x) (ni_Addresses x) (ni_State x));
     fld "mac_address" keep ni_MACAddress (λ v x, MkNetworkInterfaceStatus (ni_Name x) v (ni_Addresses x) (ni_State x));
     fld "addresses" empty_slice ni_Addresses (λ v x, MkNetworkInterfaceStatus (ni_Name x) (ni_MACAddress x) v (ni_State x));
     fld "state" keep ni_State (λ v x, MkNetworkInterfaceStatus (ni_Name x) (ni_MACAddress x) (ni_Addresses x) v)].

#[global] Instance FirmwareSpec_Codec : Codec FirmwareSpec :=
  struct! (MkFirmwareSpec "") [fld "desired_version" empty_string fw_DesiredVersion (λ v _, MkFirmwareSpec v)].

#[global] Instance FirmwareStatus_Codec : Codec FirmwareStatus :=
  struct! (MkFirmwareStatus "" "")
    [fld "current_version" empty_string fw_CurrentVersion (λ v x, MkFirmwareStatus v (fw_UpdateState x));
     fld "update_state" empty_string fw_UpdateState (λ v x, MkFirmwareStatus (fw_CurrentVersion x) v)].

(** The interface of the test of the package. *)
Definition eth0 : NetworkInterfaceStatus :=
  MkNetworkInterfaceStatus "eth0" "00:11:22:33:44:55" (Some [MkAddress "10.0.0.1" "ipv4" "10.0.0.254" 24]) "up".

(** A network status keeps every field through a jsonb column. *)
Example eth0_read `{Jsonb} :
  json_Unmarshal Columns.zero (jsonb (print_json (marshal eth0))) = Some eth0.
Proof. apply json_read; [concrete_ok|vm_compute; discriminate]. Qed.
End mixins.

(** * Traits *)

Module traits.

Class Provisionable (M : Type) := { BMCAddress : M → string; PowerState : M → string }.

Definition PhasePending : string := "Pending".
Definition PhaseProvisioning : string := "Provisioning".
Definition PhaseReady : string := "Ready".
Definition PhaseError : string := "Error".
Definition PhaseDeleting : string := "Deleting".

Class Lifecycleable (M : Type) := { Phase : M → string; Conditions : M → option (list Condition) }.

Definition AddressIPv4 : string := "ipv4".
Definition AddressIPv6 : string := "ipv6".

Record Address := MkAddress { Address_ : string; Type_ : string; Gateway : string; Prefix : Z }.

Record NetworkInterface := MkNetworkInterface {
  Name : string;
  MACAddress : string;
  Addresses : option (list Address);
}.

Class Networkable (M : Type) := NetworkInterfaces : M → option (list NetworkInterface).

Record FirmwareComponent := MkFirmwareComponent {
  FC_Name : string;
  CurrentVersion : string;
  DesiredVersion : string;
}.

Class Firmwareable (M : Type) := FirmwareComponents : M → option (list FirmwareComponent).

Definition HealthHealthy : string := "Healthy".
Definition HealthDegraded : string := "Degraded".
Definition HealthUnhealthy : string := "Unhealthy".
Definition HealthUnknown : string := "Unknown".

Class Healthable (M : Type) := { HealthStatus : M → string; HealthMessage : M → string }.
End traits.

(** * Machines *)

#[global] Instance Machine_Provisionable : traits.Provisionable Machine :=
  {| traits.BMCAddress := Models.BMCAddress; traits.PowerState := Models.PowerState |}.

#[global] Instance Machine_Lifecycleable : traits.Lifecycleable Machine :=
  {| traits.Phase := Models.Phase; traits.Conditions := Models.Conditions |}.

(** What the traits of a machine show depends on what its columns hold: it is the
    same for the machine that was written and the one that is read back. *)
Theorem machine_traits_kept `{Jsonb} (m : Machine) (spec : MachineSpec) (status : MachineStatus) :
  codec_ok (o_spec m) → codec_ok (o_status m) →
  json_Unmarshal Columns.zero (jsonb (print_json (marshal (o_spec m)))) = Some spec →
  json_Unmarshal Columns.zero (jsonb (print_json (marshal (o_status m)))) = Some status →
  let m' := MkObject (o_base m) spec status in
  traits.BMCAddress m' = traits.BMCAddress m ∧ traits.PowerState m' = traits.PowerState m ∧
  traits.Phase m' = traits.Phase m ∧ traits.Conditions m' = traits.Conditions m.
Proof.
  intros Hs Ht. rewrite !json_read by (done || by vm_compute). intros [= <-] [= <-]. by destruct m.
Qed.

(** The power state is always one of the three of the trait. *)
Lemma power_state_known (m : Machine) : traits.PowerState m ∈ [PowerOn; PowerOff; PowerUnknown].
Proof. unfold traits.PowerState. simpl. unfold PowerState. repeat case_match; set_solver. Qed.
