(* ===== verification/StoreProps.v ===== *)
(** Correctness of the generic store: what each operation returns and which rows
    it changes, and the invariants every sequence of operations keeps. *)

From S2P Require Import Prelude GoStrings Resource Gorm Filter Pagination Nesting Store.

(** * Outcomes of the operations *)

Section outcomes.
Context {R : Type} `{ModelLaws R} {D : Type} `{!Database R D} `{!DatabaseLaws R D}.
Implicit Types (d : D) (rs : list R) (r res : R).

(** The parent reference of [res] may be stored next to the rows [rs]. *)
Definition parent_valid rs res : Prop :=
  ∀ p, Parent (base res) = Some p → p ≠ "" →
    ¬ rtc (parent_edge rs (OrgID (base res))) p (Name (base res)) ∧
    ∃ q, q ∈ rs ∧ live q = true ∧ key q = (OrgID (base res), p).

Lemma validateParent_rows fuel res d : rows (run (validateParent fuel res) d).2 = rows d.
Proof.
  unfold validateParent. destruct isResourceAccessor; [|done].
  destruct (Parent (base res)) as [p|]; [|done]. destruct (String.eqb p ""); [done|].
  apply ValidateParent_rows.
Qed.

Lemma validateParent_sound (accessor : isResourceAccessor (R := R) = true) fuel res d :
  (run (validateParent fuel res) d).1 = None → parent_valid (rows d) res.
Proof.
  unfold validateParent, parent_valid. rewrite accessor. intros Hv p Hp Hne. rewrite Hp in Hv.
  destruct (String.eqb_spec p ""); [done|]. by eapply ValidateParent_sound.
Qed.

Lemma prepare_create_fields now res :
  key (prepare_create now res) = key res ∧
  Parent (base (prepare_create now res)) = Parent (base res) ∧
  live (prepare_create now res) = live res.
Proof.
  unfold prepare_create, key, live. destruct isResourceAccessor; rewrite !base_on_base; [|done].
  unfold BeforeCreate. destruct (Generation (base res) =? 0); simpl;
    destruct (ResourceVersion (base res) =? 0); done.
Qed.

Lemma Create_outcome (accessor : isResourceAccessor (R := R) = true) fuel now res d :
  match (run (Create fuel now res) d).1 with
  | (None, res') => parent_valid (rows d) res ∧ res' = prepare_create now res ∧
      rows (run (Create fuel now res) d).2 ≡ₚ res' :: rows d
  | (Some _, _) => rows (run (Create fuel now res) d).2 = rows d
  end.
Proof.
  unfold Create. rewrite run_bind.
  pose proof (validateParent_rows fuel res d) as Hr. pose proof (validateParent_sound accessor fuel res d) as Hs.
  destruct (run (validateParent fuel res) d) as [[e|] d1]; simpl in *; [done|].
  pose proof (exec_ok (ACreate (prepare_create now res)) d1) as Hx.
  destruct (exec _ d1) as [[e|] d2]; simpl in *.
  - destruct Hx as [Hx _]. destruct (isDuplicateKeyError e); simpl; congruence.
  - rewrite Hr in Hx. auto.
Qed.

Lemma base_write_all now res :
  base (write_all now res) = SetTimes (CreatedAt (base res)) now (base res).
Proof. unfold write_all. by rewrite base_on_base. Qed.

(** What [Update] writes: the caller's resource with the next version, the
    generation it computed and the new update time. *)
Record written (v : Z) res res' : Prop := {
  written_key : key res' = key res;
  written_version : ResourceVersion (base res') = i64 (v + 1);
  written_parent : Parent (base res') = Parent (base res);
  written_live : live res' = live res;
}.

Lemma bump_generation_fields existing res :
  key (bump_generation existing res) = key res ∧
  Parent (base (bump_generation existing res)) = Parent (base res) ∧
  live (bump_generation existing res) = live res.
Proof.
  unfold bump_generation. repeat case_match; unfold key, live; rewrite ?base_on_base; done.
Qed.

Lemma update_write_outcome now v res d :
  match (run (update_write now v res) d).1 with
  | (None, res') => written v res res' ∧
      (∃ r, r ∈ visible (by_key_version (OrgID (base res)) (Name (base res)) v) (rows d)) ∧
      rows (run (update_write now v res) d).2 =
      update_rows (by_key_version (OrgID (base res)) (Name (base res)) v) (λ _, res') (rows d)
  | (Some _, _) => rows (run (update_write now v res) d).2 = rows d
  end.
Proof.
  unfold update_write. cbn [key].
  rewrite !base_on_base. cbn [OrgID Name SetResourceVersion].
  set (p := by_key_version _ _ _). set (res' := write_all _ _). simpl.
  pose proof (exec_ok (AUpdates p (λ _, res')) d) as Hx.
  destruct (exec _ d) as [[e|n] d']; simpl in *; [done|].
  destruct Hx as [Hrows ->]. destruct (Z.eqb_spec (Z.of_nat (length (visible p (rows d)))) 0) as [Hz|Hz]; simpl.
  - rewrite Hrows. apply length_visible_nil in Hz. by apply update_rows_none.
  - split_and!; [|destruct (visible p (rows d)) as [|r]; [done|]; exists r; left|done].
    unfold res'. split; unfold key, live; rewrite base_write_all; simpl; by rewrite base_on_base.
Qed.

(** Two keys of the same resource give the same condition. *)
Lemma written_bump v existing res res' :
  written v (bump_generation existing res) res' → written v res res'.
Proof.
  destruct (bump_generation_fields existing res) as (Hk & Hp & Hl).
  intros []. split; congruence.
Qed.

Lemma Update_outcome (accessor : isResourceAccessor (R := R) = true) fuel now res d :
  match (run (Update fuel now res) d).1 with
  | (None, res') =>
      let p := by_key_version (OrgID (base res)) (Name (base res)) (ResourceVersion (base res)) in
      parent_valid (rows d) res ∧ written (ResourceVersion (base res)) res res' ∧
      (∃ r, r ∈ visible p (rows d)) ∧
      rows (run (Update fuel now res) d).2 = update_rows p (λ _, res') (rows d)
  | (Some _, _) => rows (run (Update fuel now res) d).2 = rows d
  end.
Proof.
  unfold Update. rewrite run_bind.
  pose proof (validateParent_rows fuel res d) as Hr. pose proof (validateParent_sound accessor fuel res d) as Hs.
  destruct (run (validateParent fuel res) d) as [[e|] d1]; simpl in *; [done|].
  rewrite accessor. specialize (Hs eq_refl). set (v := ResourceVersion (base res)).
  pose proof (update_write_outcome now v) as Hw. revert Hw. generalize (update_write now v). intros uw Hw.
  destruct SpecBytes as [sb|].
  - pose proof (exec_first_rows (by_key (OrgID (base res)) (Name (base res))) d1) as Hx. simpl.
    destruct (exec _ d1) as [[e|existing] d2]; simpl in *; [destruct e; simpl; congruence|].
    pose proof (Hw (bump_generation existing res) d2) as Hu.
    destruct (bump_generation_fields existing res) as ([= Ho Hn] & _). rewrite Ho, Hn in Hu.
    destruct (run _ d2) as [[[e|] res'] d3]; simpl in *; [congruence|].
    rewrite Hx, Hr in Hu. destruct Hu as (Hwr%written_bump & Hv & Hu). auto.
  - pose proof (Hw res d1) as Hu.
    destruct (run _ d1) as [[[e|] res'] d3]; simpl in *; [congruence|].
    rewrite Hr in Hu. tauto.
Qed.

(** The columns of a partial update, with the two the store adds. *)
Definition partial_fields (now : Time) (v : Z) (fields : gmap string column) : gmap string column :=
  <["updated_at" := CTime now]> (<["resource_version" := CInt (i64 (v + 1))]> fields).

Lemma PartialUpdate_outcome now orgID name v fields d :
  match (run (PartialUpdate now orgID name v fields) d).1.1 with
  | None =>
      (∃ r, r ∈ visible (by_key_version orgID name v) (rows d)) ∧
      rows (run (PartialUpdate now orgID name v fields) d).2 =
      update_rows (by_key_version orgID name v) (set_columns (partial_fields now v fields)) (rows d)
  | Some _ => rows (run (PartialUpdate now orgID name v fields) d).2 = rows d
  end.
Proof.
  unfold PartialUpdate. fold (partial_fields now v fields). simpl.
  set (p := by_key_version orgID name v). set (fs := partial_fields now v fields).
  pose proof (exec_ok (AUpdateColumns p fs) d) as Hx.
  destruct (exec _ d) as [[e|n] d']; simpl in *; [done|].
  destruct Hx as [Hrows ->]. destruct (Z.eqb_spec (Z.of_nat (length (visible p (rows d)))) 0) as [Hz|Hz]; simpl.
  - apply length_visible_nil in Hz. rewrite update_rows_none in Hrows by done.
    pose proof (exec_count_rows [WPred (by_key orgID name)] d') as Hc.
    destruct (exec _ d') as [c d2]; simpl in *. destruct (_ =? 0); simpl; congruence.
  - split; [|done]. destruct (visible p (rows d)) as [|r]; [done|]. exists r. left.
Qed.

(** The write of a deletion that finalizers hold up. *)
Definition mark_deleted (now : Time) : R → R :=
  on_base (λ b, SetTimes (CreatedAt b) now (SetDeletionTimestamp (Some now) b)).

Lemma HasChildren_spec orgID name d :
  rows (run (HasChildren orgID name) d).2 = rows d ∧
  (∀ e, (run (HasChildren orgID name) d).1 = inl e → ∃ e', e = ErrWrapped "checking children" e') ∧
  ∀ b, (run (HasChildren orgID name) d).1 = inr b →
       b = negb (bool_decide (visible (by_parent orgID name) (rows d) = [])).
Proof.
  unfold HasChildren. simpl. pose proof (exec_ok (ACount [WPred (by_parent orgID name)]) d) as [Hr Hc].
  destruct (exec _ d) as [[e|n] d']; simpl in *;
    (split_and!; [done| |]); [naive_solver|intros ? [=]|intros ? [=]|]. intros b [= <-].
  rewrite (Hc n eq_refl), (visible_ext _ (by_parent orgID name)) by (intros; simpl; apply andb_true_r).
  case_bool_decide as Hv; [by rewrite Hv|]. rewrite <-length_visible_nil in Hv. simpl. lia.
Qed.

Lemma Delete_outcome now orgID name d :
  let d' := (run (Delete now orgID name) d).2 in
  match (run (Delete now orgID name) d).1 with
  | None =>
      (∃ r, r ∈ visible (by_key orgID name) (rows d) ∧
            (isFinalizerAccessor = true → GetFinalizers (base r) = [])) ∧
      visible (by_parent orgID name) (rows d) = [] ∧
      rows d' = update_rows (by_key orgID name) (on_base (SetDeletedAt (Some now))) (rows d)
  | Some ErrFinalizersPending =>
      (∃ r, r ∈ visible (by_key orgID name) (rows d) ∧ GetFinalizers (base r) ≠ []) ∧
      visible (by_parent orgID name) (rows d) = [] ∧
      rows d' = update_rows (by_key orgID name) (mark_deleted now) (rows d)
  | Some _ => rows d' = rows d
  end.
Proof.
  cbv zeta. unfold Delete. pose proof (HasChildren_spec orgID name) as Hhc. revert Hhc.
  generalize (HasChildren (R := R) orgID name). intros hc Hhc. simpl.
  pose proof (exec_ok (AFirst (by_key orgID name)) d) as [Hr Hf].
  destruct (exec _ d) as [[e|r] d1]; simpl in *; [by destruct e|].
  pose proof (Hhc d1) as (Hr2 & He & Hc).
  rewrite run_bind. destruct (run hc d1) as [[e|[]] d2]; simpl in *;
    [destruct (He _ eq_refl) as [e' ->]; simpl; congruence|congruence|].
  specialize (Hc _ eq_refl). symmetry in Hc. bprop. rewrite Hr in *.
  destruct (isFinalizerAccessor && _) eqn:Efin; simpl.
  - fold (mark_deleted now). pose proof (exec_ok (AUpdates (by_key orgID name) (mark_deleted now)) d2) as Hx.
    destruct (exec _ d2) as [[e|n] d3]; simpl in *; [congruence|]. rewrite Hr2 in Hx.
    split_and!; [|done|by destruct Hx]. exists r. split; [done|]. bprop.
    destruct (GetFinalizers (base r)); done.
  - pose proof (exec_ok (ADelete (by_key orgID name) now) d2) as Hx.
    destruct (exec _ d2) as [[e|n] d3]; simpl in *; [congruence|]. rewrite Hr2 in Hx.
    destruct Hx as [Hx ->]. destruct (Z.eqb_spec (Z.of_nat (length (visible (by_key orgID name) (rows d)))) 0) as [Hz|Hz]; simpl.
    + apply length_visible_nil in Hz. rewrite Hz in Hf. by apply elem_of_nil in Hf.
    + split_and!; [|done|done]. exists r. split; [done|]. intros Hfa. rewrite Hfa in Efin.
      simpl in Efin. destruct (GetFinalizers (base r)); done.
Qed.

End outcomes.

(** * The hierarchy under the operations *)

Section hierarchy.
Context {R : Type} `{ModelLaws R}.
Implicit Types (rs : list R) (r s q res : R).

(** [r] is a live row with the place in the hierarchy of a live row of [rs]. *)
Definition same_place rs r : Prop :=
  ∃ s, s ∈ rs ∧ live s = true ∧ key s = key r ∧ Parent (base s) = Parent (base r).

Lemma same_place_refl rs r : r ∈ rs → live r = true → same_place rs r.
Proof. exists r. auto. Qed.

Lemma parent_edge_place rs orgID a b :
  parent_edge rs orgID a b ↔
  ∃ r, same_place rs r ∧ key r = (orgID, a) ∧ Parent (base r) = Some b ∧ b ≠ "".
Proof.
  split.
  - intros (r & Hr & Hl & Ho & Hn & Hp & Hb). exists r.
    split_and!; [by apply same_place_refl|unfold key; congruence|done|done].
  - intros (r & (s & Hs & Hl & Hk & Hp) & Hkr & Hpr & Hb). exists s. rewrite Hkr in Hk.
    injection Hk as Ho Hn. split_and!; congruence.
Qed.

Lemma acyclic_kept rs rs' :
  (∀ r, r ∈ rs' → live r = true → same_place rs r) →
  hierarchy_acyclic rs → hierarchy_acyclic rs'.
Proof.
  intros Hk Hac orgID. eapply acyclic_subrel; [|apply (Hac orgID)]. intros a b (r & Hr & Hl & Ho & Hn & Hp & Hb).
  apply parent_edge_place. exists r. split_and!; [by apply Hk|unfold key; congruence|done|done].
Qed.

Lemma acyclic_replace rs rs' res :
  (∀ r, r ∈ rs' → live r = true →
     (same_place rs r ∧ key r ≠ key res) ∨ (key r = key res ∧ Parent (base r) = Parent (base res))) →
  parent_valid rs res → hierarchy_acyclic rs → hierarchy_acyclic rs'.
Proof.
  intros Hk Hv Hac orgID. destruct (decide (orgID = OrgID (base res))) as [->|Ho].
  - assert (∀ a b, a ≠ Name (base res) → parent_edge rs' (OrgID (base res)) a b →
              parent_edge rs (OrgID (base res)) a b) as Hold.
    { intros a b Ha (r & Hr & Hl & Hro & Hrn & Hp & Hb). apply parent_edge_place. exists r.
      destruct (Hk r Hr Hl) as [[Hs _]|[[= _ Hn] _]]; [|congruence].
      split_and!; [done|unfold key; congruence|done|done]. }
    assert (∀ b, parent_edge rs' (OrgID (base res)) (Name (base res)) b →
              Parent (base res) = Some b ∧ b ≠ "") as Hnew.
    { intros b (r & Hr & Hl & Hro & Hrn & Hp & Hb).
      destruct (Hk r Hr Hl) as [[_ []]|[_ Hpr]]; [unfold key; congruence|]. split; congruence. }
    assert ((∃ p, Parent (base res) = Some p ∧ p ≠ "") ∨ ¬ ∃ p, Parent (base res) = Some p ∧ p ≠ "")
      as [(p & Hp & Hne)|Hno].
    { destruct (Parent (base res)) as [p|]; [destruct (decide (p = ""))|]; naive_solver. }
    + eapply (acyclic_new_edge _ _ (Name (base res)) p); [exact Hold| |apply (Hv p Hp Hne)|apply Hac].
      intros b [Hb _]%Hnew. congruence.
    + eapply acyclic_subrel; [|apply (Hac (OrgID (base res)))]. intros a b Hab.
      destruct (decide (a = Name (base res))) as [->|]; [|by apply Hold]. destruct Hno. eauto.
  - eapply acyclic_subrel; [|apply (Hac orgID)]. intros a b (r & Hr & Hl & Hro & Hrn & Hp & Hb).
    apply parent_edge_place. exists r. destruct (Hk r Hr Hl) as [[Hs _]|[[= Hro' _] _]]; [|congruence].
    split_and!; [done|unfold key; congruence|done|done].
Qed.

Lemma parents_exist_step rs rs' :
  (∀ r, r ∈ rs' → live r = true →
     same_place rs r ∨ ∃ res, key r = key res ∧ Parent (base r) = Parent (base res) ∧ parent_valid rs res) →
  (∀ q, q ∈ rs → live q = true →
     (∃ q', q' ∈ rs' ∧ live q' = true ∧ key q' = key q) ∨
     ∀ r, r ∈ rs' → live r = true → OrgID (base r) = OrgID (base q) → Parent (base r) ≠ Some (Name (base q))) →
  parents_exist rs → parents_exist rs'.
Proof.
  intros Hnew Hold Hex r p Hr Hl Hp Hne.
  assert (∃ q, q ∈ rs ∧ live q = true ∧ key q = (OrgID (base r), p)) as (q & Hq & Hql & Hqk).
  { destruct (Hnew r Hr Hl) as [(s & Hs & Hsl & [= Ho _] & Hsp)|(res & [= Ho _] & Hrp & Hv)].
    - rewrite <-Ho. apply (Hex s p); congruence.
    - rewrite Ho. apply (Hv p); congruence. }
  destruct (Hold q Hq Hql) as [(q' & Hq' & Hql' & Hk)|Hno]; [exists q'; split_and!; congruence|].
  injection Hqk as Ho Hn. destruct (Hno r Hr Hl); congruence.
Qed.

(** Updates that leave the place of every row alone. *)
Lemma update_rows_same_place p f rs :
  (∀ r, live r = true → p r = true →
     key (f r) = key r ∧ Parent (base (f r)) = Parent (base r) ∧ live (f r) = true) →
  (∀ r, r ∈ update_rows p f rs → live r = true → same_place rs r) ∧
  (∀ q, q ∈ rs → live q = true → ∃ q', q' ∈ update_rows p f rs ∧ live q' = true ∧ key q' = key q).
Proof.
  intros Hf. split.
  - intros r (s & Hs & ->)%elem_of_update_rows Hl. destruct (live s && p s) eqn:E; [|by exists s].
    bprop. destruct (Hf s) as (Hk & Hp & _); [done|done|]. exists s. auto.
  - intros q Hq Hl. exists (if live q && p q then f q else q).
    split; [apply elem_of_update_rows; eauto|]. destruct (live q && p q) eqn:E; [|done].
    bprop. destruct (Hf q) as (Hk & Hp & ?); done.
Qed.

Definition hierarchy_ok rs : Prop := hierarchy_acyclic rs ∧ parents_exist rs.

Lemma hierarchy_ok_nil : hierarchy_ok [].
Proof.
  split; [|by intros r p ?%elem_of_nil].
  intros orgID a Ha. assert (∃ b, parent_edge [] orgID a b) as [b (r & Hr & _)].
  { inversion Ha; eauto. }
  by apply elem_of_nil in Hr.
Qed.

Lemma hierarchy_ok_same_place p f rs :
  (∀ r, live r = true → p r = true →
     key (f r) = key r ∧ Parent (base (f r)) = Parent (base r) ∧ live (f r) = true) →
  hierarchy_ok rs → hierarchy_ok (update_rows p f rs).
Proof.
  intros Hf [Hac Hex]. destruct (update_rows_same_place p f rs Hf) as [H1 H2]. split.
  - by eapply acyclic_kept.
  - eapply parents_exist_step; [intros r Hr Hl; left; by apply H1| |done].
    intros q Hq Hl. left. by apply H2.
Qed.

End hierarchy.

Section store_invariant.
Context {R : Type} `{ModelLaws R} {D : Type} `{!Database R D} `{!DatabaseLaws R D}.
Context (accessor : isResourceAccessor (R := R) = true).
Implicit Types (d : D) (rs : list R) (r res : R).

Lemma Create_hierarchy fuel now res d :
  hierarchy_ok (rows d) → hierarchy_ok (rows (run (Create fuel now res) d).2).
Proof.
  intros [Hac Hex]. pose proof (Create_outcome accessor fuel now res d) as Ho.
  pose proof (rows_unique (run (Create fuel now res) d).2) as Hnd.
  destruct (run (Create fuel now res) d) as [[[e|] res'] d']; simpl in *; [by rewrite Ho|].
  destruct Ho as (Hv & -> & Hrows). rewrite Hrows, fmap_cons in Hnd. apply NoDup_cons in Hnd as [Hnot _].
  destruct (prepare_create_fields now res) as (Hk & Hp & Hl). rewrite Hk in Hnot.
  assert (∀ r, r ∈ rows d' → r = prepare_create now res ∨ r ∈ rows d ∧ key r ≠ key res) as Hin.
  { intros r. rewrite Hrows. intros [->|Hr]%elem_of_cons; [by left|right]. split; [done|].
    intros Heq. apply Hnot. rewrite <-Heq. by apply list_elem_of_fmap_2. }
  split.
  - eapply acyclic_replace; [|exact Hv|exact Hac]. intros r [->|[Hr Hne]]%Hin Hrl; [by right|left].
    split; [by apply same_place_refl|done].
  - eapply parents_exist_step; [| |exact Hex].
    + intros r [->|[Hr Hne]]%Hin Hrl; [right; exists res; auto|left; by apply same_place_refl].
    + intros q Hq Hql. left. exists q. rewrite Hrows. split_and!; [by right|done|done].
Qed.

Lemma by_key_version_key o n v r : by_key_version o n v r = true → key r = (o, n).
Proof. unfold by_key_version. intros [Hk _]%andb_true_iff. by apply by_key_true. Qed.

Lemma Update_hierarchy fuel now res d :
  live res = true → hierarchy_ok (rows d) → hierarchy_ok (rows (run (Update fuel now res) d).2).
Proof.
  intros Hres [Hac Hex]. pose proof (Update_outcome accessor fuel now res d) as Ho. cbv zeta in Ho.
  destruct (run (Update fuel now res) d) as [[[e|] res'] d']; simpl in *; [by rewrite Ho|].
  destruct Ho as (Hv & [Hk _ Hp Hl] & (r0 & Hr0) & Hrows). set (p := by_key_version _ _ _) in *.
  apply elem_of_visible in Hr0 as (Hr0 & Hl0 & Hp0).
  assert (Hpk : ∀ r, p r = true → key r = key res) by (intros r; apply by_key_version_key).
  assert (Huniq : ∀ r, r ∈ rows d → key r = key res → r = r0).
  { intros r Hr Hkr. eapply (NoDup_key_inj key); [apply rows_unique|done|done|]. rewrite Hkr. symmetry. auto. }
  assert (∀ r, r ∈ rows d' → r = res' ∨ r ∈ rows d ∧ key r ≠ key res) as Hin.
  { intros r. rewrite Hrows. intros (s & Hs & ->)%elem_of_update_rows.
    destruct (live s && p s) eqn:E; [by left|right]. split; [done|].
    intros Heq. rewrite (Huniq s Hs Heq), Hl0, Hp0 in E. done. }
  split.
  - eapply acyclic_replace; [|exact Hv|exact Hac]. intros r [->|[Hr Hne]]%Hin Hrl; [by right|left].
    split; [by apply same_place_refl|done].
  - eapply parents_exist_step; [| |exact Hex].
    + intros r [->|[Hr Hne]]%Hin Hrl; [right; exists res; auto|left; by apply same_place_refl].
    + intros q Hq Hql. left. exists (if live q && p q then res' else q). rewrite Hrows.
      split; [apply elem_of_update_rows; eauto|]. destruct (live q && p q) eqn:E; [|done].
      bprop. split; [congruence|]. rewrite (Hpk q) by done. done.
Qed.

Lemma on_base_place (f : Resource → Resource) r :
  (∀ b, OrgID (f b) = OrgID b) → (∀ b, Name (f b) = Name b) → (∀ b, Parent (f b) = Parent b) →
  key (on_base f r) = key r ∧ Parent (base (on_base f r)) = Parent (base r).
Proof. intros Ho Hn Hp. unfold key. rewrite base_on_base, Ho, Hn, Hp. done. Qed.

Lemma Delete_hierarchy now orgID name d :
  hierarchy_ok (rows d) → hierarchy_ok (rows (run (Delete now orgID name) d).2).
Proof.
  intros [Hac Hex]. pose proof (Delete_outcome now orgID name d) as Ho. cbv zeta in Ho.
  destruct (run (Delete now orgID name) d) as [err d']; simpl in *.
  destruct err as [e|]; [destruct e; simpl in Ho; try (rewrite Ho; by split); destruct Ho as (_ & _ & ->)|].
  - apply hierarchy_ok_same_place; [|done]. intros r Hl _.
    destruct (on_base_place (λ b, SetTimes (CreatedAt b) now (SetDeletionTimestamp (Some now) b)) r)
      as [Hk Hp]; [done|done|done|]. split_and!; [done|done|].
    unfold live in *. unfold mark_deleted. by rewrite base_on_base.
  - destruct Ho as (_ & Hch & Hrows).
    assert (∀ r, r ∈ rows d' → live r = true → r ∈ rows d ∧ by_key orgID name r = false) as Hin.
    { intros r. rewrite Hrows. intros (s & Hs & ->)%elem_of_update_rows.
      destruct (live s && _) eqn:E; unfold live; [by rewrite base_on_base|]. intros Hl.
      split; [done|]. unfold live in E. by destruct (DeletedAt (base s)). }
    split; [eapply acyclic_kept; [|done]; intros r Hr Hl; by apply same_place_refl; [apply Hin|]|].
    eapply parents_exist_step; [| |exact Hex].
    + intros r Hr Hl. left. by apply same_place_refl; [apply Hin|].
    + intros q Hq Hql. destruct (by_key orgID name q) eqn:Ek.
      * right. intros r Hr Hl Hor Hpr. destruct (Hin r Hr Hl) as [Hr' _].
        apply by_key_true in Ek. injection Ek as Eo En. unfold visible in Hch.
        rewrite bfilter_nil_iff in Hch. specialize (Hch r Hr'). rewrite Hl in Hch. simpl in Hch.
        assert (by_parent orgID name r = true) by (apply by_parent_true; split; congruence). congruence.
      * left. exists q. rewrite Hrows. split; [|done]. apply elem_of_update_rows. exists q.
        by rewrite Ek, andb_false_r.
Qed.

End store_invariant.

(** * Partial updates outside the hierarchy *)

Section columns.
Context {R : Type} `{ModelLaws R} {D : Type} `{!Database R D} `{!DatabaseLaws R D}.
Implicit Types (r : R).

(** A partial update that writes no column the hierarchy depends on. *)
Definition plain_columns (fields : gmap string column) : bool :=
  forallb (λ c, bool_decide (fields !! c = None)) ["org_id"; "name"; "parent"; "deleted_at"].

Lemma set_columns_place fields r :
  plain_columns fields = true → live r = true →
  key (set_columns fields r) = key r ∧ Parent (base (set_columns fields r)) = Parent (base r) ∧
  live (set_columns fields r) = true.
Proof.
  unfold plain_columns, live. simpl. intros Hp Hl. bprop.
  split_and!; [by apply set_columns_key|by apply set_columns_parent|].
  by rewrite set_columns_deleted.
Qed.

Lemma partial_fields_plain now v fields :
  plain_columns fields = true → plain_columns (partial_fields now v fields) = true.
Proof.
  unfold plain_columns, partial_fields. simpl. intros Hp. bprop.
  rewrite !lookup_insert_ne by done. by rewrite !bool_decide_true.
Qed.

End columns.
