(* ===== verification/StoreSpec.v ===== *)
(** The abstract specification of the generic store, and the refinement: on a
    database that answers, every operation of src/resource/store.go acts as an
    operation on a finite map from keys to live resources, next to the set of the
    keys of soft-deleted rows. *)

From S2P Require Import Prelude GoStrings Resource Gorm Filter Pagination Models Nesting Store StoreProps.

Abbreviation rkey := (uuid * string)%type.

(** * The specification *)

Record Abs (R : Type) := MkAbs { a_live : gmap rkey R; a_dead : gset rkey }.
Arguments MkAbs {R} _ _.
Arguments a_live {R} _.
Arguments a_dead {R} _.

Section spec.
Context {R : Type} `{Model R}.
Implicit Types (a : Abs R) (k : rkey) (r res : R) (rs : list R).

Definition spec_get k a : storeErr + R :=
  match a_live a !! k with Some r => inr r | None => inl ErrNotFound end.

Definition or_else (z dflt : Z) : Z := if z =? 0 then dflt else z.

(** A new resource: generation and version start at one, the times are filled in
    when they are zero. *)
Definition spec_new (now : Time) res : R :=
  on_base (λ b, SetTimes (or_else (CreatedAt b) now) (or_else (UpdatedAt b) now)
    (if isResourceAccessor (R := R)
     then SetResourceVersion (or_else (ResourceVersion b) 1) (SetGeneration (or_else (Generation b) 1) b)
     else b)) res.

(** A key that was ever used stays used: a soft-deleted row keeps it. *)
Definition spec_create res a : option storeErr * Abs R :=
  if bool_decide (is_Some (a_live a !! key res) ∨ key res ∈ a_dead a) then (Some ErrAlreadyExists, a)
  else (None, MkAbs (<[key res := res]> (a_live a)) (a_dead a)).

(** Whether the specs of two resources are known to differ. *)
Definition spec_changed old res : bool :=
  match SpecBytes (R := R) with
  | Some bytes => match bytes old, bytes res with Some x, Some y => negb (String.eqb x y) | _, _ => false end
  | None => false
  end.

Definition spec_next (now : Time) old res : R :=
  on_base (λ b, SetTimes (CreatedAt b) now (SetResourceVersion (i64 (ResourceVersion b + 1))
    (SetGeneration (if spec_changed old res then i64 (Generation b + 1) else Generation b) b))) res.

(** Compare-and-swap on the version; the stored resource is the given one with
    the next version, the next generation if the spec changed, and the time. *)
Definition spec_update (now : Time) res a : option storeErr * Abs R :=
  match a_live a !! key res with
  | None => (Some (match SpecBytes (R := R) with Some _ => ErrNotFound | None => ErrConflict end), a)
  | Some old =>
      if ResourceVersion (base old) =? ResourceVersion (base res) then
        (None, MkAbs (<[key res := spec_next now old res]> (a_live a)) (a_dead a))
      else (Some ErrConflict, a)
  end.

Definition spec_partial_update (set : R → R) (version : Z) k a : option storeErr * Abs R :=
  match a_live a !! k with
  | None => (Some ErrNotFound, a)
  | Some old =>
      if ResourceVersion (base old) =? version
      then (None, MkAbs (<[k := set old]> (a_live a)) (a_dead a))
      else (Some ErrConflict, a)
  end.

Definition spec_has_children k a : bool :=
  existsb (λ kr, by_parent k.1 k.2 kr.2) (map_to_list (a_live a)).

Definition spec_delete (now : Time) k a : option storeErr * Abs R :=
  match a_live a !! k with
  | None => (Some ErrNotFound, a)
  | Some r =>
      if spec_has_children k a then (Some ErrHasChildren, a)
      else if isFinalizerAccessor && (0 <? length (GetFinalizers (base r)))%nat then
        (Some ErrFinalizersPending, MkAbs (<[k := mark_deleted now r]> (a_live a)) (a_dead a))
      else (None, MkAbs (delete k (a_live a)) ({[k]} ∪ a_dead a))
  end.

(** * The abstraction *)

Definition abs_live (rs : list R) : gmap rkey R :=
  list_to_map (List.map (λ r, (key r, r)) (bfilter live rs)).

Definition abs_dead (rs : list R) : gset rkey :=
  list_to_set (List.map key (bfilter (λ r, negb (live r)) rs)).

Definition abs (rs : list R) : Abs R := MkAbs (abs_live rs) (abs_dead rs).

Lemma abs_live_Some rs k r :
  NoDup (key <$> rs) → abs_live rs !! k = Some r ↔ r ∈ rs ∧ live r = true ∧ key r = k.
Proof.
  intros Hnd. unfold abs_live. rewrite <-elem_of_list_to_map.
  - rewrite list_elem_of_fmap. setoid_rewrite elem_of_bfilter. naive_solver.
  - rewrite <-list_fmap_compose. by apply (NoDup_key_bfilter key).
Qed.

Lemma elem_of_abs_dead rs k : k ∈ abs_dead rs ↔ ∃ r, r ∈ rs ∧ live r = false ∧ key r = k.
Proof.
  unfold abs_dead. rewrite elem_of_list_to_set, list_elem_of_fmap. setoid_rewrite elem_of_bfilter.
  split; [intros (r & -> & ? & ?)|intros (r & ? & ? & <-)]; exists r; bprop; [done|].
  by rewrite negb_true_iff.
Qed.

(** Two tables with unique keys and the same live and dead rows have the same
    abstraction. *)
Lemma abs_eq rs (m : gmap rkey R) (dead : gset rkey) :
  NoDup (key <$> rs) →
  (∀ r, r ∈ rs → live r = true → m !! key r = Some r) →
  (∀ k r, m !! k = Some r → r ∈ rs ∧ live r = true ∧ key r = k) →
  (∀ k, k ∈ dead ↔ ∃ r, r ∈ rs ∧ live r = false ∧ key r = k) →
  abs rs = MkAbs m dead.
Proof.
  intros Hnd H1 H2 H3. unfold abs. f_equal.
  - apply map_eq. intros k. apply option_eq. intros r. rewrite abs_live_Some by done.
    split; [intros (Hr & Hl & <-); auto|auto].
  - apply set_eq. intros k. by rewrite elem_of_abs_dead, H3.
Qed.

Lemma abs_live_None rs k :
  NoDup (key <$> rs) → abs_live rs !! k = None ↔ ∀ r, r ∈ rs → live r = true → key r ≠ k.
Proof.
  intros Hnd. rewrite eq_None_not_Some. split.
  - intros Hno r Hr Hl Hk. apply Hno. exists r. by apply abs_live_Some.
  - intros Hall [r (Hr & Hl & Hk)%abs_live_Some]; [|done]. by eapply Hall.
Qed.

(** Writing the one live row with key [k]. *)
Lemma abs_update rs p f k r :
  NoDup (key <$> rs) → (∀ s, p s = true → key s = k) → r ∈ visible p rs →
  key (f r) = k → live (f r) = true →
  abs (update_rows p f rs) = MkAbs (<[k := f r]> (abs_live rs)) (abs_dead rs).
Proof.
  intros Hnd Hp (Hr & Hl & Hpr)%elem_of_visible Hk Hlf.
  assert (Huniq : ∀ s, s ∈ rs → key s = k → s = r).
  { intros s Hs Hks. eapply (NoDup_key_inj key); [done..|]. rewrite Hks. symmetry. auto. }
  assert (Hpick : ∀ s, s ∈ rs → live s && p s = true → s = r) by (intros; bprop; eauto).
  apply abs_eq.
  - rewrite update_rows_keys; [done|]. intros s Hs Hps.
    rewrite (Huniq s Hs (Hp s Hps)). rewrite Hk. symmetry. auto.
  - intros x (s & Hs & ->)%elem_of_update_rows. destruct (live s && p s) eqn:E.
    + rewrite (Hpick s Hs E), Hk. intros _. apply lookup_insert_eq.
    + intros Hlx. rewrite lookup_insert_ne; [by apply abs_live_Some|].
      intros Heq. rewrite (Huniq s Hs (eq_sym Heq)), Hl, Hpr in E. done.
  - intros k' x. rewrite lookup_insert_Some. intros [[-> <-]|[Hne (Hx & Hlx & Hkx)%abs_live_Some]]; [| |done].
    + split_and!; [|done|done]. apply elem_of_update_rows. exists r. by rewrite Hl, Hpr.
    + split_and!; [|done|done]. apply elem_of_update_rows. exists x. split; [done|].
      destruct (live x && p x) eqn:E; [|done]. rewrite (Hpick x Hx E) in Hkx.
      bprop. destruct Hne. rewrite <-Hkx. symmetry. auto.
  - intros k'. rewrite elem_of_abs_dead. setoid_rewrite elem_of_update_rows. split.
    + intros (s & Hs & Hls & Hks). exists s. split_and!; [|done|done]. exists s. by rewrite Hls.
    + intros (x & (s & Hs & ->) & Hlx & Hkx). destruct (live s && p s) eqn:E; [|by exists s].
      rewrite (Hpick s Hs E) in Hlx. congruence.
Qed.

End spec.

(** * Refinement *)

Section refinement.
Context {R : Type} `{ModelLaws R} {D : Type} `{!Database R D} `{!DatabaseLaws R D}.
Implicit Types (d : D) (r res : R) (rs : list R).

Lemma elem_of_keys rs k :
  NoDup (key <$> rs) →
  k ∈ key <$> rs ↔ is_Some (abs_live rs !! k) ∨ k ∈ abs_dead rs.
Proof.
  intros Hnd. rewrite elem_of_abs_dead, list_elem_of_fmap. split.
  - intros (r & -> & Hr). destruct (live r) eqn:El; [left; exists r; by apply abs_live_Some|right; eauto].
  - intros [[r (Hr & _ & Hk)%abs_live_Some]|(r & Hr & _ & Hk)]; eauto.
Qed.

Lemma visible_by_key orgID name d :
  match abs_live (rows d) !! (orgID, name) with
  | Some r => r ∈ visible (by_key orgID name) (rows d)
  | None => visible (by_key orgID name) (rows d) = []
  end.
Proof.
  destruct (abs_live (rows d) !! _) as [r|] eqn:E.
  - apply abs_live_Some in E as (Hr & Hl & Hk); [|apply rows_unique].
    apply elem_of_visible. by rewrite by_key_true.
  - rewrite abs_live_None in E by apply rows_unique. apply bfilter_nil_iff. intros r Hr.
    destruct (live r) eqn:El; [|done]. destruct (by_key orgID name r) eqn:Ek; [|done].
    apply by_key_true in Ek. by destruct (E r Hr El).
Qed.

(** A healthy [First] by key is the lookup. *)
Lemma first_lookup orgID name d :
  healthy d = true →
  (exec (AFirst (by_key orgID name)) d).1 =
  match abs_live (rows d) !! (orgID, name) with Some r => inr r | None => inl ErrRecordNotFound end.
Proof.
  intros Hh. pose proof (exec_ok (AFirst (by_key orgID name)) d) as [_ Hx].
  pose proof (exec_answers (AFirst (by_key orgID name)) d Hh) as Ha. simpl in Ha.
  pose proof (visible_by_key orgID name d) as Hv.
  destruct (exec _ d) as [[e|r] d']; simpl in *.
  - destruct Ha as [|[= ->]]; [done|]. destruct (_ !! _) as [r|]; [|done].
    rewrite Hx in Hv. by apply elem_of_nil in Hv.
  - destruct (_ !! _) as [r'|].
    + f_equal. eapply visible_key_unique; [|done|done]. intros s s' ->%by_key_true ->%by_key_true. done.
    + rewrite Hv in Hx. by apply elem_of_nil in Hx.
Qed.

(** An update of the row with a key, in a healthy database: the map changes at
    the key when a live row has it, and nothing changes otherwise. *)
Lemma updates_by_key orgID name f d :
  healthy d = true → (∀ r, key (f r) = key r) → (∀ r, live (f r) = live r) →
  abs (rows (exec (AUpdates (by_key orgID name) f) d).2) =
  match abs_live (rows d) !! (orgID, name) with
  | Some r => MkAbs (<[(orgID, name) := f r]> (abs_live (rows d))) (abs_dead (rows d))
  | None => abs (rows d)
  end.
Proof.
  intros Hh Hk Hl. pose proof (exec_ok (AUpdates (by_key orgID name) f) d) as Hok.
  pose proof (exec_answers (AUpdates (by_key orgID name) f) d Hh (λ r _ _, Hk r)) as Ha.
  pose proof (visible_by_key orgID name d) as Hv.
  destruct (exec _ d) as [[e|n] d']; simpl in *; [done|]. destruct Hok as [-> _].
  destruct (abs_live (rows d) !! (orgID, name)) as [r|] eqn:E; [|by rewrite update_rows_none].
  apply abs_live_Some in E as (_ & Hlr & Hkr); [|apply rows_unique].
  apply abs_update; [apply rows_unique|by intros s Hs%by_key_true|done|by rewrite Hk|by rewrite Hl].
Qed.

(** [Get] is the lookup of the map of live resources: it finds a row exactly
    when one is live under the key, and reports [ErrNotFound] otherwise. *)
Theorem Get_refines orgID name d :
  healthy d = true →
  (run (Get orgID name) d).1 = spec_get (orgID, name) (abs (rows d)).
Proof.
  intros Hh. unfold Get, spec_get. simpl. pose proof (first_lookup orgID name d Hh) as Hf.
  destruct (exec _ d) as [x d']; simpl in *. subst x. by destruct (_ !! _).
Qed.

Lemma healthy_reads_validate fuel res d :
  healthy d = true → healthy (run (validateParent fuel res) d).2 = true.
Proof.
  apply run_healthy.
Qed.

Lemma on_base_on_base (f g : Resource → Resource) r : on_base f (on_base g r) = on_base (λ b, f (g b)) r.
Proof. unfold on_base. by rewrite base_with_base, with_base_twice. Qed.

Lemma on_base_ext (f g : Resource → Resource) r : f (base r) = g (base r) → on_base f r = on_base g r.
Proof. unfold on_base. by intros ->. Qed.

Lemma prepare_create_spec now res : prepare_create now res = spec_new now res.
Proof.
  unfold prepare_create, spec_new, or_else. destruct isResourceAccessor; [|done].
  rewrite on_base_on_base. apply on_base_ext. destruct (base res) as [? ? ? ? ? ? g v]. unfold BeforeCreate. simpl.
  destruct (Z.eqb_spec g 0); simpl; destruct (Z.eqb_spec v 0); simpl; done.
Qed.

Lemma written_spec now old res :
  write_all now (on_base (SetResourceVersion (i64 (ResourceVersion (base res) + 1))) (bump_generation old res)) =
  spec_next now old res.
Proof.
  unfold write_all, bump_generation, spec_next, spec_changed.
  destruct (SpecBytes (R := R)) as [bytes|]; [destruct (bytes old), (bytes res); try destruct (String.eqb _ _)|];
    rewrite !on_base_on_base; apply on_base_ext; by destruct (base res).
Qed.

(** C5: [Create] inserts into the map.  A resource whose parent passes the
    validation is stored under its key, with generation and version set and the
    times filled in; a key that a live or a soft-deleted row already has is
    [ErrAlreadyExists] and nothing changes; a parent that fails the validation
    is reported and nothing changes. *)
Theorem Create_refines fuel now res d :
  healthy d = true → live res = true →
  let out := run (Create fuel now res) d in
  match (run (validateParent fuel res) d).1 with
  | Some e => out.1 = (Some e, res) ∧ abs (rows out.2) = abs (rows d)
  | None => out.1.2 = spec_new now res ∧
      (out.1.1, abs (rows out.2)) = spec_create (spec_new now res) (abs (rows d))
  end.
Proof.
  intros Hh Hl. cbv zeta. rewrite <-prepare_create_spec. unfold Create. rewrite run_bind.
  pose proof (validateParent_rows fuel res d) as Hr.
  pose proof (healthy_reads_validate fuel res d Hh) as Hh1.
  destruct (run (validateParent fuel res) d) as [[e|] d1]; simpl in *; [by rewrite Hr|].
  set (res' := prepare_create now res).
  pose proof (exec_ok (ACreate res') d1) as Hx. pose proof (exec_answers (ACreate res') d1 Hh1) as [Ha1 Ha2].
  pose proof (rows_unique (exec (ACreate res') d1).2) as Hnd.
  unfold spec_create, abs at 2. cbn [a_live a_dead].
  destruct (exec _ d1) as [err d2]; simpl in *. rewrite Hr in *.
  case_bool_decide as Hk; rewrite <-elem_of_keys in Hk by apply rows_unique.
  - destruct (Ha2 Hk) as [->| ->]; simpl; destruct Hx as [-> _]; done.
  - rewrite (Ha1 Hk) in *. simpl. split; [done|]. f_equal.
    destruct (prepare_create_fields now res) as (_ & _ & Hlp). fold res' in Hlp. rewrite Hl in Hlp.
    apply abs_eq; [done|..]; [intros r|intros k r|intros k].
    + rewrite Hx. intros [->|Hin]%elem_of_cons Hlr; [apply lookup_insert_eq|].
      rewrite lookup_insert_ne; [apply abs_live_Some; auto using rows_unique|].
      intros Heq. apply Hk. rewrite Heq. by apply list_elem_of_fmap_2.
    + rewrite lookup_insert_Some. rewrite Hx. intros [[<- <-]|[_ (Hin & ? & ?)%abs_live_Some]];
        [by split_and!; [left|..]|by split_and!; [right|..]|apply rows_unique].
    + cbn [a_dead abs]. rewrite elem_of_abs_dead. setoid_rewrite Hx. setoid_rewrite elem_of_cons.
      split; [intros (r & ? & ? & ?); eauto|]. intros (r & [->|?] & ? & ?); [congruence|eauto].
Qed.

(** The rows a write guarded by a version affects: the row of the map, if it is
    at the version. *)
Lemma visible_by_key_version orgID name v d :
  match abs_live (rows d) !! (orgID, name) with
  | Some r => if ResourceVersion (base r) =? v then r ∈ visible (by_key_version orgID name v) (rows d)
              else visible (by_key_version orgID name v) (rows d) = []
  | None => visible (by_key_version orgID name v) (rows d) = []
  end.
Proof.
  pose proof (visible_by_key orgID name d) as Hv.
  assert (∀ r, r ∈ visible (by_key_version orgID name v) (rows d) →
            r ∈ visible (by_key orgID name) (rows d) ∧ ResourceVersion (base r) = v) as Hsub.
  { intros r. rewrite !elem_of_visible. unfold by_key_version. intros (? & ? & ?). bprop.
    split_and!; [done..|lia]. }
  destruct (_ !! _) as [r|].
  - destruct (Z.eqb_spec (ResourceVersion (base r)) v) as [Hver|Hver].
    + apply elem_of_visible in Hv as (? & ? & Hk). apply elem_of_visible. split_and!; [done|done|].
      unfold by_key_version. rewrite Hk. simpl. lia.
    + destruct (visible (by_key_version _ _ _) _) as [|s l]; [done|]. exfalso.
      destruct (Hsub s) as [Hs <-]; [left|]. apply Hver. f_equal. f_equal.
      eapply visible_key_unique; [|done|done]. intros x y ->%by_key_true ->%by_key_true. done.
  - destruct (visible (by_key_version _ _ _) _) as [|s l]; [done|]. exfalso.
    destruct (Hsub s) as [Hs _]; [left|]. rewrite Hv in Hs. by apply elem_of_nil in Hs.
Qed.

(** The tail of [Update] on a healthy database. *)
Lemma update_write_refines now v res d :
  healthy d = true → live res = true →
  let out := run (update_write now v res) d in
  let res' := write_all now (on_base (SetResourceVersion (i64 (v + 1))) res) in
  (out.1.1, abs (rows out.2)) =
  match abs_live (rows d) !! key res with
  | Some old => if ResourceVersion (base old) =? v
                then (None, MkAbs (<[key res := res']> (abs_live (rows d))) (abs_dead (rows d)))
                else (Some ErrConflict, abs (rows d))
  | None => (Some ErrConflict, abs (rows d))
  end.
Proof.
  intros Hh Hl. cbv zeta. unfold update_write. cbn [key]. rewrite base_on_base.
  cbn [OrgID Name SetResourceVersion].
  set (p := by_key_version _ _ _). set (res' := write_all _ _). simpl.
  assert (key res' = key res ∧ live res' = true) as [Hk' Hl'].
  { unfold res', key, live. rewrite base_write_all. simpl. by rewrite base_on_base. }
  assert (∀ s, p s = true → key s = key res) as Hp by (intros s; apply by_key_version_key).
  pose proof (exec_ok (AUpdates p (λ _, res')) d) as Hx.
  pose proof (exec_answers (AUpdates p (λ _, res')) d Hh) as Ha. simpl in Ha.
  destruct (exec _ d) as [[e|n] d']; simpl in *.
  { discriminate Ha. intros r _ Hr. rewrite Hk'. symmetry. by apply Hp. }
  destruct Hx as [Hrows ->]. pose proof (visible_by_key_version (OrgID (base res)) (Name (base res)) v d) as Hv.
  fold p (key res) in Hv. destruct (abs_live (rows d) !! key res) as [old|].
  - destruct (ResourceVersion (base old) =? v).
    + destruct (visible p (rows d)) as [|x l] eqn:E; [by apply elem_of_nil in Hv|]. simpl.
      f_equal. rewrite Hrows. apply (abs_update _ _ _ _ old); auto using rows_unique. by rewrite E.
    + rewrite Hv. simpl. by rewrite Hrows, update_rows_none.
  - rewrite Hv. simpl. by rewrite Hrows, update_rows_none.
Qed.

(** C3: [Update] is a compare-and-swap on the map.  With a valid parent, a live
    resource at the client's version is replaced by the client's, with the next
    version and, if and only if the spec bytes differ, the next generation;
    another version is [ErrConflict]; a missing resource is [ErrNotFound] (or
    [ErrConflict] for a type without spec tracking).  Every error leaves the map
    as it was. *)
Theorem Update_refines fuel now res d :
  isResourceAccessor (R := R) = true → healthy d = true → live res = true →
  let out := run (Update fuel now res) d in
  (out.1.1, abs (rows out.2)) =
  match (run (validateParent fuel res) d).1 with
  | Some e => (Some e, abs (rows d))
  | None => spec_update now res (abs (rows d))
  end.
Proof.
  intros Hacc Hh Hl. cbv zeta. unfold Update. rewrite run_bind.
  pose proof (validateParent_rows fuel res d) as Hr.
  pose proof (healthy_reads_validate fuel res d Hh) as Hh1.
  destruct (run (validateParent fuel res) d) as [[e|] d1]; simpl in *; [by rewrite Hr|].
  rewrite Hacc. unfold spec_update, abs at 2 4. cbn [a_live a_dead].
  pose proof (update_write_refines now (ResourceVersion (base res))) as Hw. revert Hw.
  generalize (update_write now (ResourceVersion (base res))). intros uw Hw.
  destruct (SpecBytes (R := R)) as [sb|] eqn:Esb.
  - simpl. pose proof (first_lookup (OrgID (base res)) (Name (base res)) d1 Hh1) as Hf.
    pose proof (exec_healthy (AFirst (by_key (OrgID (base res)) (Name (base res)))) d1 Hh1) as Hh2.
    pose proof (exec_first_rows (by_key (OrgID (base res)) (Name (base res))) d1) as Hr2.
    destruct (exec _ d1) as [x d2]; simpl in *. subst x. rewrite Hr in *. fold (key res).
    destruct (abs_live (rows d) !! key res) as [old|] eqn:Eold; simpl; [|by rewrite Hr2].
    destruct (bump_generation_fields old res) as (Hk & _ & Hlb).
    rewrite Hw by (done || congruence). rewrite Hk, Hr2, Eold, written_spec. done.
  - rewrite Hw by done. rewrite Hr.
    destruct (abs_live (rows d) !! key res) as [old|]; [|done].
    rewrite <-(written_spec now old). unfold bump_generation. by rewrite Esb.
Qed.

(** The count after a partial update that affected no row. *)
Lemma partial_miss orgID name (fs : gmap string column) d :
  healthy d = true →
  let out := run (count ← call (ACount [WPred (by_key orgID name)]);
     let count := match count with inl _ => 0 | inr c => c end in
     if count =? 0 then Ret (Some ErrNotFound, fs) else Ret (Some ErrConflict, fs)) d in
  (out.1.1, abs (rows out.2)) =
  (Some (if bool_decide (visible (by_key orgID name) (rows d) = []) then ErrNotFound else ErrConflict),
   abs (rows d)).
Proof.
  intros Hh. simpl. pose proof (exec_ok (ACount [WPred (by_key orgID name)]) d) as [Hr Hc].
  pose proof (exec_answers (ACount [WPred (by_key orgID name)]) d Hh) as Ha. simpl in Ha.
  destruct (exec _ d) as [[e|n] d']; simpl in *.
  { discriminate Ha. by intros cl args ?%list_elem_of_singleton. }
  specialize (Hc n eq_refl).
  rewrite (visible_ext _ (by_key orgID name)) in Hc by (intros; simpl; apply andb_true_r).
  case_bool_decide as Hb; [rewrite Hb in Hc; subst n; simpl; congruence|].
  rewrite <-length_visible_nil in Hb. destruct (Z.eqb_spec n 0); [lia|]. simpl. congruence.
Qed.

(** [PartialUpdate] with columns outside the key, the parent and the
    soft-delete mark: the named columns and the next version are written to the
    live resource at the client's version; another version is [ErrConflict], a
    missing resource [ErrNotFound], and errors leave the map as it was. *)
Theorem PartialUpdate_refines now orgID name v fields d :
  healthy d = true → plain_columns fields = true → columns_ok (partial_fields now v fields) = true →
  let out := run (PartialUpdate now orgID name v fields) d in
  (out.1.1, abs (rows out.2)) =
  spec_partial_update (set_columns (partial_fields now v fields)) v (orgID, name) (abs (rows d)).
Proof.
  intros Hh Hpl Hok. cbv zeta. apply (partial_fields_plain now v) in Hpl.
  unfold PartialUpdate. fold (partial_fields now v fields).
  set (p := by_key_version orgID name v). set (fs := partial_fields now v fields) in *.
  assert (∀ s, p s = true → key s = (orgID, name)) as Hp by (intros s; apply by_key_version_key).
  assert (∀ r, key (set_columns fs r) = key r) as Hkey.
  { intros r. unfold plain_columns in Hpl. simpl in Hpl. bprop. by apply set_columns_key. }
  simpl. pose proof (exec_ok (AUpdateColumns p fs) d) as Hx.
  pose proof (exec_answers (AUpdateColumns p fs) d Hh) as Ha. simpl in Ha.
  pose proof (exec_healthy (AUpdateColumns p fs) d Hh) as Hh1.
  destruct (exec _ d) as [[e|n] d1]; simpl in *; [by discriminate Ha|]. destruct Hx as [Hrows ->].
  pose proof (visible_by_key_version orgID name v d) as Hv. fold p in Hv.
  pose proof (visible_by_key orgID name d) as Hvk.
  unfold spec_partial_update, abs at 2 3 4 6. cbn [a_live a_dead].
  assert (visible p (rows d) = [] → rows d1 = rows d) as Hzero.
  { intros Hz. by rewrite update_rows_none in Hrows by done. }
  destruct (abs_live (rows d) !! (orgID, name)) as [old|] eqn:Eold.
  - destruct (ResourceVersion (base old) =? v) eqn:Ev.
    + destruct (visible p (rows d)) as [|x l] eqn:E; [by apply elem_of_nil in Hv|]. simpl.
      f_equal. rewrite Hrows. apply abs_live_Some in Eold as (? & Hlo & Hko); [|apply rows_unique].
      apply (abs_update _ _ _ _ old); auto using rows_unique; [by rewrite E|by rewrite Hkey|].
      by apply set_columns_place.
    + rewrite Hv. simpl. etrans; [apply (partial_miss orgID name fs d1 Hh1)|].
      rewrite Hzero, bool_decide_false; [done| |done].
      intros Hn. rewrite Hn in Hvk. by apply elem_of_nil in Hvk.
  - rewrite Hv. simpl. etrans; [apply (partial_miss orgID name fs d1 Hh1)|].
    by rewrite Hzero, bool_decide_true.
Qed.

Lemma HasChildren_refines orgID name d :
  healthy d = true →
  (run (HasChildren orgID name) d).1 = inr (spec_has_children (orgID, name) (abs (rows d))).
Proof.
  intros Hh. unfold HasChildren. simpl.
  pose proof (exec_ok (ACount [WPred (by_parent orgID name)]) d) as [_ Hc].
  pose proof (exec_answers (ACount [WPred (by_parent orgID name)]) d Hh) as Ha. simpl in Ha.
  destruct (exec _ d) as [[e|n] d']; simpl in *.
  { discriminate Ha. by intros cl args ?%list_elem_of_singleton. }
  f_equal. rewrite (Hc n eq_refl), (visible_ext _ (by_parent orgID name)) by (intros; simpl; apply andb_true_r).
  apply eq_bool_prop_intro. rewrite !Is_true_true. unfold spec_has_children. rewrite existsb_exists.
  rewrite Z.ltb_lt. split.
  - intros Hlen. destruct (visible (by_parent orgID name) (rows d)) as [|r l] eqn:E; [done|].
    assert (r ∈ visible (by_parent orgID name) (rows d)) as (Hr & Hl & Hp)%elem_of_visible by (rewrite E; left).
    exists (key r, r). split; [|done]. apply list_elem_of_In, elem_of_map_to_list.
    apply abs_live_Some; auto using rows_unique.
  - intros ([k r] & Hin & Hp). simpl in Hp. apply list_elem_of_In, elem_of_map_to_list in Hin.
    apply abs_live_Some in Hin as (Hr & Hl & _); [|apply rows_unique].
    assert (r ∈ visible (by_parent orgID name) (rows d)) as Hv by by apply elem_of_visible.
    apply list_elem_of_lookup_1 in Hv as [i Hi%lookup_lt_Some]. lia.
Qed.

(** Soft-deleting the row with key [k]. *)
Lemma abs_soft_delete rs p now k :
  NoDup (key <$> rs) → (∀ s, p s = bool_decide (key s = k)) → is_Some (abs_live rs !! k) →
  abs (update_rows p (on_base (SetDeletedAt (Some now))) rs) =
  MkAbs (delete k (abs_live rs)) ({[k]} ∪ abs_dead rs).
Proof.
  intros Hnd Hp [r0 (Hr0 & Hl0 & Hk0)%abs_live_Some]; [|done]. set (f := on_base (SetDeletedAt (Some now))).
  assert (Hf : ∀ r, key (f r) = key r ∧ live (f r) = false).
  { intros r. unfold f, key, live. by rewrite base_on_base. }
  assert (Hsat : ∀ r, live r && p r = true ↔ live r = true ∧ key r = k).
  { intros r. by rewrite Hp, andb_true_iff, bool_decide_eq_true. }
  apply abs_eq.
  - rewrite update_rows_keys; [done|]. intros r _ _. apply Hf.
  - intros x (s & Hs & ->)%elem_of_update_rows. destruct (live s && p s) eqn:E.
    + intros Hl. by rewrite (proj2 (Hf s)) in Hl.
    + intros Hl. rewrite lookup_delete_ne; [by apply abs_live_Some|].
      intros Heq. by rewrite (proj2 (Hsat s)) in E.
  - intros k' x. rewrite lookup_delete_Some. intros [Hne (Hx & Hl & Hk)%abs_live_Some]; [|done].
    split_and!; [|done|done]. apply elem_of_update_rows. exists x. split; [done|].
    destruct (live x && p x) eqn:E; [|done]. apply Hsat in E as [_ E]. congruence.
  - intros k'. rewrite elem_of_union, elem_of_singleton, elem_of_abs_dead.
    setoid_rewrite elem_of_update_rows. split.
    + intros [->|(r & Hr & Hl & Hk)].
      * exists (f r0). rewrite !(proj1 (Hf r0)), (proj2 (Hf r0)). split_and!; [|done|done].
        exists r0. split; [done|]. by rewrite (proj2 (Hsat r0)).
      * exists r. split_and!; [|done|done]. exists r. by rewrite Hl.
    + intros (x & (s & Hs & ->) & Hl & Hk). destruct (live s && p s) eqn:E; [|right; eauto].
      apply Hsat in E as [_ E]. left. rewrite <-Hk, (proj1 (Hf s)). done.
Qed.


End refinement.

(** * Witnesses *)

(** Evaluate the specification side of a refinement. *)
Ltac by_spec H := refine (eq_trans (f_equal fst H) _); vm_compute; reflexivity.

Definition spec_db : MemDB Doc :=
  MkMem [doc 1 "a" None 4 "s"; doc 1 "b" (Some "a") 1 "s";
         on_base (SetDeletedAt (Some 3)) (doc 1 "c" None 2 "s");
         on_base (SetFinalizers (Some ["f"])) (doc 2 "a" None 9 "s")] true.

Lemma Get_refines_witness :
  (run (Get 1%N "b") spec_db).1 = inr (doc 1 "b" (Some "a") 1 "s") ∧
  (run (Get 1%N "c") spec_db).1 = inl ErrNotFound.
Proof.
  split; (etrans; [apply (Get_refines (D := MemDB Doc)); reflexivity|vm_compute; reflexivity]).
Defined.

Lemma Create_refines_witness :
  (run (Create 9 7 (doc 1 "c" (Some "b") 0 "s")) spec_db).1.1 = Some ErrAlreadyExists ∧
  (run (Create 9 7 (doc 1 "e" (Some "b") 0 "s")) spec_db).1.1 = None.
Proof.
  split.
  - by_spec (proj2 (Create_refines (D := MemDB Doc) 9 7 (doc 1 "c" (Some "b") 0 "s") spec_db eq_refl eq_refl)).
  - by_spec (proj2 (Create_refines (D := MemDB Doc) 9 7 (doc 1 "e" (Some "b") 0 "s") spec_db eq_refl eq_refl)).
Defined.

Lemma Update_refines_witness :
  (run (Update 9 7 (doc 1 "a" (Some "b") 4 "t")) spec_db).1.1 = Some ErrCircularParent ∧
  (run (Update 9 7 (doc 1 "a" None 3 "t")) spec_db).1.1 = Some ErrConflict ∧
  (run (Update 9 7 (doc 1 "a" None 4 "t")) spec_db).1.1 = None.
Proof.
  split_and!.
  - by_spec (Update_refines (D := MemDB Doc) 9 7 (doc 1 "a" (Some "b") 4 "t") spec_db eq_refl eq_refl eq_refl).
  - by_spec (Update_refines (D := MemDB Doc) 9 7 (doc 1 "a" None 3 "t") spec_db eq_refl eq_refl eq_refl).
  - by_spec (Update_refines (D := MemDB Doc) 9 7 (doc 1 "a" None 4 "t") spec_db eq_refl eq_refl eq_refl).
Defined.

Lemma PartialUpdate_refines_witness :
  (run (PartialUpdate 7 1%N "a" 4 ∅) spec_db).1.1 = None ∧
  (run (PartialUpdate 7 1%N "a" 5 ∅) spec_db).1.1 = Some ErrConflict ∧
  (run (PartialUpdate 7 1%N "c" 2 ∅) spec_db).1.1 = Some ErrNotFound.
Proof.
  split_and!.
  - by_spec (PartialUpdate_refines (D := MemDB Doc) 7 1%N "a" 4 ∅ spec_db eq_refl eq_refl eq_refl).
  - by_spec (PartialUpdate_refines (D := MemDB Doc) 7 1%N "a" 5 ∅ spec_db eq_refl eq_refl eq_refl).
  - by_spec (PartialUpdate_refines (D := MemDB Doc) 7 1%N "c" 2 ∅ spec_db eq_refl eq_refl eq_refl).
Defined.

