(* ===== verification/Concurrency.v ===== *)
(** Optimistic concurrency: clients of the store whose database calls interleave
    in any order (src/resource/store.go, [Update], [PartialUpdate], [Delete]). *)

From S2P Require Import Prelude GoStrings Resource Gorm Filter Pagination Models Nesting Store StoreProps.

(** * Requests on one version of one resource *)

Section requests.
Context {R : Type} `{Model R}.

Inductive request :=
| RUpdate (fuel : nat) (now : Time) (res : R)
| RPartialUpdate (now : Time) (fields : gmap string column)
| RDelete (now : Time)
| RGet.

(** The client's program, with whether it was told that its write succeeded. *)
Definition attempt (orgID : uuid) (name : string) (version : Z) (q : request) : prog R bool :=
  match q with
  | RUpdate fuel now res =>
      r ← Update fuel now res; Ret (match r.1 with None => true | Some _ => false end)
  | RPartialUpdate now fields =>
      r ← PartialUpdate now orgID name version fields;
      Ret (match r.1 with None => true | Some _ => false end)
  | RDelete now => _ ← Delete now orgID name; Ret false
  | RGet => _ ← Get orgID name; Ret false
  end.

(** An update sends the resource it read: its key and version are those of the
    request. *)
Definition request_on (orgID : uuid) (name : string) (version : Z) (q : request) : Prop :=
  match q with
  | RUpdate _ _ res => key res = (orgID, name) ∧ ResourceVersion (base res) = version
  | _ => True
  end.

End requests.
Arguments request : clear implicits.

(** * Programs that can only win by the guarded write *)

Section guarded.
Context {R : Type} `{ModelLaws R} {D : Type} `{!Database R D} `{!DatabaseLaws R D}.
Context (orgID : uuid) (name : string) (version : Z).
Implicit Types (d : D) (r res : R).

Abbreviation at_version := (by_key_version (R := R) orgID name version).

Definition is_read (c : action R) : bool :=
  match c with ACount _ | AFirst _ | ASelect _ | AFind _ _ => true | _ => false end.

(** The rows a call writes, with the function it applies. *)
Definition write_of (c : action R) : option ((R → bool) * (R → R)) :=
  match c with
  | AUpdates p f => Some (p, f)
  | AUpdateColumns p fields => Some (p, set_columns fields)
  | ADelete p t => Some (p, on_base (SetDeletedAt (Some t)))
  | _ => None
  end.

Inductive reads {A} : prog R A → Prop :=
| reads_ret a : reads (Ret a)
| reads_act c k : is_read c = true → (∀ x, reads (k x)) → reads (Act c k).

Inductive guarded : prog R bool → Prop :=
| guarded_lost : guarded (Ret false)
| guarded_read c k : is_read c = true → (∀ x, guarded (k x)) → guarded (Act c k)
| guarded_keep c k p f : write_of c = Some (p, f) →
    (∀ r, at_version (f r) = true → live (f r) = true → at_version r = true ∧ live r = true) →
    (∀ x, guarded (k x)) → guarded (Act c k)
| guarded_updates f k :
    (∀ r, ResourceVersion (base (f r)) ≠ version) →
    (∀ e, guarded (k (inl e))) → guarded (k (inr 0)) →
    (∀ n, n ≠ 0 → k (inr n) = Ret true) → guarded (Act (AUpdates at_version f) k)
| guarded_columns fields k :
    (∀ r, ResourceVersion (base (set_columns fields r)) ≠ version) →
    (∀ e, guarded (k (inl e))) → guarded (k (inr 0)) →
    (∀ n, n ≠ 0 → k (inr n) = Ret true) → guarded (Act (AUpdateColumns at_version fields) k).

Lemma reads_bind_guarded {A} (m : prog R A) (k : A → prog R bool) :
  reads m → (∀ a, guarded (k a)) → guarded (m ≫= k).
Proof.
  intros Hm Hk. induction Hm as [a|c k' Hc _ IH]; [apply Hk|]. simpl. by apply guarded_read.
Qed.

Lemma reads_walk fuel visited current : reads (walk_ancestors (R := R) fuel orgID visited current).
Proof.
  revert visited current. induction fuel as [|fuel IH]; intros visited current; simpl; [constructor|].
  destruct (String.eqb current ""); [constructor|]. case_bool_decide; [constructor|].
  constructor; [done|]. intros [e|l]; simpl; [constructor|].
  destruct (last l ≫= _); [apply IH|constructor].
Qed.

Lemma reads_validateParent fuel res : OrgID (base res) = orgID → reads (validateParent fuel res).
Proof.
  intros Ho. unfold validateParent. destruct isResourceAccessor; [|constructor].
  destruct (Parent (base res)) as [p|]; [|constructor]. destruct (String.eqb p ""); [constructor|].
  unfold ValidateParent. destruct (String.eqb p _); [constructor|]. rewrite Ho.
  constructor; [done|]. intros [e|n]; simpl; [constructor|]. destruct (n =? 0); [constructor|].
  apply reads_walk.
Qed.

Lemma i64_succ_ne v : i64 (v + 1) ≠ v.
Proof. unfold i64. intros Heq. pose proof (Z.div_mod (v + 1 + 2 ^ 63) (2 ^ 64)). lia. Qed.

Lemma guarded_update_write now res :
  key res = (orgID, name) →
  guarded (r ← update_write now version res; Ret (match r.1 with None => true | Some _ => false end)).
Proof.
  intros Hk. unfold update_write. cbn [key]. rewrite base_on_base. cbn [OrgID Name SetResourceVersion].
  injection Hk as -> ->. simpl. apply guarded_updates.
  - intros _. rewrite base_write_all. simpl. rewrite base_on_base. apply i64_succ_ne.
  - intros e. apply guarded_lost.
  - apply guarded_lost.
  - intros n Hn. apply Z.eqb_neq in Hn. by rewrite Hn.
Qed.

Lemma guarded_bump now existing res :
  key res = (orgID, name) →
  guarded (r ← update_write now version (bump_generation existing res);
           Ret (match r.1 with None => true | Some _ => false end)).
Proof.
  intros Hk. apply guarded_update_write. by rewrite (proj1 (bump_generation_fields existing res)).
Qed.

Lemma reads_bind2_guarded {A B} (m : prog R A) (f : A → prog R B) (g : B → prog R bool) :
  reads m → (∀ a, guarded (f a ≫= g)) → guarded ((m ≫= f) ≫= g).
Proof.
  intros Hm Hk. induction Hm as [a|c k' Hc _ IH]; [apply Hk|]. simpl. by apply guarded_read.
Qed.

Lemma guarded_Update fuel now res :
  isResourceAccessor (R := R) = true → key res = (orgID, name) → ResourceVersion (base res) = version →
  guarded (attempt orgID name version (RUpdate fuel now res)).
Proof.
  intros Hacc Hk Hv. unfold attempt, Update. apply reads_bind2_guarded.
  { apply reads_validateParent. by injection Hk. }
  intros [e|]; [apply guarded_lost|]. rewrite Hacc, Hk, Hv.
  destruct SpecBytes as [sb|]; [|by apply guarded_update_write].
  apply guarded_read; [done|]. intros [e|existing]; [destruct e; apply guarded_lost|].
  by apply guarded_bump.
Qed.

Lemma guarded_PartialUpdate now fields :
  guarded (attempt orgID name version (RPartialUpdate now fields)).
Proof.
  unfold attempt, PartialUpdate. simpl. apply guarded_columns.
  - intros r. rewrite (set_columns_version _ (i64 (version + 1))); [apply i64_succ_ne|].
    rewrite lookup_insert_ne by done. apply lookup_insert_eq.
  - intros e. apply guarded_lost.
  - simpl. apply guarded_read; [done|]. intros [e|n]; simpl; [apply guarded_lost|].
    destruct (n =? 0); apply guarded_lost.
  - intros n Hn. apply Z.eqb_neq in Hn. by rewrite Hn.
Qed.

(** A write that touches neither key, version nor liveness adds no row at the
    version. *)
Lemma keep_base (f : Resource → Resource) r :
  (∀ b, OrgID (f b) = OrgID b ∧ Name (f b) = Name b ∧ ResourceVersion (f b) = ResourceVersion b) →
  (∀ b, DeletedAt (f b) = None → DeletedAt b = None) →
  at_version (on_base f r) = true → live (on_base f r) = true → at_version r = true ∧ live r = true.
Proof.
  intros Hf Hd. unfold by_key_version, by_key, live. rewrite base_on_base.
  destruct (Hf (base r)) as (-> & -> & ->). intros Hv Hl. split; [done|].
  specialize (Hd (base r)). destruct (DeletedAt (f (base r))), (DeletedAt (base r)); naive_solver.
Qed.

Lemma guarded_Delete now : guarded (attempt orgID name version (RDelete now)).
Proof.
  unfold attempt, Delete. simpl. apply guarded_read; [done|].
  intros [e|existing]; [destruct e; apply guarded_lost|]. simpl. apply guarded_read; [done|].
  intros [e|n]; simpl; [apply guarded_lost|]. destruct (0 <? n); simpl; [apply guarded_lost|].
  destruct (isFinalizerAccessor && _); simpl.
  - eapply guarded_keep; [done| |intros []; apply guarded_lost]. intros r. by apply keep_base.
  - eapply guarded_keep; [done| |].
    + intros r. by apply keep_base.
    + intros [e|m]; simpl; [apply guarded_lost|]. destruct (m =? 0); apply guarded_lost.
Qed.

Lemma guarded_attempt q :
  isResourceAccessor (R := R) = true → request_on orgID name version q →
  guarded (attempt orgID name version q).
Proof.
  intros Hacc Hq. destruct q as [fuel now res|now fields|now|]; simpl in Hq.
  - destruct Hq. by apply guarded_Update.
  - apply guarded_PartialUpdate.
  - apply guarded_Delete.
  - unfold attempt, Get. simpl. apply guarded_read; [done|]. intros [[]|]; apply guarded_lost.
Qed.

(** * The pool *)

(** No live row is at the version any more. *)
Definition consumed d : Prop := visible at_version (rows d) = [].

Definition pool_inv (s : list (prog R bool) * D) : Prop :=
  (∀ i p, s.1 !! i = Some p → guarded p) ∨
  (∃ w, s.1 !! w = Some (Ret true) ∧ consumed s.2 ∧
        ∀ i p, s.1 !! i = Some p → i ≠ w → guarded p).

Lemma consumed_iff d : consumed d ↔ ∀ r, r ∈ rows d → at_version r = true → live r = true → False.
Proof.
  unfold consumed, visible. rewrite bfilter_nil_iff. split.
  - intros Hn r Hr Hv Hl. specialize (Hn r Hr). rewrite Hl, Hv in Hn. done.
  - intros Hn r Hr. destruct (live r) eqn:El, (at_version r) eqn:Ev; try done. by destruct (Hn r Hr).
Qed.

Lemma read_rows c d : is_read c = true → rows (exec c d).2 = rows d.
Proof.
  destruct c; try done; intros _; eauto using exec_count_rows, exec_first_rows, exec_select_rows,
    exec_find_rows.
Qed.

Lemma write_rows c d p f : write_of c = Some (p, f) →
  rows (exec c d).2 = rows d ∨ rows (exec c d).2 = update_rows p f (rows d).
Proof.
  pose proof (exec_ok c d) as Hx. destruct c; try done; simpl in *; intros [= <- <-];
    destruct (exec _ d) as [[e|n] d']; simpl in *; naive_solver.
Qed.

Lemma keep_consumed c d p f : write_of c = Some (p, f) →
  (∀ r, at_version (f r) = true → live (f r) = true → at_version r = true ∧ live r = true) →
  consumed d → consumed (exec c d).2.
Proof.
  intros Hc Hf. rewrite !consumed_iff. intros Hn.
  destruct (write_rows c d p f Hc) as [->| ->]; [done|].
  intros r (s & Hs & ->)%elem_of_update_rows. destruct (live s && p s); [|by apply Hn].
  intros Hv Hl. destruct (Hf s Hv Hl). by eapply Hn.
Qed.

(** The guarded write: it affects no row once the version is consumed, and
    consumes it otherwise. *)
Lemma guarded_write_step f d (res : dberr + Z) rs' :
  (∀ r, ResourceVersion (base (f r)) ≠ version) →
  match res with
  | inr n => rs' = update_rows at_version f (rows d) ∧ n = Z.of_nat (length (visible at_version (rows d)))
  | inl _ => rs' = rows d
  end →
  match res with
  | inr n => if n =? 0 then consumed d ∧ rs' = rows d else ¬ consumed d ∧ visible at_version rs' = []
  | inl _ => rs' = rows d
  end.
Proof.
  intros Hf. destruct res as [e|n]; [done|]. intros [-> ->].
  destruct (Z.eqb_spec (Z.of_nat (length (visible at_version (rows d)))) 0) as [Hz|Hz];
    rewrite length_visible_nil in Hz.
  - split; [done|]. by apply update_rows_none.
  - split; [done|]. apply bfilter_nil_iff. intros r (s & Hs & ->)%elem_of_update_rows.
    destruct (live s && at_version s) eqn:E; [|done]. unfold by_key_version.
    specialize (Hf s). apply Z.eqb_neq in Hf. rewrite Hf. by rewrite !andb_false_r.
Qed.

Lemma consumed_rows d d' : rows d' = rows d → consumed d → consumed d'.
Proof. unfold consumed. by intros ->. Qed.

(** One call of a program that has not won: it stays so, or it wins and
    consumes the version. *)
Lemma guarded_step m d :
  guarded m →
  match m with
  | Ret won => won = false
  | Act c k =>
      (guarded (k (exec c d).1) ∧ (consumed d → consumed (exec c d).2)) ∨
      (k (exec c d).1 = Ret true ∧ ¬ consumed d ∧ consumed (exec c d).2)
  end.
Proof.
  destruct 1 as [|c k Hc Hk|c k p f Hc Hf Hk|f k Hf He H0' Hn|fields k Hf He H0' Hn]; [done|..].
  - left. split; [apply Hk|]. apply consumed_rows. by apply read_rows.
  - left. split; [apply Hk|]. by eapply keep_consumed.
  - pose proof (exec_ok (AUpdates at_version f) d) as Hx. simpl in Hx.
    destruct (exec _ d) as [res d']; simpl in *. apply guarded_write_step in Hx; [|done].
    destruct res as [e|n]; [left; split; [apply He|]; by apply consumed_rows|].
    destruct (Z.eqb_spec n 0) as [->|Hne]; [left; split; [done|]; apply consumed_rows; tauto|].
    right. split; [by apply Hn|done].
  - pose proof (exec_ok (AUpdateColumns at_version fields) d) as Hx. simpl in Hx.
    destruct (exec _ d) as [res d']; simpl in *. apply guarded_write_step in Hx; [|done].
    destruct res as [e|n]; [left; split; [apply He|]; by apply consumed_rows|].
    destruct (Z.eqb_spec n 0) as [->|Hne]; [left; split; [done|]; apply consumed_rows; tauto|].
    right. split; [by apply Hn|done].
Qed.

Lemma pool_inv_step s s' : pool_step s s' → pool_inv s → pool_inv s'.
Proof.
  intros Hstep. destruct Hstep as [i ps d c k Hi]. unfold pool_inv. simpl.
  intros [Hall|(w & Hw & Hcons & Hall)].
  - destruct (guarded_step _ d (Hall i _ Hi)) as [[Hg _]|(Hwin & _ & Hcons)].
    + left. intros j p [(-> & <- & _)|[_ Hj]]%list_lookup_insert_Some; [done|by eapply Hall].
    + right. exists i. rewrite Hwin, list_lookup_insert_eq by by eapply lookup_lt_Some. split_and!; [done|done|].
      intros j p [(-> & <- & _)|[_ Hj]]%list_lookup_insert_Some ?; [done|by eapply Hall].
  - assert (i ≠ w) as Hne by congruence. right. exists w.
    rewrite list_lookup_insert_ne by done.
    destruct (guarded_step _ d (Hall i _ Hi Hne)) as [[Hg Hc]|(_ & Hno & _)]; [|done].
    split_and!; [done|by apply Hc|].
    intros j p [(-> & <- & _)|[_ Hj]]%list_lookup_insert_Some ?; [done|by eapply Hall].
Qed.

End guarded.

(** * The theorem *)

Section claims.
Context {R : Type} `{ModelLaws R} {D : Type} `{!Database R D} `{!DatabaseLaws R D}.
Implicit Types (d : D).

Lemma pool_inv_reachable orgID name version (s s' : list (prog R bool) * D) :
  rtc pool_step s s' → pool_inv orgID name version s → pool_inv orgID name version s'.
Proof. induction 1; eauto using pool_inv_step. Qed.

Lemma pool_inv_initial orgID name version (qs : list (request R)) d :
  isResourceAccessor (R := R) = true → Forall (request_on orgID name version) qs →
  pool_inv orgID name version (List.map (attempt orgID name version) qs, d).
Proof.
  intros Hacc Hqs. left. simpl. intros i p Hi. rewrite list_lookup_fmap in Hi.
  apply fmap_Some in Hi as (q & Hq & ->). apply guarded_attempt; [done|].
  by eapply Forall_lookup_1.
Qed.

(** C2: optimistic concurrency.  Any number of clients send full updates, partial
    updates, deletes and reads for the same resource, the writes all based on
    the same version, and their database calls interleave in any order, failing
    or not.  At most one of them is told that its write succeeded, and then no
    live row is left at the version the others were based on. *)
Theorem optimistic_concurrency orgID name version (qs : list (request R)) d ps' d' :
  isResourceAccessor (R := R) = true → Forall (request_on orgID name version) qs →
  rtc pool_step (List.map (attempt orgID name version) qs, d) (ps', d') →
  ∀ i, ps' !! i = Some (Ret true) →
    (∀ j, ps' !! j = Some (Ret true) → j = i) ∧
    (∀ r, r ∈ rows d' → live r = true → key r = (orgID, name) → ResourceVersion (base r) ≠ version).
Proof.
  intros Hacc Hqs Hsteps i Hi.
  pose proof (pool_inv_reachable _ _ _ _ _ Hsteps (pool_inv_initial _ _ _ qs d Hacc Hqs)) as Hinv.
  assert (∀ j, ps' !! j = Some (Ret true) → ¬ guarded orgID name version (Ret true)) as Hnot.
  { intros _ _ Hg. by apply (guarded_step _ _ _ _ d) in Hg. }
  destruct Hinv as [Hall|(w & Hw & Hcons & Hall)]; simpl in *; [by destruct (Hnot i Hi (Hall _ _ Hi))|].
  assert (∀ j, ps' !! j = Some (Ret true) → j = w) as Hw'.
  { intros j Hj. destruct (decide (j = w)) as [|Hne]; [done|]. by destruct (Hnot j Hj (Hall _ _ Hj Hne)). }
  rewrite (Hw' i Hi). split; [done|]. intros r Hr Hl Hk Hv. rewrite consumed_iff in Hcons.
  apply (Hcons r Hr); [|done]. unfold by_key_version. apply by_key_true in Hk. rewrite Hk. by apply Z.eqb_eq.
Qed.

End claims.

(** An executable scheduler, for the witnesses: the client numbers in the order
    in which they make their calls. *)
Definition pool_sched {R D A} `{Model R} `{!Database R D} (s : list (prog R A) * D) (i : nat)
  : list (prog R A) * D :=
  match s.1 !! i with
  | Some (Act c k) => let x := exec c s.2 in (<[i := k x.1]> s.1, x.2)
  | _ => s
  end.

Lemma pool_sched_steps {R D A} `{Model R} `{!Database R D} (ord : list nat) (s : list (prog R A) * D) :
  rtc pool_step s (foldl pool_sched s ord).
Proof.
  revert s. induction ord as [|i ord IH]; intros s; simpl; [apply rtc_refl|].
  transitivity (pool_sched s i); [|apply IH]. unfold pool_sched. destruct s as [ps d]. simpl.
  destruct (ps !! i) as [[]|] eqn:E; try apply rtc_refl. apply rtc_once. by constructor.
Qed.

Lemma optimistic_concurrency_witness :
  let d : MemDB Doc := MkMem [doc 1 "a" None 4 "s"] true in
  let qs := [RUpdate 3 7 (doc 1 "a" None 4 "t"); RUpdate 3 8 (doc 1 "a" None 4 "u"); RDelete 9] in
  let s := foldl pool_sched (List.map (attempt 1%N "a" 4) qs, d) [0; 1; 1; 0]%nat in
  s.1 !! 1%nat = Some (Ret true) ∧ s.1 !! 0%nat = Some (Ret false) ∧
  ∀ j, s.1 !! j = Some (Ret true) → j = 1%nat.
Proof.
  intros d qs s. split; [reflexivity|]. split; [reflexivity|].
  apply (optimistic_concurrency (D := MemDB Doc) 1%N "a" 4 qs d s.1 s.2).
  - reflexivity.
  - repeat constructor.
  - replace (s.1, s.2) with s by (by destruct s). apply pool_sched_steps.
  - reflexivity.
Defined.
