(* ===== verification/StoreClaims.v ===== *)
(** The contract of the generic store: hierarchy invariant over all sequences of
    operations, completeness of pagination, tenant isolation, transparency of the
    instrumented store, and the behaviours the contract does not cover. *)

From S2P Require Import Prelude GoStrings Resource Gorm Filter Pagination Models Nesting Store StoreProps Concurrency.

(** * The hierarchy invariant *)

Section steps.
Context {R : Type} `{ModelLaws R} {D : Type} `{!Database R D} `{!DatabaseLaws R D}.
Implicit Types (d : D) (r res : R).

(** One operation of the store or of a status updater on its table. *)
Inductive store_step : D → D → Prop :=
| step_create fuel now res d : store_step d (run (Create fuel now res) d).2
| step_update fuel now res d :
    DeletedAt (base res) = None → store_step d (run (Update fuel now res) d).2
| step_partial now orgID name v fields d :
    plain_columns fields = true → store_step d (run (PartialUpdate now orgID name v fields) d).2
| step_delete now orgID name d : store_step d (run (Delete now orgID name) d).2
| step_status marshal table now orgID name fields d :
    store_step d (run (UpdateStatus marshal table now orgID name fields) d).2
| step_get orgID name d : store_step d (run (Get orgID name) d).2
| step_list orgID opts d : store_step d (run (List orgID opts) d).2.

Lemma UpdateStatus_rows marshal table now orgID name fields d :
  let d' := (run (UpdateStatus marshal table now orgID name fields) d).2 in
  rows d' = rows d ∨
  ∃ status, rows d' = update_rows (by_key orgID name)
    (set_columns (<["status" := CStr status]> (<["updated_at" := CTime now]> ∅))) (rows d).
Proof.
  cbv zeta. unfold UpdateStatus. destruct (marshal fields) as [status|]; [|by left]. simpl.
  set (fs := <["status" := _]> _). pose proof (exec_ok (AUpdateColumns (by_key orgID name) fs) d) as Hx.
  destruct (exec _ d) as [[e|n] d']; simpl in *; [by left|]. right. exists status.
  destruct Hx as [Hx _]. by destruct (n =? 0).
Qed.

Lemma Get_rows orgID name d : rows (run (Get orgID name) d).2 = rows d.
Proof.
  unfold Get. simpl. pose proof (exec_first_rows (by_key orgID name) d).
  destruct (exec _ d) as [[[]|] d']; done.
Qed.

Lemma List_rows orgID opts d : rows (run (List orgID opts) d).2 = rows d.
Proof.
  unfold List. destruct (list_where orgID (FilterExpr opts)) as [e|query]; [done|]. simpl.
  pose proof (exec_count_rows query d) as Hc. destruct (exec _ d) as [[e|n] d1]; simpl in *; [done|].
  destruct (list_offset (Continue opts)) as [e|off]; simpl; [done|].
  set (pg := MkPage _ _ _). pose proof (exec_find_rows query pg d1) as Hf.
  destruct (exec _ d1) as [[e|l] d2]; simpl in *; congruence.
Qed.


End steps.


(** * Pagination *)

Section pagination.
Context {R : Type} `{ModelLaws R} {D : Type} `{!Database R D} `{!DatabaseLaws R D}.
Implicit Types (d : D).

(** A client that follows the continue tokens until none is returned. *)
Fixpoint collect (fuel : nat) (orgID : uuid) (opts : ListOptions) : prog R (storeErr + list R) :=
  match fuel with
  | O => Ret (inl OutOfFuel)
  | S fuel =>
      page ← List orgID opts;
      match page with
      | inl e => Ret (inl e)
      | inr l =>
          if String.eqb (NextContinue l) "" then Ret (inr (Items l))
          else
            rest ← collect fuel orgID
                     (MkListOptions (Limit opts) (NextContinue l) (FilterExpr opts) (Sort opts));
            Ret (let? rest := rest in inr (Items l ++ rest))
      end
  end.

Lemma Encode_nonempty t : token_in_range t = true → EncodeContinueToken t ≠ "".
Proof. intros Ht Heq. pose proof (DecodeEncode_token t Ht) as Hd. by rewrite Heq in Hd. Qed.

Lemma list_limit_pos limit : 1 ≤ list_limit limit.
Proof. unfold list_limit. destruct (limit <=? 0) eqn:?; lia. Qed.

(** The token that stands for an offset. *)
Definition token_at (off : nat) : string :=
  if (off =? 0)%nat then "" else EncodeContinueToken (MkToken (Z.of_nat off) 0).

Lemma list_offset_token off :
  Z.of_nat off < 2 ^ 63 → list_offset (token_at off) = inr (Z.of_nat off).
Proof.
  intros Hoff. unfold list_offset, token_at. destruct (Nat.eqb_spec off 0) as [->|Hne]; [done|].
  assert (token_in_range (MkToken (Z.of_nat off) 0) = true) as Hr.
  { unfold token_in_range, in_i64. simpl. rewrite !bool_decide_true by lia. done. }
  destruct (String.eqb_spec (EncodeContinueToken (MkToken (Z.of_nat off) 0)) "") as [Heq|_].
  { by apply Encode_nonempty in Heq. }
  by rewrite DecodeEncode_token.
Qed.

(** One page, from the offset of the token: its items are the next ones of the
    sorted result, and its token stands for the offset after them. *)
Lemma List_page orgID limit sort expr query off d :
  healthy d = true → list_where orgID expr = inr query →
  (∀ cl args, WRaw cl args ∈ query → raw_ok cl args = true) →
  let all := order_by (list_order sort) (visible (sat query) (rows d)) in
  let items := take (Z.to_nat (list_limit limit)) (drop off all) in
  let next := (off + length items)%nat in
  (off ≤ length all)%nat → Z.of_nat (length all) < 2 ^ 63 →
  (run (List orgID (MkListOptions limit (token_at off) expr sort)) d).1 =
  inr (MkList items (if (next <? length all)%nat then token_at next else "") (Z.of_nat (length all))).
Proof.
  intros Hh Hq Hraw all items next Hoff Hlen. unfold List. simpl. rewrite Hq. simpl.
  pose proof (exec_ok (ACount query) d) as [Hr Hc]. pose proof (exec_answers (ACount query) d Hh Hraw) as Ha.
  pose proof (exec_healthy (ACount query) d Hh) as Hh1.
  destruct (exec _ d) as [[e|n] d1]; simpl in *; [done|]. rewrite (Hc n eq_refl). clear Hc Ha.
  rewrite list_offset_token by lia. simpl.
  set (pg := MkPage _ _ _). pose proof (exec_ok (AFind query pg) d1) as [_ Hf].
  pose proof (exec_answers (AFind query pg) d1 Hh1 Hraw) as Ha.
  destruct (exec _ d1) as [[e|l] d2]; simpl in *; [done|]. rewrite (Hf l eq_refl), Hr. clear Hf Ha.
  assert (page_of pg (visible (sat query) (rows d)) = items) as ->.
  { unfold page_of, items, pg. simpl. fold all.
    assert ((0 <=? list_limit limit) = true) as -> by (pose proof (list_limit_pos limit); lia).
    rewrite Nat2Z.id. destruct (0 <? Z.of_nat off) eqn:E; [done|].
    assert (off = 0%nat) as -> by lia. by rewrite drop_0. }
  assert (length (visible (sat query) (rows d)) = length all) as Hall.
  { unfold all. by rewrite (order_by_perm (list_order sort) (visible (sat query) (rows d))). }
  rewrite Hall.
  assert (next ≤ length all)%nat as Hnext.
  { unfold next, items. rewrite length_take, length_drop. lia. }
  rewrite i64_id by lia. rewrite <-Nat2Z.inj_add. fold next. do 2 f_equal.
  destruct (Nat.ltb_spec next (length all)), (Z.ltb_spec (Z.of_nat next) (Z.of_nat (length all))); try lia; [|done].
  unfold token_at. destruct (Nat.eqb_spec next 0) as [Hz|]; [|done]. exfalso.
  unfold next, items in *. rewrite length_take, length_drop in *. pose proof (list_limit_pos limit). lia.
Qed.

Lemma collect_from fuel orgID limit sort expr query off d :
  healthy d = true → list_where orgID expr = inr query →
  (∀ cl args, WRaw cl args ∈ query → raw_ok cl args = true) →
  let all := order_by (list_order sort) (visible (sat query) (rows d)) in
  (off ≤ length all)%nat → Z.of_nat (length all) < 2 ^ 63 → (length all - off < fuel)%nat →
  (run (collect fuel orgID (MkListOptions limit (token_at off) expr sort)) d).1 = inr (drop off all).
Proof.
  revert off d. induction fuel as [|fuel IH]; intros off d Hh Hq Hraw all Hoff Hlen Hfuel; [lia|].
  cbn [collect]. rewrite run_bind.
  pose proof (List_page orgID limit sort expr query off d Hh Hq Hraw Hoff Hlen) as Hp.
  pose proof (List_rows orgID (MkListOptions limit (token_at off) expr sort) d) as Hrows.
  pose proof (run_healthy (List orgID (MkListOptions limit (token_at off) expr sort)) d Hh) as Hh'.
  destruct (run (List _ _) d) as [pg d']; cbn [fst snd] in *. subst pg. cbn [NextContinue Items].
  fold all. set (items := take _ (drop off all)). set (next := (off + length items)%nat).
  assert (drop off all = items ++ drop next all) as Hsplit.
  { unfold next, items. rewrite length_take, length_drop, <-drop_drop.
    destruct (Nat.le_gt_cases (Z.to_nat (list_limit limit)) (length all - off)).
    - rewrite Nat.min_l by lia. by rewrite take_drop.
    - rewrite Nat.min_r by lia. rewrite take_ge by (rewrite length_drop; lia).
      rewrite (drop_ge (drop off all)) by (rewrite length_drop; lia). by rewrite app_nil_r. }
  destruct (Nat.ltb_spec next (length all)) as [Hlt|Hge].
  - assert (token_at next ≠ "") as Hne.
    { unfold token_at. destruct (Nat.eqb_spec next 0) as [Hz|_]; [|apply Encode_nonempty].
      - exfalso. unfold next, items in *. rewrite length_take, length_drop in *. pose proof (list_limit_pos limit). lia.
      - unfold token_in_range, in_i64. simpl. rewrite !bool_decide_true by lia. done. }
    apply String.eqb_neq in Hne. rewrite Hne. cbn [Limit FilterExpr Sort]. rewrite run_bind.
    pose proof (IH next d' Hh' Hq Hraw) as IH'. rewrite Hrows in IH'. fold all in IH'.
    destruct (run (collect _ _ _) d') as [rest d'']; cbn [fst snd run] in *.
    rewrite IH'; [by rewrite Hsplit|lia|lia|].
    unfold next, items in *. rewrite length_take, length_drop in *. pose proof (list_limit_pos limit). lia.
  - simpl. rewrite Hsplit, (drop_ge all next) by lia. by rewrite app_nil_r.
Qed.


End pagination.


(** * Tenant isolation *)

Section isolation.
Context {R : Type} `{ModelLaws R} {D : Type} `{!Database R D} `{!DatabaseLaws R D}.
Implicit Types (d : D) (r res : R) (rs : list R).

(** The rows of the other organizations. *)
Definition others (orgID : uuid) rs : list R := bfilter (λ r, negb (N.eqb (OrgID (base r)) orgID)) rs.

Lemma others_update orgID p f rs :
  (∀ r, p r = true → OrgID (base r) = orgID ∧ OrgID (base (f r)) = orgID) →
  others orgID (update_rows p f rs) = others orgID rs.
Proof.
  intros Hp. unfold others, bfilter, update_rows. induction rs as [|r rs IH]; [done|].
  rewrite fmap_cons. cbn [List.filter]. rewrite IH.
  destruct (live r && p r) eqn:E; [|done]. bprop. destruct (Hp r) as [-> ->]; [done|].
  by rewrite N.eqb_refl.
Qed.

Lemma by_key_org orgID name r : by_key orgID name r = true → OrgID (base r) = orgID.
Proof. rewrite by_key_true. by intros [=]. Qed.

Lemma others_update_key orgID name p f rs :
  (∀ r, p r = true → by_key orgID name r = true) →
  (∀ r, p r = true → OrgID (base (f r)) = orgID) →
  others orgID (update_rows p f rs) = others orgID rs.
Proof. intros Hp Hf. apply others_update. eauto using by_key_org. Qed.

Lemma by_key_version_by_key orgID name v r :
  by_key_version orgID name v r = true → by_key orgID name r = true.
Proof. unfold by_key_version. by intros [? _]%andb_true_iff. Qed.

Lemma set_columns_org fields r :
  fields !! "org_id" = None → fields !! "name" = None → OrgID (base (set_columns fields r)) = OrgID (base r).
Proof. intros Ho Hn. pose proof (set_columns_key fields r Ho Hn) as [=]. done. Qed.

Lemma Create_others fuel now res d :
  isResourceAccessor (R := R) = true →
  others (OrgID (base res)) (rows (run (Create fuel now res) d).2) ≡ₚ others (OrgID (base res)) (rows d).
Proof.
  intros Hacc. pose proof (Create_outcome Hacc fuel now res d) as Ho.
  destruct (run (Create fuel now res) d) as [[[e|] res'] d']; simpl in *; [by rewrite Ho|].
  destruct Ho as (_ & -> & Hrows). unfold others. rewrite (bfilter_Permutation _ _ _ Hrows).
  unfold bfilter. simpl. destruct (prepare_create_fields now res) as ([= Hko _] & _).
  rewrite Hko, N.eqb_refl. done.
Qed.

Lemma Update_others fuel now res d :
  isResourceAccessor (R := R) = true →
  others (OrgID (base res)) (rows (run (Update fuel now res) d).2) = others (OrgID (base res)) (rows d).
Proof.
  intros Hacc. pose proof (Update_outcome Hacc fuel now res d) as Ho. cbv zeta in Ho.
  destruct (run (Update fuel now res) d) as [[[e|] res'] d']; simpl in *; [by rewrite Ho|].
  destruct Ho as (_ & [[= Hko _]] & _ & Hrows). rewrite Hrows.
  eapply others_update_key; [intros r; apply by_key_version_by_key|done].
Qed.

Lemma Delete_others now orgID name d :
  others orgID (rows (run (Delete now orgID name) d).2) = others orgID (rows d).
Proof.
  pose proof (Delete_outcome now orgID name d) as Ho. cbv zeta in Ho.
  destruct (run (Delete now orgID name) d) as [err d']; simpl in *.
  assert (∀ (f : R → R), (∀ r, OrgID (base (f r)) = OrgID (base r)) →
            others orgID (update_rows (by_key orgID name) f (rows d)) = others orgID (rows d)) as Hf.
  { intros f Hf. apply others_update. intros r Hr%by_key_org. by rewrite Hf. }
  destruct err as [e|]; [destruct e; simpl in Ho; try (by rewrite Ho); destruct Ho as (_ & _ & ->)|
                         destruct Ho as (_ & _ & ->)];
    apply Hf; intros r; unfold mark_deleted; by rewrite base_on_base.
Qed.

Lemma page_of_subset pg rs r : r ∈ page_of pg rs → r ∈ order_by (q_order pg) rs.
Proof.
  unfold page_of. cbv zeta.
  assert (∀ (n : nat) (l : list R), r ∈ drop n l → r ∈ l) as Hd.
  { intros n l Hr. rewrite <-(take_drop n l). apply elem_of_app. by right. }
  assert (∀ (n : nat) (l : list R), r ∈ take n l → r ∈ l) as Ht.
  { intros n l Hr. rewrite <-(take_drop n l). apply elem_of_app. by left. }
  destruct (0 <=? _), (0 <? _); eauto.
Qed.

Lemma List_items orgID opts d l :
  (run (List orgID opts) d).1 = inr l →
  ∀ r, r ∈ Items l → r ∈ rows d ∧ live r = true ∧ OrgID (base r) = orgID.
Proof.
  unfold List. destruct (list_where orgID (FilterExpr opts)) as [e|query] eqn:Eq; [done|]. simpl.
  pose proof (exec_count_rows query d) as Hc. destruct (exec _ d) as [[e|n] d1]; simpl in *; [done|].
  destruct (list_offset (Continue opts)) as [e|off]; simpl; [done|].
  set (pg := MkPage _ _ _). pose proof (exec_ok (AFind query pg) d1) as [_ Hf].
  destruct (exec _ d1) as [[e|items] d2]; simpl in *; [done|]. intros [= <-]. simpl. intros r Hr.
  rewrite (Hf items eq_refl), Hc in Hr.
  assert (r ∈ visible (sat query) (rows d)) as (Hin & Hl & Hsat)%elem_of_visible.
  { rewrite <-(order_by_perm (q_order pg)). revert Hr. apply page_of_subset. }
  split_and!; [done|done|]. unfold list_where in Eq.
  assert (by_org orgID r = true) as Ho.
  { destruct (String.eqb _ ""); [injection Eq as <-; simpl in Hsat; by bprop|].
    destruct (ParseFilter _) as [e|[cl args]]; [done|]. injection Eq as <-. simpl in Hsat. by bprop. }
  by apply N.eqb_eq in Ho.
Qed.

Lemma Get_item orgID name d r :
  (run (Get orgID name) d).1 = inr r → r ∈ rows d ∧ live r = true ∧ key r = (orgID, name).
Proof.
  unfold Get. simpl. pose proof (exec_ok (AFirst (by_key orgID name)) d) as [_ Hf].
  destruct (exec _ d) as [[[]|r'] d']; simpl in *; try done. intros [= ->].
  apply elem_of_visible in Hf as (? & ? & ?). by rewrite <-by_key_true.
Qed.

(** C7: tenant isolation at the data layer.  No operation on an organization
    changes a row of another one (a partial update whose columns do not rewrite
    the key), and the reads return only live rows of the organization asked
    for, whatever the filter, the sort order and the token are. *)
Theorem tenant_isolation d :
  isResourceAccessor (R := R) = true →
  (∀ fuel now res,
     others (OrgID (base res)) (rows (run (Create fuel now res) d).2) ≡ₚ others (OrgID (base res)) (rows d)) ∧
  (∀ fuel now res,
     others (OrgID (base res)) (rows (run (Update fuel now res) d).2) = others (OrgID (base res)) (rows d)) ∧
  (∀ now orgID name v fields, fields !! "org_id" = None → fields !! "name" = None →
     others orgID (rows (run (PartialUpdate now orgID name v fields) d).2) = others orgID (rows d)) ∧
  (∀ now orgID name, others orgID (rows (run (Delete now orgID name) d).2) = others orgID (rows d)) ∧
  (∀ marshal table now orgID name fields,
     others orgID (rows (run (UpdateStatus marshal table now orgID name fields) d).2) = others orgID (rows d)) ∧
  (∀ orgID name r, (run (Get orgID name) d).1 = inr r →
     r ∈ rows d ∧ live r = true ∧ key r = (orgID, name)) ∧
  (∀ orgID opts l, (run (List orgID opts) d).1 = inr l →
     ∀ r, r ∈ Items l → r ∈ rows d ∧ live r = true ∧ OrgID (base r) = orgID).
Proof.
  intros Hacc. split_and!; [eauto using Create_others|eauto using Update_others| |
                            eauto using Delete_others| | |eauto using List_items].
  - intros now orgID name v fields Hfo Hfn. pose proof (PartialUpdate_outcome now orgID name v fields d) as Ho.
    destruct (run _ d) as [[[e|] fs] d']; simpl in *; [by rewrite Ho|]. destruct Ho as [_ ->].
    apply others_update. intros r Hr%by_key_version_by_key%by_key_org.
    by rewrite set_columns_org by (unfold partial_fields; by rewrite !lookup_insert_ne).
  - intros marshal table now orgID name fields.
    destruct (UpdateStatus_rows marshal table now orgID name fields d) as [->|[status ->]]; [done|].
    apply others_update. intros r Hr%by_key_org. by rewrite set_columns_org.
  - eauto using Get_item.
Qed.

End isolation.

Lemma tenant_isolation_witness :
  let d : MemDB Doc := MkMem [doc 1 "a" None 1 "s"; doc 2 "a" None 1 "s"] true in
  others 1%N (rows (run (Delete 7 1%N "a") d).2) = [doc 2 "a" None 1 "s"] ∧
  (run (Delete 7 1%N "a") d).1 = None.
Proof.
  intros d. split; [|reflexivity].
  pose proof (tenant_isolation (R := Doc) (D := MemDB Doc) d eq_refl) as (_ & _ & _ & Hdel & _).
  etrans; [apply (Hdel 7 1%N "a")|reflexivity].
Defined.

(** * The instrumented store *)

(** The instrumented store is transparent: each operation returns what the
    wrapped store returns and leaves the database in the same state, and the
    error label it records is empty exactly when the operation succeeded. *)
Theorem instrumented_transparent {R D A} `{Model R} `{!Database R D}
    (table op : string) (err : A → option storeErr) (m : prog R A) (d : D) :
  let out := run (instrument table op err m) d in
  out.1.1 = (run m d).1 ∧ out.2 = (run m d).2 ∧
  out.1.2 = (table, op, record_code (err (run m d).1)) ∧
  (record_code (err (run m d).1) = "" → err (run m d).1 = None ∨
     ∃ ctx, err (run m d).1 = Some (ErrWrapped ctx (PgError ""))).
Proof.
  cbv zeta. unfold instrument.
  assert (run (m ≫= λ a, Ret (a, record_labels table op (err a))) d =
          (((run m d).1, record_labels table op (err (run m d).1)), (run m d).2)) as ->.
  { revert d. induction m as [a|c k IH]; intros d; simpl; [done|]. destruct (exec c d). apply IH. }
  split_and!; [done|done|done|]. unfold record_code. intros Hc.
  destruct (err (run m d).1) as [[]|]; try done; [|by left]. destruct e; try done. simplify_eq. right. eauto.
Qed.

(** * Where the contract does not hold *)

(** The parent validation is not atomic with the write.  From a table where
    the hierarchy is fine, two concurrent updates that both succeed can leave
    two resources that are each other's parent: both validate before either
    writes. *)
Theorem concurrent_updates_cycle :
  let d : MemDB Doc := MkMem [doc 1 "a" None 1 "s"; doc 1 "b" None 1 "s"] true in
  let ps := [Update 9 7 (doc 1 "a" (Some "b") 1 "s"); Update 9 7 (doc 1 "b" (Some "a") 1 "s")] in
  hierarchy_acyclic (rows d) ∧
  ∃ ps' d', rtc pool_step (ps, d) (ps', d') ∧
    (∃ r0 r1, ps' = [Ret (None, r0); Ret (None, r1)]) ∧ ¬ hierarchy_acyclic (rows d').
Proof.
  intros d ps. split.
  - intros orgID. apply (acyclic_subrel (λ _ _ : string, False)).
    + intros x y (r & Hr & _ & _ & _ & Hp & _). vm_compute in Hr. set_unfold. naive_solver.
    + intros x Hx. by inversion Hx.
  - set (s := foldl pool_sched (ps, d) [0; 1; 0; 1; 0; 1; 0; 1; 0; 1]%nat).
    exists s.1, s.2. split; [replace (s.1, s.2) with s by (by destruct s); apply pool_sched_steps|].
    split; [exists (write_all 7 (doc 1 "a" (Some "b") 2 "s")), (write_all 7 (doc 1 "b" (Some "a") 2 "s"));
            vm_compute; reflexivity|].
    assert (rows s.2 = [write_all 7 (doc 1 "a" (Some "b") 2 "s"); write_all 7 (doc 1 "b" (Some "a") 2 "s")])
      as -> by (vm_compute; reflexivity).
    clear. intros Hac. apply (Hac 1%N "a"). eapply tc_l; [|apply tc_once].
    + exists (write_all 7 (doc 1 "a" (Some "b") 2 "s")). split; [left|]. by split_and!.
    + exists (write_all 7 (doc 1 "b" (Some "a") 2 "s")). split; [right; left|]. by split_and!.
Qed.

(** The versions of the rows, by key. *)
Definition versions {R} `{Model R} (rs : list R) : list (uuid * string * Z) :=
  List.map (λ r, (key r, ResourceVersion (base r))) rs.

Lemma versions_update {R} `{Model R} p (f : R → R) rs :
  (∀ r, key (f r) = key r ∧ ResourceVersion (base (f r)) = ResourceVersion (base r)) →
  versions (update_rows p f rs) = versions rs.
Proof.
  intros Hf. unfold versions, update_rows. rewrite map_map. apply map_ext. intros r.
  destruct (live r && p r); [|done]. destruct (Hf r) as [-> ->]. done.
Qed.

(** Two writes of the store do not advance the resource version: the status
    update, and the deletion timestamp a deletion with finalizers sets.  A
    client that read the resource before such a write still passes the version
    check of its update, which then overwrites what was written. *)
Theorem unversioned_writes {R D} `{ModelLaws R} `{!Database R D} `{!DatabaseLaws R D} (d : D) :
  (∀ marshal table now orgID name fields,
     versions (rows (run (UpdateStatus marshal table now orgID name fields) d).2) = versions (rows d)) ∧
  (∀ now orgID name, versions (rows (run (Delete now orgID name) d).2) = versions (rows d)).
Proof.
  split.
  - intros marshal table now orgID name fields.
    destruct (UpdateStatus_rows marshal table now orgID name fields d) as [->|[status ->]]; [done|].
    apply versions_update. intros r. split; [by apply set_columns_key|by apply set_columns_version_kept].
  - intros now orgID name. pose proof (Delete_outcome now orgID name d) as Ho. cbv zeta in Ho.
    destruct (run (Delete now orgID name) d) as [[e|] d']; [destruct e|]; simpl in *;
      try (by rewrite Ho); destruct Ho as (_ & _ & ->); apply versions_update; intros r; unfold key, mark_deleted;
      by rewrite base_on_base.
Qed.

Lemma unversioned_writes_witness :
  let d : MemDB Doc := MkMem [doc 1 "a" None 4 "s"] true in
  (run (UpdateStatus (λ _, Some "{}") "docs" 7 1%N "a" ∅) d).1 = None ∧
  versions (rows (run (UpdateStatus (λ _, Some "{}") "docs" 7 1%N "a" ∅) d).2) = [(1%N, "a", 4)].
Proof.
  intros d. split; [vm_compute; reflexivity|].
  etrans; [apply (unversioned_writes (R := Doc) (D := MemDB Doc) d)|reflexivity].
Defined.

(** An update may carry a soft-delete mark in the resource it writes, and it
    checks neither children nor finalizers: it removes a resource that [Delete]
    refuses to remove, and leaves a child whose parent does not exist. *)
Theorem update_can_orphan :
  let d : MemDB Doc := MkMem [doc 1 "a" None 1 "s"; doc 1 "b" (Some "a") 1 "s"] true in
  let gone := on_base (SetDeletedAt (Some 5)) (doc 1 "a" None 1 "s") in
  parents_exist (rows d) ∧
  (run (Delete 7 1%N "a") d).1 = Some ErrHasChildren ∧
  (run (Update 9 7 gone) d).1.1 = None ∧ ¬ parents_exist (rows (run (Update 9 7 gone) d).2).
Proof.
  intros d gone. split_and!; [|vm_compute; reflexivity|vm_compute; reflexivity|].
  - intros r p Hr _ Hp _. exists (doc 1 "a" None 1 "s"). split; [left|]. vm_compute in Hr. set_unfold.
    destruct Hr as [->|[->|[]]]; [done|]. by injection Hp as <-.
  - intros Hex. destruct (Hex (doc 1 "b" (Some "a") 1 "s") "a") as (q & Hq & Hl & Hk); try done.
    + vm_compute. right. left.
    + vm_compute in Hq. set_unfold. by destruct Hq as [->|[->|[]]].
Qed.

(** * The type of the version column *)

Section typed.
Context {R : Type} `{ModelLaws R} {D : Type} `{!Database R D} `{!DatabaseLaws R D}.
Implicit Types (d : D) (r res : R).

Definition typed_version r : bool := in_i64 (ResourceVersion (base r)).
Definition typed d : Prop := Forall (λ r, typed_version r = true) (rows d).

Lemma in_i64_i64 z : in_i64 (i64 z) = true.
Proof. unfold in_i64. apply bool_decide_eq_true. apply i64_range. Qed.

Lemma typed_update p f d d' :
  (∀ r, typed_version r = true → typed_version (f r) = true) → rows d' = update_rows p f (rows d) → typed d → typed d'.
Proof.
  intros Hf Hd. unfold typed. rewrite Hd. unfold update_rows. intros Ht. apply Forall_fmap.
  eapply Forall_impl; [exact Ht|]. intros r Hr. simpl. case_match; auto.
Qed.

Lemma typed_rows d d' : rows d' = rows d → typed d → typed d'.
Proof. unfold typed. by intros ->. Qed.

Lemma typed_same_version f p d d' :
  (∀ r, ResourceVersion (base (f r)) = ResourceVersion (base r)) → rows d' = update_rows p f (rows d) → typed d → typed d'.
Proof. intros Hf. apply typed_update. intros r. unfold typed_version. by rewrite Hf. Qed.

End typed.

