(* ===== verification/Registry.v ===== *)
(** The provider registry (src/provider/registry.go, src/provider/provider.go):
    registration, dependency resolution, initialization and shutdown. *)

From S2P Require Import Prelude.

(** * Data *)

(** A provider acts on the world [W] it is given by its context.  The booleans
    are the outcome of the type assertions on the optional interfaces. *)
Record Provider (W : Type) := MkProvider {
  PName : string;
  Version : string;
  Features : list string;
  Dependencies : list string;
  Init : W → option string * W;
  Shutdown : W → option string * W;
  isAPIProvider : bool;
  isGRPCProvider : bool;
  isWorkflowProvider : bool;
  isMigrationProvider : bool;
}.
Arguments MkProvider {W} _ _ _ _ _ _ _ _ _ _.
Arguments PName {W} _.
Arguments Version {W} _.
Arguments Features {W} _.
Arguments Dependencies {W} _.
Arguments Init {W} _ _.
Arguments Shutdown {W} _ _.
Arguments isAPIProvider {W} _.
Arguments isGRPCProvider {W} _.
Arguments isWorkflowProvider {W} _.
Arguments isMigrationProvider {W} _.

Record Registry (W : Type) := MkRegistry {
  providers : gmap string (Provider W);
  features : gmap string string;
  order : list string;   (* nil until the dependencies are resolved *)
}.
Arguments MkRegistry {W} _ _ _.
Arguments providers {W} _.
Arguments features {W} _.
Arguments order {W} _.

Inductive registryErr :=
| ErrProviderRegistered (name : string)
| ErrFeatureProvided (feature existing name : string)
| ErrCircularDependency (name : string)
| ErrMissingProvider (name : string)
| ErrMissingDependency (name dep : string)
| ErrInit (name msg : string)
| ErrShutdown (name msg : string)
| PanicNilProvider (name : string)  (* a method call on a nil interface *)
| ErrResolveFuel.  (* the bound of the recursion, never reached *)

(** The map [visited] of the resolution: no entry = unvisited, [false] = in
    progress, [true] = done. *)
Abbreviation marks := (gmap string bool).

Section registry.
Context {W : Type}.
Implicit Types (r : Registry W) (p : Provider W).

Definition NewRegistry : Registry W := MkRegistry ∅ ∅ [].

(** * Registration *)

Fixpoint register_features (name : string) (fs : list string) (m : gmap string string)
  : option registryErr * gmap string string :=
  match fs with
  | [] => (None, m)
  | f :: fs =>
      match m !! f with
      | Some existing => (Some (ErrFeatureProvided f existing name), m)
      | None => register_features name fs (<[f := name]> m)
      end
  end.

Definition Register (p : Provider W) r : option registryErr * Registry W :=
  let name := PName p in
  match providers r !! name with
  | Some _ => (Some (ErrProviderRegistered name), r)
  | None =>
      let '(err, m) := register_features name (Features p) (features r) in
      (err, MkRegistry (<[name := p]> (providers r)) m (order r))
  end.

Definition GetProvider (name : string) r : option (Provider W) := providers r !! name.

(** [r.providers[name]] of a name that is not registered is the nil interface;
    the outer option is the boolean the method returns. *)
Definition FeatureProvider (feature : string) r : option (option (Provider W)) :=
  match features r !! feature with
  | None => None
  | Some name => Some (providers r !! name)
  end.

(** * Dependency resolution *)

Section visit.
Context (ps : gmap string (Provider W)).

(** The loop over the dependencies of [name], given the recursive call. *)
Fixpoint visit_deps (visit : string → marks * list string → registryErr + marks * list string)
    (name : string) (deps : list string) (st : marks * list string)
  : registryErr + marks * list string :=
  match deps with
  | [] => inr st
  | dep :: deps =>
      match ps !! dep with
      | None => inl (ErrMissingDependency name dep)
      | Some _ => let? st := visit dep st in visit_deps visit name deps st
      end
  end.

Fixpoint visit (fuel : nat) (name : string) (st : marks * list string)
  : registryErr + marks * list string :=
  match fuel with
  | O => inl ErrResolveFuel
  | S fuel =>
      let '(visited, ord) := st in
      match visited !! name with
      | Some true => inr st
      | Some false => inl (ErrCircularDependency name)
      | None =>
          match ps !! name with
          | None => inl (ErrMissingProvider name)
          | Some p =>
              let? (visited, ord) :=
                visit_deps (visit fuel) name (Dependencies p) (<[name := false]> visited, ord) in
              inr (<[name := true]> visited, ord ++ [name])
          end
      end
  end.

Fixpoint visit_all (fuel : nat) (names : list string) (st : marks * list string)
  : registryErr + marks * list string :=
  match names with
  | [] => inr st
  | name :: names => let? st := visit fuel name st in visit_all fuel names st
  end.

End visit.

(** [keys] is the order in which Go iterates over the provider map. *)
Definition ResolveDependencies (keys : list string) r : registryErr + Registry W :=
  let? (_, ord) := visit_all (providers r) (S (size (providers r))) keys (∅, []) in
  inr (MkRegistry (providers r) (features r) ord).

(** * Lifecycle *)

Fixpoint init_loop (ps : gmap string (Provider W)) (names : list string) (w : W)
  : option registryErr * W :=
  match names with
  | [] => (None, w)
  | name :: names =>
      match ps !! name with
      | None => (Some (PanicNilProvider name), w)
      | Some p =>
          match Init p w with
          | (Some e, w) => (Some (ErrInit name e), w)
          | (None, w) => init_loop ps names w
          end
      end
  end.

Definition InitAll (keys : list string) r (w : W) : option registryErr * Registry W * W :=
  match order r with
  | [] =>
      match ResolveDependencies keys r with
      | inl e => (Some e, r, w)
      | inr r => let '(err, w) := init_loop (providers r) (order r) w in (err, r, w)
      end
  | _ => let '(err, w) := init_loop (providers r) (order r) w in (err, r, w)
  end.

Fixpoint shutdown_loop (ps : gmap string (Provider W)) (names : list string) (w : W)
  : option registryErr * W :=
  match names with
  | [] => (None, w)
  | name :: names =>
      match ps !! name with
      | None => (Some (PanicNilProvider name), w)
      | Some p =>
          match Shutdown p w with
          | (Some e, w) => (Some (ErrShutdown name e), w)
          | (None, w) => shutdown_loop ps names w
          end
      end
  end.

Definition ShutdownAll r (w : W) : option registryErr * W :=
  shutdown_loop (providers r) (rev (order r)) w.

(** The providers that implement an interface, in the resolved order. *)
Definition select_providers (sel : Provider W → bool) r : list (Provider W) :=
  omap (λ name, p ← providers r !! name; if sel p then Some p else None) (order r).

Definition APIProviders r := select_providers isAPIProvider r.
Definition GRPCProviders r := select_providers isGRPCProvider r.
Definition WorkflowProviders r := select_providers isWorkflowProvider r.
Definition MigrationProviders r := select_providers isMigrationProvider r.

(** The registration loop of [RegisterExternalProviders], after the
    configuration was loaded. *)
Fixpoint register_external (ps : list (Provider W)) r : option (string * registryErr) * Registry W :=
  match ps with
  | [] => (None, r)
  | p :: ps =>
      match Register p r with
      | (Some e, r) => (Some (PName p, e), r)
      | (None, r) => register_external ps r
      end
  end.

End registry.

(** * Correctness of the resolution *)

Section resolution.
Context {W : Type}.
Implicit Types (ps : gmap string (Provider W)) (st : marks * list string) (ord : list string).

(** The dependency graph. *)
Definition depends ps (a b : string) : Prop := ∃ p, ps !! a = Some p ∧ b ∈ Dependencies p.

Definition deps_registered ps : Prop := ∀ a b, depends ps a b → is_Some (ps !! b).

(** Every provider comes after its dependencies. *)
Definition topological ps ord : Prop :=
  ∀ l1 a l2, ord = l1 ++ a :: l2 → ∀ b, depends ps a b → b ∈ l1.

(** What holds of the marks and the order between two visits. *)
Record visit_inv ps st : Prop := {
  inv_done : ∀ n, st.1 !! n = Some true ↔ n ∈ st.2;
  inv_nodup : NoDup st.2;
  inv_topo : topological ps st.2;
  inv_registered : ∀ n, n ∈ st.2 → is_Some (ps !! n);
}.

(** A visit leaves the providers in progress as they were and only extends the
    order. *)
Record visit_extends st st' : Prop := {
  ext_progress : ∀ n, st'.1 !! n = Some false ↔ st.1 !! n = Some false;
  ext_order : st.2 `prefix_of` st'.2;
}.

Lemma visit_extends_refl st : visit_extends st st.
Proof. by split. Qed.

Lemma visit_extends_trans st1 st2 st3 :
  visit_extends st1 st2 → visit_extends st2 st3 → visit_extends st1 st3.
Proof. intros [H1 H2] [H3 H4]. split; [intros n; by rewrite H3|by etrans]. Qed.

Lemma topological_snoc ps ord name :
  topological ps ord → (∀ b, depends ps name b → b ∈ ord) → topological ps (ord ++ [name]).
Proof.
  intros Ht Hd l1 a l2 Heq b Hb. destruct l2 as [|x l2 _] using rev_ind.
  - apply app_inj_tail in Heq as [<- <-]. by apply Hd.
  - rewrite app_comm_cons, app_assoc in Heq. apply app_inj_tail in Heq as [Heq _]. eauto.
Qed.

(** The loop over the dependencies, for a visit that behaves. *)
Lemma visit_deps_sound ps v name deps st st' :
  (∀ n s s', v n s = inr s' → visit_inv ps s → visit_inv ps s' ∧ visit_extends s s' ∧ n ∈ s'.2) →
  visit_deps ps v name deps st = inr st' → visit_inv ps st →
  visit_inv ps st' ∧ visit_extends st st' ∧ ∀ dep, dep ∈ deps → dep ∈ st'.2 ∧ is_Some (ps !! dep).
Proof.
  intros Hv. revert st. induction deps as [|dep deps IH]; intros st; simpl.
  - intros [= <-] Hi. split_and!; [done|apply visit_extends_refl|by intros dep ?%elem_of_nil].
  - destruct (ps !! dep) as [p|] eqn:Ep; [|done]. destruct (v dep st) as [e|s1] eqn:Ev; [done|].
    intros Hd Hi. destruct (Hv _ _ _ Ev Hi) as (Hi1 & He1 & Hin).
    destruct (IH s1 Hd Hi1) as (Hi2 & He2 & Hall).
    split_and!; [done|by eapply visit_extends_trans|].
    intros x [->|Hx]%elem_of_cons; [|by apply Hall]. split; [|done].
    destruct He2 as [_ [l Hl]]. rewrite Hl. apply elem_of_app. by left.
Qed.

Lemma visit_sound ps fuel name st st' :
  visit ps fuel name st = inr st' → visit_inv ps st →
  visit_inv ps st' ∧ visit_extends st st' ∧ name ∈ st'.2.
Proof.
  revert name st st'. induction fuel as [|fuel IH]; intros name [visited ord] st'; [done|]. simpl.
  destruct (visited !! name) as [[]|] eqn:Em; [| done |].
  { intros [= <-] Hi. split_and!; [done|apply visit_extends_refl|]. by apply (inv_done _ _ Hi name). }
  destruct (ps !! name) as [p|] eqn:Ep; [|done].
  destruct (visit_deps _ _ _ _ _) as [e|[visited' ord']] eqn:Ed; [done|]. intros [= <-] Hi.
  assert (visit_inv ps (<[name:=false]> visited, ord)) as Hi0.
  { destruct Hi as [H1 H2 H3 H4]. split; simpl in *; [|done..]. intros n.
    destruct (decide (n = name)) as [->|Hne]; [|by rewrite lookup_insert_ne].
    rewrite lookup_insert_eq, <-H1, Em. done. }
  destruct (visit_deps_sound _ _ _ _ _ _ IH Ed Hi0) as ([H1 H2 H3 H4] & [He1 He2] & Hall). simpl in *.
  assert (visited' !! name = Some false) as Hg by (apply He1; by rewrite lookup_insert_eq).
  assert (name ∉ ord') as Hnot by (rewrite <-H1; congruence).
  split_and!; [split|split|]; simpl.
  - intros n. rewrite elem_of_app, list_elem_of_singleton, <-H1.
    destruct (decide (n = name)) as [->|Hne]; [rewrite lookup_insert_eq|rewrite lookup_insert_ne by done]; naive_solver.
  - apply NoDup_app. split_and!; [done|set_solver|apply NoDup_singleton].
  - apply topological_snoc; [done|]. intros b (p' & Hp' & Hb). simplify_eq. by apply Hall.
  - intros n [Hn|Hn%list_elem_of_singleton]%elem_of_app; subst; eauto.
  - intros n. destruct (decide (n = name)) as [->|Hne].
    + rewrite lookup_insert_eq, Em. done.
    + rewrite lookup_insert_ne by done. rewrite He1. by rewrite lookup_insert_ne.
  - by apply prefix_app_r.
  - set_solver.
Qed.

Lemma visit_all_sound ps fuel names st st' :
  visit_all ps fuel names st = inr st' → visit_inv ps st →
  visit_inv ps st' ∧ visit_extends st st' ∧ ∀ n, n ∈ names → n ∈ st'.2.
Proof.
  revert st. induction names as [|n names IH]; intros st; simpl.
  - intros [= <-] Hi. split_and!; [done|apply visit_extends_refl|by intros n ?%elem_of_nil].
  - destruct (visit ps fuel n st) as [e|s1] eqn:Ev; [done|]. intros Hall Hi.
    destruct (visit_sound _ _ _ _ _ Ev Hi) as (Hi1 & He1 & Hin).
    destruct (IH s1 Hall Hi1) as (Hi2 & He2 & Hrest).
    split_and!; [done|by eapply visit_extends_trans|].
    intros x [->|Hx]%elem_of_cons; [|by apply Hrest].
    destruct He2 as [_ [l Hl]]. rewrite Hl. apply elem_of_app. by left.
Qed.

(** The resolution reports only its own errors. *)
Lemma visit_no_init ps fuel name st n msg : visit ps fuel name st ≠ inl (ErrInit n msg).
Proof.
  revert name st. induction fuel as [|fuel IH]; intros name [visited ord]; simpl; [done|].
  destruct (visited !! name) as [[]|]; [done|done|]. destruct (ps !! name) as [p|]; [|done].
  assert (∀ deps st, visit_deps ps (visit ps fuel) name deps st ≠ inl (ErrInit n msg)) as Hd.
  { induction deps as [|dep deps IHd]; intros st; simpl; [done|]. destruct (ps !! dep); [|done].
    pose proof (IH dep st). destruct (visit ps fuel dep st); [congruence|apply IHd]. }
  pose proof (Hd (Dependencies p) (<[name:=false]> visited, ord)).
  destruct (visit_deps _ _ _ _ _) as [e|[]]; congruence.
Qed.

Lemma visit_all_no_init ps fuel names st n msg : visit_all ps fuel names st ≠ inl (ErrInit n msg).
Proof.
  revert st. induction names as [|x names IH]; intros st; simpl; [done|].
  pose proof (visit_no_init ps fuel x st n msg). destruct (visit ps fuel x st); [congruence|apply IH].
Qed.

Lemma visit_inv_initial ps : visit_inv ps (∅, []).
Proof.
  split; simpl.
  - intros n. rewrite lookup_empty, elem_of_nil. done.
  - constructor.
  - intros l1 a l2 Heq. by destruct l1.
  - by intros n ?%elem_of_nil.
Qed.

(** The providers not visited yet. *)
Definition unvisited_providers ps (m : marks) : list string :=
  bfilter (λ n, bool_decide (m !! n = None)) (List.map fst (map_to_list ps)).

Lemma unvisited_list_mono (l : list string) (m : marks) name b :
  (length (bfilter (λ n, bool_decide ((<[name := b]> m : marks) !! n = None)) l)
   ≤ length (bfilter (λ n, bool_decide (m !! n = None)) l))%nat.
Proof.
  unfold bfilter. induction l as [|n l IH]; [done|]. simpl.
  destruct (decide (n = name)) as [->|Hne].
  - rewrite lookup_insert_eq, bool_decide_false by done. case_bool_decide; simpl; lia.
  - rewrite lookup_insert_ne by done. case_bool_decide; simpl; lia.
Qed.

Lemma unvisited_mono ps (m m' : marks) :
  (∀ n, m' !! n = None → m !! n = None) →
  (length (unvisited_providers ps m') ≤ length (unvisited_providers ps m))%nat.
Proof.
  intros Hm. unfold unvisited_providers. induction (List.map fst (map_to_list ps)) as [|n l IH]; [done|].
  unfold bfilter in *. simpl. repeat case_bool_decide; simpl; try lia. naive_solver.
Qed.

Lemma unvisited_mark ps (m : marks) name b :
  is_Some (ps !! name) → m !! name = None →
  (length (unvisited_providers ps (<[name := b]> m)) < length (unvisited_providers ps m))%nat.
Proof.
  intros [p Hp] Hm. unfold unvisited_providers.
  assert (name ∈ List.map fst (map_to_list ps)) as Hin.
  { apply list_elem_of_fmap. exists (name, p). by rewrite elem_of_map_to_list. }
  apply list_elem_of_split in Hin as (l1 & l2 & ->). rewrite !bfilter_app, !length_app.
  pose proof (λ l : list string, unvisited_list_mono l m name b) as Hle.
  pose proof (Hle l1). pose proof (Hle l2). unfold bfilter in *. simpl.
  rewrite lookup_insert_eq, bool_decide_false, bool_decide_true by done. simpl. lia.
Qed.

Lemma unvisited_size ps m : (length (unvisited_providers ps m) ≤ size ps)%nat.
Proof.
  unfold unvisited_providers. etrans; [apply length_bfilter|]. rewrite length_map.
  by rewrite length_map_to_list.
Qed.

(** Marks are never taken back. *)
Lemma visit_marks ps st st' n :
  visit_inv ps st → visit_inv ps st' → visit_extends st st' → st'.1 !! n = None → st.1 !! n = None.
Proof.
  intros Hi Hi' [Hp [l Hl]] Hn. destruct (st.1 !! n) as [[]|] eqn:E; [| |done].
  - apply (inv_done _ _ Hi) in E. assert (n ∈ st'.2) as Hin by (rewrite Hl; set_solver).
    apply (inv_done _ _ Hi') in Hin. congruence.
  - apply Hp in E. congruence.
Qed.

(** Every provider in progress depends on [name]. *)
Definition in_progress_above ps (m : marks) name : Prop :=
  ∀ g, m !! g = Some false → tc (depends ps) g name.

Lemma visit_deps_complete ps fuel name deps st :
  deps_registered ps → (∀ dep, dep ∈ deps → depends ps name dep) →
  (∀ n s, visit_inv ps s → in_progress_above ps s.1 n → is_Some (ps !! n) →
     (length (unvisited_providers ps s.1) < fuel)%nat → is_inr (visit ps fuel n s) = true) →
  visit_inv ps st → (∀ g, st.1 !! g = Some false → rtc (depends ps) g name) →
  (length (unvisited_providers ps st.1) < fuel)%nat →
  is_inr (visit_deps ps (visit ps fuel) name deps st) = true.
Proof.
  intros Hreg Hdep Hv. revert st. induction deps as [|dep deps IH]; intros st Hi Hg Hf; simpl; [done|].
  assert (depends ps name dep) as Hd by (apply Hdep; left).
  destruct (Hreg _ _ Hd) as [p Hp]. rewrite Hp.
  assert (is_inr (visit ps fuel dep st) = true) as Hok.
  { apply Hv; [done| |by eexists|done]. intros g Hgg. eapply tc_rtc_l; [by apply Hg|by apply tc_once]. }
  destruct (visit ps fuel dep st) as [e|s1] eqn:Ev; [done|].
  destruct (visit_sound _ _ _ _ _ Ev Hi) as (Hi1 & He1 & _).
  apply IH; [by intros; apply Hdep; right|done| |].
  - intros g Hgg. apply Hg. by apply (ext_progress _ _ He1).
  - eapply Nat.le_lt_trans; [|exact Hf]. apply unvisited_mono. intros n. by apply (visit_marks ps).
Qed.

Lemma visit_complete ps fuel name st :
  acyclic (depends ps) → deps_registered ps →
  visit_inv ps st → in_progress_above ps st.1 name → is_Some (ps !! name) →
  (length (unvisited_providers ps st.1) < fuel)%nat → is_inr (visit ps fuel name st) = true.
Proof.
  intros Hac Hreg. revert name st. induction fuel as [|fuel IH]; intros name [visited ord] Hi Hg Hs Hf; [lia|].
  simpl in *. destruct (visited !! name) as [[]|] eqn:Em; [done| |].
  { by destruct (Hac name); apply Hg. }
  destruct Hs as [p Hp]. rewrite Hp.
  assert (is_inr (visit_deps ps (visit ps fuel) name (Dependencies p) (<[name:=false]> visited, ord)) = true) as Hok.
  { apply visit_deps_complete; [done|by intros; exists p|by apply IH| | |]; simpl.
    - destruct Hi as [H1 H2 H3 H4]. split; simpl in *; [|done..]. intros n.
      destruct (decide (n = name)) as [->|Hne]; [|by rewrite lookup_insert_ne].
      rewrite lookup_insert_eq, <-H1, Em. done.
    - intros g. destruct (decide (g = name)) as [->|Hne]; [intros; apply rtc_refl|].
      rewrite lookup_insert_ne by done. intros Hgg. by apply tc_rtc, Hg.
    - pose proof (unvisited_mark ps visited name false) as Hlt. specialize (Hlt (ex_intro _ p Hp) Em). lia. }
  by destruct (visit_deps _ _ _ _ _) as [e|[v' o']].
Qed.

Lemma visit_all_complete ps fuel names st :
  acyclic (depends ps) → deps_registered ps →
  visit_inv ps st → (∀ g, st.1 !! g ≠ Some false) → (∀ n, n ∈ names → is_Some (ps !! n)) →
  (length (unvisited_providers ps st.1) < fuel)%nat → is_inr (visit_all ps fuel names st) = true.
Proof.
  intros Hac Hreg. revert st. induction names as [|n names IH]; intros st Hi Hg Hn Hf; simpl; [done|].
  assert (is_inr (visit ps fuel n st) = true) as Hok.
  { apply visit_complete; [done..| |apply Hn; left|done]. intros g Hgg. by destruct (Hg g). }
  destruct (visit ps fuel n st) as [e|s1] eqn:Ev; [done|].
  destruct (visit_sound _ _ _ _ _ Ev Hi) as (Hi1 & He1 & _). apply IH; [done| |set_solver|].
  - intros g Hgg. apply (ext_progress _ _ He1) in Hgg. by destruct (Hg g).
  - eapply Nat.le_lt_trans; [|exact Hf]. apply unvisited_mono. intros x. by apply (visit_marks ps).
Qed.

(** A topological order has no room for a cycle. *)
Lemma topological_acyclic ps ord :
  topological ps ord → NoDup ord → (∀ n, is_Some (ps !! n) → n ∈ ord) → acyclic (depends ps).
Proof.
  intros Ht Hnd Hall.
  assert (∀ a b, tc (depends ps) a b → ∃ l1 l2, ord = l1 ++ a :: l2 ∧ b ∈ l1) as Htc.
  { induction 1 as [a b Hab|a b c Hab _ (l1 & l2 & Heq & Hc)].
    - assert (a ∈ ord) as (l1 & l2 & Heq)%list_elem_of_split.
      { apply Hall. destruct Hab as (p & Hp & _). by eexists. }
      exists l1, l2. split; [done|]. by eapply Ht.
    - assert (a ∈ ord) as (k1 & k2 & Heq')%list_elem_of_split.
      { apply Hall. destruct Hab as (p & Hp & _). by eexists. }
      exists k1, k2. split; [done|]. pose proof (Ht _ _ _ Heq' _ Hab) as Hb.
      apply list_elem_of_split in Hb as (j1 & j2 & ->).
      assert (ord = j1 ++ b :: (j2 ++ a :: k2)) as Heq'' by (rewrite Heq', <-app_assoc; done).
      rewrite Heq in Heq''. apply NoDup_app_cons_inj in Heq'' as [-> _]; [|by rewrite <-Heq].
      set_solver. }
  intros a Ha. apply Htc in Ha as (l1 & l2 & Heq & Hin). rewrite Heq in Hnd.
  apply NoDup_app in Hnd as (_ & Hnot & _). by apply (Hnot a Hin); left.
Qed.

End resolution.

(** * Theorems *)

Section claims.
Context {W : Type}.
Implicit Types (r : Registry W) (p : Provider W) (w : W).

(** [keys] lists the registered names, as ranging over the map does. *)
Definition ranges_over (keys : list string) r : Prop := ∀ n, n ∈ keys ↔ is_Some (providers r !! n).

(** The names and the order of the resolution. *)
Definition resolved r : Prop :=
  NoDup (order r) ∧ (∀ n, n ∈ order r ↔ is_Some (providers r !! n)) ∧
  topological (providers r) (order r).

Lemma ResolveDependencies_resolved keys r r' :
  ranges_over keys r → ResolveDependencies keys r = inr r' →
  resolved r' ∧ providers r' = providers r ∧ features r' = features r.
Proof.
  intros Hk. unfold ResolveDependencies. destruct (visit_all _ _ _ _) as [e|[m ord]] eqn:Ev; [done|].
  intros [= <-]. apply visit_all_sound in Ev as ([H1 H2 H3 H4] & _ & Hall); [|apply visit_inv_initial].
  split_and!; [|done|done]. split_and!; simpl in *; [done| |done].
  intros n. split; [apply H4|]. intros Hn. by apply Hall, Hk.
Qed.

Lemma ResolveDependencies_total keys r :
  ranges_over keys r → deps_registered (providers r) → acyclic (depends (providers r)) →
  is_inr (ResolveDependencies keys r) = true.
Proof.
  intros Hk Hreg Hac. unfold ResolveDependencies.
  pose proof (visit_all_complete (providers r) (S (size (providers r))) keys (∅, []) Hac Hreg
    (visit_inv_initial _)) as Hok.
  destruct (visit_all _ _ _ _) as [e|[m ord]]; [|done]. apply Hok; simpl.
  - intros g. by rewrite lookup_empty.
  - intros n. by apply Hk.
  - pose proof (unvisited_size (providers r) ∅). lia.
Qed.

(** C11: dependency resolution decides whether the providers can be ordered, and
    orders them.  For every order in which the provider map is iterated, it
    succeeds exactly when all declared dependencies are registered and the
    dependency graph has no cycle; then the order it stores lists every
    registered provider once, after all its dependencies. *)
Theorem ResolveDependencies_correct keys r :
  ranges_over keys r →
  (is_inr (ResolveDependencies keys r) = true ↔
     deps_registered (providers r) ∧ acyclic (depends (providers r))) ∧
  (∀ r', ResolveDependencies keys r = inr r' →
     NoDup (order r') ∧ (∀ n, n ∈ order r' ↔ is_Some (providers r !! n)) ∧
     (∀ l1 a l2, order r' = l1 ++ a :: l2 → ∀ b, depends (providers r) a b → b ∈ l1)).
Proof.
  intros Hk. split; [split|].
  - destruct (ResolveDependencies keys r) as [e|r'] eqn:E; [done|]. intros _.
    destruct (ResolveDependencies_resolved keys r r' Hk E) as ((Hnd & Hall & Ht) & Hp & _).
    rewrite Hp in *. split.
    + intros a b Hab. assert (a ∈ order r') as (l1 & l2 & Heq)%list_elem_of_split.
      { apply Hall. destruct Hab as (p & ? & _). by eexists. }
      apply Hall. rewrite Heq. apply elem_of_app. left. by eapply Ht.
    + eapply topological_acyclic; [done|done|]. intros n. apply Hall.
  - intros [Hreg Hac]. by apply ResolveDependencies_total.
  - intros r' E. destruct (ResolveDependencies_resolved keys r r' Hk E) as ((Hnd & Hall & Ht) & Hp & _).
    rewrite Hp in *. done.
Qed.

(** The providers named were initialized one after the other, without error. *)
Inductive inits (ps : gmap string (Provider W)) : list string → W → W → Prop :=
| inits_nil w : inits ps [] w w
| inits_cons n p names w w1 w' :
    ps !! n = Some p → Init p w = (None, w1) → inits ps names w1 w' → inits ps (n :: names) w w'.

Inductive shutdowns (ps : gmap string (Provider W)) : list string → W → W → Prop :=
| shutdowns_nil w : shutdowns ps [] w w
| shutdowns_cons n p names w w1 w' :
    ps !! n = Some p → Shutdown p w = (None, w1) → shutdowns ps names w1 w' →
    shutdowns ps (n :: names) w w'.

Lemma init_loop_spec ps names w :
  (∀ n, n ∈ names → is_Some (ps !! n)) →
  let '(err, w') := init_loop ps names w in
  match err with
  | None => inits ps names w w'
  | Some e => ∃ l1 n l2 p w1 msg, names = l1 ++ n :: l2 ∧ e = ErrInit n msg ∧ inits ps l1 w w1 ∧
                ps !! n = Some p ∧ Init p w1 = (Some msg, w')
  end.
Proof.
  revert w. induction names as [|n names IH]; intros w Hn; simpl; [constructor|].
  destruct (Hn n) as [p Hp]; [left|]. rewrite Hp. destruct (Init p w) as [[msg|] w1] eqn:Ei.
  - exists [], n, names, p, w, msg. split_and!; try done. constructor.
  - specialize (IH w1). destruct (init_loop ps names w1) as [[e|] w'].
    + destruct IH as (l1 & n' & l2 & p' & w2 & msg & -> & -> & Hl1 & Hp' & Hi); [set_solver|].
      exists (n :: l1), n', l2, p', w2, msg. split_and!; try done. by econstructor.
    + econstructor; [done|done|]. apply IH. set_solver.
Qed.

Lemma shutdown_loop_spec ps names w :
  (∀ n, n ∈ names → is_Some (ps !! n)) →
  let '(err, w') := shutdown_loop ps names w in
  match err with
  | None => shutdowns ps names w w'
  | Some e => ∃ l1 n l2 p w1 msg, names = l1 ++ n :: l2 ∧ e = ErrShutdown n msg ∧ shutdowns ps l1 w w1 ∧
                ps !! n = Some p ∧ Shutdown p w1 = (Some msg, w')
  end.
Proof.
  revert w. induction names as [|n names IH]; intros w Hn; simpl; [constructor|].
  destruct (Hn n) as [p Hp]; [left|]. rewrite Hp. destruct (Shutdown p w) as [[msg|] w1] eqn:Ei.
  - exists [], n, names, p, w, msg. split_and!; try done. constructor.
  - specialize (IH w1). destruct (shutdown_loop ps names w1) as [[e|] w'].
    + destruct IH as (l1 & n' & l2 & p' & w2 & msg & -> & -> & Hl1 & Hp' & Hi); [set_solver|].
      exists (n :: l1), n', l2, p', w2, msg. split_and!; try done. by econstructor.
    + econstructor; [done|done|]. apply IH. set_solver.
Qed.

(** The lifecycle follows the dependencies.  [InitAll] on a fresh registry
    initializes every provider once, each after all its dependencies, and stops
    at the first error, having initialized exactly the providers before it; a
    registry that cannot be resolved initializes nothing.  [ShutdownAll] then
    shuts the providers down in the reverse order, so each before its
    dependencies, and stops at the first error. *)
Theorem lifecycle_order keys r w :
  ranges_over keys r → order r = [] →
  let '(err, r', w') := InitAll keys r w in
  match err with
  | None => resolved r' ∧ providers r' = providers r ∧ inits (providers r) (order r') w w'
  | Some (ErrInit n msg) => resolved r' ∧
      ∃ l1 l2 p w1, order r' = l1 ++ n :: l2 ∧ inits (providers r) l1 w w1 ∧
        providers r !! n = Some p ∧ Init p w1 = (Some msg, w')
  | Some e => w' = w ∧ r' = r ∧ ResolveDependencies keys r = inl e
  end ∧
  (err = None → ∀ ws,
   let '(serr, ws') := ShutdownAll r' ws in
   match serr with
   | None => shutdowns (providers r) (rev (order r')) ws ws'
   | Some e => ∃ l1 n l2 p w1 msg, rev (order r') = l1 ++ n :: l2 ∧ e = ErrShutdown n msg ∧
       shutdowns (providers r) l1 ws w1 ∧ providers r !! n = Some p ∧ Shutdown p w1 = (Some msg, ws')
   end).
Proof.
  intros Hk Hord. unfold InitAll. rewrite Hord.
  destruct (ResolveDependencies keys r) as [e|r1] eqn:E.
  { split; [|done]. destruct e; try done.
    unfold ResolveDependencies in E. destruct (visit_all _ _ _ _) as [e|[m o]] eqn:Ev; [|done].
    injection E as ->. by apply visit_all_no_init in Ev. }
  destruct (ResolveDependencies_resolved keys r r1 Hk E) as (Hres & Hp & _).
  pose proof Hres as (_ & Hall & _). rewrite Hp in *.
  pose proof (init_loop_spec (providers r) (order r1) w (λ n, proj1 (Hall n))) as Hi.
  destruct (init_loop _ _ w) as [[e|] w'].
  - split; [|done]. destruct Hi as (l1 & n & l2 & p & w1 & msg & Heq & -> & Hl1 & Hpn & He).
    split; [done|]. exists l1, l2, p, w1. done.
  - split; [done|]. intros _ ws. unfold ShutdownAll. rewrite Hp.
    apply shutdown_loop_spec. intros n Hn. apply Hall.
    by apply list_elem_of_In, in_rev, list_elem_of_In.
Qed.

(** * Registration *)

(** Every feature belongs to a registered provider that declares it. *)
Definition features_ok r : Prop :=
  ∀ f n, features r !! f = Some n → ∃ p, providers r !! n = Some p ∧ f ∈ Features p.

Lemma register_features_spec name fs m :
  let '(err, m') := register_features name fs m in
  (∀ f n, m' !! f = Some n → m !! f = Some n ∨ n = name ∧ f ∈ fs) ∧
  (∀ f n, m !! f = Some n → m' !! f = Some n) ∧
  match err with
  | None => ∀ f, f ∈ fs → m' !! f = Some name
  | Some e => ∃ f existing, f ∈ fs ∧ m' !! f = Some existing ∧ e = ErrFeatureProvided f existing name
  end.
Proof.
  revert m. induction fs as [|f fs IH]; intros m; simpl.
  - split_and!; [auto|done|by intros f ?%elem_of_nil].
  - destruct (m !! f) as [existing|] eqn:Ef.
    + split_and!; [auto|done|]. exists f, existing. split_and!; [left|done|done].
    + specialize (IH (<[f:=name]> m)). destruct (register_features name fs _) as [err m'].
      destruct IH as (H1 & H2 & H3). split_and!.
      * intros g n Hg. destruct (H1 g n Hg) as [Hi|[-> Hin]]; [|right; split; [done|by right]].
        apply lookup_insert_Some in Hi as [[<- <-]|[_ Hi]]; [right; split; [done|left]|by left].
      * intros g n Hg. apply H2. rewrite lookup_insert_ne; [done|]. congruence.
      * destruct err as [e|].
        -- destruct H3 as (g & ex & Hg & Hm & He). exists g, ex. split_and!; [by right|done|done].
        -- intros g [->|Hg]%elem_of_cons; [|by apply H3]. apply H2. apply lookup_insert_eq.
Qed.

(** Registration keeps the feature map consistent.  From a consistent
    registry every call of [Register], failed or not, leads to a consistent one,
    where the provider a feature lookup returns is registered and declares the
    feature; no existing provider or feature is lost or taken over; a call that
    returns no error has registered the provider under its name and all its
    features. *)
Theorem Register_consistent p r :
  features_ok r →
  let '(err, r') := Register p r in
  features_ok r' ∧
  (∀ f po, FeatureProvider f r' = Some po → ∃ q, po = Some q ∧ f ∈ Features q) ∧
  (∀ n q, providers r !! n = Some q → providers r' !! n = Some q) ∧
  (∀ f n, features r !! f = Some n → features r' !! f = Some n) ∧
  (err = None → GetProvider (PName p) r' = Some p ∧
     ∀ f, f ∈ Features p → FeatureProvider f r' = Some (Some p)).
Proof.
  intros Hok. unfold Register.
  assert (∀ r, features_ok r → ∀ f po, FeatureProvider f r = Some po → ∃ q, po = Some q ∧ f ∈ Features q) as Hlook.
  { intros r0 Hr0 f po. unfold FeatureProvider. destruct (features r0 !! f) as [n|] eqn:E; [|done].
    intros [= <-]. destruct (Hr0 f n E) as (q & Hq & Hf). eauto. }
  destruct (providers r !! PName p) as [q|] eqn:Ep.
  { split_and!; [done|by apply Hlook|done|done|done]. }
  pose proof (register_features_spec (PName p) (Features p) (features r)) as Hf.
  destruct (register_features _ _ _) as [err m]. destruct Hf as (H1 & H2 & H3).
  assert (features_ok (MkRegistry (<[PName p:=p]> (providers r)) m (order r))) as Hok'.
  { intros f n Hm. simpl in *. destruct (H1 f n Hm) as [Hold|[-> Hin]].
    - destruct (Hok f n Hold) as (q & Hq & Hin). exists q. split; [|done].
      rewrite lookup_insert_ne; [done|]. congruence.
    - exists p. split; [apply lookup_insert_eq|done]. }
  split_and!; [done|by apply Hlook| |done|].
  - intros n q Hn. simpl. rewrite lookup_insert_ne; [done|]. congruence.
  - intros ->. unfold GetProvider, FeatureProvider. simpl. rewrite lookup_insert_eq.
    split; [done|]. intros f Hin. rewrite (H3 f Hin), lookup_insert_eq. done.
Qed.

(** A registration that fails because of a feature conflict is not undone:
    the provider stays registered under its name (and is resolved, initialized
    and served), although [Register] returned an error. *)
Theorem Register_conflict_keeps p r f existing :
  (Register p r).1 = Some (ErrFeatureProvided f existing (PName p)) →
  GetProvider (PName p) (Register p r).2 = Some p.
Proof.
  unfold Register. destruct (providers r !! PName p) as [q|]; [done|].
  destruct (register_features _ _ _) as [err m]. intros _. apply lookup_insert_eq.
Qed.

End claims.

(** * Witnesses: three providers that log their lifecycle *)

Definition logger (name : string) (deps fs : list string) : Provider (list string) :=
  MkProvider name "1" fs deps (λ w, (None, w ++ [name])) (λ w, (None, w ++ ["-" +:+ name]%string))
    true false false false.

Definition demo : Registry (list string) :=
  (Register (logger "c" ["a"; "b"] ["fc"])
    (Register (logger "b" ["a"] ["fb"]) (Register (logger "a" [] ["fa"]) NewRegistry).2).2).2.

(** The entries of a map, as a list that evaluates. *)
Lemma lookup_entries {A} (m : gmap string A) n x : m !! n = Some x → n ∈ (map_to_list m).*1.
Proof. intros Hn. apply list_elem_of_fmap. exists (n, x). by rewrite elem_of_map_to_list. Qed.

Lemma demo_ranges : ranges_over ["c"; "b"; "a"] demo.
Proof.
  intros n. split.
  - intros Hn. set_unfold. destruct Hn as [->|[->|[->|[]]]]; vm_compute; eauto.
  - intros [p Hp%lookup_entries]. vm_compute in Hp. set_solver.
Qed.

Lemma ResolveDependencies_correct_witness :
  ∃ r', ResolveDependencies ["c"; "b"; "a"] demo = inr r' ∧ order r' = ["a"; "b"; "c"] ∧
        NoDup (order r') ∧ acyclic (depends (providers demo)).
Proof.
  destruct (ResolveDependencies_correct ["c"; "b"; "a"] demo demo_ranges) as [Hiff Hsound].
  destruct (ResolveDependencies ["c"; "b"; "a"] demo) as [e|r'] eqn:E; [vm_compute in E; discriminate|].
  exists r'. split_and!; [reflexivity|vm_compute in E; by injection E as <-|by apply Hsound|by apply Hiff].
Defined.

Lemma lifecycle_order_witness :
  (InitAll ["c"; "b"; "a"] demo []).2 = ["a"; "b"; "c"] ∧
  (InitAll ["c"; "b"; "a"] demo []).1.1 = None ∧
  inits (providers demo) ["a"; "b"; "c"] [] ["a"; "b"; "c"].
Proof.
  split; [vm_compute; reflexivity|]. split; [vm_compute; reflexivity|].
  pose proof (lifecycle_order ["c"; "b"; "a"] demo [] demo_ranges eq_refl) as Hl.
  destruct (InitAll ["c"; "b"; "a"] demo []) as [[err r'] w'] eqn:E.
  assert (err = None ∧ order r' = ["a"; "b"; "c"] ∧ w' = ["a"; "b"; "c"]) as (-> & Ho & ->).
  { vm_compute in E. by injection E as <- <- <-. }
  destruct Hl as [(_ & _ & Hi) _]. by rewrite Ho in Hi.
Defined.

Lemma Register_consistent_witness :
  (Register (logger "d" [] ["fd"]) demo).1 = None ∧
  FeatureProvider "fd" (Register (logger "d" [] ["fd"]) demo).2 = Some (Some (logger "d" [] ["fd"])).
Proof.
  assert (features_ok demo) as Hok.
  { intros f n Hf. apply elem_of_map_to_list in Hf. vm_compute in Hf. set_unfold.
    destruct Hf as [[= -> ->]|[[= -> ->]|[[= -> ->]|[]]]];
      (eexists; split; [vm_compute; reflexivity|simpl; set_solver]). }
  pose proof (Register_consistent (logger "d" [] ["fd"]) demo Hok) as Hr.
  destruct (Register (logger "d" [] ["fd"]) demo) as [err r'] eqn:E.
  assert (err = None) as -> by (vm_compute in E; by injection E as <- <-).
  destruct Hr as (_ & _ & _ & _ & Hn). split; [done|]. apply Hn; [done|]. simpl. set_solver.
Defined.

Lemma Register_conflict_keeps_witness :
  GetProvider "d" (Register (logger "d" [] ["fa"]) demo).2 = Some (logger "d" [] ["fa"]).
Proof.
  apply (Register_conflict_keeps (logger "d" [] ["fa"]) demo "fa" "a"). vm_compute. reflexivity.
Defined.
