(* ===== verification/Hooks.v ===== *)
(** Hooks, reactions and resource references (src/provider/hooks.go,
    src/provider/refs.go) and deployment profiles (src/provider/profiles.go). *)

From S2P Require Import Prelude GoStrings Resource Gorm.
From Stdlib Require Import Ascii.

(** * Data

    Payloads are of type [P]; hooks act on the world [W]. *)

Record SyncHook (P W : Type) := MkSyncHook {
  h_Feature : string;
  h_Event : string;
  Handler : P → W → option string * W;
}.
Arguments MkSyncHook {P W} _ _ _.
Arguments h_Feature {P W} _.
Arguments h_Event {P W} _.
Arguments Handler {P W} _ _ _.

(** A callback ends, or panics with a message. *)
Record Reaction (P W : Type) := MkReaction {
  r_Feature : string;
  r_Event : string;
  Callback : P → W → option string * W;
}.
Arguments MkReaction {P W} _ _ _.
Arguments r_Feature {P W} _.
Arguments r_Event {P W} _.
Arguments Callback {P W} _ _ _.

Record hookRegistry (P W : Type) := MkHooks {
  hooks : gmap string (list (SyncHook P W));
  reactions : gmap string (list (Reaction P W));
}.
Arguments MkHooks {P W} _ _.
Arguments hooks {P W} _.
Arguments reactions {P W} _.

Definition hookKey (feature event : string) : string := feature +:+ ":" +:+ event.

(** [fmt.Errorf("hook %s:%s failed: %w", feature, event, err)] *)
Record hookErr := MkHookErr { he_feature : string; he_event : string; he_cause : string }.

Section hooks.
Context {P W : Type}.
Implicit Types (hr : hookRegistry P W).

Definition newHookRegistry : hookRegistry P W := MkHooks ∅ ∅.

Definition RegisterHook (hook : SyncHook P W) hr : hookRegistry P W :=
  let key := hookKey (h_Feature hook) (h_Event hook) in
  MkHooks (<[key := default [] (hooks hr !! key) ++ [hook]]> (hooks hr)) (reactions hr).

Definition RegisterReaction (reaction : Reaction P W) hr : hookRegistry P W :=
  let key := hookKey (r_Feature reaction) (r_Event reaction) in
  MkHooks (hooks hr) (<[key := default [] (reactions hr !! key) ++ [reaction]]> (reactions hr)).

Definition RegisterReactionFunc (feature event : string) (callback : P → W → option string * W) hr :=
  RegisterReaction (MkReaction feature event callback) hr.

Fixpoint fire_loop (feature event : string) (hs : list (SyncHook P W)) (payload : P) (w : W)
  : option hookErr * W :=
  match hs with
  | [] => (None, w)
  | hook :: hs =>
      match Handler hook payload w with
      | (Some e, w) => (Some (MkHookErr feature event e), w)
      | (None, w) => fire_loop feature event hs payload w
      end
  end.

(** A nil [HookRunner] is [None]. *)
Definition FireSync (hr : option (hookRegistry P W)) (feature event : string) (payload : P) (w : W)
  : option hookErr * W :=
  match hr with
  | None => (None, w)
  | Some hr => fire_loop feature event (default [] (hooks hr !! hookKey feature event)) payload w
  end.

(** The goroutines [FireAsync] starts: what each runs, and the log line it
    writes when its callback panics. *)
Record job := MkJob { j_run : W → option string * W; j_panic_log : string → string * string * string }.

Definition FireAsync (hr : option (hookRegistry P W)) (feature event : string) (payload : P) : list job :=
  match hr with
  | None => []
  | Some hr =>
      List.map (λ r, MkJob (Callback r payload) (λ rec, (r_Feature r, r_Event r, rec)))
        (default [] (reactions hr !! hookKey feature event))
  end.

End hooks.

(** * References *)

Inductive refErr :=
| ErrRefRequired (field : string)
| ErrRefCheck (field : string) (e : dberr)
| ErrRefNotFound (target name field : string).

Record ResourceRef (P : Type) := MkRef {
  Source : string;
  RefField : string;
  Target : string;
  Table : string;
  Required : bool;
  Extract : option (P → uuid * string);
}.
Arguments MkRef {P} _ _ _ _ _ _.
Arguments Source {P} _.
Arguments RefField {P} _.
Arguments Target {P} _.
Arguments Table {P} _.
Arguments Required {P} _.
Arguments Extract {P} _.

Section refs.
Context {P W : Type}.

(** [count table orgID name] is the COUNT of the rows of the table with this key
    and no deletion mark; [show] renders an error. *)
Context (count : W → string → uuid → string → dberr + Z) (show : refErr → string).

Definition refValidator (ref : ResourceRef P) (payload : P) (w : W) : option refErr :=
  match Extract ref with
  | None => None
  | Some extract =>
      let '(orgID, refName) := extract payload in
      if String.eqb refName "" then
        if Required ref then Some (ErrRefRequired (RefField ref)) else None
      else
        match count w (Table ref) orgID refName with
        | inl e => Some (ErrRefCheck (RefField ref) e)
        | inr n => if n =? 0 then Some (ErrRefNotFound (Target ref) refName (RefField ref)) else None
        end
  end.

Definition makeRefValidator (ref : ResourceRef P) (payload : P) (w : W) : option string * W :=
  (show <$> refValidator ref payload w, w).

(** The registry of references next to the hooks. *)
Definition RegisterRef (ref : ResourceRef P) (st : list (ResourceRef P) * hookRegistry P W)
  : list (ResourceRef P) * hookRegistry P W :=
  (st.1 ++ [ref], RegisterHook (MkSyncHook (Source ref) "pre_create" (makeRefValidator ref)) st.2).

End refs.

(** * Profiles *)

Definition ProfileDefault : string := "default".

Definition RegisterProfileProviders {F} (profile : string) (factories : list F)
    (m : gmap string (list F)) : gmap string (list F) := <[profile := factories]> m.

(** [env] is the value of INFRACTL_PROFILE, empty when unset. *)
Definition GetProfile (env : string) : string :=
  if String.eqb env "" then ProfileDefault else env.

Definition GetProfileProviders {F} (profile : string) (m : gmap string (list F)) : list F :=
  default [] (m !! profile).

(** * Properties *)

Section props.
Context {P W : Type}.
Implicit Types (hr : hookRegistry P W) (hs : list (SyncHook P W)).

Lemma hookKey_inj f e f' e' :
  lacks ":"%char f = true → lacks ":"%char f' = true → hookKey f e = hookKey f' e' → f = f' ∧ e = e'.
Proof. apply sep_inj. Qed.

Definition registered (feature event : string) (h : SyncHook P W) : bool :=
  String.eqb (h_Feature h) feature && String.eqb (h_Event h) event.

Lemma hookKey_registered f e (h : SyncHook P W) :
  lacks ":"%char f = true → lacks ":"%char (h_Feature h) = true →
  bool_decide (hookKey (h_Feature h) (h_Event h) = hookKey f e) = registered f e h.
Proof.
  intros Hf Hh. unfold registered. case_bool_decide as Hk.
  - apply hookKey_inj in Hk as [-> ->]; [|done|done]. by rewrite !String.eqb_refl.
  - destruct (String.eqb_spec (h_Feature h) f), (String.eqb_spec (h_Event h) e); try done. congruence.
Qed.

(** The hooks stored under a key are those registered with it, in order. *)
Lemma hooks_by_key hs hr k :
  default [] (hooks (foldl (λ hr h, RegisterHook h hr) hr hs) !! k) =
  default [] (hooks hr !! k) ++ bfilter (λ h, bool_decide (hookKey (h_Feature h) (h_Event h) = k)) hs.
Proof.
  revert hr. induction hs as [|h hs IH]; intros hr; simpl; [by rewrite app_nil_r|].
  rewrite IH. unfold bfilter. simpl.
  case_bool_decide as Hk.
  - rewrite Hk, lookup_insert_eq. simpl. by rewrite <-app_assoc.
  - by rewrite lookup_insert_ne.
Qed.

Lemma registered_hooks hs f e :
  lacks ":"%char f = true → Forall (λ h, lacks ":"%char (h_Feature h) = true) hs →
  default [] (hooks (foldl (λ hr h, RegisterHook h hr) newHookRegistry hs) !! hookKey f e) =
  bfilter (registered f e) hs.
Proof.
  intros Hf Hhs. rewrite hooks_by_key. unfold newHookRegistry. simpl. rewrite lookup_empty. simpl.
  apply bfilter_ext. intros h Hh. apply hookKey_registered; [done|]. by eapply Forall_forall in Hhs.
Qed.

(** Firing an event runs exactly the hooks registered for the feature and the
    event, in registration order, and stops at the first that fails: the error
    names the feature and event and carries the hook's error, and no later hook
    runs.  (Feature names without the separator.) *)
Theorem FireSync_registered hs f e payload w :
  lacks ":"%char f = true → Forall (λ h, lacks ":"%char (h_Feature h) = true) hs →
  let hr := foldl (λ hr h, RegisterHook h hr) newHookRegistry hs in
  let mine := bfilter (registered f e) hs in
  ∃ ran rest, mine = ran ++ rest ∧
  match FireSync (Some hr) f e payload w with
  | (None, w') => rest = [] ∧ w' = foldl (λ w h, (Handler h payload w).2) w ran
  | (Some err, w') => ∃ ran' h, ran = ran' ++ [h] ∧ he_feature err = f ∧ he_event err = e ∧
      Handler h payload (foldl (λ w h, (Handler h payload w).2) w ran') = (Some (he_cause err), w')
  end.
Proof.
  intros Hf Hhs. cbv zeta. unfold FireSync. rewrite registered_hooks by done. clear Hhs.
  revert w. induction (bfilter (registered f e) hs) as [|h l IH]; intros w; simpl.
  { by exists [], []. }
  destruct (Handler h payload w) as [[err|] w1] eqn:Eh.
  - exists [h], l. split; [done|]. exists [], h. done.
  - destruct (IH w1) as (ran & rest & -> & Hrun). exists (h :: ran), rest. split; [done|].
    destruct (fire_loop f e (ran ++ rest) payload w1) as [[er|] w2]; simpl.
    + destruct Hrun as (ran' & h' & -> & H1 & H2 & H3). exists (h :: ran'), h'. simpl. by rewrite Eh.
    + by rewrite Eh.
Qed.

(** The key of a hook is the feature and the event joined by a colon, so a
    feature name with a colon shares its key with another pair, and firing one
    event runs the hooks of the other. *)
Theorem hooks_cross_talk (h : SyncHook P W) payload w msg w' :
  h_Feature h = "a:b" → h_Event h = "c" → Handler h payload w = (Some msg, w') →
  FireSync (Some (RegisterHook h newHookRegistry)) "a" "b:c" payload w = (Some (MkHookErr "a" "b:c" msg), w').
Proof.
  intros Hf He Hh. unfold FireSync, RegisterHook. simpl. rewrite Hf, He.
  unfold hookKey, newHookRegistry. simpl. rewrite lookup_insert_eq, lookup_empty. simpl. by rewrite Hh.
Qed.

Context (count : W → string → uuid → string → dberr + Z) (show : refErr → string).

Lemma RegisterRef_hooks (refs : list (ResourceRef P)) st :
  (foldl (λ st ref, RegisterRef count show ref st) st refs).2 =
  foldl (λ hr h, RegisterHook h hr) st.2
    (List.map (λ ref, MkSyncHook (Source ref) "pre_create" (makeRefValidator count show ref)) refs).
Proof. revert st. induction refs as [|ref refs IH]; intros st; simpl; [done|]. by rewrite IH. Qed.


End props.

(** * Witnesses *)

Definition log_hook (f e msg : string) (fail : bool) : SyncHook string (list string) :=
  MkSyncHook f e (λ payload w, (if fail then Some msg else None, w ++ [msg])).

Example FireSync_ex :
  let hs := [log_hook "vm" "create" "one" false; log_hook "net" "create" "two" false;
             log_hook "vm" "create" "three" true; log_hook "vm" "create" "four" false] in
  FireSync (Some (foldl (λ hr h, RegisterHook h hr) newHookRegistry hs)) "vm" "create" "p" [] =
  (Some (MkHookErr "vm" "create" "three"), ["one"; "three"]).
Proof. vm_compute. reflexivity. Qed.

Lemma hooks_cross_talk_witness :
  FireSync (Some (RegisterHook (log_hook "a:b" "c" "no" true) newHookRegistry)) "a" "b:c" "p" [] =
  (Some (MkHookErr "a" "b:c" "no"), ["no"]).
Proof. apply (hooks_cross_talk (log_hook "a:b" "c" "no" true) "p" [] "no" ["no"]); reflexivity. Defined.

