(* ===== verification/Dispatch.v ===== *)
(** Workflow dispatch (src/workflow): the dispatch table, the executor interface
    with its in-process implementation, the dispatcher with its tracking of runs,
    and the status callback. *)

From S2P Require Import Prelude GoStrings Resource Hooks.
From Stdlib Require Import Ascii.

(** * Handlers (action.go) *)

Inductive HPhase := PhasePre | PhaseMain | PhasePost | PhaseOther (s : string).

#[global] Instance HPhase_eq_dec : EqDecision HPhase.
Proof. solve_decision. Defined.

Record Handler := MkHandler {
  ResourceType : string;
  Event : string;
  HandlerPhase : HPhase;
  Priority : Z;
  Ref : string;
  Metadata : gmap string string;
}.

#[global] Instance Handler_eq_dec : EqDecision Handler.
Proof. solve_decision. Defined.

Definition phaseOrder (p : HPhase) : Z :=
  match p with PhasePre => 0 | PhaseMain => 1 | PhasePost => 2 | PhaseOther _ => 3 end.

(** * The dispatch table (dispatch.go) *)

Abbreviation DispatchTable := (gmap string (list Handler)).

Definition NewDispatchTable : DispatchTable := ∅.

Definition dispatchKey (resourceType event : string) : string := resourceType +:+ "." +:+ event.

Definition RegisterHandler (h : Handler) (t : DispatchTable) : DispatchTable :=
  let key := dispatchKey (ResourceType h) (Event h) in
  <[key := default [] (t !! key) ++ [h]]> t.

(** The comparison function given to [sort.Slice]. *)
Definition handler_less (a b : Handler) : bool :=
  let pa := phaseOrder (HandlerPhase a) in
  let pb := phaseOrder (HandlerPhase b) in
  if negb (pa =? pb) then pa <? pb else Priority a <? Priority b.

(** [sort.Slice] sorts in place and is not stable: it returns some permutation
    in which no element is less than one before it. *)
Class SortSlice := {
  sort_slice : list Handler → list Handler;
  sort_slice_perm : ∀ l, sort_slice l ≡ₚ l;
  sort_slice_sorted : ∀ l, StronglySorted (λ a b, handler_less b a = false) (sort_slice l);
}.

Definition Lookup `{SortSlice} (t : DispatchTable) (resourceType event : string) : list Handler :=
  sort_slice (default [] (t !! dispatchKey resourceType event)).

(** [sort.Strings] on the distinct types. *)
Definition ResourceTypes (t : DispatchTable) : list string :=
  let seen : gset string := list_to_set (List.map ResourceType (concat (List.map snd (map_to_list t)))) in
  merge_sort (λ a b, Is_true (String.leb a b)) (elements seen).

(** * Executors (executor.go) *)

Inductive RunStatus := RunPending | RunRunning | RunCompleted | RunFailed.

#[global] Instance RunStatus_eq_dec : EqDecision RunStatus.
Proof. solve_decision. Defined.

Definition terminal (s : RunStatus) : bool :=
  match s with RunCompleted | RunFailed => true | _ => false end.

Record Run (V : Type) := MkRun {
  ID : string;
  Status : RunStatus;
  Outputs : option (gmap string V);
  RunError : string;
}.
Arguments MkRun {V} _ _ _ _.
Arguments ID {V} _.
Arguments Status {V} _.
Arguments Outputs {V} _.
Arguments RunError {V} _.

Class Executor (V E : Type) := {
  Submit : Handler → gmap string V → E → (string + Run V) * E;
  Poll : string → E → (string + Run V) * E;
  Cancel : string → E → option string * E;
}.

Record TrackedRun := MkTracked {
  RunID : string;
  tr_ResourceType : string;
  tr_OrgID : uuid;
  tr_Name : string;
  tr_Event : string;
  SubmittedAt : Time;
}.

(** * The in-process executor (local.go)

    [fresh] is [uuid.New().String()], read from a supply. *)

Record LocalExecutor (V : Type) := MkLocal {
  funcs : gmap string (gmap string V → string + gmap string V);
  fresh : list string;
}.
Arguments MkLocal {V} _ _.
Arguments funcs {V} _.
Arguments fresh {V} _.

Section local.
Context {V : Type}.

Definition LocalRegister (ref : string) (fn : gmap string V → string + gmap string V)
    (e : LocalExecutor V) : LocalExecutor V := MkLocal (<[ref := fn]> (funcs e)) (fresh e).

Definition LocalSubmit (handler : Handler) (input : gmap string V) (e : LocalExecutor V)
  : (string + Run V) * LocalExecutor V :=
  match funcs e !! Ref handler with
  | None => (inl ("local executor: no function registered for ref " +:+ Ref handler), e)
  | Some fn =>
      let id := hd "" (fresh e) in
      let e := MkLocal (funcs e) (tl (fresh e)) in
      match fn input with
      | inl err => (inr (MkRun id RunFailed None err), e)
      | inr outputs => (inr (MkRun id RunCompleted (Some outputs) ""), e)
      end
  end.

#[global] Instance LocalExecutor_Executor : Executor V (LocalExecutor V) := {
  Submit := LocalSubmit;
  Poll := λ _ e, (inl "local executor: poll not supported (execution is synchronous)", e);
  Cancel := λ _ e, (None, e);
}.

End local.

(** * The dispatcher (dispatcher.go) *)

Inductive dispatchErr :=
| ErrPreSubmit (ref err : string)
| ErrPreRejected (ref err : string)
| ErrMainSubmit (ref err : string).

Record DispatchOpts := MkOpts { OptOrgID : uuid; OptName : string }.

Section dispatcher.
Context `{SortSlice} {V E : Type} `{!Executor V E}.
Implicit Types (tracked : gmap string TrackedRun) (input : gmap string V).

Definition mergeInputs (base overlay : gmap string V) : gmap string V := overlay ∪ base.

Fixpoint pre_loop (handlers : list Handler) input (e : E) : option dispatchErr * E :=
  match handlers with
  | [] => (None, e)
  | h :: handlers =>
      if negb (bool_decide (HandlerPhase h = PhasePre)) then pre_loop handlers input e
      else
        match Submit h input e with
        | (inl err, e) => (Some (ErrPreSubmit (Ref h) err), e)
        | (inr run, e) =>
            if bool_decide (Status run = RunFailed) then (Some (ErrPreRejected (Ref h) (RunError run)), e)
            else pre_loop handlers input e
        end
  end.

(** The main loop: the first main-phase handler, then [break]. *)
Fixpoint main_loop (now : Time) (resourceType event : string) (opts : option DispatchOpts)
    (handlers : list Handler) input (e : E) tracked
  : (dispatchErr + option (Run V)) * E * gmap string TrackedRun :=
  match handlers with
  | [] => (inr None, e, tracked)
  | h :: handlers =>
      if negb (bool_decide (HandlerPhase h = PhaseMain))
      then main_loop now resourceType event opts handlers input e tracked
      else
        match Submit h input e with
        | (inl err, e) => (inl (ErrMainSubmit (Ref h) err), e, tracked)
        | (inr run, e) =>
            let tracked :=
              if negb (terminal (Status run)) then
                match opts with
                | Some o => <[ID run := MkTracked (ID run) resourceType (OptOrgID o) (OptName o) event now]> tracked
                | None => tracked
                end
              else tracked in
            (inr (Some run), e, tracked)
        end
  end.

Fixpoint post_loop (mainRun : option (Run V)) (handlers : list Handler) input (e : E) : E :=
  match handlers with
  | [] => e
  | h :: handlers =>
      if negb (bool_decide (HandlerPhase h = PhasePost)) then post_loop mainRun handlers input e
      else
        let postInput :=
          match mainRun with
          | Some run => match Outputs run with Some outputs => mergeInputs input outputs | None => input end
          | None => input
          end in
        let '(_, e) := Submit h postInput e in
        post_loop mainRun handlers input e
  end.

Definition Dispatch (now : Time) (t : DispatchTable) (resourceType event : string) input
    (opts : option DispatchOpts) (e : E) tracked
  : (dispatchErr + option (Run V)) * E * gmap string TrackedRun :=
  let handlers := Lookup t resourceType event in
  match handlers with
  | [] => (inr None, e, tracked)
  | _ =>
      match pre_loop handlers input e with
      | (Some err, e) => (inl err, e, tracked)
      | (None, e) =>
          match main_loop now resourceType event opts handlers input e tracked with
          | (inl err, e, tracked) => (inl err, e, tracked)
          | (inr mainRun, e, tracked) => (inr mainRun, post_loop mainRun handlers input e, tracked)
          end
      end
  end.

Definition InFlightCount tracked : Z := Z.of_nat (size tracked).

(** The loop of [pollOnce]; [runs] is the snapshot of the tracked runs, in the
    order in which Go iterates over the map, and [S] the state the status
    callback acts on. *)
Fixpoint poll_loop {S : Type} (callback : option (TrackedRun → Run V → S → option string * S))
    (runs : list TrackedRun) (e : E) tracked (s : S) : E * gmap string TrackedRun * S :=
  match runs with
  | [] => (e, tracked, s)
  | tr :: runs =>
      match Poll (RunID tr) e with
      | (inl _, e) => poll_loop callback runs e tracked s
      | (inr run, e) =>
          if negb (terminal (Status run)) then poll_loop callback runs e tracked s
          else
            let s := match callback with Some cb => (cb tr run s).2 | None => s end in
            poll_loop callback runs e (delete (RunID tr) tracked) s
      end
  end.

Definition pollOnce {S : Type} (callback : option (TrackedRun → Run V → S → option string * S))
    (runs : list TrackedRun) (e : E) tracked (s : S) : E * gmap string TrackedRun * S :=
  poll_loop callback runs e tracked s.

(** * Hook registration

    A payload is a resource with an organization and a name, a JSON object, or
    something else.  [parse_uuid] is [uuid.Parse], with the zero UUID for an
    error. *)

Inductive payload :=
| PResource (orgID : uuid) (name : string)
| PMap (m : gmap string V)
| POther.

Context (as_string : V → option string) (parse_uuid : string → uuid) (wrap : payload → V).

Definition extractDispatchOpts (p : payload) : DispatchOpts :=
  match p with
  | PResource orgID name => MkOpts orgID name
  | PMap m =>
      MkOpts (match m !! "org_id" ≫= as_string with Some s => parse_uuid s | None => 0%N end)
             (match m !! "name" ≫= as_string with Some s => s | None => "" end)
  | POther => MkOpts 0%N ""
  end.

(** The reaction of a resource type to an event: dispatch, logging the error. *)
Definition reaction (now : Time) (t : DispatchTable) (resourceType event : string) (p : payload)
    (w : E * gmap string TrackedRun) : option string * (E * gmap string TrackedRun) :=
  let input := {[ "resource" := wrap p ]} in
  let '(_, e, tracked) := Dispatch now t resourceType event input (Some (extractDispatchOpts p)) w.1 w.2 in
  (None, (e, tracked)).

Fixpoint register_types (now : Time) (t : DispatchTable) (types : list string)
    (hr : hookRegistry payload (E * gmap string TrackedRun)) :=
  match types with
  | [] => hr
  | rt :: types =>
      let hr := match Lookup t rt "create" with
                | [] => hr
                | _ => RegisterReactionFunc rt "post_create" (reaction now t rt "create") hr
                end in
      let hr := match Lookup t rt "delete" with
                | [] => hr
                | _ => RegisterReactionFunc rt "post_delete" (reaction now t rt "delete") hr
                end in
      register_types now t types hr
  end.

Definition RegisterHooks (now : Time) (t : DispatchTable)
    (hr : hookRegistry payload (E * gmap string TrackedRun)) :=
  register_types now t (ResourceTypes t) hr.

End dispatcher.

(** * The status callback (store_registry.go) *)

Section callback.
Context {V S : Type}.

Abbreviation updater := (uuid → string → gmap string string → S → option string * S).
Abbreviation StoreRegistry := (gmap string updater).

Definition NewStoreRegistry : StoreRegistry := ∅.
Definition RegisterStore (resourceType : string) (u : updater) (r : StoreRegistry) : StoreRegistry :=
  <[resourceType := u]> r.
Definition LookupStore (resourceType : string) (r : StoreRegistry) : option updater := r !! resourceType.

Definition MakeStatusCallback (r : StoreRegistry) (tracked : TrackedRun) (run : Run V) (s : S)
  : option string * S :=
  match LookupStore (tr_ResourceType tracked) r with
  | None => (Some ("no store registered for resource type " +:+ tr_ResourceType tracked), s)
  | Some u =>
      let '(phase, message) :=
        if bool_decide (Status run = RunFailed) then ("Failed", RunError run) else ("Ready", "") in
      u (tr_OrgID tracked) (tr_Name tracked) (<["phase" := phase]> {["message" := message]}) s
  end.

End callback.

(** * The table *)

Lemma dispatchKey_inj a b a' b' :
  lacks "."%char a = true → lacks "."%char a' = true →
  dispatchKey a b = dispatchKey a' b' → a = a' ∧ b = b'.
Proof. apply sep_inj. Qed.

Definition handles (resourceType event : string) (h : Handler) : bool :=
  String.eqb (ResourceType h) resourceType && String.eqb (Event h) event.

Lemma table_by_key hs (t : DispatchTable) k :
  default [] (foldl (λ t h, RegisterHandler h t) t hs !! k) =
  default [] (t !! k) ++ bfilter (λ h, bool_decide (dispatchKey (ResourceType h) (Event h) = k)) hs.
Proof.
  revert t. induction hs as [|h hs IH]; intros t; simpl; [by rewrite app_nil_r|].
  rewrite IH. unfold bfilter. simpl. unfold RegisterHandler. case_bool_decide as Hk.
  - rewrite Hk, lookup_insert_eq. simpl. by rewrite <-app_assoc.
  - by rewrite lookup_insert_ne.
Qed.

(** A lookup returns the handlers registered for the resource type and the
    event, each as often as it was registered, ordered by phase (pre, main, post)
    and within a phase by priority.  (Resource types without a dot.) *)
Theorem Lookup_registered `{SortSlice} hs rt ev :
  lacks "."%char rt = true → Forall (λ h, lacks "."%char (ResourceType h) = true) hs →
  let found := Lookup (foldl (λ t h, RegisterHandler h t) NewDispatchTable hs) rt ev in
  found ≡ₚ bfilter (handles rt ev) hs ∧
  StronglySorted (λ a b, phaseOrder (HandlerPhase a) < phaseOrder (HandlerPhase b) ∨
     phaseOrder (HandlerPhase a) = phaseOrder (HandlerPhase b) ∧ Priority a ≤ Priority b) found.
Proof.
  intros Hrt Hhs. cbv zeta. unfold Lookup. rewrite table_by_key. unfold NewDispatchTable.
  rewrite lookup_empty. simpl. split.
  - rewrite sort_slice_perm. erewrite bfilter_ext; [done|]. intros h Hh. simpl.
    assert (lacks "."%char (ResourceType h) = true) as Hl by (by eapply Forall_forall in Hhs).
    unfold handles. case_bool_decide as Hk.
    + apply dispatchKey_inj in Hk as [-> ->]; [|done|done]. by rewrite !String.eqb_refl.
    + destruct (String.eqb_spec (ResourceType h) rt), (String.eqb_spec (Event h) ev); try done. congruence.
  - eapply StronglySorted_weaken; [|apply sort_slice_sorted]. intros a b. simpl. unfold handler_less.
    destruct (Z.eqb_spec (phaseOrder (HandlerPhase b)) (phaseOrder (HandlerPhase a))); simpl; lia.
Qed.

(** The order of the instance: a merge sort. *)
Definition handler_le (a b : Handler) : Prop := handler_less b a = false.

#[global] Instance handler_le_dec : RelDecision handler_le.
Proof. intros a b. unfold handler_le. apply _. Defined.

Lemma handler_le_spec a b : handler_le a b ↔
  phaseOrder (HandlerPhase a) < phaseOrder (HandlerPhase b) ∨
  phaseOrder (HandlerPhase a) = phaseOrder (HandlerPhase b) ∧ Priority a ≤ Priority b.
Proof.
  unfold handler_le, handler_less.
  destruct (Z.eqb_spec (phaseOrder (HandlerPhase b)) (phaseOrder (HandlerPhase a))); simpl; lia.
Qed.

#[global] Program Instance merge_SortSlice : SortSlice := {
  sort_slice := merge_sort handler_le;
}.
Next Obligation. intros l. apply merge_sort_Permutation. Qed.
Next Obligation.
  intros l. apply StronglySorted_merge_sort.
  - intros a b c. rewrite !(handler_le_spec _ _ : handler_less _ _ = false ↔ _). lia.
  - intros a b. rewrite !(handler_le_spec _ _ : handler_less _ _ = false ↔ _). lia.
Qed.

(** * Dispatch *)

(** An executor with a log of the submissions. *)
Definition Logged (V E : Type) : Type := E * list (Handler * gmap string V).

#[global] Instance Logged_Executor {V E} `{Executor V E} : Executor V (Logged V E) := {
  Submit := λ h input e, let '(r, e1) := Submit h input e.1 in (r, (e1, e.2 ++ [(h, input)]));
  Poll := λ id e, let '(r, e1) := Poll id e.1 in (r, (e1, e.2));
  Cancel := λ id e, let '(r, e1) := Cancel id e.1 in (r, (e1, e.2));
}.

Section dispatch_props.
Context `{SortSlice} {V E : Type} `{!Executor V E}.
Implicit Types (tracked : gmap string TrackedRun) (input : gmap string V) (e : Logged V E).

Definition of_phase (ph : HPhase) (hs : list Handler) : list Handler :=
  bfilter (λ h, bool_decide (HandlerPhase h = ph)) hs.

Definition with_input input (hs : list Handler) : list (Handler * gmap string V) :=
  List.map (λ h, (h, input)) hs.

Lemma with_input_app input l1 l2 : with_input input (l1 ++ l2) = with_input input l1 ++ with_input input l2.
Proof. apply map_app. Qed.

Lemma pre_loop_log hs input e :
  let '(err, e') := pre_loop hs input e in
  match err with
  | None => e'.2 = e.2 ++ with_input input (of_phase PhasePre hs)
  | Some err => ∃ l1 h l2, of_phase PhasePre hs = l1 ++ h :: l2 ∧
      e'.2 = e.2 ++ with_input input (l1 ++ [h]) ∧
      ∃ msg, err = ErrPreSubmit (Ref h) msg ∨ err = ErrPreRejected (Ref h) msg
  end.
Proof.
  revert e. induction hs as [|h hs IH]; intros e; simpl; [by rewrite app_nil_r|].
  unfold of_phase, bfilter in *. simpl. case_bool_decide as Hph; simpl; [|apply IH].
  destruct (Submit h input e.1) as [[err|run] e1]; simpl.
  - exists [], h, (List.filter (λ h, bool_decide (HandlerPhase h = PhasePre)) hs). eauto.
  - case_bool_decide as Hst.
    + exists [], h, (List.filter (λ h, bool_decide (HandlerPhase h = PhasePre)) hs). eauto.
    + specialize (IH (e1, e.2 ++ [(h, input)])).
      destruct (pre_loop hs input _) as [[err|] e2]; simpl in *.
      * destruct IH as (l1 & h' & l2 & -> & -> & Herr). exists (h :: l1), h', l2.
        split_and!; [done| |done]. by rewrite <-app_assoc.
      * rewrite IH. by rewrite <-app_assoc.
Qed.

(** What tracking adds for a submitted main run. *)
Definition track (now : Time) (rt ev : string) (opts : option DispatchOpts) (run : Run V) tracked :=
  match opts with
  | Some o => if terminal (Status run) then tracked
              else <[ID run := MkTracked (ID run) rt (OptOrgID o) (OptName o) ev now]> tracked
  | None => tracked
  end.

Lemma main_loop_log now rt ev opts hs input e tracked :
  let '(res, e', tracked') := main_loop now rt ev opts hs input e tracked in
  match res with
  | inl err => ∃ h ms msg, of_phase PhaseMain hs = h :: ms ∧ err = ErrMainSubmit (Ref h) msg ∧
      e'.2 = e.2 ++ [(h, input)] ∧ tracked' = tracked
  | inr None => of_phase PhaseMain hs = [] ∧ e' = e ∧ tracked' = tracked
  | inr (Some run) => ∃ h ms, of_phase PhaseMain hs = h :: ms ∧ (Submit h input e.1).1 = inr run ∧
      e'.2 = e.2 ++ [(h, input)] ∧ tracked' = track now rt ev opts run tracked
  end.
Proof.
  induction hs as [|h hs IH]; simpl; [done|].
  unfold of_phase, bfilter in *. simpl. case_bool_decide as Hph; simpl; [|apply IH].
  destruct (Submit h input e.1) as [[err|run] e1] eqn:Es; simpl.
  - exists h, (List.filter (λ h, bool_decide (HandlerPhase h = PhaseMain)) hs). eauto.
  - exists h, (List.filter (λ h, bool_decide (HandlerPhase h = PhaseMain)) hs). rewrite Es.
    split_and!; [done|done|done|]. unfold track. destruct opts, (terminal (Status run)); done.
Qed.

(** The input of the post phase. *)
Definition post_input (mainRun : option (Run V)) input : gmap string V :=
  match mainRun ≫= Outputs with Some outputs => mergeInputs input outputs | None => input end.

Lemma post_loop_log mainRun hs input e :
  (post_loop mainRun hs input e).2 = e.2 ++ with_input (post_input mainRun input) (of_phase PhasePost hs).
Proof.
  revert e. induction hs as [|h hs IH]; intros e; simpl; [by rewrite app_nil_r|].
  unfold of_phase, bfilter in *. simpl. case_bool_decide as Hph; simpl; [|apply IH].
  assert (match mainRun with
          | Some run => match Outputs run with Some outputs => mergeInputs input outputs | None => input end
          | None => input end = post_input mainRun input) as ->.
  { unfold post_input. by destruct mainRun as [run|]; simpl; [destruct (Outputs run)|]. }
  destruct (Submit h (post_input mainRun input) e.1) as [r e1]; simpl. rewrite IH. simpl.
  by rewrite <-app_assoc.
Qed.


End dispatch_props.

(** An executor that answers from a script. *)
#[global] Instance Script_Executor {V} : Executor V (list (string + Run V)) := {
  Submit := λ _ _ e, (hd (inl "script") e, tl e);
  Poll := λ _ e, (hd (inl "script") e, tl e);
  Cancel := λ _ e, (None, e);
}.

Definition handler (ph : HPhase) (ref : string) : Handler := MkHandler "vm" "create" ph 1 ref ∅.

(** The post phase does not wait for the main run.  With an executor whose
    main run is still running (or has failed) when [Submit] returns, the
    post-phase handler is submitted in the same dispatch. *)
Theorem post_before_main_completes (st : RunStatus) (opts : option DispatchOpts) :
  let t := foldl (λ t h, RegisterHandler h t) NewDispatchTable [handler PhasePost "notify"; handler PhaseMain "build"] in
  let script : list (string + Run string) := [inr (MkRun "r1" st None ""); inr (MkRun "r2" RunRunning None "")] in
  let '(res, e', _) := Dispatch (E := Logged string _) 7 t "vm" "create" ∅ opts (script, []) ∅ in
  res = inr (Some (MkRun "r1" st None "")) ∧ List.map (λ x, Ref x.1) e'.2 = ["build"; "notify"].
Proof. destruct st, opts as [[]|]; vm_compute; done. Qed.

Section poll_props.
Context {V E : Type} `{!Executor V E} {S : Type}.
Implicit Types (tracked : gmap string TrackedRun) (e : E) (s : S).

(** The runs a poll finds finished, in order, and the executor after it. *)
Fixpoint poll_results (runs : list TrackedRun) e : list (TrackedRun * Run V) * E :=
  match runs with
  | [] => ([], e)
  | tr :: runs =>
      let '(r, e) := Poll (RunID tr) e in
      let '(fin, e') := poll_results runs e in
      match r with
      | inr run => if terminal (Status run) then ((tr, run) :: fin, e') else (fin, e')
      | inl _ => (fin, e')
      end
  end.

(** One round of polling.  Every tracked run of the snapshot is polled once;
    for each run found completed or failed the status callback is called once,
    in order, and the run is dropped from tracking, whether or not the callback
    succeeded; every other run stays tracked. *)
Theorem pollOnce_round (cb : TrackedRun → Run V → S → option string * S) runs e tracked s :
  let '(fin, e_end) := poll_results runs e in
  let '(e', tracked', s') := pollOnce (Some cb) runs e tracked s in
  e' = e_end ∧ s' = foldl (λ s x, (cb x.1 x.2 s).2) s fin ∧
  (∀ id, tracked' !! id = if bool_decide (id ∈ List.map (λ x, RunID x.1) fin) then None else tracked !! id) ∧
  InFlightCount tracked' ≤ InFlightCount tracked.
Proof.
  revert e tracked s. induction runs as [|tr runs IH]; intros e tracked s; simpl; [done|].
  unfold pollOnce in *. simpl. destruct (Poll (RunID tr) e) as [[err|run] e1].
  { specialize (IH e1 tracked s). by destruct (poll_results runs e1), (poll_loop _ _ _ _ _) as [[]]. }
  destruct (terminal (Status run)) eqn:Et; simpl.
  - specialize (IH e1 (delete (RunID tr) tracked) (cb tr run s).2).
    destruct (poll_results runs e1) as [fin e2], (poll_loop _ _ _ _ _) as [[e3 tr3] s3].
    destruct IH as (-> & -> & Htr & Hc). split_and!; [done|done| |].
    + intros id. rewrite Htr. simpl. case_bool_decide as H1.
      * rewrite bool_decide_true; [done|]. by right.
      * case_bool_decide as H2.
        -- apply elem_of_cons in H2 as [->|?]; [|done]. apply lookup_delete_eq.
        -- apply lookup_delete_ne. set_solver.
    + etrans; [exact Hc|]. unfold InFlightCount. rewrite map_size_delete. destruct (tracked !! RunID tr); simpl; lia.
  - specialize (IH e1 tracked s). by destruct (poll_results runs e1), (poll_loop _ _ _ _ _) as [[]].
Qed.

End poll_props.

(** The in-process executor finishes a run before it returns it, so a
    dispatch through it never tracks a run, and no status callback is ever
    called for it. *)
Theorem local_runs_untracked `{SortSlice} {V} now t rt ev (input : gmap string V) opts e tracked :
  (Dispatch now t rt ev input opts (e : LocalExecutor V) tracked).2 = tracked.
Proof.
  unfold Dispatch. destruct (Lookup t rt ev) as [|h0 hs0]; [done|].
  generalize (h0 :: hs0). intros hs. destruct (pre_loop hs input e) as [[err|] e1]; [done|].
  assert ((main_loop now rt ev opts hs input e1 tracked).2 = tracked) as Hm.
  { induction hs as [|h hs IH]; simpl; [done|]. case_bool_decide; simpl; [|done].
    unfold LocalSubmit. destruct (funcs e1 !! Ref h) as [fn|]; [|done].
    by destruct (fn input). }
  by destruct (main_loop now rt ev opts hs input e1 tracked) as [[[err|run] e2] tracked'].
Qed.

(** * Witnesses *)

Lemma Lookup_registered_witness :
  let hs := [handler PhasePost "c"; handler PhaseMain "b"; MkHandler "net" "create" PhasePre 1 "x" ∅;
             handler PhasePre "a"] in
  let found := Lookup (foldl (λ t h, RegisterHandler h t) NewDispatchTable hs) "vm" "create" in
  List.map Ref found = ["a"; "b"; "c"] ∧ found ≡ₚ bfilter (handles "vm" "create") hs.
Proof.
  intros hs found. split; [vm_compute; reflexivity|].
  apply (Lookup_registered hs "vm" "create"); [reflexivity|repeat constructor].
Defined.
