(* ===== verification/Queue.v ===== *)
(** Task queues and the work loop (src/work): the in-memory queue, the PostgreSQL
    queue with retries and recovery, the Valkey queue and the kickable loop. *)

From S2P Require Import Prelude GoStrings Resource Gorm.

(** * Tasks (queue.go) *)

Inductive TaskStatus := TaskPending | TaskRunning | TaskCompleted | TaskFailed.

#[global] Instance TaskStatus_eq_dec : EqDecision TaskStatus.
Proof. solve_decision. Defined.

Record Task := MkTask {
  T_ID : string;
  T_Kind : string;
  T_OrgID : uuid;
  T_Name : string;
  T_Payload : string;
  T_Status : TaskStatus;
  T_Error : string;
  T_CreatedAt : Time;
}.

Inductive queueErr :=
| ErrNoTasks
| ErrTaskNotFound (id : string)
| ErrTaskUnclaimed (id : string)
| ErrMarshalTask
| ErrQueueDB (e : dberr)
| ErrValkey (msg : string).

Definition set_task (st : TaskStatus) (err : string) (t : Task) : Task :=
  MkTask (T_ID t) (T_Kind t) (T_OrgID t) (T_Name t) (T_Payload t) st err (T_CreatedAt t).

(** What [Enqueue] makes of the task it is given; [uid] is a fresh UUID. *)
Definition fresh_task (uid : string) (now : Time) (t : Task) : Task :=
  MkTask (if String.eqb (T_ID t) "" then uid else T_ID t) (T_Kind t) (T_OrgID t) (T_Name t) (T_Payload t)
    TaskPending (T_Error t) now.

(** * The in-memory queue: the slice of tasks, in order of arrival *)

Module Mem.

Definition Enqueue (uid : string) (now : Time) (task : Task) (q : list Task) : option queueErr * list Task :=
  (None, q ++ [fresh_task uid now task]).

(** The kinds a claim accepts: all of them when none is given. *)
Definition kind_ok (kinds : list string) (kind : string) : bool :=
  bool_decide (kinds = []) || bool_decide (kind ∈ kinds).

(** The loop of [Claim]: the task found and the tasks with it marked running. *)
Fixpoint Claim (kinds : list string) (q : list Task) : (queueErr + Task) * list Task :=
  match q with
  | [] => (inl ErrNoTasks, [])
  | t :: q =>
      if negb (bool_decide (T_Status t = TaskPending)) || negb (kind_ok kinds (T_Kind t)) then
        let '(res, q) := Claim kinds q in (res, t :: q)
      else
        let t := set_task TaskRunning (T_Error t) t in (inr t, t :: q)
  end.

Fixpoint update_first (id : string) (f : Task → Task) (q : list Task) : option queueErr * list Task :=
  match q with
  | [] => (Some (ErrTaskNotFound id), [])
  | t :: q =>
      if String.eqb (T_ID t) id then (None, f t :: q)
      else let '(err, q) := update_first id f q in (err, t :: q)
  end.

Definition Complete (id : string) (q : list Task) : option queueErr * list Task :=
  update_first id (λ t, set_task TaskCompleted (T_Error t) t) q.

Definition Fail (id reason : string) (q : list Task) : option queueErr * list Task :=
  update_first id (set_task TaskFailed reason) q.

End Mem.

(** * The PostgreSQL queue (pg_queue.go) *)

Record TaskRecord := MkRecord {
  R_ID : string;
  R_Kind : string;
  R_OrgID : uuid;
  R_Name : string;
  R_Payload : string;
  R_Status : TaskStatus;
  R_Error : string;
  Attempts : Z;
  MaxAttempts : Z;
  R_CreatedAt : Time;
  ClaimedAt : option Time;
  CompletedAt : option Time;
  RetryAfter : option Time;
}.

Definition set_claim (now : Time) (r : TaskRecord) : TaskRecord :=
  MkRecord (R_ID r) (R_Kind r) (R_OrgID r) (R_Name r) (R_Payload r) TaskRunning (R_Error r)
    (i64 (Attempts r + 1)) (MaxAttempts r) (R_CreatedAt r) (Some now) (CompletedAt r) (RetryAfter r).

Definition set_completed (now : Time) (r : TaskRecord) : TaskRecord :=
  MkRecord (R_ID r) (R_Kind r) (R_OrgID r) (R_Name r) (R_Payload r) TaskCompleted (R_Error r)
    (Attempts r) (MaxAttempts r) (R_CreatedAt r) (ClaimedAt r) (Some now) (RetryAfter r).

Definition set_retry (at_ : Time) (reason : string) (r : TaskRecord) : TaskRecord :=
  MkRecord (R_ID r) (R_Kind r) (R_OrgID r) (R_Name r) (R_Payload r) TaskPending reason
    (Attempts r) (MaxAttempts r) (R_CreatedAt r) (ClaimedAt r) (CompletedAt r) (Some at_).

Definition set_failed (reason : string) (r : TaskRecord) : TaskRecord :=
  MkRecord (R_ID r) (R_Kind r) (R_OrgID r) (R_Name r) (R_Payload r) TaskFailed reason
    (Attempts r) (MaxAttempts r) (R_CreatedAt r) (ClaimedAt r) (CompletedAt r) (RetryAfter r).

Definition set_recovered (r : TaskRecord) : TaskRecord :=
  MkRecord (R_ID r) (R_Kind r) (R_OrgID r) (R_Name r) (R_Payload r) TaskPending (R_Error r)
    (Attempts r) (MaxAttempts r) (R_CreatedAt r) None (CompletedAt r) (RetryAfter r).

(** Each statement may fail with the error [fault] carries, without effect. *)
Module Pg.

Abbreviation table := (list TaskRecord).

Definition by_id (id : string) (r : TaskRecord) : bool := String.eqb (R_ID r) id.

Definition update_where (p : TaskRecord → bool) (f : TaskRecord → TaskRecord) (tb : table) : table :=
  List.map (λ r, if p r then f r else r) tb.

Definition Enqueue (fault : option dberr) (uid : string) (now : Time) (task : Task) (tb : table)
  : option queueErr * table :=
  let id := if String.eqb (T_ID task) "" then uid else T_ID task in
  let record := MkRecord id (T_Kind task) (T_OrgID task) (T_Name task) (T_Payload task)
                  TaskPending "" 0 3 now None None None in
  match fault with
  | Some e => (Some (ErrQueueDB e), tb)
  | None => if existsb (by_id id) tb then (Some (ErrQueueDB (PgError "23505")), tb)
            else (None, tb ++ [record])
  end.

(** The WHERE of the claim. *)
Definition eligible (now : Time) (kinds : list string) (r : TaskRecord) : bool :=
  bool_decide (R_Status r = TaskPending) &&
  match RetryAfter r with None => true | Some t => t <=? now end &&
  (bool_decide (kinds = []) || bool_decide (R_Kind r ∈ kinds)).

(** ORDER BY created_at, with the primary key [First] adds. *)
Definition before (a b : TaskRecord) : bool :=
  (R_CreatedAt a <? R_CreatedAt b) ||
  ((R_CreatedAt a =? R_CreatedAt b) && String.leb (R_ID a) (R_ID b)).

Fixpoint oldest (l : table) : option TaskRecord :=
  match l with
  | [] => None
  | r :: l => match oldest l with
              | None => Some r
              | Some s => if before r s then Some r else Some s
              end
  end.

(** The rows a claim can see: those eligible and not locked by another claim. *)
Definition candidates (now : Time) (kinds : list string) (locked : gset string) (tb : table) : table :=
  bfilter (λ r, eligible now kinds r && negb (bool_decide (R_ID r ∈ locked))) tb.

Definition to_task (r : TaskRecord) : Task :=
  MkTask (R_ID r) (R_Kind r) (R_OrgID r) (R_Name r) (R_Payload r) (R_Status r) "" (R_CreatedAt r).

(** A claim whose transaction runs alone but for the rows [locked]. *)
Definition Claim (fault fault_save : option dberr) (now : Time) (kinds : list string)
    (locked : gset string) (tb : table) : (queueErr + Task) * table :=
  match fault with
  | Some e => (inl (ErrQueueDB e), tb)
  | None =>
      match oldest (candidates now kinds locked tb) with
      | None => (inl ErrNoTasks, tb)
      | Some record =>
          let record := set_claim now record in
          match fault_save with
          | Some e => (inl (ErrQueueDB e), tb)
          | None => (inr (to_task record), update_where (by_id (R_ID record)) (λ _, record) tb)
          end
      end
  end.

(** The number of affected rows is tested before the error: a failed statement
    affected none. *)
Definition Complete (fault : option dberr) (now : Time) (id : string) (tb : table)
  : option queueErr * table :=
  match fault with
  | Some _ => (Some ErrNoTasks, tb)
  | None => if existsb (by_id id) tb then (None, update_where (by_id id) (set_completed now) tb)
            else (Some ErrNoTasks, tb)
  end.

(** [1 << n] on an int64. *)
Definition shl1 (n : Z) : Z := if n <? 64 then i64 (2 ^ n) else 0.

(** [time.Second * 5 * time.Duration(1 << attempts)], wrapped, capped at five
    minutes.  The product is a multiple of a power of two with an odd factor of
    24 bits, so the detour over float64 is exact. *)
Definition backoff (attempts : Z) : Z :=
  Z.min (i64 (5000000000 * shl1 attempts)) 300000000000.

Definition Fail (fault fault_update : option dberr) (now : Time) (id reason : string) (tb : table)
  : option queueErr * table :=
  match fault with
  | Some e => (Some (ErrQueueDB e), tb)
  | None =>
      match List.find (by_id id) tb with
      | None => (Some (ErrQueueDB ErrRecordNotFound), tb)
      | Some record =>
          match fault_update with
          | Some e => (Some (ErrQueueDB e), tb)
          | None =>
              if Attempts record <? MaxAttempts record then
                (None, update_where (by_id id) (set_retry (now + backoff (Attempts record)) reason) tb)
              else (None, update_where (by_id id) (set_failed reason) tb)
          end
      end
  end.

(** One tick of the recovery loop. *)
Definition stale (cutoff : Time) (r : TaskRecord) : bool :=
  bool_decide (R_Status r = TaskRunning) &&
  match ClaimedAt r with Some t => t <? cutoff | None => false end.

Definition Recover (fault : option dberr) (now staleTimeout : Time) (tb : table) : table :=
  match fault with
  | Some _ => tb
  | None => update_where (stale (now - staleTimeout)) set_recovered tb
  end.

End Pg.

(** * The in-memory queue is first in, first out *)

Definition claimable (kinds : list string) (t : Task) : bool :=
  bool_decide (T_Status t = TaskPending) && Mem.kind_ok kinds (T_Kind t).

(** The in-memory queue hands out tasks in order of arrival.  A claim returns
    the first pending task of an accepted kind and marks that one task running,
    changing nothing else; it reports [ErrNoTasks] exactly when there is none,
    and then changes nothing. *)
Theorem mem_claim_fifo kinds q :
  let '(res, q') := Mem.Claim kinds q in
  match res with
  | inl e => e = ErrNoTasks ∧ q' = q ∧ ∀ t, t ∈ q → claimable kinds t = false
  | inr t => ∃ l1 t0 l2, q = l1 ++ t0 :: l2 ∧ claimable kinds t0 = true ∧
      (∀ s, s ∈ l1 → claimable kinds s = false) ∧
      t = set_task TaskRunning (T_Error t0) t0 ∧ q' = l1 ++ t :: l2
  end.
Proof.
  induction q as [|t q IH]; simpl; [split_and!; [done|done|by intros t ?%elem_of_nil]|].
  rewrite <-negb_andb. fold (claimable kinds t). destruct (claimable kinds t) eqn:Ec; simpl.
  - exists [], t, q. split_and!; [done|done|by intros s ?%elem_of_nil|done|done].
  - destruct (Mem.Claim kinds q) as [[e|t'] q'].
    + destruct IH as (-> & -> & Hall). split_and!; [done|done|].
      intros s [->|Hs]%elem_of_cons; [done|by apply Hall].
    + destruct IH as (l1 & t0 & l2 & -> & Ht0 & Hl1 & -> & ->). exists (t :: l1), t0, l2.
      split_and!; [done|done| |done|done]. intros s [->|Hs]%elem_of_cons; [done|by apply Hl1].
Qed.

(** * Lemmas on the table *)

Section pg.
Import Pg.
Implicit Types (tb : table) (r rec : TaskRecord).

Lemma oldest_spec l r : oldest l = Some r → r ∈ l ∧ ∀ s, s ∈ l → R_CreatedAt r ≤ R_CreatedAt s.
Proof.
  revert r. induction l as [|a l IH]; intros r; simpl; [done|].
  destruct (oldest l) as [s|] eqn:Eo.
  - destruct (IH s eq_refl) as [Hs Hmin]. destruct (before a s) eqn:Eb; intros [= <-].
    + split; [left|]. intros x [->|Hx]%elem_of_cons; [done|]. specialize (Hmin x Hx).
      unfold before in Eb. lia.
    + split; [by right|]. intros x [->|Hx]%elem_of_cons; [unfold before in Eb; lia|by apply Hmin].
  - intros [= <-]. split; [left|]. intros x [->|Hx]%elem_of_cons; [done|].
    destruct l as [|b l]; [by apply elem_of_nil in Hx|]. simpl in Eo.
    destruct (oldest l); [by destruct (before b t)|done].
Qed.

Lemma candidates_spec now kinds locked tb r :
  r ∈ candidates now kinds locked tb →
  r ∈ tb ∧ R_Status r = TaskPending ∧ R_ID r ∉ locked.
Proof.
  unfold candidates, eligible. intros [Hr Hp]%elem_of_bfilter. by bprop.
Qed.

Lemma update_where_ids p f tb :
  (∀ r, p r = true → R_ID (f r) = R_ID r) → R_ID <$> update_where p f tb = R_ID <$> tb.
Proof.
  intros Hf. unfold update_where. rewrite <-list_fmap_compose. apply list_fmap_ext. intros i r _. simpl.
  destruct (p r) eqn:E; [by apply Hf|done].
Qed.

Lemma elem_of_update_where p f tb x :
  x ∈ update_where p f tb ↔ ∃ r, r ∈ tb ∧ x = if p r then f r else r.
Proof. unfold update_where. rewrite list_elem_of_fmap. naive_solver. Qed.

Lemma by_id_true id r : by_id id r = true ↔ R_ID r = id.
Proof. apply String.eqb_eq. Qed.

Lemma Forall_update_where (P : TaskRecord → Prop) p f tb :
  Forall P tb → (∀ r, r ∈ tb → P r → p r = true → P (f r)) → Forall P (update_where p f tb).
Proof.
  intros HP Hf. apply Forall_forall. intros x (r & Hr & ->)%elem_of_update_where.
  rewrite Forall_forall in HP. destruct (p r) eqn:E; auto.
Qed.

(** * The bound on the attempts *)

Definition record_ok r : Prop :=
  MaxAttempts r = 3 ∧
  match R_Status r with
  | TaskPending => 0 ≤ Attempts r ≤ 2
  | TaskRunning => 1 ≤ Attempts r ≤ 3
  | _ => 0 ≤ Attempts r ≤ 3
  end.

(** The queue under workers that complete and fail only running tasks, with no
    recovery of stale tasks. *)
Inductive queue_step : table → table → Prop :=
| q_enqueue fault uid now task tb : queue_step tb (Enqueue fault uid now task tb).2
| q_claim fault fault' now kinds locked tb : queue_step tb (Claim fault fault' now kinds locked tb).2
| q_complete fault now id tb :
    (∀ r, r ∈ tb → R_ID r = id → R_Status r = TaskRunning) → queue_step tb (Complete fault now id tb).2
| q_fail fault fault' now id reason tb :
    (∀ r, r ∈ tb → R_ID r = id → R_Status r = TaskRunning) → queue_step tb (Fail fault fault' now id reason tb).2.

Lemma backoff_exact a : 0 ≤ a ≤ 30 → backoff a = Z.min (5000000000 * 2 ^ a) 300000000000.
Proof.
  intros Ha. unfold backoff, shl1. assert ((a <? 64) = true) as -> by lia.
  assert (1 ≤ 2 ^ a ≤ 2 ^ 30) as Hp.
  { split; [|apply Z.pow_le_mono_r; lia]. assert (0 < 2 ^ a) by (apply Z.pow_pos_nonneg; lia). lia. }
  rewrite (i64_id (2 ^ a)) by lia. rewrite i64_id by lia. done.
Qed.

Lemma queue_step_ok tb tb' :
  queue_step tb tb' → Forall record_ok tb ∧ NoDup (R_ID <$> tb) →
  Forall record_ok tb' ∧ NoDup (R_ID <$> tb').
Proof.
  intros Hstep [Hok Hnd].
  assert (Huniq : ∀ r s, r ∈ tb → s ∈ tb → R_ID r = R_ID s → r = s) by (intros; by eapply (NoDup_key_inj R_ID)).
  destruct Hstep as [fault uid now task tb|fault fault' now kinds locked tb|fault now id tb Hrun
                    |fault fault' now id reason tb Hrun].
  - unfold Enqueue. destruct fault; [done|]. set (id := if String.eqb _ _ then _ else _).
    destruct (existsb (by_id id) tb) eqn:E; [done|]. simpl. split.
    + apply Forall_app. split; [done|]. by repeat constructor.
    + rewrite fmap_app. apply NoDup_app. split_and!; [done| |apply NoDup_singleton].
      intros x (r & -> & Hr)%list_elem_of_fmap Hx%list_elem_of_singleton.
      assert (existsb (by_id id) tb = true) as Hc; [|congruence].
      apply existsb_exists. exists r. split; [by apply list_elem_of_In|by apply by_id_true].
  - unfold Claim. destruct fault; [done|]. destruct (oldest _) as [rec|] eqn:Eo; [|done].
    destruct fault'; [done|]. simpl. apply oldest_spec in Eo as [Ho _].
    apply candidates_spec in Ho as (Hin & Hst & _). split.
    + apply Forall_update_where; [done|]. intros r Hr _ Hid%by_id_true. simpl in Hid.
      rewrite Forall_forall in Hok. destruct (Hok rec Hin) as [Hmax Hb]. rewrite Hst in Hb.
      split; [done|]. simpl. rewrite i64_id by lia. lia.
    + rewrite update_where_ids; [done|]. intros r Hid%by_id_true. simpl in *. done.
  - unfold Complete. destruct fault; [done|]. destruct (existsb _ _); [|done]. simpl. split.
    + apply Forall_update_where; [done|]. intros r Hr [Hmax Hb] Hid%by_id_true.
      rewrite (Hrun r Hr Hid) in Hb. split; simpl; [done|lia].
    + by rewrite update_where_ids.
  - unfold Fail. destruct fault; [done|]. destruct (List.find _ _) as [rec|] eqn:Ef; [|done].
    destruct fault'; [done|]. apply find_some in Ef as [Hin%list_elem_of_In Hid%by_id_true].
    assert (record_ok rec) as [Hmax Hb] by (rewrite Forall_forall in Hok; by apply Hok).
    rewrite (Hrun rec Hin Hid), Hmax in *.
    destruct (Attempts rec <? 3) eqn:Ea; simpl; (split; [apply Forall_update_where; [done|]|by rewrite update_where_ids]);
      intros r Hr [Hm _] Hidr%by_id_true; rewrite (Huniq r rec Hr Hin) by congruence; split; simpl; lia.
Qed.


(** * Concurrent claims *)

(** The claims in progress: a worker's transaction holds the record it selected,
    already changed but not yet saved, and the lock on its row. *)
Abbreviation claims := (gmap nat TaskRecord).

Definition locked_ids (c : claims) : gset string :=
  list_to_set (List.map (λ wr, R_ID wr.2) (map_to_list c)).

Inductive claim_step : table * claims → table * claims → Prop :=
| claim_select w now kinds r tb c :
    c !! w = None → oldest (candidates now kinds (locked_ids c) tb) = Some r →
    claim_step (tb, c) (tb, <[w := set_claim now r]> c)
| claim_commit w rec tb c :
    c !! w = Some rec →
    claim_step (tb, c) (update_where (by_id (R_ID rec)) (λ _, rec) tb, delete w c)
| claim_rollback w tb c : claim_step (tb, c) (tb, delete w c)
| claim_enqueue fault uid now task tb c : claim_step (tb, c) ((Enqueue fault uid now task tb).2, c)
(* any other update: it waits for the locks of the rows it changes *)
| claim_other p f tb c :
    (∀ r, R_ID (f r) = R_ID r) → (∀ r, r ∈ tb → p r = true → R_ID r ∉ locked_ids c) →
    claim_step (tb, c) (update_where p f tb, c).

Definition claims_inv (s : table * claims) : Prop :=
  NoDup (R_ID <$> s.1) ∧
  (∀ w w' rec rec', s.2 !! w = Some rec → s.2 !! w' = Some rec' → R_ID rec = R_ID rec' → w = w') ∧
  (∀ w rec, s.2 !! w = Some rec →
     ∃ r now, r ∈ s.1 ∧ R_Status r = TaskPending ∧ rec = set_claim now r).

Lemma elem_of_locked c id : id ∈ locked_ids c ↔ ∃ w rec, c !! w = Some rec ∧ R_ID rec = id.
Proof.
  unfold locked_ids. rewrite elem_of_list_to_set, list_elem_of_fmap. split.
  - intros ([w rec] & -> & Hin%elem_of_map_to_list). eauto.
  - intros (w & rec & Hw & <-). exists (w, rec). by rewrite elem_of_map_to_list.
Qed.

Lemma claims_inv_delete tb c w : claims_inv (tb, c) → claims_inv (tb, delete w c).
Proof.
  intros (Hnd & Hu & Hh). split_and!; simpl in *; [done| |].
  - intros w1 w2 r1 r2 [_ H1]%lookup_delete_Some [_ H2]%lookup_delete_Some. eauto.
  - intros w1 r1 [_ H1]%lookup_delete_Some. eauto.
Qed.

Lemma claim_step_inv s s' : claim_step s s' → claims_inv s → claims_inv s'.
Proof.
  intros Hstep. destruct Hstep as [w now kinds r tb c Hw Ho|w rec tb c Hw|w tb c|fault uid now task tb c
                                  |p f tb c Hf Hp]; intros Hinv; pose proof Hinv as (Hnd & Hu & Hh); simpl in *.
  - apply oldest_spec in Ho as [Hc _]. apply candidates_spec in Hc as (Hin & Hst & Hnl).
    rewrite elem_of_locked in Hnl. split_and!; simpl; [done| |].
    + intros w1 w2 r1 r2 [[<- <-]|[Hn1 H1]]%lookup_insert_Some [[<- <-]|[Hn2 H2]]%lookup_insert_Some Hid;
        [done|exfalso; apply Hnl; eauto..|eauto].
    + intros w1 r1 [[<- <-]|[_ H1]]%lookup_insert_Some; [by exists r, now|eauto].
  - destruct (Hh w rec Hw) as (r0 & now & Hin & Hst & ->). split_and!; simpl.
    + rewrite update_where_ids; [done|]. intros r Hid%by_id_true. done.
    + apply (claims_inv_delete tb c w Hinv).
    + intros w1 r1 [Hne H1]%lookup_delete_Some. destruct (Hh w1 r1 H1) as (r & now1 & Hr & Hrst & ->).
      exists r, now1. split_and!; [|done|done]. apply elem_of_update_where. exists r. split; [done|].
      destruct (by_id _ r) eqn:Eid; [|done]. apply by_id_true in Eid. exfalso. apply Hne.
      eapply Hu; [exact Hw|exact H1|]. by simpl in *.
  - by apply claims_inv_delete.
  - unfold Enqueue. destruct fault; [done|]. set (id := if String.eqb _ _ then _ else _).
    destruct (existsb (by_id id) tb) eqn:E; [done|]. simpl. split_and!; simpl; [|done|].
    + rewrite fmap_app. apply NoDup_app. split_and!; [done| |apply NoDup_singleton].
      intros x (r & -> & Hr)%list_elem_of_fmap Hx%list_elem_of_singleton.
      assert (existsb (by_id id) tb = true) as Hc; [|congruence].
      apply existsb_exists. exists r. split; [by apply list_elem_of_In|by apply by_id_true].
    + intros w rec Hw. destruct (Hh w rec Hw) as (r & now1 & Hr & ? & ?). exists r, now1.
      split_and!; [apply elem_of_app; by left|done|done].
  - split_and!; simpl; [by rewrite update_where_ids|done|].
    intros w rec Hw. destruct (Hh w rec Hw) as (r & now1 & Hr & Hst & ->). exists r, now1.
    split_and!; [|done|done]. apply elem_of_update_where. exists r. split; [done|].
    destruct (p r) eqn:Ep; [|done]. exfalso. apply (Hp r Hr Ep), elem_of_locked. by exists w, (set_claim now1 r).
Qed.


(** * Where the bound does not hold *)

(** One round of a worker that claims a task and dies, and of the recovery. *)
Definition crash_round (now : Time) tb : table :=
  Recover None (now + 100) 10 (Claim None None now [] ∅ tb).2.

(** Recovery does not look at the attempts: a task whose worker dies each
    time is handed out again without end, beyond its maximal number of
    attempts. *)
Theorem recovery_exceeds_max_attempts :
  let tb0 := (Enqueue None "t" 0 (MkTask "t" "k" 1 "n" "" TaskPending "" 0) []).2 in
  let tb := crash_round 400 (crash_round 300 (crash_round 200 (crash_round 100 tb0))) in
  List.map (λ r, (R_Status r, Attempts r, MaxAttempts r)) tb = [(TaskPending, 4, 3)].
Proof. vm_compute. reflexivity. Qed.

(** [Fail] does not check the status: with attempts left the task becomes
    pending, whatever it was. *)
Lemma Fail_reopens r now reason tb :
  r ∈ tb → NoDup (R_ID <$> tb) → Attempts r < MaxAttempts r →
  ∃ r', r' ∈ (Fail None None now (R_ID r) reason tb).2 ∧ R_ID r' = R_ID r ∧ R_Status r' = TaskPending.
Proof.
  intros Hr Hnd Hlt. unfold Fail.
  destruct (List.find (by_id (R_ID r)) tb) as [s|] eqn:Ef.
  2: { apply list_elem_of_In in Hr. apply (find_none _ _ Ef r) in Hr. unfold by_id in Hr.
       by rewrite String.eqb_refl in Hr. }
  apply find_some in Ef as [Hs%list_elem_of_In Hid%by_id_true].
  rewrite (NoDup_key_inj R_ID tb s r Hnd Hs Hr Hid).
  assert ((Attempts r <? MaxAttempts r) = true) as -> by lia.
  eexists. split; [apply elem_of_update_where; exists r; split; [done|]; unfold by_id; by rewrite String.eqb_refl|].
  done.
Qed.

End pg.

(** * The Valkey queue (valkey_queue.go)

    The client is a parameter: the commands the queue sends and what they
    return.  [XReadGroup] returns the streams read with their messages, each an
    id with the value of its field "data". *)

Class Valkey (K : Type) := {
  XGroupCreate : string → K → K;
  XAdd : string → string → string → K → option string * K;
  XReadGroup : string → string → K → (string + list (string * list (string * option string))) * K;
  XAck : string → string → K → K;
  XDel : string → string → K → K;
}.

Module Valkey.
Section valkey.
Context {K : Type} `{Valkey K} (marshal : Task → option string) (unmarshal : string → option Task).

Record claimedTask := MkClaimed { ct_stream : string; ct_msgID : string }.

Definition valkeyStreamPrefix : string := "infractl:tasks:".

Definition ensureGroup (stream : string) (k : K) : K := XGroupCreate stream k.

Definition ackAndDel (stream msgID : string) (k : K) : K := XDel stream msgID (XAck stream msgID k).

Definition Enqueue (uid : string) (now : Time) (task : Task) (k : K) : option queueErr * K :=
  let task := fresh_task uid now task in
  match marshal task with
  | None => (Some ErrMarshalTask, k)
  | Some data =>
      let stream := valkeyStreamPrefix +:+ T_Kind task in
      let k := ensureGroup stream k in
      let '(err, k) := XAdd stream (T_ID task) data k in
      (ErrValkey <$> err, k)
  end.

(** The loop over the streams of one reply. *)
Fixpoint claim_messages (messages : list (string * list (string * option string)))
    (claimed : gmap string claimedTask) (k : K) : option Task * gmap string claimedTask * K :=
  match messages with
  | [] => (None, claimed, k)
  | (_, []) :: messages => claim_messages messages claimed k
  | (streamKey, (msgID, data) :: _) :: messages =>
      match data ≫= unmarshal with
      | None => claim_messages messages claimed (ackAndDel streamKey msgID k)
      | Some task =>
          let task := set_task TaskRunning (T_Error task) task in
          (Some task, <[T_ID task := MkClaimed streamKey msgID]> claimed, k)
      end
  end.

Fixpoint Claim (consumerID : string) (kinds : list string) (claimed : gmap string claimedTask) (k : K)
  : (queueErr + Task) * gmap string claimedTask * K :=
  match kinds with
  | [] => (inl ErrNoTasks, claimed, k)
  | kind :: kinds =>
      let stream := valkeyStreamPrefix +:+ kind in
      let k := ensureGroup stream k in
      match XReadGroup consumerID stream k with
      | (inl _, k) => Claim consumerID kinds claimed k
      | (inr messages, k) =>
          match claim_messages messages claimed k with
          | (Some task, claimed, k) => (inr task, claimed, k)
          | (None, claimed, k) => Claim consumerID kinds claimed k
          end
      end
  end.

Definition Complete (taskID : string) (claimed : gmap string claimedTask) (k : K)
  : option queueErr * gmap string claimedTask * K :=
  match claimed !! taskID with
  | None => (Some (ErrTaskUnclaimed taskID), claimed, k)
  | Some ct => (None, delete taskID claimed, ackAndDel (ct_stream ct) (ct_msgID ct) k)
  end.

Definition Fail (taskID reason : string) (claimed : gmap string claimedTask) (k : K) :=
  Complete taskID claimed k.

End valkey.
End Valkey.

(** * The work loop (loop.go) *)

(** The loop is working, sleeping or stopped; [lp_kick] is the one-element kick
    channel, [lp_runs] the number of executions started. *)
Inductive loop_phase := Working | Sleeping | Stopped.

Record Loop := MkLoop { lp_phase : loop_phase; lp_kick : bool; lp_cancelled : bool; lp_runs : nat }.

(** [NewLoop] followed by the start of [Run]. *)
Definition NewLoop : Loop := MkLoop Working false false 1.

Inductive loop_step (interval : Time) : Loop → Loop → Prop :=
| loop_kick ph k c n : loop_step interval (MkLoop ph k c n) (MkLoop ph true c n)
| loop_cancel ph k c n : loop_step interval (MkLoop ph k c n) (MkLoop ph k true n)
(* the work function returns, after [elapsed] *)
| loop_done_cancelled k n : loop_step interval (MkLoop Working k true n) (MkLoop Stopped k true n)
| loop_done_late elapsed k n :
    interval - elapsed ≤ 0 → loop_step interval (MkLoop Working k false n) (MkLoop Working k false (S n))
| loop_done_sleep elapsed k n :
    0 < interval - elapsed → loop_step interval (MkLoop Working k false n) (MkLoop Sleeping k false n)
(* the select of [sleep] *)
| loop_wake_kick c n :
    loop_step interval (MkLoop Sleeping true c n)
      (if c then MkLoop Stopped false c n else MkLoop Working false c (S n))
| loop_wake_timer k c n :
    loop_step interval (MkLoop Sleeping k c n)
      (if c then MkLoop Stopped k c n else MkLoop Working k c (S n))
| loop_wake_cancel k n : loop_step interval (MkLoop Sleeping k true n) (MkLoop Stopped k true n).

(** No kick is lost.  A kick that was sent stays pending until an execution
    that started after it, or the cancellation of the loop, takes it; and while
    the loop sleeps with a kick pending it can start that execution at once,
    whatever the interval. *)
Theorem kick_not_lost interval (l l' : Loop) :
  lp_kick l = true → rtc (loop_step interval) l l' →
  (lp_kick l' = true ∨ (lp_runs l < lp_runs l')%nat ∨ lp_cancelled l' = true) ∧
  (lp_phase l' = Sleeping → lp_kick l' = true → lp_cancelled l' = false →
   loop_step interval l' (MkLoop Working false false (S (lp_runs l')))).
Proof.
  intros Hk Hsteps. split.
  - assert ((lp_runs l ≤ lp_runs l')%nat ∧
            (lp_kick l' = true ∨ (lp_runs l < lp_runs l')%nat ∨ lp_cancelled l' = true)) as [_ ?]; [|done].
    induction Hsteps as [l|l l1 l2 Hstep Hsteps IH]; [auto|].
    assert (Hmono : ∀ a b, rtc (loop_step interval) a b → (lp_runs a ≤ lp_runs b)%nat ∧
              (lp_cancelled a = true → lp_cancelled b = true)).
    { clear. induction 1 as [|a b c Hab _ [IH1 IH2]]; [done|].
      destruct Hab; simpl in *; try destruct c0; simpl in *; split; try lia; auto. }
    destruct (Hmono _ _ Hsteps) as [Hruns Hcanc].
    destruct Hstep; simpl in *; try (destruct (IH eq_refl) as [? [?|[?|?]]]; split; auto; lia); try (split; [lia|]; auto; fail).
    all: try (destruct c; simpl in *; split; try lia; auto; right; left; lia).
    all: subst; try (destruct (IH eq_refl) as [? [?|[?|?]]]; split; auto; lia).
    all: try (split; [lia|right; left; lia]).
  - destruct l' as [ph k c n]. simpl. intros -> -> ->. apply (loop_wake_kick interval false n).
Qed.

(** * Witnesses *)

Definition demo_task (id : string) : Task := MkTask id "k" 1 "n" "" TaskPending "" 0.




Lemma kick_not_lost_witness :
  let l := MkLoop Working true false 1 in
  let l' := MkLoop Sleeping true false 1 in
  loop_step 60 l l' ∧ loop_step 60 l' (MkLoop Working false false 2).
Proof.
  intros l l'. assert (loop_step 60 l l') as Hs by (apply (loop_done_sleep 60 5); lia).
  split; [exact Hs|]. apply (kick_not_lost 60 l l'); [reflexivity|by apply rtc_once|reflexivity..].
Defined.
