(* ===== verification/Events.v ===== *)
(** Lifecycle events (src/events): the in-memory bus, the PostgreSQL bus and its
    subscribers, the event stores, the lifecycle handler and the Valkey bus. *)

From S2P Require Import Prelude GoStrings Resource Gorm.

(** * Events (bus.go) *)

Record Event := MkEvent {
  E_ID : string;
  E_OrgID : uuid;
  E_Kind : string;
  E_Name : string;
  E_Action : string;
  E_Timestamp : Time;
  E_Payload : option string;
}.

#[global] Instance Event_eq_dec : EqDecision Event.
Proof. solve_decision. Defined.

(** The id and time [Publish] and [Save] fill in. *)
Definition stamp (uid : string) (now : Time) (e : Event) : Event :=
  MkEvent (if String.eqb (E_ID e) "" then uid else E_ID e) (E_OrgID e) (E_Kind e) (E_Name e) (E_Action e)
    (if E_Timestamp e =? 0 then now else E_Timestamp e) (E_Payload e).

(** * The in-memory bus

    A subscriber has the set of kinds it asked for and a channel of capacity
    100, here the list of the events not received yet. *)

Record subscriber := MkSub { sub_kinds : gset string; sub_ch : list Event }.

Definition wants (kinds : gset string) (e : Event) : bool :=
  bool_decide (kinds = ∅) || bool_decide (E_Kind e ∈ kinds).

(** The send in the [select] with a default: a full channel drops the event. *)
Definition try_send (e : Event) (ch : list Event) : list Event :=
  if (length ch <? 100)%nat then ch ++ [e] else ch.

Definition deliver (e : Event) (s : subscriber) : subscriber :=
  if wants (sub_kinds s) e then MkSub (sub_kinds s) (try_send e (sub_ch s)) else s.

Definition NewInMemoryBus : list subscriber := [].

Definition Publish (uid : string) (now : Time) (event : Event) (b : list subscriber) : list subscriber :=
  List.map (deliver (stamp uid now event)) b.

Definition Subscribe (kinds : list string) (b : list subscriber) : list subscriber :=
  b ++ [MkSub (list_to_set kinds) []].

(** * Event stores (store.go, pg_store.go) *)

Record EventListOptions := MkEventOpts {
  eo_Limit : Z;
  eo_Offset : Z;
  eo_Kind : string;
  eo_Action : string;
}.

Definition matches (orgID : uuid) (opts : EventListOptions) (e : Event) : bool :=
  N.eqb (E_OrgID e) orgID &&
  (String.eqb (eo_Kind opts) "" || String.eqb (E_Kind e) (eo_Kind opts)) &&
  (String.eqb (eo_Action opts) "" || String.eqb (E_Action e) (eo_Action opts)).

Module MemStore.

Definition Save (event : Event) (s : list Event) : list Event := s ++ [event].

Definition List (orgID : uuid) (opts : EventListOptions) (s : list Event) : list Event :=
  let result := bfilter (matches orgID opts) s in
  let result := if (0 <? eo_Offset opts) && (eo_Offset opts <? Z.of_nat (length result))
                then drop (Z.to_nat (eo_Offset opts)) result else result in
  if (0 <? eo_Limit opts) && (eo_Limit opts <? Z.of_nat (length result))
  then take (Z.to_nat (eo_Limit opts)) result else result.

End MemStore.

(** [ORDER BY created_at DESC]: the newest first, ties in any order. *)
Class EventOrder := {
  newest_first : list Event → list Event;
  newest_first_perm : ∀ l, newest_first l ≡ₚ l;
  newest_first_sorted : ∀ l, StronglySorted (λ a b, E_Timestamp b ≤ E_Timestamp a) (newest_first l);
}.

Module PgStore.
Section pg_store.
Context `{EventOrder}.

(** A record of the table holds the fields of the event, [created_at] being its
    timestamp. *)
Definition Save (fault : option dberr) (uid : string) (now : Time) (event : Event) (tb : list Event)
  : option dberr * list Event :=
  let record := stamp uid now event in
  match fault with
  | Some e => (Some e, tb)
  | None => if existsb (λ r, String.eqb (E_ID r) (E_ID record)) tb then (Some (PgError "23505"), tb)
            else (None, tb ++ [record])
  end.

Definition List (fault : option dberr) (orgID : uuid) (opts : EventListOptions) (tb : list Event)
  : dberr + list Event :=
  match fault with
  | Some e => inl e
  | None =>
      let l := newest_first (bfilter (matches orgID opts) tb) in
      let l := if 0 <? eo_Offset opts then drop (Z.to_nat (eo_Offset opts)) l else l in
      let limit := if 0 <? eo_Limit opts then eo_Limit opts else 100 in
      inr (take (Z.to_nat limit) l)
  end.

End pg_store.
End PgStore.

(** * The PostgreSQL bus (pg_bus.go)

    [ps_id] identifies the channel of a subscriber, [ps_cancelled] tells whether
    its context is done. *)

Record pgSubscriber := MkPgSub {
  ps_id : nat;
  ps_kinds : gset string;
  ps_ch : list Event;
  ps_cancelled : bool;
}.

Record PgBus := MkPgBus {
  events_table : list Event;
  subs : list pgSubscriber;
  listening : bool;
  closed : list nat;            (* channels closed, in order *)
}.

Record notifyPayload := MkNotify {
  np_ID : string; np_OrgID : string; np_Kind : string; np_Name : string; np_Action : string;
}.

Section pg_bus.

(** JSON of the notification and the text of a UUID. *)
Context (marshal : notifyPayload → string) (unmarshal : string → option notifyPayload).
Context (uuid_string : uuid → string) (uuid_parse : string → option uuid).

Definition NewPgBus (tb : list Event) : PgBus := MkPgBus tb [] false [].

(** The insert and the notification, each of which may fail; the payload that
    was sent. *)
Definition PgPublish (fault fault_notify : option dberr) (uid : string) (now : Time) (event : Event) (b : PgBus)
  : option dberr * option string * PgBus :=
  let event := stamp uid now event in
  match PgStore.Save fault uid now event (events_table b) with
  | (Some e, _) => (Some e, None, b)
  | (None, tb) =>
      let b := MkPgBus tb (subs b) (listening b) (closed b) in
      match fault_notify with
      | Some e => (Some e, None, b)
      | None =>
          let np := MkNotify (E_ID event) (uuid_string (E_OrgID event)) (E_Kind event) (E_Name event)
                      (E_Action event) in
          (None, Some (marshal np), b)
      end
  end.

Definition PgSubscribe (id : nat) (kinds : list string) (b : PgBus) : PgBus :=
  MkPgBus (events_table b) (subs b ++ [MkPgSub id (list_to_set kinds) [] false]) true (closed b).

(** The context of a subscription is cancelled; its goroutine then removes it. *)
Definition cancel_sub (id : nat) (b : PgBus) : PgBus :=
  MkPgBus (events_table b)
    (List.map (λ s, if (ps_id s =? id)%nat then MkPgSub (ps_id s) (ps_kinds s) (ps_ch s) true else s) (subs b))
    (listening b) (closed b).

Definition pg_deliver (e : Event) (s : pgSubscriber) : pgSubscriber :=
  if ps_cancelled s then s
  else if wants (ps_kinds s) e then MkPgSub (ps_id s) (ps_kinds s) (try_send e (ps_ch s)) (ps_cancelled s)
  else s.

(** One notification in the loop of [listen]. *)
Definition on_notification (now : Time) (payload : string) (b : PgBus) : PgBus :=
  match unmarshal payload with
  | None => b
  | Some np =>
      let event := MkEvent (np_ID np) (default 0%N (uuid_parse (np_OrgID np))) (np_Kind np) (np_Name np)
                     (np_Action np) now None in
      MkPgBus (events_table b) (List.map (pg_deliver event) (subs b)) (listening b) (closed b)
  end.

Fixpoint remove_first_sub (id : nat) (l : list pgSubscriber) : option (list pgSubscriber) :=
  match l with
  | [] => None
  | s :: l => if (ps_id s =? id)%nat then Some l else cons s <$> remove_first_sub id l
  end.

Definition removeSub (id : nat) (b : PgBus) : PgBus :=
  match remove_first_sub id (subs b) with
  | Some l => MkPgBus (events_table b) l (listening b) (closed b ++ [id])
  | None => b
  end.

(** One tick of the clean-up. *)
Definition Cleanup (fault : option dberr) (now retention : Time) (b : PgBus) : PgBus :=
  match fault with
  | Some _ => b
  | None => MkPgBus (bfilter (λ e, negb (E_Timestamp e <? now - retention)) (events_table b))
              (subs b) (listening b) (closed b)
  end.

End pg_bus.

(** * The lifecycle handler (handler.go) *)

Definition lifecycle_event (action kind name : string) (orgID : uuid) : Event :=
  MkEvent "" orgID kind name action 0 None.

Definition OnCreate (uid : string) (now : Time) (kind name : string) (orgID : uuid) (b : list subscriber) :=
  Publish uid now (lifecycle_event "created" kind name orgID) b.
Definition OnUpdate (uid : string) (now : Time) (kind name : string) (orgID : uuid) (b : list subscriber) :=
  Publish uid now (lifecycle_event "updated" kind name orgID) b.
Definition OnDelete (uid : string) (now : Time) (kind name : string) (orgID : uuid) (b : list subscriber) :=
  Publish uid now (lifecycle_event "deleted" kind name orgID) b.

(** * The Valkey bus (valkey_bus.go): the channel published to and the patterns
    subscribed to *)

Definition valkeyChannelPrefix : string := "infractl:events:".

Definition ValkeyPublish (marshal : Event → option string) (send : string → string → option string)
    (uid : string) (now : Time) (event : Event) : option string :=
  let event := stamp uid now event in
  match marshal event with
  | None => Some "marshaling event"
  | Some data => send (valkeyChannelPrefix +:+ E_Kind event) data
  end.

Inductive valkeySubscription := Pattern (p : string) | Channels (cs : list string).

Definition ValkeySubscribe (kinds : list string) : valkeySubscription :=
  match kinds with
  | [] => Pattern (valkeyChannelPrefix +:+ "*")
  | _ => Channels (List.map (λ k, valkeyChannelPrefix +:+ k) kinds)
  end.

(** * The in-memory bus delivers *)

Lemma try_send_take e l : try_send e (take 100 l) = take 100 (l ++ [e]).
Proof.
  unfold try_send. rewrite length_take.
  destruct (Nat.ltb_spec (100 `min` length l) 100) as [Hlt|Hge].
  - rewrite !take_ge; [done|rewrite length_app; simpl; lia|lia].
  - rewrite take_app_le by lia. done.
Qed.

Definition publish_all (evs : list (string * Time * Event)) (b : list subscriber) : list subscriber :=
  foldl (λ b x, Publish x.1.1 x.1.2 x.2 b) b evs.

(** The events as published, with their ids and times. *)
Definition stamped (evs : list (string * Time * Event)) : list Event :=
  List.map (λ x, stamp x.1.1 x.1.2 x.2) evs.

(** The in-memory bus delivers to every subscriber the events of the kinds it
    asked for (all of them, if it asked for none), each once and in publication
    order, as long as its channel has room; what is published while the 100
    places are taken is dropped for this subscriber, and only for it. *)
Theorem bus_delivery evs b i s :
  b !! i = Some s → (length (sub_ch s) ≤ 100)%nat →
  publish_all evs b !! i =
  Some (MkSub (sub_kinds s) (take 100 (sub_ch s ++ bfilter (wants (sub_kinds s)) (stamped evs)))).
Proof.
  intros Hs Hlen.
  assert (∀ evs b l, b !! i = Some (MkSub (sub_kinds s) (take 100 l)) →
            publish_all evs b !! i =
            Some (MkSub (sub_kinds s) (take 100 (l ++ bfilter (wants (sub_kinds s)) (stamped evs))))) as Hgen.
  { clear. induction evs as [|x evs IH]; intros b l Hi; simpl.
    - unfold bfilter. simpl. by rewrite app_nil_r.
    - unfold bfilter in *. simpl.
      assert (Publish x.1.1 x.1.2 x.2 b !! i =
              Some (deliver (stamp x.1.1 x.1.2 x.2) (MkSub (sub_kinds s) (take 100 l)))) as Hp.
      { unfold Publish. by rewrite list_lookup_fmap, Hi. }
      unfold deliver in Hp. simpl in Hp. destruct (wants (sub_kinds s) _).
      + rewrite try_send_take in Hp. rewrite (IH _ (l ++ [stamp x.1.1 x.1.2 x.2])) by done.
        by rewrite <-app_assoc.
      + by rewrite (IH _ l). }
  apply Hgen. rewrite take_ge by done. by destruct s.
Qed.

(** * Channels of the PostgreSQL bus *)

Section pg_bus_props.
Context (unmarshal : string → option notifyPayload) (uuid_parse : string → option uuid).
Context (marshal : notifyPayload → string) (uuid_string : uuid → string).

Inductive pgbus_step : PgBus → PgBus → Prop :=
| pb_publish fault fault' uid now e b :
    pgbus_step b (PgPublish marshal uuid_string fault fault' uid now e b).2
| pb_notify now payload b : pgbus_step b (on_notification unmarshal uuid_parse now payload b)
| pb_subscribe id kinds b :  (* [make(chan Event, 100)] is a new channel *)
    id ∉ closed b → id ∉ List.map ps_id (subs b) → pgbus_step b (PgSubscribe id kinds b)
| pb_cancel id b : pgbus_step b (cancel_sub id b)
| pb_remove id b : pgbus_step b (removeSub id b)
| pb_cleanup fault now retention b : pgbus_step b (Cleanup fault now retention b).

Definition pgbus_inv (b : PgBus) : Prop :=
  NoDup (List.map ps_id (subs b)) ∧ NoDup (closed b) ∧
  (∀ id, id ∈ List.map ps_id (subs b) → id ∉ closed b) ∧
  Forall (λ s, (length (ps_ch s) ≤ 100)%nat) (subs b).

Lemma remove_first_sub_spec id l l' :
  remove_first_sub id l = Some l' → ∃ l1 s l2, l = l1 ++ s :: l2 ∧ l' = l1 ++ l2 ∧ ps_id s = id.
Proof.
  revert l'. induction l as [|s l IH]; intros l'; simpl; [done|].
  destruct (Nat.eqb_spec (ps_id s) id) as [Heq|Hne].
  - intros [= <-]. by exists [], s, l.
  - destruct (remove_first_sub id l) as [l0|]; [|done]. intros [= <-].
    destruct (IH l0 eq_refl) as (l1 & s' & l2 & -> & -> & Hid). by exists (s :: l1), s', l2.
Qed.

Lemma try_send_length e ch : (length ch ≤ 100 → length (try_send e ch) ≤ 100)%nat.
Proof. unfold try_send. destruct (Nat.ltb_spec (length ch) 100); [rewrite length_app; simpl|]; lia. Qed.

Lemma pgbus_inv_map f b tb :
  (∀ s, ps_id (f s) = ps_id s ∧ ((length (ps_ch s) ≤ 100)%nat → (length (ps_ch (f s)) ≤ 100)%nat)) →
  pgbus_inv b → pgbus_inv (MkPgBus tb (List.map f (subs b)) (listening b) (closed b)).
Proof.
  intros Hf (H1 & H2 & H3 & H4). unfold pgbus_inv. simpl. rewrite map_map.
  assert (List.map (λ x, ps_id (f x)) (subs b) = List.map ps_id (subs b)) as ->.
  { apply map_ext. intros s. apply Hf. }
  split_and!; [done..|]. apply Forall_fmap. eapply Forall_impl; [exact H4|]. intros s. apply Hf.
Qed.

Lemma pgbus_inv_step b b' : pgbus_step b b' → pgbus_inv b → pgbus_inv b'.
Proof.
  intros Hstep Hinv.
  destruct Hstep as [fault fault' uid now e b|now payload b|id kinds b Hc Hs|id b|id b|fault now retention b].
  - unfold PgPublish. destruct (PgStore.Save _ _ _ _ _) as [[err|] tb]; [done|]. by destruct fault'.
  - unfold on_notification. destruct (unmarshal payload) as [np|]; [|done].
    apply pgbus_inv_map; [|done]. intros s. unfold pg_deliver.
    destruct (ps_cancelled s); [done|]. destruct (wants _ _); [|done]. split; [done|]. apply try_send_length.
  - destruct Hinv as (H1 & H2 & H3 & H4). unfold pgbus_inv, PgSubscribe. simpl. rewrite map_app. simpl.
    split_and!; [|done| |].
    + apply NoDup_app. split_and!; [done| |apply NoDup_singleton]. set_solver.
    + intros x [Hx|Hx%list_elem_of_singleton]%elem_of_app; [by apply H3|by subst].
    + apply Forall_app. split; [done|]. repeat constructor.
  - apply pgbus_inv_map; [|done]. intros s. by destruct (ps_id s =? id)%nat.
  - unfold removeSub. destruct (remove_first_sub id (subs b)) as [l'|] eqn:Er; [|done].
    apply remove_first_sub_spec in Er as (l1 & s & l2 & Hl & -> & Hid).
    destruct Hinv as (H1 & H2 & H3 & H4). unfold pgbus_inv. simpl. rewrite Hl in *.
    rewrite map_app in *. simpl in *. apply NoDup_app in H1 as (Hn1 & Hn2 & [Hn3 Hn4]%NoDup_cons).
    apply Forall_app in H4 as [Hf1 [_ Hf2]%Forall_cons].
    split_and!; [apply NoDup_app; set_solver| | |by apply Forall_app].
    + apply NoDup_app. split_and!; [done| |apply NoDup_singleton]. set_solver.
    + intros x Hx [Hc|Hc%list_elem_of_singleton]%elem_of_app; [|subst; set_solver]. by apply (H3 x); [set_solver|].
  - unfold Cleanup. by destruct fault.
Qed.

(** C18: the channels of the PostgreSQL bus are closed safely.  However
    subscriptions, cancellations, notifications and removals interleave, a
    channel is closed at most once, a closed channel is never sent to (its
    subscriber is no longer in the list a notification is delivered to), and no
    channel ever holds more than its 100 events. *)
Theorem pgbus_channels_safe b :
  rtc pgbus_step (NewPgBus []) b →
  NoDup (closed b) ∧
  (∀ s, s ∈ subs b → (ps_id s ∉ closed b) ∧ (length (ps_ch s) ≤ 100)%nat) ∧
  (∀ id, id ∈ List.map ps_id (subs b) → closed (removeSub id b) = closed b ++ [id] ∧
         id ∉ List.map ps_id (subs (removeSub id b))).
Proof.
  intros Hsteps. assert (pgbus_inv b) as (H1 & H2 & H3 & H4).
  { assert (∀ b b', rtc pgbus_step b b' → pgbus_inv b → pgbus_inv b') as Hgen.
    { induction 1; eauto using pgbus_inv_step. }
    apply (Hgen _ _ Hsteps). split_and!; simpl; [constructor|constructor|by intros ? ?%elem_of_nil|constructor]. }
  split_and!; [done| |].
  - intros s Hs. split; [apply H3; by apply list_elem_of_fmap_2|]. rewrite Forall_forall in H4. by apply H4.
  - intros id Hid. unfold removeSub. destruct (remove_first_sub id (subs b)) as [l'|] eqn:Er.
    + apply remove_first_sub_spec in Er as (l1 & s & l2 & Hl & -> & Hs). simpl. split; [done|].
      rewrite Hl, map_app in *. simpl in *. apply NoDup_app in H1 as (_ & Hn2 & [Hn3 _]%NoDup_cons).
      set_solver.
    + exfalso. clear -Hid Er. induction (subs b) as [|s l IH]; simpl in *; [by apply elem_of_nil in Hid|].
      destruct (Nat.eqb_spec (ps_id s) id) as [|Hne]; [done|].
      destruct (remove_first_sub id l); [done|]. apply elem_of_cons in Hid as [->|Hid]; auto.
Qed.

End pg_bus_props.

(** * The stores *)

(** The two event stores disagree past the end: with an offset at or beyond
    the number of matching events the in-memory store ignores the offset and
    returns the first events again, the PostgreSQL store returns none. *)
Theorem offset_past_end `{EventOrder} orgID opts s :
  eo_Limit opts = 0 → Z.of_nat (length (bfilter (matches orgID opts) s)) ≤ eo_Offset opts → 0 < eo_Offset opts →
  MemStore.List orgID opts s = bfilter (matches orgID opts) s ∧
  PgStore.List None orgID opts s = inr [].
Proof.
  intros Hlim Hoff Hpos. split.
  - unfold MemStore.List. rewrite Hlim. simpl.
    assert (((0 <? eo_Offset opts) && (eo_Offset opts <? Z.of_nat (length (bfilter (matches orgID opts) s)))) = false)
      as -> by lia.
    done.
  - unfold PgStore.List. rewrite Hlim. assert ((0 <? eo_Offset opts) = true) as -> by lia.
    rewrite drop_ge; [done|]. rewrite newest_first_perm. lia.
Qed.

(** * Witnesses *)

Definition ev_le (a b : Event) : Prop := E_Timestamp b ≤ E_Timestamp a.

#[global] Instance ev_le_dec : RelDecision ev_le.
Proof. intros a b. unfold ev_le. apply _. Defined.

#[global] Program Instance merge_EventOrder : EventOrder := { newest_first := merge_sort ev_le }.
Next Obligation. intros l. apply merge_sort_Permutation. Qed.
Next Obligation.
  intros l. assert (Transitive ev_le) by (intros a b c; unfold ev_le; lia).
  assert (Total ev_le) by (intros a b; unfold ev_le; lia).
  apply (StronglySorted_merge_sort ev_le).
Qed.

Definition ev (id : string) (t : Time) : Event := MkEvent id 1 "vm" "n" "created" t None.

Lemma bus_delivery_witness :
  let b := Subscribe ["vm"] (Subscribe ["net"] NewInMemoryBus) in
  publish_all [("u", 1, ev "a" 1); ("u", 2, MkEvent "x" 1 "net" "n" "created" 1 None); ("u", 3, ev "" 0)] b !! 1%nat =
  Some (MkSub {["vm"]} [ev "a" 1; ev "u" 3]).
Proof.
  intros b. refine (eq_trans (bus_delivery _ b 1 (MkSub {["vm"]} []) _ _) _).
  - vm_compute. reflexivity.
  - simpl. lia.
  - vm_compute. reflexivity.
Defined.

Lemma pgbus_channels_safe_witness :
  let b1 := PgSubscribe 0 [] (NewPgBus []) in
  let b2 := removeSub 0 (cancel_sub 0 b1) in
  closed b2 = [0%nat] ∧ NoDup (closed b2).
Proof.
  intros b1 b2. split; [reflexivity|].
  assert (rtc (pgbus_step (λ _, None) (λ _, None) (λ _, "") (λ _, "")) (NewPgBus []) b2) as Hr.
  { apply (rtc_l _ _ b1); [apply pb_subscribe; apply not_elem_of_nil|].
    apply (rtc_l _ _ (cancel_sub 0 b1)); [apply pb_cancel|].
    apply (rtc_l _ _ b2); [apply pb_remove|apply rtc_refl]. }
  apply (pgbus_channels_safe _ _ _ _ b2 Hr).
Defined.

Lemma offset_past_end_witness :
  MemStore.List 1%N (MkEventOpts 0 5 "" "") [ev "a" 1] = [ev "a" 1] ∧
  PgStore.List None 1%N (MkEventOpts 0 5 "" "") [ev "a" 1] = inr [].
Proof. apply (offset_past_end 1%N (MkEventOpts 0 5 "" "") [ev "a" 1]); vm_compute; [reflexivity|discriminate|reflexivity]. Defined.
