(* ===== verification/Webhook.v ===== *)
(** Webhook delivery (src/platform/webhook/provider.go): the loop that takes the
    events of the bus, the choice of the webhooks an event goes to, and one
    delivery with the status it records. *)

From S2P Require Import Prelude GoStrings GoJson JsonPrint Resource Gorm Models Nesting Store Columns StoreProps StoreSpec Events.

(** The request [deliver] sends. *)
Record http_request := MkHttpRequest {
  q_Method : string;
  q_URL : string;
  q_ContentType : string;
  q_ContentLength : Z;
  q_Body : string;
}.

(** What [client.Do] gives: the status code of the response, if there is one, and
    the error, if there is one. *)
Record outcome := MkOutcome { out_resp : option Z; out_err : option string }.

(** * Filters *)

(** The loops over [spec.Events] and [spec.Kinds]. *)
Fixpoint found (l : list string) (v : string) : bool :=
  match l with
  | [] => false
  | e :: l => if String.eqb e v || String.eqb e "*" then true else found l v
  end.

Definition matchesFilter (spec : WebhookSpec) (evt : Event) : bool :=
  let events := default [] (Events spec) in
  let kinds := default [] (Kinds spec) in
  if (0 <? length events)%nat && negb (found events (E_Action evt)) then false
  else if (0 <? length kinds)%nat && negb (found kinds (E_Kind evt)) then false
  else true.

(** A failed attempt counts, a success resets. *)
Definition failureCount (current : Z) (err : option string) (statusCode : Z) : Z :=
  match err with
  | Some _ => i64 (current + 1)
  | None => if 400 <=? statusCode then i64 (current + 1) else 0
  end.

Module WebhookProvider.
Section provider.

(** [json.Marshal] of an event, whose payload may be anything; whether
    [http.NewRequest] accepts the URL; the RFC 3339 text of a time. *)
Context (marshal_event : Event → option string) (url_ok : string → bool) (rfc3339 : Time → string).

(** The goroutines started for an event: the webhooks it is delivered to. *)
Definition deliverEvent (evt : Event) : prog Webhook (list Webhook) :=
  webhooks ← call (ASelect (λ w : Webhook, N.eqb (OrgID (base w)) (E_OrgID evt)));
  match webhooks with
  | inl _ => Ret []
  | inr webhooks => Ret (bfilter (λ w, Active (o_spec w) && matchesFilter (o_spec w) evt) webhooks)
  end.

(** The loop over the channel, for the events received so far. *)
Fixpoint startDeliveryLoop (ch : list Event) : prog Webhook (list (Webhook * Event)) :=
  match ch with
  | [] => Ret []
  | evt :: ch =>
      ws ← deliverEvent evt;
      rest ← startDeliveryLoop ch;
      Ret (List.map (λ w, (w, evt)) ws ++ rest)
  end.

(** The row [deliver] writes: the whole status, and the time GORM sets. *)
Definition delivered (now : Time) (st : WebhookStatus) (w : Webhook) : Webhook :=
  on_base (λ b, SetTimes (CreatedAt b) now b) (MkObject (o_base w) (o_spec w) st).

Definition new_status (now : Time) (wh : Webhook) (o : outcome) : WebhookStatus :=
  let statusCode := default 0 (out_resp o) in
  MkWebhookStatus "Active" (rfc3339 now) statusCode
    (failureCount (FailureCount (o_status wh)) (out_err o) statusCode).

(** One delivery; the outcome of the request is given.  An event that cannot be
    encoded and a URL that is none end it before anything is sent or recorded;
    the result of the update is ignored. *)
Definition deliver (now : Time) (o : outcome) (wh : Webhook) (evt : Event) : prog Webhook (option http_request) :=
  match marshal_event evt with
  | None => Ret None
  | Some body =>
      if url_ok (URL (o_spec wh)) then
        _ ← call (AUpdates (by_key (OrgID (base wh)) (Name (base wh))) (delivered now (new_status now wh o)));
        Ret (Some (MkHttpRequest "POST" (URL (o_spec wh)) "application/json" (slen body) body))
      else Ret None
  end.

(** Deliveries of an event to one webhook, one after the other, each from the
    row the previous one left. *)
Fixpoint deliveries (orgID : uuid) (name : string) (evt : Event) (l : list (Time * outcome)) : prog Webhook unit :=
  match l with
  | [] => Ret tt
  | (now, o) :: l =>
      w ← call (AFirst (by_key orgID name));
      match w with
      | inl _ => Ret tt
      | inr w => _ ← deliver now o w evt; deliveries orgID name evt l
      end
  end.

End provider.
End WebhookProvider.
Import WebhookProvider.

(** * Which webhooks an event reaches *)

Lemma found_spec l v : found l v = true ↔ v ∈ l ∨ "*" ∈ l.
Proof.
  induction l as [|e l IH]; simpl; [set_solver|].
  destruct (String.eqb_spec e v), (String.eqb_spec e "*"); simpl; subst; set_solver.
Qed.

(** A list of patterns admits a value: it is empty, or holds the value or [*]. *)
Definition admits (l : option (list string)) (v : string) : Prop :=
  default [] l = [] ∨ v ∈ default [] l ∨ "*" ∈ default [] l.

Lemma rejects_spec l v : ((0 <? length l)%nat && negb (found l v)) = false ↔ l = [] ∨ v ∈ l ∨ "*" ∈ l.
Proof.
  rewrite <-found_spec, andb_false_iff, negb_false_iff. destruct l as [|e l]; [naive_solver|].
  split; [intros [|]; [done|auto]|]. intros [|]; [done|auto].
Qed.

Lemma matchesFilter_spec spec evt :
  matchesFilter spec evt = true ↔ admits (Events spec) (E_Action evt) ∧ admits (Kinds spec) (E_Kind evt).
Proof.
  unfold matchesFilter, admits. rewrite <-!rejects_spec.
  destruct (_ && _), (_ && _); naive_solver.
Qed.

Section delivery.
Context {D : Type} `{!Database Webhook D} `{!DatabaseLaws Webhook D}.
Implicit Types (d : D) (w : Webhook) (evt : Event).

Definition reached evt w : Prop :=
  live w = true ∧ OrgID (base w) = E_OrgID evt ∧ Active (o_spec w) = true ∧
  admits (Events (o_spec w)) (E_Action evt) ∧ admits (Kinds (o_spec w)) (E_Kind evt).

Lemma deliverEvent_targets evt d :
  healthy d = true →
  rows (run (deliverEvent evt) d).2 = rows d ∧ healthy (run (deliverEvent evt) d).2 = true ∧
  NoDup (run (deliverEvent evt) d).1 ∧
  ∀ w, w ∈ (run (deliverEvent evt) d).1 ↔ w ∈ rows d ∧ reached evt w.
Proof.
  intros Hh. unfold deliverEvent. simpl. set (q := λ w : Webhook, _).
  pose proof (exec_ok (ASelect q) d) as Hok. pose proof (exec_answers (ASelect q) d Hh) as Ha.
  pose proof (exec_healthy (ASelect q) d Hh) as Hh'.
  destruct (exec (ASelect q) d) as [[e|l] d']; simpl in *; [done|]. destruct Hok as [Hr Hl].
  specialize (Hl l eq_refl). split_and!; [done|done| |].
  - apply NoDup_bfilter. rewrite Hl. apply NoDup_bfilter. eapply NoDup_fmap_1, rows_unique.
  - intros w. rewrite elem_of_bfilter, Hl, elem_of_visible. unfold q, reached.
    rewrite andb_true_iff, matchesFilter_spec, N.eqb_eq. tauto.
Qed.

(** * From the bus to the deliveries *)

(** A sequence of publications, with the id and the time of each. *)
Definition publish_all (es : list (string * Time * Event)) (b : list subscriber) : list subscriber :=
  foldl (λ b '(uid, now, e), Publish uid now e b) b es.

Definition stamped (es : list (string * Time * Event)) : list Event :=
  List.map (λ '(uid, now, e), stamp uid now e) es.

Lemma publish_all_last es b ch :
  (length ch + length es ≤ 100)%nat →
  ∃ b', publish_all es (b ++ [MkSub ∅ ch]) = b' ++ [MkSub ∅ (ch ++ stamped es)].
Proof.
  revert b ch. induction es as [|[[uid now] e] es IH]; intros b ch Hlen; simpl in *.
  { exists b. by rewrite app_nil_r. }
  unfold publish_all in *. simpl. unfold Publish at 2. rewrite map_app. simpl.
  assert (Events.deliver (stamp uid now e) (MkSub ∅ ch) = MkSub ∅ (ch ++ [stamp uid now e])) as ->.
  { unfold Events.deliver, wants, try_send. simpl. rewrite bool_decide_true by done. simpl.
    replace (length ch <? 100)%nat with true; [done|]. symmetry. apply Nat.ltb_lt. lia. }
  destruct (IH (List.map (Events.deliver (stamp uid now e)) b) (ch ++ [stamp uid now e])) as [b' Hb'].
  { rewrite length_app. simpl. lia. }
  exists b'. rewrite Hb', <-app_assoc. done.
Qed.

Lemma delivery_loop_targets ch d :
  healthy d = true →
  rows (run (startDeliveryLoop ch) d).2 = rows d ∧
  ∀ w evt, (w, evt) ∈ (run (startDeliveryLoop ch) d).1 ↔ evt ∈ ch ∧ w ∈ rows d ∧ reached evt w.
Proof.
  revert d. induction ch as [|evt ch IH]; intros d Hh.
  { simpl. split; [done|]. set_solver. }
  cbn [startDeliveryLoop]. rewrite run_bind. destruct (deliverEvent_targets evt d Hh) as (Hr & Hh' & _ & Ht).
  destruct (run (deliverEvent evt) d) as [ws d1]; simpl in *. rewrite run_bind. specialize (IH d1 Hh') as [Hr2 Ht2].
  destruct (run (startDeliveryLoop ch) d1) as [rest d2]; simpl in *. split; [congruence|].
  intros w e. rewrite elem_of_app, list_elem_of_fmap, Ht2, Hr, elem_of_cons. split.
  - intros [(w' & [= -> ->] & Hw)|(He & Hw & Hre)]; [|by auto]. apply Ht in Hw as [Hw Hre]. auto.
  - intros ([->|He] & Hw & Hre); [left; exists w; split; [done|]; by apply Ht|auto].
Qed.


(** * The failure count *)

Context (marshal_event : Event → option string) (url_ok : string → bool) (rfc3339 : Time → string).

Definition failed (o : outcome) : bool :=
  match out_err o with Some _ => true | None => 400 <=? default 0 (out_resp o) end.

Lemma failureCount_failed c o :
  failureCount c (out_err o) (default 0 (out_resp o)) = if failed o then i64 (c + 1) else 0.
Proof. unfold failureCount, failed. by destruct (out_err o). Qed.

(** A delivery from a copy [w] of the row, which may have changed to [r] since. *)
Lemma deliver_row now o w evt d r orgID name :
  healthy d = true → abs_live (rows d) !! (orgID, name) = Some r → key w = (orgID, name) →
  is_Some (marshal_event evt) → url_ok (URL (o_spec w)) = true →
  let d' := (run (WebhookProvider.deliver marshal_event url_ok rfc3339 now o w evt) d).2 in
  healthy d' = true ∧
  abs (rows d') = MkAbs (<[(orgID, name) := delivered now (new_status rfc3339 now w o) r]> (abs_live (rows d))) (abs_dead (rows d)).
Proof.
  intros Hh Hr [= Ho Hn] [body Hb] Hu.
  cbv zeta. split; [by apply run_healthy|]. unfold deliver. rewrite Hb, Hu. simpl. rewrite Ho, Hn.
  pose proof (updates_by_key orgID name (delivered now (new_status rfc3339 now w o)) d Hh (λ _, eq_refl) (λ _, eq_refl)) as Hk.
  destruct (exec _ d) as [x d']. simpl in *. by rewrite Hk, Hr.
Qed.

Lemma deliveries_count l orgID name evt d w :
  healthy d = true → abs_live (rows d) !! (orgID, name) = Some w →
  is_Some (marshal_event evt) → url_ok (URL (o_spec w)) = true →
  ∃ w', abs_live (rows (run (deliveries marshal_event url_ok rfc3339 orgID name evt l) d).2) !! (orgID, name) = Some w' ∧
    o_spec w' = o_spec w ∧ ResourceVersion (base w') = ResourceVersion (base w) ∧
    FailureCount (o_status w') = foldl (λ c o, if failed o then i64 (c + 1) else 0) (FailureCount (o_status w)) l.*2.
Proof.
  revert d w. induction l as [|[now o] l IH]; intros d w Hh Hw He Hu; [by exists w|].
  cbn [deliveries]. simpl. pose proof (first_lookup orgID name d Hh) as Hf. rewrite Hw in Hf.
  pose proof (exec_healthy (AFirst (by_key orgID name)) d Hh) as Hh1.
  pose proof (exec_first_rows (by_key orgID name) d) as Hr1.
  destruct (exec _ d) as [x d1]. simpl in *. subst x. rewrite run_bind.
  assert (key w = (orgID, name)) as Hk by (by apply abs_live_Some in Hw as (_ & _ & ?); [|apply rows_unique]).
  destruct (deliver_row now o w evt d1 w orgID name Hh1 ltac:(by rewrite Hr1) Hk He Hu) as [Hh2 Ha].
  destruct (run (deliver _ _ _ now o w evt) d1) as [u d2]. simpl in Hh2, Ha. rewrite Hr1 in Ha.
  injection Ha as Hlive _. set (w1 := delivered now (new_status rfc3339 now w o) w) in *.
  destruct (IH d2 w1) as (w' & Hl & Hs & Hv & Hc); [done|by rewrite Hlive, lookup_insert_eq|done|done|].
  exists w'. split; [done|]. rewrite Hc, Hs, Hv. split_and!; [done|done|].
  simpl. by rewrite failureCount_failed.
Qed.

Lemma count_failures (l : list outcome) c :
  Forall (λ o, failed o = true) l → 0 ≤ c → c + Z.of_nat (length l) < 2 ^ 63 →
  foldl (λ c o, if failed o then i64 (c + 1) else 0) c l = c + Z.of_nat (length l).
Proof.
  revert c. induction l as [|o l IH]; intros c Hf Hc Hlen; simpl in *; [lia|].
  apply Forall_cons in Hf as [Ho Hf]. rewrite Ho, i64_id by lia. rewrite IH by (done || lia). lia.
Qed.

(** The failure count of a webhook is the number of failures since its last
    success.  After deliveries to it one after the other, of which one succeeded
    and the [length fails] after it failed, the stored count is [length fails];
    the spec and the version of the webhook are as before. *)
Theorem failure_count_consecutive pre now ok fails orgID name evt d w :
  healthy d = true → abs_live (rows d) !! (orgID, name) = Some w →
  is_Some (marshal_event evt) → url_ok (URL (o_spec w)) = true →
  failed ok = false → Forall (λ o, failed o = true) fails.*2 → Z.of_nat (length fails) < 2 ^ 63 →
  ∃ w', abs_live (rows (run (deliveries marshal_event url_ok rfc3339 orgID name evt
                               (pre ++ (now, ok) :: fails)) d).2) !! (orgID, name) = Some w' ∧
    FailureCount (o_status w') = Z.of_nat (length fails) ∧
    o_spec w' = o_spec w ∧ ResourceVersion (base w') = ResourceVersion (base w).
Proof.
  intros Hh Hw He Hu Hok Hf Hlen.
  destruct (deliveries_count (pre ++ (now, ok) :: fails) orgID name evt d w Hh Hw He Hu) as (w' & Hl & Hs & Hv & Hc).
  exists w'. split_and!; [done| |done|done]. rewrite Hc, fmap_app, foldl_app, fmap_cons. simpl. rewrite Hok.
  rewrite count_failures by (rewrite ?length_fmap; done || lia). by rewrite length_fmap.
Qed.

(** Two failing deliveries that both start from the same copy of the webhook, as
    the goroutines of two events do, are counted once. *)
Theorem overlapping_failures_counted_once now1 now2 o1 o2 evt1 evt2 orgID name d w :
  healthy d = true → abs_live (rows d) !! (orgID, name) = Some w →
  is_Some (marshal_event evt1) → is_Some (marshal_event evt2) → url_ok (URL (o_spec w)) = true →
  failed o1 = true → failed o2 = true →
  let m := _ ← deliver marshal_event url_ok rfc3339 now1 o1 w evt1; deliver marshal_event url_ok rfc3339 now2 o2 w evt2 in
  ∃ w', abs_live (rows (run m d).2) !! (orgID, name) = Some w' ∧
    FailureCount (o_status w') = i64 (FailureCount (o_status w) + 1).
Proof.
  intros Hh Hw He1 He2 Hu Ho1 Ho2 m. unfold m. rewrite run_bind.
  assert (key w = (orgID, name)) as Hk by (by apply abs_live_Some in Hw as (_ & _ & ?); [|apply rows_unique]).
  destruct (deliver_row now1 o1 w evt1 d w orgID name Hh Hw Hk He1 Hu) as [Hh1 [= Hl1 _]].
  destruct (run (deliver _ _ _ now1 o1 w evt1) d) as [x d1]. simpl in Hh1, Hl1.
  destruct (deliver_row now2 o2 w evt2 d1 _ orgID name Hh1 ltac:(by rewrite Hl1, lookup_insert_eq) Hk He2 Hu) as [_ [= Hl2 _]].
  eexists. rewrite Hl2, lookup_insert_eq. split; [done|]. simpl. by rewrite failureCount_failed, Ho2.
Qed.
End delivery.

(** * Witnesses *)

Definition hook (name : string) (events : list string) (active : bool) : Webhook :=
  MkObject (MkResource 1 name None None None None 1 1 None "" 1 1 None None)
    (MkWebhookSpec "http://h" "" (Some events) None active) (MkWebhookStatus "Active" "" 0 0).

Definition hook_db : MemDB Webhook :=
  MkMem [hook "a" ["create"] true; hook "b" ["*"] false; hook "c" ["delete"] true] true.

Definition created : Event := MkEvent "" 1 "Machine" "m1" "create" 0 None.


Lemma failure_count_consecutive_witness :
  ∃ w', abs_live (rows (run (deliveries (λ _, Some "{}") (λ _, true) (λ _, "t") 1%N "a" created
      [(1, MkOutcome (Some 500) None); (2, MkOutcome (Some 204) None);
       (3, MkOutcome None (Some "timeout")); (4, MkOutcome (Some 404) None)]) hook_db).2) !! (1%N, "a") = Some w' ∧
    FailureCount (o_status w') = 2.
Proof.
  destruct (failure_count_consecutive (D := MemDB Webhook) (λ _, Some "{}") (λ _, true) (λ _, "t")
    [(1, MkOutcome (Some 500) None)] 2 (MkOutcome (Some 204) None)
    [(3, MkOutcome None (Some "timeout")); (4, MkOutcome (Some 404) None)] 1%N "a" created hook_db (hook "a" ["create"] true))
    as (w' & Hl & Hc & _); [reflexivity|reflexivity|by eexists|reflexivity|reflexivity|by repeat constructor|done|].
  exists w'. split; [exact Hl|exact Hc].
Defined.
