(* ===== verification/Auth.v ===== *)
(** Authentication, tenancy and authorization (src/auth): subjects and tenant
    sets, the tenancy and attribution logics, the middleware chain of the HTTP
    server, and the policy authorizer. *)

From S2P Require Import Prelude GoStrings GoJson Resource.
From Stdlib Require Import Ascii DecimalString DecimalN DecimalPos.

(** * Subjects (subject.go) *)

Record TenantSet := MkTenantSet { universal : bool; tenants : gset string }.

Record Subject := MkSubject { User : string; Tenants : TenantSet }.

Definition NewTenantSet (ids : list string) : TenantSet := MkTenantSet false (list_to_set ids).

Definition UniversalTenantSet : TenantSet := MkTenantSet true ∅.

Definition Contains (ts : TenantSet) (id : string) : bool :=
  universal ts || bool_decide (id ∈ tenants ts).

Definition Add (id : string) (ts : TenantSet) : TenantSet :=
  if universal ts then ts else MkTenantSet (universal ts) ({[id]} ∪ tenants ts).

(** The order in which [range] visits the keys of a map: any order of its
    elements. *)
Class RangeOrder := {
  range_set : gset string → list string;
  range_set_perm s : range_set s ≡ₚ elements s;
}.

Definition Values `{RangeOrder} (ts : TenantSet) : list string :=
  if universal ts then [] else range_set (tenants ts).

Definition IsUniversal (ts : TenantSet) : bool := universal ts.

Definition Len (ts : TenantSet) : Z := if universal ts then -1 else Z.of_nat (size (tenants ts)).

(** * The request context (middleware.go)

    The two values the middleware stores: a missing subject and a nil pointer
    read back the same. *)

Record context := MkContext { ctx_subject : option Subject; ctx_orgID : option uuid }.

Definition SubjectFromContext (ctx : context) : string + Subject :=
  match ctx_subject ctx with
  | None => inl "no authenticated subject in context"
  | Some sub => inr sub
  end.

Definition ContextWithSubject (ctx : context) (sub : Subject) : context :=
  MkContext (Some sub) (ctx_orgID ctx).

Definition ContextWithOrgID (ctx : context) (orgID : uuid) : context :=
  MkContext (ctx_subject ctx) (Some orgID).

Definition OrgIDFromContext (ctx : context) : string + uuid :=
  match ctx_orgID ctx with
  | None => inl "no org ID in context (Tenancy middleware not configured?)"
  | Some id => inr id
  end.

(** * Tenancy (tenancy.go) and attribution (attribution.go) *)

Record TenancyLogic := MkTenancyLogic {
  DetermineAssignableTenants : context → string + TenantSet;
  DetermineDefaultTenants : context → string + TenantSet;
  DetermineVisibleTenants : context → string + TenantSet;
}.

Definition subject_tenants (ctx : context) : string + TenantSet :=
  let? sub := SubjectFromContext ctx in inr (Tenants sub).

Definition DefaultTenancyLogic : TenancyLogic :=
  MkTenancyLogic subject_tenants subject_tenants subject_tenants.

Definition guest_tenants (DefaultTenant : string) (_ : context) : string + TenantSet :=
  if String.eqb DefaultTenant "" then inl "guest tenancy: no default tenant configured"
  else inr (NewTenantSet [DefaultTenant]).

Definition GuestTenancyLogic (DefaultTenant : string) : TenancyLogic :=
  MkTenancyLogic (guest_tenants DefaultTenant) (guest_tenants DefaultTenant) (guest_tenants DefaultTenant).

Definition AttributionLogic : Type := context → string + string.

Definition SubjectAttributionLogic : AttributionLogic := λ ctx,
  let? subject := SubjectFromContext ctx in inr (User subject).

Definition GuestAttributionLogic (Creator : string) : AttributionLogic := λ _, inr Creator.

(** * Requests *)

Record request := MkRequest {
  r_Method : string;
  r_Path : string;
  r_Header : string → string;
  r_Query : string → string;
  r_Param : string → string;
  r_Body : string;
}.

(** An authenticator returns an error or a subject: the source's convention
    that a nil error comes with a subject holds for both of its
    implementations. *)
Definition Authenticator : Type := request → string + Subject.

Definition guest (GuestUser GuestTenant : string) : string + Subject :=
  let user := if String.eqb GuestUser "" then "guest" else GuestUser in
  let tenant := if String.eqb GuestTenant "" then "00000000-0000-0000-0000-000000000001" else GuestTenant in
  inr (MkSubject user (NewTenantSet [tenant])).

Definition GuestAuthenticate (GuestUser GuestTenant : string) : Authenticator := λ _, guest GuestUser GuestTenant.

Definition Authorizer : Type := context → Subject → string → string → option string.

Definition AllowAllAuthorizer : Authorizer := λ _ _ _ _, None.

(** * Identity providers (identity_provider.go) *)

Record OrgProvisionResult := MkProvision { pr_ExternalID : string; AdminUserID : string; AdminSecret : string }.

Definition NoOpProvisionOrganization (orgName displayName : string) : string + OrgProvisionResult :=
  inr (MkProvision orgName "" "").

Definition NoOpDeprovisionOrganization (orgName : string) : option string := None.

(** * The action and the resource of a request (middleware.go) *)

Definition methodToAction (method : string) : string :=
  if String.eqb method "GET" then "read"
  else if String.eqb method "POST" then "create"
  else if String.eqb method "PUT" || String.eqb method "PATCH" then "update"
  else if String.eqb method "DELETE" then "delete"
  else "unknown".

(** The loop over the bytes: [cur] is [path[start:i]], a slash or the end of
    the path closes it. *)
Fixpoint splitPath_go (cur path : string) : list string :=
  match path with
  | "" => if String.eqb cur "" then [] else [cur]
  | String c path =>
      if Ascii.eqb c "/" then (if String.eqb cur "" then [] else [cur]) ++ splitPath_go "" path
      else splitPath_go (cur +:+ String c "") path
  end.

Definition splitPath (path : string) : list string := splitPath_go "" path.

(** The segments the loop skips: [api], the empty one, and those of at most
    three bytes that begin with [v]. *)
Definition skipped (seg : string) : bool :=
  String.eqb seg "api" || String.eqb seg "" ||
  match seg with String c _ => Ascii.eqb c "v" && (String.length seg <=? 3)%nat | "" => false end.

Definition extractResource (path : string) : string :=
  let segments := splitPath path in
  match List.find (λ seg, negb (skipped seg)) segments with
  | Some seg => seg
  | None => default "" (last segments)
  end.

(** * The middleware chain (middleware.go)

    A handler maps the context and the request to its effect, of any type
    [T]; [Error] is the effect of [http.Error]. *)

Class Uuid := {
  uuid_parse : string → string + uuid;
  uuid_string : uuid → string;
}.

Class UuidLaws `{Uuid} : Prop := {
  uuid_parse_string u : uuid_parse (uuid_string u) = inr u;
}.

Section middleware.
Context `{Uuid} `{RangeOrder} {T : Type} (Error : Z → string → T).

Definition http_handler : Type := context → request → T.

Definition Tenancy (logic : TenancyLogic) (next : http_handler) : http_handler := λ ctx r,
  let raw := r_Header r "X-Org-ID" in
  if negb (String.eqb raw "") then
    match uuid_parse raw with
    | inl err => Error 400 ("Bad Request: invalid X-Org-ID: " +:+ err)
    | inr parsed =>
        match DetermineVisibleTenants logic ctx with
        | inl err => Error 500 ("Internal Server Error: " +:+ err)
        | inr visible =>
            if negb (IsUniversal visible) && negb (Contains visible (uuid_string parsed))
            then Error 403 "Forbidden: tenant not accessible"
            else next (ContextWithOrgID ctx parsed) r
        end
    end
  else
    match DetermineDefaultTenants logic ctx with
    | inl err => Error 500 ("Internal Server Error: " +:+ err)
    | inr defaults =>
        match Values defaults with
        | [v] =>
            match uuid_parse v with
            | inl _ => Error 500 "Internal Server Error: default tenant is not a valid UUID"
            | inr parsed => next (ContextWithOrgID ctx parsed) r
            end
        | _ => Error 400 "Bad Request: X-Org-ID header required"
        end
    end.

Definition AuthN (authn : Authenticator) (next : http_handler) : http_handler := λ ctx r,
  match authn r with
  | inl err => Error 401 ("Unauthorized: " +:+ err)
  | inr subject => next (ContextWithSubject ctx subject) r
  end.

Definition AuthZ (authz : Authorizer) (next : http_handler) : http_handler := λ ctx r,
  match SubjectFromContext ctx with
  | inl err => Error 403 ("Forbidden: " +:+ err)
  | inr subject =>
      let resource := extractResource (r_Path r) in
      let action := methodToAction (r_Method r) in
      match authz ctx subject resource action with
      | Some err => Error 403 ("Forbidden: " +:+ err)
      | None => next ctx r
      end
  end.

(** The order in which the server installs them
    (cmd/infractl-server/main.go). *)
Definition chain (authn : Authenticator) (logic : TenancyLogic) (authz : Authorizer) (next : http_handler)
  : http_handler :=
  AuthN authn (Tenancy logic (AuthZ authz next)).

End middleware.
Arguments http_handler : clear implicits.

(** * The policy authorizer (opa.go)

    The file system and the policy engine are parameters: [read_dir] lists the
    entries of the policy directory with their directory flag, [read_file]
    reads one of them, [parse_module] and [compile] build the policy, and
    [eval] returns the result set, each result being the list of its
    expression values. *)

Record opa_input := MkInput {
  in_user : string;
  in_tenants : list string;
  in_resource : string;
  in_action : string;
}.

Section opa.
Context `{RangeOrder} {M C : Type}.
Context (read_dir : string → string + list (string * bool)).
Context (read_file : string → string → string + string).
Context (parse_module : string → string → string + M).
Context (compile : gmap string M → string + C).
Context (eval : C → string → opa_input → string + list (list json)).

Record OPAAuthorizer := MkOPA { PolicyDir : string; DefaultPolicy : string; compiler : option C }.

Fixpoint load_loop (dir : string) (entries : list (string * bool)) (modules : gmap string M)
  : string + gmap string M :=
  match entries with
  | [] => inr modules
  | (name, is_dir) :: entries =>
      if is_dir || negb (HasSuffix name ".rego") then load_loop dir entries modules
      else
        match read_file dir name with
        | inl err => inl ("reading policy file " +:+ name +:+ ": " +:+ err)
        | inr data =>
            match parse_module name data with
            | inl err => inl ("parsing policy file " +:+ name +:+ ": " +:+ err)
            | inr parsed => load_loop dir entries (<[name := parsed]> modules)
            end
        end
  end.

Definition loadPolicies (a : OPAAuthorizer) : option string * OPAAuthorizer :=
  match read_dir (PolicyDir a) with
  | inl err => (Some ("reading policy directory: " +:+ err), a)
  | inr entries =>
      match load_loop (PolicyDir a) entries ∅ with
      | inl err => (Some err, a)
      | inr modules =>
          match compile modules with
          | inl err => (Some ("compiling policies: " +:+ err), a)
          | inr c => (None, MkOPA (PolicyDir a) (DefaultPolicy a) (Some c))
          end
      end
  end.

Definition NewOPAAuthorizer (dir policy : string) : string + OPAAuthorizer :=
  let policy := if String.eqb policy "" then "data.infractl.authz.allow" else policy in
  match loadPolicies (MkOPA dir policy None) with
  | (Some err, _) => inl err
  | (None, a) => inr a
  end.

Definition ReloadPolicies (a : OPAAuthorizer) : option string * OPAAuthorizer := loadPolicies a.

(** [None] for the compiler does not occur: every authorizer comes from
    [NewOPAAuthorizer]. *)
Definition OPAAuthorize (a : OPAAuthorizer) (subject : Subject) (resource action : string) : option string :=
  let input := MkInput (User subject) (Values (Tenants subject)) resource action in
  let denied := Some ("access denied: " +:+ action +:+ " " +:+ resource) in
  match compiler a with
  | None => denied
  | Some c =>
      match eval c (DefaultPolicy a) input with
      | inl err => Some ("policy evaluation failed: " +:+ err)
      | inr ((JBool true :: _) :: _) => None
      | inr _ => denied
      end
  end.

End opa.
Arguments OPAAuthorizer : clear implicits.

(** * Paths *)

Definition nonempty (s : string) : bool := negb (String.eqb s "").

(** [splitPath] is the non-empty parts of the path between its slashes. *)
Lemma splitPath_spec path : splitPath path = bfilter nonempty (Split path "/").
Proof.
  unfold splitPath, Split. rewrite <- (sapp_nil_r "").
  assert (∀ cur, splitPath_go cur path =
    bfilter nonempty match split_go "/" path 0 with x :: l => (cur +:+ x) :: l | [] => [] end) as Hgo.
  2:{ rewrite sapp_nil_r. rewrite Hgo. by destruct (split_go "/" path 0). }
  induction path as [|c path IH]; intros cur.
  - simpl. rewrite sapp_nil_r. change (nonempty cur) with (negb (String.eqb cur "")).
    by destruct (String.eqb cur "").
  - rewrite split_char_cons. simpl. destruct (Ascii.eqb c "/").
    + rewrite IH, sapp_nil_r. destruct (split_go "/" path 0) eqn:E; [by apply split_char_nonnil in E|].
      unfold bfilter. cbn [List.filter]. change (nonempty cur) with (negb (String.eqb cur "")).
      by destruct (String.eqb cur "").
    + rewrite IH. destruct (split_go "/" path 0) as [|x l] eqn:E; [by apply split_char_nonnil in E|].
      by rewrite sapp_assoc.
Qed.

Definition segment (s : string) : bool := nonempty s && lacks "/" s.

Lemma splitPath_Join segs :
  Forall (λ s, segment s = true) segs → splitPath ("/" +:+ Join segs "/") = segs.
Proof.
  intros Hs. destruct segs as [|s segs]; [done|]. set (l := s :: segs) in *.
  change ("/" +:+ Join l "/") with (Join ("" :: l) "/").
  rewrite splitPath_spec, (Split_Join "/" ""); [|done|].
  - change (bfilter nonempty ("" :: l)) with (bfilter nonempty l). clearbody l.
    induction Hs as [|x l Hx Hl IH]; [done|]. unfold segment in Hx. bprop.
    unfold bfilter in *. simpl. rewrite H. by f_equal.
  - constructor; [done|]. eapply Forall_impl; [exact Hs|]. intros x. unfold segment. intros. by bprop.
Qed.

(** The resource of an item path "/api/v1/kind/name" is its kind, unless the
    kind is one the loop takes for an API version (at most three bytes, the
    first one v, as in vm or vpc): then the caller is authorized against the
    name in the path instead of the kind. *)
Theorem extractResource_item kind name :
  segment kind = true → segment name = true →
  extractResource ("/api/v1/" +:+ kind +:+ "/" +:+ name) = if skipped kind then name else kind.
Proof.
  intros Hk Hn. unfold extractResource.
  change ("/api/v1/" +:+ kind +:+ "/" +:+ name) with ("/" +:+ Join ["api"; "v1"; kind; name] "/").
  rewrite splitPath_Join by (repeat constructor; done). simpl.
  destruct (skipped kind); simpl; [|done]. by destruct (skipped name).
Qed.

(** * The gate in front of the handlers *)

Section gate.
Context `{Uuid} `{RangeOrder}.

(** The organization a request is resolved to: the one of its header when the
    logic shows it, else the only default tenant. *)
Definition resolves (logic : TenancyLogic) (ctx : context) (r : request) (org : uuid) : Prop :=
  let raw := r_Header r "X-Org-ID" in
  if String.eqb raw ""
  then ∃ d t, DetermineDefaultTenants logic ctx = inr d ∧ universal d = false ∧ tenants d = {[t]} ∧
         uuid_parse t = inr org
  else uuid_parse raw = inr org ∧
         ∃ vis, DetermineVisibleTenants logic ctx = inr vis ∧ Contains vis (uuid_string org) = true.

(** The context a request reaches the handlers with. *)
Definition granted (authn : Authenticator) logic (authz : Authorizer) (ctx : context) (r : request) (ctx' : context) : Prop :=
  ∃ sub org, ctx' = MkContext (Some sub) (Some org) ∧ authn r = inr sub ∧
    resolves logic (ContextWithSubject ctx sub) r org ∧
    authz ctx' sub (extractResource (r_Path r)) (methodToAction (r_Method r)) = None.

Definition deliver_verdict {T} (Error : Z → string → T) (next : http_handler T) (r : request)
    (v : (Z * string) + context) : T :=
  match v with inl (code, msg) => Error code msg | inr ctx => next ctx r end.

Lemma range_set_singleton (s : gset string) t : range_set s = [t] ↔ s = {[t]}.
Proof.
  pose proof (range_set_perm s) as Hp. split.
  - intros E. rewrite E in Hp. apply set_eq. intros x. rewrite <- elem_of_elements, <- Hp. set_solver.
  - intros ->. rewrite elements_singleton in Hp. by apply Permutation_singleton_r in Hp.
Qed.

Lemma Values_one d t : Values d = [t] ↔ universal d = false ∧ tenants d = {[t]}.
Proof.
  unfold Values. destruct (universal d); [naive_solver|]. rewrite range_set_singleton. naive_solver.
Qed.

Lemma resolves_fun logic ctx r org org' :
  resolves logic ctx r org → resolves logic ctx r org' → org = org'.
Proof.
  unfold resolves. destruct (String.eqb _ _); [|intros [? _] [? _]; congruence].
  intros (d & t & Hd & _ & Ht & Hp) (d' & t' & Hd' & _ & Ht' & Hp').
  assert (d' = d) as -> by congruence. rewrite Ht in Ht'. apply singleton_inj in Ht' as <-. congruence.
Qed.

(** The verdict of the tenancy step, before authorization. *)
Definition tenancy_verdict (logic : TenancyLogic) (ctx : context) (r : request) : (Z * string) + context :=
  Tenancy (λ code msg, inl (code, msg)) logic (λ ctx _, inr ctx) ctx r.

Lemma Tenancy_verdict {T} (Error : Z → string → T) logic next ctx r :
  Tenancy Error logic next ctx r = deliver_verdict Error next r (tenancy_verdict logic ctx r).
Proof. unfold tenancy_verdict, Tenancy. repeat case_match; done. Qed.

Lemma tenancy_verdict_spec logic ctx r :
  match tenancy_verdict logic ctx r with
  | inl (code, _) => code ∈ [400; 403; 500] ∧ ∀ org, ¬ resolves logic ctx r org
  | inr ctx' => ∃ org, ctx' = ContextWithOrgID ctx org ∧ resolves logic ctx r org
  end.
Proof.
  unfold tenancy_verdict, Tenancy, resolves, IsUniversal.
  destruct (String.eqb (r_Header r "X-Org-ID") ""); simpl.
  - destruct (DetermineDefaultTenants logic ctx) as [e|d] eqn:Ed; [split; [set_solver|naive_solver]|].
    destruct (Values d) as [|t [|? ?]] eqn:Ev; [| |]; cycle 1.
    + apply Values_one in Ev as [Hu Ht]. destruct (uuid_parse t) eqn:Ep.
      * split; [set_solver|]. intros org (d' & t' & [= <-] & _ & Ht' & Hp).
        rewrite Ht in Ht'. apply singleton_inj in Ht' as <-. congruence.
      * eauto 10.
    + split; [set_solver|]. intros org (d' & t' & [= <-] & Hu & Ht & Hp).
      pose proof (proj2 (Values_one d t') (conj Hu Ht)). congruence.
    + split; [set_solver|]. intros org (d' & t' & [= <-] & Hu & Ht & Hp).
      pose proof (proj2 (Values_one d t') (conj Hu Ht)). congruence.
  - destruct (uuid_parse (r_Header r "X-Org-ID")) as [e|org] eqn:Ep; [split; [set_solver|naive_solver]|].
    destruct (DetermineVisibleTenants logic ctx) as [e|vis] eqn:Ev; [split; [set_solver|naive_solver]|].
    assert (negb (universal vis) && negb (Contains vis (uuid_string org)) = negb (Contains vis (uuid_string org)))
      as -> by (unfold Contains; by destruct (universal vis)).
    destruct (Contains vis (uuid_string org)) eqn:Ec; simpl; [by eauto 10|].
    split; [set_solver|]. intros org' [[= <-] (vis' & [= <-] & ?)]. congruence.
Qed.

Lemma request_verdict authn logic authz ctx r :
  ∃ v : (Z * string) + context,
    (∀ T (Error : Z → string → T) next, chain Error authn logic authz next ctx r = deliver_verdict Error next r v) ∧
    (∀ ctx', v = inr ctx' ↔ granted authn logic authz ctx r ctx') ∧
    (∀ code msg, v = inl (code, msg) → code ∈ [400; 401; 403; 500]).
Proof.
  exists (chain (λ code msg, inl (code, msg)) authn logic authz (λ ctx _, inr ctx) ctx r).
  unfold chain, AuthN, granted. destruct (authn r) as [e|sub]; [split_and!; [done|naive_solver|]|].
  { intros ?? [= <- <-]. set_solver. }
  pose proof (tenancy_verdict_spec logic (ContextWithSubject ctx sub) r) as Hv.
  setoid_rewrite Tenancy_verdict. destruct (tenancy_verdict _ _ _) as [[code msg]|ctx1]; simpl in *.
  { destruct Hv as [Hc Hn]. split_and!; [done| |].
    - intros ctx'. split; [done|]. intros (s & org & _ & [= <-] & Hr & _). by apply Hn in Hr.
    - intros ?? [= <- <-]. set_solver. }
  destruct Hv as (org & -> & Hr). unfold AuthZ, ContextWithOrgID, ContextWithSubject in *. simpl.
  destruct (authz _ _ _ _) as [e|] eqn:Ez; simpl; split_and!; try done.
  - intros ctx'. split; [done|]. intros (s & org' & -> & [= <-] & Hr' & Hz).
    assert (org' = org) as -> by (eapply resolves_fun; eauto). congruence.
  - intros ?? [= <- <-]. set_solver.
  - intros ctx'. split; [naive_solver|]. intros (s & org' & -> & [= <-] & Hr' & Hz).
    by assert (org' = org) as -> by (eapply resolves_fun; eauto).
Qed.

(** C13: the middleware chain is a gate: its verdict on a request does not depend
    on the handler behind it, the handler runs exactly for the requests that
    authenticate, resolve to an organization their subject is shown and are
    authorized for the action and resource of the request, it runs in the
    context holding that subject and organization, and every other request is
    answered with 400, 401, 403 or 500. *)
Theorem request_gate authn logic authz ctx r :
  ∃ v : (Z * string) + context,
    (∀ T (Error : Z → string → T) next, chain Error authn logic authz next ctx r = deliver_verdict Error next r v) ∧
    (∀ ctx', v = inr ctx' ↔ granted authn logic authz ctx r ctx') ∧
    (∀ code msg, v = inl (code, msg) → code ∈ [400; 401; 403; 500]).
Proof. apply request_verdict. Qed.

End gate.

(** With the tenants of the subject as the logic, the organization of a granted
    request is one of them. *)
Lemma granted_scope `{UuidLaws} `{RangeOrder} authn authz ctx r ctx' :
  granted authn DefaultTenancyLogic authz ctx r ctx' →
  ∃ sub org, ctx' = MkContext (Some sub) (Some org) ∧ authn r = inr sub ∧
    (universal (Tenants sub) = true ∨ ∃ t, t ∈ tenants (Tenants sub) ∧ uuid_parse t = inr org).
Proof.
  intros (sub & org & -> & Ha & Hr & _). exists sub, org. split_and!; [done..|].
  unfold resolves in Hr. simpl in Hr. destruct (String.eqb _ _).
  - destruct Hr as (d & t & [= <-] & Hu & Ht & Hp). right. exists t. rewrite Ht. set_solver.
  - destruct Hr as [_ (vis & [= <-] & Hc)]. unfold Contains in Hc.
    destruct (universal (Tenants sub)); [by left|right]. apply bool_decide_eq_true in Hc.
    eexists. split; [exact Hc|]. apply uuid_parse_string.
Qed.

(** * The policy authorizer denies by default *)

Section opa_props.
Context `{RangeOrder} {M C : Type}.
Context (read_dir : string → string + list (string * bool)).
Context (read_file : string → string → string + string).
Context (parse_module : string → string → string + M).
Context (compile : gmap string M → string + C).
Context (eval : C → string → opa_input → string + list (list json)).

(** The policy files of a directory listing. *)
Definition policy_files (entries : list (string * bool)) : list string :=
  (bfilter (λ e, negb (snd e) && HasSuffix (fst e) ".rego") entries).*1.

Lemma load_loop_files dir entries mods mods' :
  load_loop read_file parse_module dir entries mods = inr mods' →
  dom mods' = dom mods ∪ list_to_set (policy_files entries).
Proof.
  revert mods. induction entries as [|[name is_dir] entries IH]; intros mods; simpl.
  { intros [= <-]. set_solver. }
  unfold policy_files, bfilter in *. simpl.
  destruct is_dir; simpl; [by apply IH|]. destruct (HasSuffix name ".rego"); simpl; [|by apply IH].
  destruct (read_file dir name) as [|data]; [done|]. destruct (parse_module name data) as [|m]; [done|].
  intros Hl. rewrite (IH _ Hl), dom_insert_L. set_solver.
Qed.

(** The policy authorizer allows a request exactly when the policy, evaluated
    on the user, tenants, resource and action, has the boolean true as the first
    value of its first result; anything else denies.  A reload that fails keeps
    the policy in force; one that succeeds installs a policy compiled from the
    .rego files of the directory and no others. *)
Theorem opa_denies_by_default (a : OPAAuthorizer C) sub resource action :
  (OPAAuthorize eval a sub resource action = None ↔
   ∃ c vals results, compiler a = Some c ∧
     eval c (DefaultPolicy a) (MkInput (User sub) (Values (Tenants sub)) resource action) =
       inr ((JBool true :: vals) :: results)) ∧
  (∀ err a', ReloadPolicies read_dir read_file parse_module compile a = (Some err, a') → a' = a) ∧
  (∀ a', ReloadPolicies read_dir read_file parse_module compile a = (None, a') →
     ∃ entries mods c, read_dir (PolicyDir a) = inr entries ∧ dom mods = list_to_set (policy_files entries) ∧
       compile mods = inr c ∧ a' = MkOPA (PolicyDir a) (DefaultPolicy a) (Some c)).
Proof.
  split_and!.
  - unfold OPAAuthorize. destruct (compiler a) as [c|]; [|split; [done|by intros (c & ? & ? & [=] & _)]].
    destruct (eval _ _ _) as [e|rs] eqn:Ee; [split; [done|intros (c' & vs & res & [= <-] & He); congruence]|].
    split; [|intros (c' & vs & res & [= <-] & He); rewrite Ee in He; by simplify_eq].
    repeat case_match; try done. subst. eauto.
  - unfold ReloadPolicies, loadPolicies. intros err a'. repeat case_match; by intros [= _ <-].
  - unfold ReloadPolicies, loadPolicies. intros a'.
    destruct (read_dir _) as [|entries] eqn:Ed; [done|].
    destruct (load_loop _ _ _ _ _) as [|mods] eqn:El; [done|]. destruct (compile mods) as [|c] eqn:Ec; [done|].
    intros [= <-]. apply load_loop_files in El as Hd. exists entries, mods, c.
    split_and!; [done| |done..]. rewrite Hd. set_solver.
Qed.
End opa_props.

(** * Witnesses *)

(** Organizations in decimal, the keys of a set in the order of [elements]. *)
#[global] Instance decimal_Uuid : Uuid := {
  uuid_parse s := match NilZero.uint_of_string s with
                  | Some d => inr (N.of_uint d)
                  | None => inl "invalid UUID"
                  end;
  uuid_string u := NilZero.string_of_uint (N.to_uint u);
}.

#[global] Instance decimal_UuidLaws : UuidLaws.
Proof.
  constructor. intros u. simpl. rewrite NilZero.usu; [by rewrite DecimalN.Unsigned.of_to|].
  by destruct u as [|p]; [|apply DecimalPos.Unsigned.to_uint_nonnil].
Qed.

#[global] Instance elements_RangeOrder : RangeOrder := { range_set := elements; range_set_perm s := reflexivity _ }.

Definition get_request (path org : string) : request :=
  MkRequest "GET" path (λ h, if String.eqb h "X-Org-ID" then org else "") (λ _, "") (λ _, "") "".

Lemma extractResource_item_witness :
  extractResource "/api/v1/vpc/networks" = "networks" ∧ extractResource "/api/v1/subnet/a" = "subnet".
Proof.
  split.
  - apply (extractResource_item "vpc" "networks"); reflexivity.
  - apply (extractResource_item "subnet" "a"); reflexivity.
Defined.
