(* ===== verification/Keycloak.v ===== *)
(** The JWT authenticator (src/auth/keycloak.go): bearer tokens, their header,
    signature and claims, and the cache of the signing keys of the realm.

    Errors are the source's texts, without the text of the decoding error they
    wrap; a text the source quotes with [%q] is written between double
    quotes. *)

From S2P Require Import Prelude GoStrings GoJson Pagination Resource Auth.
From Stdlib Require Import Ascii.

(** * Numbers of a JSON text as [float64]

    A claim is decoded into an [interface{}], so a number becomes the nearest
    [float64], ties to even, and one beyond the largest [float64] is an error.
    The authenticator only uses its conversion to [int64], which truncates;
    out of range it is the smallest integer, as on amd64. *)

Fixpoint dec_val (acc : Z) (s : string) : Z :=
  match s with
  | "" => acc
  | String c s => dec_val (10 * acc + (Z.of_N (code c) - 48)) s
  end.

(** The nearest integer to [num / den], ties to even. *)
Definition round_even (num den : Z) : Z :=
  let q := num `div` den in
  let twice := 2 * (num `mod` den) in
  if (den <? twice) || ((twice =? den) && Z.odd q) then q + 1 else q.

(** [num / den > 0] at 53 bits of precision: [q * 2 ^ k]. *)
Definition round53 (num den : Z) : Z * Z :=
  let k := Z.log2 num - Z.log2 den - 52 in
  let scale k := if 0 <=? k then (num, den * 2 ^ k) else (num * 2 ^ (- k), den) in
  let '(n, d) := scale k in
  if n <? d * 2 ^ 52 then let '(n, d) := scale (k - 1) in (round_even n d, k - 1)
  else (round_even n d, k).

Definition to_int64 (z : Z) : Z := if in_i64 z then z else - 2 ^ 63.

(** [None] is a literal out of range. *)
Definition float_int64 (lit : string) : option Z :=
  let '(neg, s) := match lit with String "-" r => (true, r) | _ => (false, lit) end in
  let '(i, s) := digits s in
  let '(f, s) := match s with String "." r => digits r | _ => ("", s) end in
  let e := match s with
           | String _ r => let '(sg, r) := exp_sign r in
                           if String.eqb sg "-" then - dec_val 0 r else dec_val 0 r
           | "" => 0
           end in
  let m := dec_val 0 (i +:+ f) in
  let ex := e - slen f in
  if m =? 0 then Some 0
  else
    let '(q, k) := if 0 <=? ex then round53 (m * 10 ^ ex) 1 else round53 m (10 ^ (- ex)) in
    if 1024 <=? Z.log2 q + k then None
    else let z := if 0 <=? k then q * 2 ^ k else q `div` 2 ^ (- k) in
         Some (to_int64 (if neg then - z else z)).

Example float_int64_ex :
  (float_int64 <$> ["1700000000"; "1.5"; "1e3"; "-2.7"; "9007199254740993"; "1e400"; "1E+19"; "0.0"; "25e-1"])
  = [Some 1700000000; Some 1; Some 1000; Some (-2); Some 9007199254740992; None; Some (- 2 ^ 63); Some 0; Some 2].
Proof. vm_compute. reflexivity. Qed.

(** Every number of a value is in range. *)
Fixpoint nums_ok (v : json) : bool :=
  match v with
  | JNum lit => bool_decide (is_Some (float_int64 lit))
  | JArr l => forallb nums_ok l
  | JObj kvs => forallb (λ kv, nums_ok (snd kv)) kvs
  | _ => true
  end.

(** [json.Unmarshal] into a [map[string]interface{}]: a later key wins. *)
Definition unmarshal_claims (data : string) : option (gmap string json) :=
  v ← parse_json data;
  if nums_ok v then
    match v with
    | JNull => Some ∅
    | JObj kvs => Some (foldl (λ m kv, <[fst kv := snd kv]> m) ∅ kvs)
    | _ => None
    end
  else None.

(** * Configuration *)

Record KeycloakConfig := MkKeycloakConfig {
  RealmURL : string;
  ClientID : string;
  TenantClaim : string;
  UserClaim : string;
  JWKSCacheTTL : Time;
}.

(** [strings.TrimRight(s, "/")] *)
Fixpoint trim_right_slash (s : string) : string :=
  match s with
  | "" => ""
  | String c s =>
      let r := trim_right_slash s in
      if Ascii.eqb c "/" && String.eqb r "" then "" else String c r
  end.

Definition NewKeycloakAuthenticator (c : KeycloakConfig) : KeycloakConfig :=
  MkKeycloakConfig (trim_right_slash (RealmURL c)) (ClientID c)
    (if String.eqb (TenantClaim c) "" then "org_id" else TenantClaim c)
    (if String.eqb (UserClaim c) "" then "preferred_username" else UserClaim c)
    (if JWKSCacheTTL c =? 0 then 15 * 60 * 1000000000 else JWKSCacheTTL c).

(** * Tokens *)

Definition extractBearerToken (r : request) : string + string :=
  let auth := r_Header r "Authorization" in
  if String.eqb auth "" then inl "missing Authorization header"
  else if negb (HasPrefix auth "Bearer ") then inl "Authorization header must use Bearer scheme"
  else let token := sdrop (String.length "Bearer ") auth in
       if String.eqb token "" then inl "empty Bearer token" else inr token.

Definition base64URLDecode (s : string) : option string := base64_decode s.

(** A string field of a struct: [null] leaves it, anything but a string is a
    type error. *)
Definition unmarshal_str (v : json) (old : string) : option string :=
  match v with
  | JNull => Some old
  | JStr s => Some s
  | _ => None
  end.

Record jwtHeader := MkHeader { Kid : string; Alg : string }.

Fixpoint unmarshal_header_fields (h : jwtHeader) (kvs : list (string * json)) : option jwtHeader :=
  match kvs with
  | [] => Some h
  | (k, v) :: kvs =>
      h ← (if fold_eq k "kid" then s ← unmarshal_str v (Kid h); Some (MkHeader s (Alg h))
           else if fold_eq k "alg" then s ← unmarshal_str v (Alg h); Some (MkHeader (Kid h) s)
           else Some h);
      unmarshal_header_fields h kvs
  end.

Definition unmarshal_header (data : string) : option jwtHeader :=
  v ← parse_json data;
  match v with
  | JNull => Some (MkHeader "" "")
  | JObj kvs => unmarshal_header_fields (MkHeader "" "") kvs
  | _ => None
  end.

(** * Claims *)

Definition as_string (v : option json) : option string :=
  match v with Some (JStr s) => Some s | _ => None end.

Definition as_int64 (v : option json) : option Z :=
  match v with Some (JNum lit) => float_int64 lit | _ => None end.

Definition is_client (clientID : string) (a : json) : bool :=
  match a with JStr s => String.eqb s clientID | _ => false end.

Definition validateAudience (claims : gmap string json) (clientID : string) : option string :=
  match claims !! "aud" with
  | None => Some "token missing aud claim"
  | Some (JStr v) =>
      if String.eqb v clientID then None
      else Some ("invalid audience: got " +:+ quoted v +:+ ", want " +:+ quoted clientID)
  | Some (JArr v) =>
      if existsb (is_client clientID) v then None
      else Some ("audience does not contain " +:+ quoted clientID)
  | Some _ => Some "invalid aud claim type"
  end.

(** [now] is [time.Now().Unix()]. *)
Definition validateStandardClaims (k : KeycloakConfig) (now : Z) (claims : gmap string json) : option string :=
  match as_int64 (claims !! "exp") with
  | None => Some "token missing exp claim"
  | Some exp =>
      if exp <? now then Some "token expired"
      else
        if match as_int64 (claims !! "iat") with Some iat => i64 (now + 60) <? iat | None => false end
        then Some "token issued in the future"
        else
          match as_string (claims !! "iss") with
          | None => Some "token missing iss claim"
          | Some iss =>
              if negb (String.eqb iss (RealmURL k))
              then Some ("invalid issuer: got " +:+ quoted iss +:+ ", want " +:+ quoted (RealmURL k))
              else if negb (String.eqb (ClientID k) "") then validateAudience claims (ClientID k)
              else None
          end
  end.

Definition nonempty_string (v : option json) : option string :=
  match as_string v with
  | Some s => if String.eqb s "" then None else Some s
  | None => None
  end.

Definition extractUser (k : KeycloakConfig) (claims : gmap string json) : string + string :=
  match nonempty_string (claims !! UserClaim k) with
  | Some user => inr user
  | None =>
      if negb (String.eqb (UserClaim k) "preferred_username")
      then inl ("user claim " +:+ quoted (UserClaim k) +:+ " not found in token")
      else match nonempty_string (claims !! "sub") with
           | Some sub => inr sub
           | None => inl "no user identity in token"
           end
  end.

Definition extractTenants (k : KeycloakConfig) (claims : gmap string json) : string + list string :=
  let claim := "tenant claim " +:+ quoted (TenantClaim k) in
  match claims !! TenantClaim k with
  | None => inl (claim +:+ " not found in token")
  | Some (JStr v) => if String.eqb v "" then inl (claim +:+ " is empty") else inr [v]
  | Some (JArr v) =>
      match omap (λ item, nonempty_string (Some item)) v with
      | [] => inl (claim +:+ " contains no valid entries")
      | tenants => inr tenants
      end
  | Some _ => inl (claim +:+ " has unsupported type")
  end.

(** * Signing keys

    The realm's key endpoint and the signature check of the cryptography
    library are parameters: [http_get now url] is the status and the body of
    the answer at a time, each with its error, and [verifyPKCS1v15 key hashed signature] is
    the error of the check. *)

Record PublicKey := MkPublicKey { pk_N : N; pk_E : Z }.

Record jwksCache := MkJwksCache { keys : gmap string PublicKey; fetchedAt : Time }.

Record jwkKey := MkJwkKey { jk_Kid : string; jk_Kty : string; jk_Alg : string; jk_Use : string; jk_N : string; jk_E : string }.

Definition set_jwk (jk : jwkKey) (k : string) (v : json) : option jwkKey :=
  let '(MkJwkKey kid kty alg use n e) := jk in
  if fold_eq k "kid" then s ← unmarshal_str v kid; Some (MkJwkKey s kty alg use n e)
  else if fold_eq k "kty" then s ← unmarshal_str v kty; Some (MkJwkKey kid s alg use n e)
  else if fold_eq k "alg" then s ← unmarshal_str v alg; Some (MkJwkKey kid kty s use n e)
  else if fold_eq k "use" then s ← unmarshal_str v use; Some (MkJwkKey kid kty alg s n e)
  else if fold_eq k "n" then s ← unmarshal_str v n; Some (MkJwkKey kid kty alg use s e)
  else if fold_eq k "e" then s ← unmarshal_str v e; Some (MkJwkKey kid kty alg use n s)
  else Some jk.

Fixpoint unmarshal_jwk_fields (jk : jwkKey) (kvs : list (string * json)) : option jwkKey :=
  match kvs with
  | [] => Some jk
  | (k, v) :: kvs => jk ← set_jwk jk k v; unmarshal_jwk_fields jk kvs
  end.

Definition unmarshal_jwk (v : json) : option jwkKey :=
  match v with
  | JNull => Some (MkJwkKey "" "" "" "" "" "")
  | JObj kvs => unmarshal_jwk_fields (MkJwkKey "" "" "" "" "" "") kvs
  | _ => None
  end.

Fixpoint unmarshal_jwks_fields (l : list jwkKey) (kvs : list (string * json)) : option (list jwkKey) :=
  match kvs with
  | [] => Some l
  | (k, v) :: kvs =>
      l ← (if fold_eq k "keys" then
             match v with
             | JNull => Some []
             | JArr vs => mapM unmarshal_jwk vs
             | _ => None
             end
           else Some l);
      unmarshal_jwks_fields l kvs
  end.

Definition unmarshal_jwks (data : string) : option (list jwkKey) :=
  v ← parse_json data;
  match v with
  | JNull => Some []
  | JObj kvs => unmarshal_jwks_fields [] kvs
  | _ => None
  end.

(** [new(big.Int).SetBytes(b)] *)
Fixpoint big_endian (acc : N) (b : string) : N :=
  match b with
  | "" => acc
  | String c b => big_endian (256 * acc + code c)%N b
  end.

Definition parseRSAPublicKey (nB64 eB64 : string) : string + PublicKey :=
  match base64URLDecode nB64 with
  | None => inl "decoding modulus"
  | Some nBytes =>
      match base64URLDecode eB64 with
      | None => inl "decoding exponent"
      | Some eBytes =>
          let e := Z.of_N (big_endian 0 eBytes) in
          if in_i64 e then inr (MkPublicKey (big_endian 0 nBytes) e)
          else inl "exponent too large"
      end
  end.

(** [io.LimitReader(r, n)] *)
Fixpoint limit_reader (n : Z) (s : string) : string :=
  match s with
  | "" => ""
  | String c s => if 0 <? n then String c (limit_reader (n - 1) s) else ""
  end.

(** The loop over the keys of the answer. *)
Definition add_key (m : gmap string PublicKey) (k : jwkKey) : gmap string PublicKey :=
  if negb (String.eqb (jk_Kty k) "RSA") then m
  else if negb (String.eqb (jk_Use k) "") && negb (String.eqb (jk_Use k) "sig") then m
  else match parseRSAPublicKey (jk_N k) (jk_E k) with
       | inl _ => m
       | inr pub => <[jk_Kid k := pub]> m
       end.

Section keycloak.
Context (http_get : Time → string → string + Z * (string + string)).
Context (sha256 : string → string) (verifyPKCS1v15 : PublicKey → string → string → option string).

Definition fetchJWKS (k : KeycloakConfig) (now : Time) : string + jwksCache :=
  let url := RealmURL k +:+ "/protocol/openid-connect/certs" in
  match http_get now url with
  | inl err => inl ("fetching JWKS from " +:+ url +:+ ": " +:+ err)
  | inr (status, body) =>
      if negb (status =? 200) then inl ("JWKS endpoint returned status " +:+ Itoa status)
      else
        match body with
        | inl err => inl ("reading JWKS response: " +:+ err)
        | inr body =>
            match unmarshal_jwks (limit_reader (2 ^ 20) body) with
            | None => inl "parsing JWKS response"
            | Some ks => inr (MkJwksCache (foldl add_key ∅ ks) now)
            end
        end
  end.

(** The cached key of an id, when the cache is younger than its lifetime. *)
Definition cached_key (k : KeycloakConfig) (kid : string) (now : Time) (jwks : option jwksCache)
  : option PublicKey :=
  match jwks with
  | Some c => if now - fetchedAt c <? JWKSCacheTTL k then keys c !! kid else None
  | None => None
  end.

(** [jwks1] is the cache under the read lock at [now1], [jwks2] the cache under
    the write lock at [now2]: another request may have refreshed it in
    between. *)
Definition getSigningKey (k : KeycloakConfig) (kid : string) (now1 : Time) (jwks1 : option jwksCache)
    (now2 : Time) (jwks2 : option jwksCache) : (string + PublicKey) * option jwksCache :=
  match cached_key k kid now1 jwks1 with
  | Some key => (inr key, jwks2)
  | None =>
      match cached_key k kid now2 jwks2 with
      | Some key => (inr key, jwks2)
      | None =>
          match fetchJWKS k now2 with
          | inl err => (inl err, jwks2)
          | inr cache =>
              match keys cache !! kid with
              | None => (inl ("signing key " +:+ quoted kid +:+ " not found in JWKS"), Some cache)
              | Some key => (inr key, Some cache)
              end
          end
      end
  end.

Definition verifyRS256 (signingInput signatureB64 : string) (key : PublicKey) : option string :=
  match base64URLDecode signatureB64 with
  | None => Some "decoding signature"
  | Some signature => verifyPKCS1v15 key (sha256 signingInput) signature
  end.

(** * Authentication *)

(** The token up to the key lookup: its three parts and its header. *)
Definition parse_token (token : string) : string + string * string * string * string :=
  match Split token "." with
  | [h; p; s] =>
      match base64URLDecode h with
      | None => inl "malformed JWT header"
      | Some headerJSON =>
          match unmarshal_header headerJSON with
          | None => inl "malformed JWT header"
          | Some header =>
              if String.eqb (Kid header) "" then inl "JWT header missing kid"
              else if negb (String.eqb (Alg header) "RS256")
              then inl ("unsupported signing algorithm: " +:+ Alg header)
              else inr (h, p, s, Kid header)
          end
      end
  | _ => inl "malformed JWT: expected 3 parts"
  end.

(** The rest, once the key is known. *)
Definition check_token (k : KeycloakConfig) (now : Z) (h p s : string) (key : PublicKey) : string + Subject :=
  match verifyRS256 (h +:+ "." +:+ p) s key with
  | Some err => inl ("token signature verification failed: " +:+ err)
  | None =>
      match base64URLDecode p with
      | None => inl "malformed JWT payload"
      | Some claimsJSON =>
          match unmarshal_claims claimsJSON with
          | None => inl "malformed JWT payload"
          | Some claims =>
              match validateStandardClaims k now claims with
              | Some err => inl err
              | None =>
                  let? user := extractUser k claims in
                  let? tenants := extractTenants k claims in
                  inr (MkSubject user (NewTenantSet tenants))
              end
          end
      end
  end.

(** [now] is the Unix time of the claims check. *)
Definition Authenticate (k : KeycloakConfig) (r : request) (now1 : Time) (jwks1 : option jwksCache)
    (now2 : Time) (jwks2 : option jwksCache) (now : Z) : (string + Subject) * option jwksCache :=
  match extractBearerToken r with
  | inl err => (inl err, jwks2)
  | inr token =>
      match parse_token token with
      | inl err => (inl err, jwks2)
      | inr (h, p, s, kid) =>
          match getSigningKey k kid now1 jwks1 now2 jwks2 with
          | (inl err, jwks) => (inl ("signing key lookup: " +:+ err), jwks)
          | (inr key, jwks) => (check_token k now h p s key, jwks)
          end
      end
  end.

End keycloak.

(** * What an accepted token is *)

Section soundness.
Context (http_get : Time → string → string + Z * (string + string)).
Context (sha256 : string → string) (verifyPKCS1v15 : PublicKey → string → string → option string).
Context (k : KeycloakConfig).

Abbreviation fetch := (fetchJWKS http_get k).
Abbreviation signing_key := (getSigningKey http_get k).

(** The values the cache takes, newest first, under any interleaving of
    requests: a request reads some past value under the read lock and the
    current one under the write lock. *)
Inductive cache_history : list (option jwksCache) → Prop :=
| ch_start : cache_history [None]
| ch_request kid now1 jwks1 now2 jwks2 h :
    cache_history (jwks2 :: h) → jwks1 ∈ jwks2 :: h →
    cache_history (snd (signing_key kid now1 jwks1 now2 jwks2) :: jwks2 :: h).

(** Every cache holds the keys the realm served at its time. *)
Definition cache_ok (jwks : option jwksCache) : Prop := ∀ c, jwks = Some c → fetch (fetchedAt c) = inr c.

Lemma fetch_time now c : fetch now = inr c → fetchedAt c = now.
Proof. unfold fetchJWKS. intros Hf. repeat case_match; by simplify_eq. Qed.

Lemma signing_key_cache_ok kid now1 jwks1 now2 jwks2 :
  cache_ok jwks2 → cache_ok (snd (signing_key kid now1 jwks1 now2 jwks2)).
Proof.
  intros Hok. unfold getSigningKey. destruct (cached_key _ _ _ jwks1); [done|].
  destruct (cached_key _ _ _ jwks2); [done|]. destruct (fetch now2) as [|c] eqn:Ef; [done|].
  intros c'. destruct (keys c !! kid); intros [= <-]; by rewrite (fetch_time _ _ Ef).
Qed.

Lemma cache_history_ok h : cache_history h → Forall cache_ok h.
Proof.
  induction 1 as [|kid now1 jwks1 now2 jwks2 h _ IH _]; [by repeat constructor|].
  constructor; [|done]. apply signing_key_cache_ok. by inversion IH.
Qed.

(** A key the realm served under an id, at a time the cache still honours. *)
Definition trusted (kid : string) (now1 now2 : Time) (key : PublicKey) : Prop :=
  ∃ t c, fetch t = inr c ∧ keys c !! kid = Some key ∧
    (t = now2 ∨ now1 - t < JWKSCacheTTL k ∨ now2 - t < JWKSCacheTTL k).

Lemma cached_key_trusted kid now jwks key :
  cache_ok jwks → cached_key k kid now jwks = Some key →
  ∃ t c, fetch t = inr c ∧ keys c !! kid = Some key ∧ now - t < JWKSCacheTTL k.
Proof.
  intros Hok. unfold cached_key. destruct jwks as [c|]; [|done].
  destruct (Z.ltb_spec (now - fetchedAt c) (JWKSCacheTTL k)); [|done].
  intros Hk. exists (fetchedAt c), c. auto.
Qed.

Lemma signing_key_trusted kid now1 jwks1 now2 jwks2 key jwks :
  cache_ok jwks1 → cache_ok jwks2 → signing_key kid now1 jwks1 now2 jwks2 = (inr key, jwks) →
  trusted kid now1 now2 key.
Proof.
  intros Hok1 Hok2. unfold getSigningKey, trusted.
  destruct (cached_key _ _ _ jwks1) eqn:E1.
  { intros [= <- <-]. destruct (cached_key_trusted _ _ _ _ Hok1 E1) as (t & c & ? & ? & ?). eauto 10. }
  destruct (cached_key _ _ _ jwks2) eqn:E2.
  { intros [= <- <-]. destruct (cached_key_trusted _ _ _ _ Hok2 E2) as (t & c & ? & ? & ?). eauto 10. }
  destruct (fetch now2) as [|c] eqn:Ef; [done|]. destruct (keys c !! kid) eqn:Ek; [|done].
  intros [= <- <-]. eauto 10.
Qed.

(** The conditions on the claims, at a Unix time. *)
Definition audience_ok (claims : gmap string json) : Prop :=
  claims !! "aud" = Some (JStr (ClientID k)) ∨
  ∃ l, claims !! "aud" = Some (JArr l) ∧ JStr (ClientID k) ∈ l.

Definition claims_valid (now : Z) (claims : gmap string json) : Prop :=
  (∃ exp, as_int64 (claims !! "exp") = Some exp ∧ now ≤ exp) ∧
  (∀ iat, as_int64 (claims !! "iat") = Some iat → iat ≤ now + 60) ∧
  claims !! "iss" = Some (JStr (RealmURL k)) ∧
  (ClientID k ≠ "" → audience_ok claims).

Lemma validateAudience_ok claims : validateAudience claims (ClientID k) = None ↔ audience_ok claims.
Proof.
  unfold validateAudience, audience_ok. destruct (claims !! "aud") as [[| | |v|v|]|]; try naive_solver.
  - destruct (String.eqb_spec v (ClientID k)); naive_solver.
  - destruct (existsb (is_client (ClientID k)) v) eqn:E.
    + split; [|done]. intros _. right. exists v. split; [done|].
      apply existsb_exists in E as (a & Ha & Hs). apply list_elem_of_In in Ha.
      destruct a; simpl in Hs; try done. apply String.eqb_eq in Hs. by subst.
    + split; [done|]. intros [|(l & [= <-] & Hl)]; [done|].
      apply list_elem_of_In in Hl. assert (existsb (is_client (ClientID k)) v = true); [|congruence].
      apply existsb_exists. eexists. split; [exact Hl|]. simpl. apply String.eqb_refl.
Qed.

Lemma validateStandardClaims_ok now claims :
  in_i64 (now + 60) = true →
  validateStandardClaims k now claims = None ↔ claims_valid now claims.
Proof.
  intros Hnow. unfold validateStandardClaims, claims_valid. rewrite i64_id by (by apply bool_decide_eq_true in Hnow).
  destruct (as_int64 (claims !! "exp")) as [exp|]; [|split; [done|naive_solver]].
  destruct (Z.ltb_spec exp now); [split; [done|intros [(? & [= <-] & ?) _]; lia]|].
  destruct (as_int64 (claims !! "iat")) as [iat|]; [destruct (Z.ltb_spec (now + 60) iat)|];
    [split; [done|intros (_ & Hi & _); specialize (Hi _ eq_refl); lia]| |];
    (destruct (claims !! "iss") as [[| | |iss| |]|]; try (split; [done|naive_solver]); simpl;
     destruct (String.eqb_spec iss (RealmURL k)) as [->|]; simpl; [|split; [done|naive_solver]];
     destruct (String.eqb_spec (ClientID k) "") as [Hc|Hc]; simpl; [|rewrite validateAudience_ok]; naive_solver lia).
Qed.
(** The subject read off the claims. *)
Definition user_of (claims : gmap string json) (user : string) : Prop :=
  user ≠ "" ∧
  (claims !! UserClaim k = Some (JStr user) ∨
   UserClaim k = "preferred_username" ∧ claims !! "sub" = Some (JStr user)).

Definition tenant_of (claims : gmap string json) (t : string) : Prop :=
  t ≠ "" ∧
  (claims !! TenantClaim k = Some (JStr t) ∨ ∃ l, claims !! TenantClaim k = Some (JArr l) ∧ JStr t ∈ l).

Lemma nonempty_string_Some v s : nonempty_string v = Some s ↔ v = Some (JStr s) ∧ s ≠ "".
Proof.
  unfold nonempty_string. destruct v as [[| | |v| |]|]; simpl; try naive_solver.
  destruct (String.eqb_spec v ""); naive_solver.
Qed.

Lemma extractUser_ok claims user : extractUser k claims = inr user → user_of claims user.
Proof.
  unfold extractUser, user_of. destruct (nonempty_string (claims !! UserClaim k)) eqn:E.
  { intros [= <-]. apply nonempty_string_Some in E. naive_solver. }
  destruct (String.eqb_spec (UserClaim k) "preferred_username"); simpl; [|done].
  destruct (nonempty_string (claims !! "sub")) eqn:E'; [|done].
  intros [= <-]. apply nonempty_string_Some in E'. naive_solver.
Qed.

Lemma extractTenants_ok claims ts :
  extractTenants k claims = inr ts → ts ≠ [] ∧ ∀ t, t ∈ ts ↔ tenant_of claims t.
Proof.
  unfold extractTenants, tenant_of. destruct (claims !! TenantClaim k) as [[| | |v|v|]|]; try done.
  - destruct (String.eqb_spec v ""); [done|]. intros [= <-]. split; [done|]. intros t.
    rewrite list_elem_of_singleton. naive_solver.
  - intros Hts.
    assert (omap (λ item, nonempty_string (Some item)) v = ts ∧ ts ≠ []) as [<- Hne]
      by (destruct (omap _ v) eqn:E; [done|by simplify_eq]).
    split; [done|]. intros t. rewrite list_elem_of_omap. setoid_rewrite nonempty_string_Some. naive_solver.
Qed.

Lemma extractBearerToken_ok r token :
  extractBearerToken r = inr token → r_Header r "Authorization" = "Bearer " +:+ token.
Proof.
  unfold extractBearerToken. destruct (String.eqb _ ""); [done|].
  destruct (HasPrefix (r_Header r "Authorization") "Bearer ") eqn:E; cbn [negb]; [|done].
  apply HasPrefix_app in E as [t ->]. change (sdrop (String.length "Bearer ") ("Bearer " +:+ t)) with t.
  destruct (String.eqb t ""); [done|]. by intros [= ->].
Qed.

Lemma parse_token_ok token hd p s kid :
  parse_token token = inr (hd, p, s, kid) →
  token = hd +:+ "." +:+ p +:+ "." +:+ s ∧
  ∃ hj header, base64URLDecode hd = Some hj ∧ unmarshal_header hj = Some header ∧ kid = Kid header ∧
    Alg header = "RS256".
Proof.
  unfold parse_token. pose proof (Join_Split_char "." token) as Hj.
  destruct (Split token ".") as [|a [|b [|c [|]]]]; try done.
  destruct (base64URLDecode a) as [hj|] eqn:Eb; [|done].
  destruct (unmarshal_header hj) as [header|] eqn:Eu; [|done].
  destruct (String.eqb (Kid header) ""); [done|].
  destruct (String.eqb_spec (Alg header) "RS256"); simpl; [|done].
  intros [= <- <- <- <-]. simpl in Hj. split; [done|]. eauto 10.
Qed.

Lemma check_token_ok now hd p s key sub :
  check_token sha256 verifyPKCS1v15 k now hd p s key = inr sub →
  ∃ sig pj claims user ts,
    base64URLDecode s = Some sig ∧ verifyPKCS1v15 key (sha256 (hd +:+ "." +:+ p)) sig = None ∧
    base64URLDecode p = Some pj ∧ unmarshal_claims pj = Some claims ∧
    validateStandardClaims k now claims = None ∧ extractUser k claims = inr user ∧
    extractTenants k claims = inr ts ∧ sub = MkSubject user (NewTenantSet ts).
Proof.
  unfold check_token, verifyRS256. destruct (base64URLDecode s) as [sig|]; [|done].
  destruct (verifyPKCS1v15 _ _ _) eqn:Ev; [done|]. destruct (base64URLDecode p) as [pj|]; [|done].
  destruct (unmarshal_claims pj) as [claims|] eqn:Ec; [|done]. destruct (validateStandardClaims _ _ _) eqn:Es; [done|].
  destruct (extractUser k claims) as [|user] eqn:Eu; [done|]. simpl.
  destruct (extractTenants k claims) as [|ts] eqn:Et; [done|]. simpl. intros [= <-]. by exists sig, pj, claims, user, ts.
Qed.

(** C14: an accepted bearer token is an RS256 token of three parts whose signature
    verifies under a key that the realm served for its key id no longer ago than
    the lifetime of the cache, which is unexpired, not issued in the future,
    issued by the realm and, when a client is configured, for that client; the
    subject is the user named in its claims with exactly the tenants its tenant
    claim lists, at least one and never all of them.  This holds whatever the
    interleaving of the requests that refresh the cache. *)
Theorem jwt_accepted h jwks1 jwks2 r now1 now2 now sub jwks :
  cache_history (jwks2 :: h) → jwks1 ∈ jwks2 :: h → in_i64 (now + 60) = true →
  Authenticate http_get sha256 verifyPKCS1v15 k r now1 jwks1 now2 jwks2 now = (inr sub, jwks) →
  ∃ hd p s hdJSON header key sig pJSON claims,
    r_Header r "Authorization" = "Bearer " +:+ hd +:+ "." +:+ p +:+ "." +:+ s ∧
    (base64URLDecode hd = Some hdJSON ∧ unmarshal_header hdJSON = Some header ∧ Alg header = "RS256") ∧
    trusted (Kid header) now1 now2 key ∧
    (base64URLDecode s = Some sig ∧ verifyPKCS1v15 key (sha256 (hd +:+ "." +:+ p)) sig = None) ∧
    (base64URLDecode p = Some pJSON ∧ unmarshal_claims pJSON = Some claims) ∧
    claims_valid now claims ∧
    user_of claims (User sub) ∧
    universal (Tenants sub) = false ∧ tenants (Tenants sub) ≠ ∅ ∧
    ∀ t, t ∈ tenants (Tenants sub) ↔ tenant_of claims t.
Proof.
  intros Hh Hin Hnow. apply cache_history_ok in Hh.
  assert (cache_ok jwks1) as Hok1 by (by eapply Forall_forall in Hin; [|exact Hh]).
  assert (cache_ok jwks2) as Hok2 by (by inversion Hh).
  unfold Authenticate. destruct (extractBearerToken r) as [|token] eqn:Et; [done|].
  destruct (parse_token token) as [|[[[hd p] s] kid]] eqn:Ep; [done|].
  destruct (signing_key _ _ _ _ _) as [[|key] j'] eqn:Ek; [done|]. intros [= Hc <-].
  apply extractBearerToken_ok in Et as Htok. apply parse_token_ok in Ep as (-> & hj & header & Hb & Hu & -> & Halg).
  apply (signing_key_trusted _ _ _ _ _ _ _ Hok1 Hok2) in Ek as Htr.
  apply check_token_ok in Hc as (sig & pj & claims & user & ts & Hs & Hv & Hp & Hcl & Hstd & Hus & Hts & ->).
  apply (validateStandardClaims_ok _ _ Hnow) in Hstd. apply extractUser_ok in Hus.
  apply extractTenants_ok in Hts as [Hne Hts].
  exists hd, p, s, hj, header, key, sig, pj, claims. split_and!; try done; simpl.
  - destruct ts; [done|]. simpl. set_solver.
  - intros t. rewrite elem_of_list_to_set. apply Hts.
Qed.
End soundness.

(** * Witness: a realm with one key, and a token it signed (the signature is
    the signed text itself) *)

Definition json_obj (kvs : list (string * string)) : string :=
  "{" +:+ Join ((λ kv, quoted (fst kv) +:+ ":" +:+ snd kv) <$> kvs) "," +:+ "}".

Definition demo_jwks : string :=
  json_obj [("keys", "[" +:+ json_obj [("kid", quoted "k1"); ("kty", quoted "RSA"); ("n", quoted "AQ"); ("e", quoted "AQAB")] +:+ "]")].

Definition demo_kc : KeycloakConfig :=
  NewKeycloakAuthenticator (MkKeycloakConfig "https://kc/realms/r/" "cli" "" "" 0).

Definition demo_get (_ : Time) (url : string) : string + Z * (string + string) :=
  if String.eqb url "https://kc/realms/r/protocol/openid-connect/certs" then inr (200, inr demo_jwks)
  else inl "not found".

Definition demo_verify (_ : PublicKey) (hashed sig : string) : option string :=
  if String.eqb hashed sig then None else Some "verification error".

Definition demo_input : string :=
  base64_encode (json_obj [("alg", quoted "RS256"); ("kid", quoted "k1")]) +:+ "." +:+
  base64_encode (json_obj [("exp", "2000"); ("iss", quoted "https://kc/realms/r"); ("aud", quoted "cli");
                           ("sub", quoted "ann"); ("org_id", "[" +:+ quoted "7" +:+ "]")]).

Definition demo_request : request :=
  MkRequest "GET" "/api/v1/machines"
    (λ h, if String.eqb h "Authorization" then "Bearer " +:+ demo_input +:+ "." +:+ base64_encode demo_input else "")
    (λ _, "") (λ _, "") "".

Definition demo_auth : (string + Subject) * option jwksCache :=
  Authenticate demo_get (λ s, s) demo_verify demo_kc demo_request 5 None 6 None 1000.

Lemma jwt_accepted_witness :
  fst demo_auth = inr (MkSubject "ann" (NewTenantSet ["7"])) ∧
  ∃ claims, claims_valid demo_kc 1000 claims ∧ user_of demo_kc claims "ann" ∧ tenant_of demo_kc claims "7".
Proof.
  split; [vm_compute; reflexivity|].
  destruct (jwt_accepted demo_get (λ s, s) demo_verify demo_kc [] None None demo_request 5 6 1000
    (MkSubject "ann" (NewTenantSet ["7"])) (snd demo_auth)) as
    (hd & p & s & hj & header & key & sig & pj & claims & _ & _ & _ & _ & _ & Hv & Hu & _ & _ & Ht).
  - apply ch_start.
  - left.
  - reflexivity.
  - vm_compute. reflexivity.
  - exists claims. split_and!; [exact Hv|exact Hu|]. apply Ht. simpl. set_solver.
Defined.
