(* ===== verification/Rest.v ===== *)
(** The REST handlers: the generic CRUD routes (src/api/handler.go), the handlers
    of the platform providers (src/platform/*/handler.go) and of the inventory
    example (src/examples/inventory/handler.go).

    A handler is a program over the calls of the store that ends in a response.
    [fuel] and [now] are the store's. *)

From S2P Require Import Prelude GoStrings Resource Gorm Models Nesting Store Auth.
From Stdlib Require Import Ascii DecimalString.

(** * Requests and responses *)

(** [strconv.Atoi]: the value and whether there is an error.  A number out of
    range gives the nearest one, text that is no number gives zero. *)
Definition Atoi (s : string) : Z * bool :=
  let body := match s with
              | String "+" r => if HasPrefix r "-" then "" else r
              | _ => s
              end in
  match NilZero.int_of_string body with
  | None => (0, true)
  | Some d =>
      let z := Z.of_int d in
      if in_i64 z then (z, false) else (if 0 <? z then 2 ^ 63 - 1 else - 2 ^ 63, true)
  end.

Example Atoi_ex : (Atoi <$> ["12"; "-3"; "x"; ""; "9223372036854775808"])
  = [(12, false); (-3, false); (0, true); (0, true); (9223372036854775807, true)].
Proof. vm_compute. reflexivity. Qed.

Lemma Atoi_Itoa z : in_i64 z = true → Atoi (Itoa z) = (z, false).
Proof.
  intros Hz. unfold Atoi. pose proof (Itoa_no_plus z) as Hp.
  replace (match Itoa z with String "+" r => if HasPrefix r "-" then "" else r | _ => Itoa z end) with (Itoa z).
  - rewrite int_of_Itoa, DecimalZ.of_to, Hz. done.
  - destruct (Itoa z) as [|[[] [] [] [] [] [] [] []] ?]; done.
Qed.

(** The text of an error response: the handler's own, or the text of a store
    error. *)
Inductive message := Text (s : string) | StoreErr (e : storeErr).

Inductive response (R : Type) :=
| ROne (status : Z) (r : R)
| RMany (status : Z) (l : ListResult R)
| RError (status : Z) (m : message)
| RStatus (status : Z).
Arguments ROne {R} _ _.
Arguments RMany {R} _ _.
Arguments RError {R} _ _.
Arguments RStatus {R} _.

(** [json.NewDecoder(r.Body).Decode(&x)] on a type: the body, the value decoded
    into, and the error or the value it leaves.  [zero] is [var x R]. *)
Class Decoder (R : Type) := {
  zero : R;
  decode_body : string → R → string + R;
}.

Definition storeErr_is (sentinel e : storeErr) : bool :=
  match sentinel, e with
  | ErrNotFound, ErrNotFound | ErrAlreadyExists, ErrAlreadyExists | ErrConflict, ErrConflict
  | ErrFinalizersPending, ErrFinalizersPending => true
  | _, _ => false
  end.

Section rest.
Context {R : Type} `{Model R} `{Decoder R}.

Definition handler : Type := context → request → prog R (response R).

(** * The generic routes (api/handler.go) *)

Definition crud_list : handler := λ ctx r,
  match OrgIDFromContext ctx with
  | inl err => Ret (RError 500 (Text err))
  | inr orgID =>
      let limitStr := r_Query r "limit" in
      let '(limit, bad) := if String.eqb limitStr "" then (0, false) else Atoi limitStr in
      if bad then Ret (RError 400 (Text "invalid limit parameter"))
      else
        list ← List orgID (MkListOptions limit (r_Query r "continue") (r_Query r "filter") (r_Query r "sort"));
        match list with
        | inl err => Ret (RError 500 (StoreErr err))
        | inr list => Ret (RMany 200 list)
        end
  end.

Definition crud_get (resourceName : string) : handler := λ ctx r,
  match OrgIDFromContext ctx with
  | inl err => Ret (RError 500 (Text err))
  | inr orgID =>
      let name := r_Param r "name" in
      if String.eqb name "" then Ret (RError 400 (Text "name is required"))
      else
        res ← Get orgID name;
        match res with
        | inl err =>
            if storeErr_is ErrNotFound err then Ret (RError 404 (Text (resourceName +:+ " not found")))
            else Ret (RError 500 (StoreErr err))
        | inr res => Ret (ROne 200 res)
        end
  end.

Definition crud_create (resourceName : string) (fuel : nat) (now : Time) : handler := λ _ r,
  match decode_body (r_Body r) zero with
  | inl err => Ret (RError 400 (Text ("invalid request body: " +:+ err)))
  | inr res =>
      '(err, res) ← Create fuel now res;
      match err with
      | Some err =>
          if storeErr_is ErrAlreadyExists err then Ret (RError 409 (Text (resourceName +:+ " already exists")))
          else Ret (RError 500 (StoreErr err))
      | None => Ret (ROne 201 res)
      end
  end.

Definition crud_update (resourceName : string) (fuel : nat) (now : Time) : handler := λ _ r,
  match decode_body (r_Body r) zero with
  | inl err => Ret (RError 400 (Text ("invalid request body: " +:+ err)))
  | inr res =>
      '(err, res) ← Update fuel now res;
      match err with
      | Some err =>
          if storeErr_is ErrNotFound err then Ret (RError 404 (Text (resourceName +:+ " not found")))
          else if storeErr_is ErrConflict err then Ret (RError 409 (Text "resource version conflict"))
          else Ret (RError 500 (StoreErr err))
      | None => Ret (ROne 200 res)
      end
  end.

Definition crud_delete (resourceName : string) (now : Time) : handler := λ ctx r,
  match OrgIDFromContext ctx with
  | inl err => Ret (RError 500 (Text err))
  | inr orgID =>
      let name := r_Param r "name" in
      if String.eqb name "" then Ret (RError 400 (Text "name is required"))
      else
        err ← Delete now orgID name;
        match err with
        | Some err =>
            if storeErr_is ErrNotFound err then Ret (RError 404 (Text (resourceName +:+ " not found")))
            else Ret (RError 500 (StoreErr err))
        | None => Ret (RStatus 204)
        end
  end.

(** * The handlers of the providers

    They share their shape.  What differs: where the organization comes from,
    how a new resource is completed or refused, how a stored resource is shown,
    the default filter of the list, and the mapping of the store's errors. *)

Record kind := MkKind {
  k_org : context → string + uuid;
  k_prepare : R → string + R;
  k_view : R → R;
  k_filter : request → string;
  k_get_error : storeErr → response R;
  k_create_error : storeErr → response R;
  k_delete_error : storeErr → response R;
}.

Definition with_org (kd : kind) (ctx : context) (k : uuid → prog R (response R)) : prog R (response R) :=
  match k_org kd ctx with
  | inl err => Ret (RError 500 (Text err))
  | inr orgID => k orgID
  end.

Definition page_limit (r : request) : Z :=
  let limit := fst (Atoi (r_Query r "limit")) in
  if limit <=? 0 then 100 else limit.

Definition list_handler (kd : kind) : handler := λ ctx r,
  with_org kd ctx (λ orgID,
    list ← List orgID (MkListOptions (page_limit r) (r_Query r "continue") (k_filter kd r) "");
    match list with
    | inl err => Ret (RError 500 (StoreErr err))
    | inr list => Ret (RMany 200 (MkList (k_view kd <$> Items list) (NextContinue list) (Total list)))
    end).

Definition get_handler (kd : kind) : handler := λ ctx r,
  with_org kd ctx (λ orgID,
    res ← Get orgID (r_Param r "name");
    match res with
    | inl err => Ret (k_get_error kd err)
    | inr res => Ret (ROne 200 (k_view kd res))
    end).

Definition create_handler (kd : kind) (fuel : nat) (now : Time) : handler := λ ctx r,
  match decode_body (r_Body r) zero with
  | inl err => Ret (RError 400 (Text err))
  | inr res =>
      with_org kd ctx (λ orgID,
        match k_prepare kd (on_base (SetOrgID orgID) res) with
        | inl err => Ret (RError 400 (Text err))
        | inr res =>
            '(err, res) ← Create fuel now res;
            match err with
            | Some err => Ret (k_create_error kd err)
            | None => Ret (ROne 201 (k_view kd res))
            end
        end)
  end.

(** The body is decoded over the stored resource. *)
Definition update_handler (kd : kind) (fuel : nat) (now : Time) : handler := λ ctx r,
  with_org kd ctx (λ orgID,
    existing ← Get orgID (r_Param r "name");
    match existing with
    | inl err => Ret (k_get_error kd err)
    | inr existing =>
        match decode_body (r_Body r) existing with
        | inl err => Ret (RError 400 (Text err))
        | inr existing =>
            '(err, existing) ← Update fuel now existing;
            match err with
            | Some err =>
                if storeErr_is ErrConflict err then Ret (RError 409 (Text "resource version conflict"))
                else Ret (RError 500 (StoreErr err))
            | None => Ret (ROne 200 (k_view kd existing))
            end
        end
    end).

Definition delete_handler (kd : kind) (now : Time) : handler := λ ctx r,
  with_org kd ctx (λ orgID,
    err ← Delete now orgID (r_Param r "name");
    match err with
    | Some err => Ret (k_delete_error kd err)
    | None => Ret (RStatus 204)
    end).

(** The usual mappings. *)
Definition query_filter (r : request) : string := r_Query r "filter".

Definition missing_or_500 (missing : string) (e : storeErr) : response R :=
  if storeErr_is ErrNotFound e then RError 404 (Text missing) else RError 500 (StoreErr e).

Definition exists_or_500 (exists_ : string) (e : storeErr) : response R :=
  if storeErr_is ErrAlreadyExists e then RError 409 (Text exists_) else RError 500 (StoreErr e).

Definition missing_pending_or_500 (missing : string) (e : storeErr) : response R :=
  if storeErr_is ErrNotFound e then RError 404 (Text missing)
  else if storeErr_is ErrFinalizersPending e then RStatus 202
  else RError 500 (StoreErr e).

Definition system_org (_ : context) : string + uuid := inr SystemTenantID.

End rest.
Arguments handler : clear implicits.
Arguments kind : clear implicits.

(** * The providers *)

Definition set_status {Spec Status} (st : Status) (o : Object Spec Status) : Object Spec Status :=
  MkObject (o_base o) (o_spec o) st.

Definition map_spec {Spec Status} (f : Spec → Spec) (o : Object Spec Status) : Object Spec Status :=
  MkObject (o_base o) (f (o_spec o)) (o_status o).

(** A kind of one organization with the usual mappings, under its name. *)
Definition tenant_kind {Spec Status} (name : string) (prepare : Object Spec Status → string + Object Spec Status)
    (view : Object Spec Status → Object Spec Status) (filter : request → string) : kind (Object Spec Status) :=
  MkKind OrgIDFromContext prepare view filter (missing_or_500 (name +:+ " not found"))
    (exists_or_500 (name +:+ " already exists")) (missing_or_500 (name +:+ " not found")).

Section providers.
Context `{Marshal TenantSpec} `{Marshal OrganizationSpec} `{Marshal PolicySpec} `{Marshal SecretSpec}
  `{Marshal CatalogItemSpec} `{Marshal WebhookSpec} `{Marshal MachineSpec}.
Context `{Decoder Tenant} `{Decoder Organization} `{Decoder Policy} `{Decoder Secret} `{Decoder CatalogItem}
  `{Decoder Webhook} `{Decoder Machine}.

(** ** Tenants: kept under the system tenant *)
Definition tenants_kind : kind Tenant :=
  MkKind system_org (λ t, inr (set_status (MkTenantStatus "Pending" "") t)) (λ t, t) query_filter
    (missing_or_500 "tenant not found") (exists_or_500 "tenant already exists")
    (missing_pending_or_500 "tenant not found").

Definition listTenants : handler Tenant := list_handler tenants_kind.
Definition getTenant : handler Tenant := get_handler tenants_kind.
Definition createTenant fuel now : handler Tenant := create_handler tenants_kind fuel now.
Definition updateTenant fuel now : handler Tenant := update_handler tenants_kind fuel now.
Definition deleteTenant now : handler Tenant := delete_handler tenants_kind now.

(** ** Organizations: kept under the system tenant; a creation and a deletion
    that succeed fire a hook, returned next to the response *)
Definition organizations_kind : kind Organization :=
  MkKind system_org (λ o, inr (set_status (MkOrganizationStatus "Pending" "" "") o)) (λ o, o) query_filter
    (missing_or_500 "organization not found") (exists_or_500 "organization already exists")
    (missing_pending_or_500 "organization not found").

Inductive hook_payload := POrganization (o : Organization) | PDeleted (org_id : uuid) (name : string).

Definition fired (hooks : bool) (event : string) (p : hook_payload) : list (string * string * hook_payload) :=
  if hooks then [("Organization", event, p)] else [].

Definition listOrganizations : handler Organization := list_handler organizations_kind.
Definition getOrganization : handler Organization := get_handler organizations_kind.

Definition createOrganization (hooks : bool) fuel now (ctx : context) (r : request)
  : prog Organization (response Organization * list (string * string * hook_payload)) :=
  res ← create_handler organizations_kind fuel now ctx r;
  match res with
  | ROne 201 org => Ret (res, fired hooks "post_create" (POrganization org))
  | _ => Ret (res, [])
  end.

Definition updateOrganization fuel now : handler Organization := update_handler organizations_kind fuel now.

Definition deleteOrganization (hooks : bool) now (ctx : context) (r : request)
  : prog Organization (response Organization * list (string * string * hook_payload)) :=
  res ← delete_handler organizations_kind now ctx r;
  match res with
  | RStatus 204 => Ret (res, fired hooks "post_delete" (PDeleted SystemTenantID (r_Param r "name")))
  | _ => Ret (res, [])
  end.

(** ** Policies *)
Definition policies_kind : kind Policy :=
  tenant_kind "policy" (λ p, inr (set_status (MkPolicyStatus "Active") p)) (λ p, p) query_filter.

Definition listPolicies : handler Policy := list_handler policies_kind.
Definition getPolicy : handler Policy := get_handler policies_kind.
Definition createPolicy fuel now : handler Policy := create_handler policies_kind fuel now.
Definition updatePolicy fuel now : handler Policy := update_handler policies_kind fuel now.
Definition deletePolicy now : handler Policy := delete_handler policies_kind now.

(** ** Secrets: shown redacted, except by [revealSecret] *)
Definition default_type (s : SecretSpec) : SecretSpec :=
  MkSecretSpec (if String.eqb (s_Type s) "" then TypeOpaque else s_Type s) (s_Data s).

Definition secrets_kind : kind Secret :=
  tenant_kind "secret" (λ s, inr (set_status (MkSecretStatus "Active") (map_spec default_type s))) Redacted query_filter.

Definition revealed_kind : kind Secret :=
  tenant_kind "secret" (λ s, inr (set_status (MkSecretStatus "Active") (map_spec default_type s))) (λ s, s) query_filter.

Definition listSecrets : handler Secret := list_handler secrets_kind.
Definition getSecret : handler Secret := get_handler secrets_kind.
Definition revealSecret : handler Secret := get_handler revealed_kind.
Definition createSecret fuel now : handler Secret := create_handler secrets_kind fuel now.
Definition updateSecret fuel now : handler Secret := update_handler secrets_kind fuel now.
Definition deleteSecret now : handler Secret := delete_handler secrets_kind now.

(** ** Catalog items: the list shows the published ones by default *)
Definition catalog_filter (r : request) : string :=
  if negb (String.eqb (r_Query r "all") "true") && String.eqb (r_Query r "filter") "" then "published=true"
  else r_Query r "filter".

Definition catalog_kind : kind CatalogItem :=
  tenant_kind "catalog item" (λ i, inr (set_status (MkCatalogItemStatus "Active") i)) (λ i, i) catalog_filter.

Definition listCatalogItems : handler CatalogItem := list_handler catalog_kind.
Definition getCatalogItem : handler CatalogItem := get_handler catalog_kind.
Definition createCatalogItem fuel now : handler CatalogItem := create_handler catalog_kind fuel now.
Definition updateCatalogItem fuel now : handler CatalogItem := update_handler catalog_kind fuel now.
Definition deleteCatalogItem now : handler CatalogItem := delete_handler catalog_kind now.

(** ** Webhooks: refused without a URL *)
Definition webhooks_kind : kind Webhook :=
  tenant_kind "webhook"
    (λ w, if String.eqb (URL (o_spec w)) "" then inl "spec.url is required"
          else inr (set_status (MkWebhookStatus "Active" "" 0 0) w))
    (λ w, w) query_filter.

Definition listWebhooks : handler Webhook := list_handler webhooks_kind.
Definition getWebhook : handler Webhook := get_handler webhooks_kind.
Definition createWebhook fuel now : handler Webhook := create_handler webhooks_kind fuel now.
Definition updateWebhook fuel now : handler Webhook := update_handler webhooks_kind fuel now.
Definition deleteWebhook now : handler Webhook := delete_handler webhooks_kind now.

(** ** Machines: every error of a read or a deletion is a 404, every error of a
    creation a 409 *)
Definition machines_kind : kind Machine :=
  MkKind OrgIDFromContext
    (λ m, inr (set_status (MkMachineStatus (MkBMCStatus "" false) (MkLifecycleStatus "Pending" None) "") m))
    (λ m, m) query_filter (λ e, RError 404 (StoreErr e)) (λ e, RError 409 (StoreErr e)) (λ e, RError 404 (StoreErr e)).

Definition listMachines : handler Machine := list_handler machines_kind.
Definition getMachine : handler Machine := get_handler machines_kind.
Definition createMachine fuel now : handler Machine := create_handler machines_kind fuel now.
Definition updateMachine fuel now : handler Machine := update_handler machines_kind fuel now.
Definition deleteMachine now : handler Machine := delete_handler machines_kind now.

End providers.
