(* ===== verification/RestProps.v ===== *)
(** What the REST handlers guarantee: a request that passes the middleware chain
    reads and writes only the organization it was resolved to, and secrets are
    shown masked.  Also where the update handlers do not keep that promise. *)

From S2P Require Import Prelude GoStrings GoJson Filter Pagination Resource Gorm Models Nesting Store StoreProps StoreClaims Auth Rest.

(** * Scope of the handlers *)

Section scope.
Context {R : Type} `{ModelLaws R} `{Decoder R} {D : Type} `{!Database R D} `{!DatabaseLaws R D}.
Implicit Types (d : D) (kd : kind R).

(** The resources a response shows. *)
Definition shown (res : response R) : list R :=
  match res with
  | ROne _ r => [r]
  | RMany _ l => Items l
  | RError _ _ | RStatus _ => []
  end.

(** A kind of one organization: the organization is the request's, completing
    and showing a resource keep its organization, and errors show nothing. *)
Class KindLaws kd : Prop := {
  kl_org : k_org kd = OrgIDFromContext;
  kl_prepare : ∀ r r', k_prepare kd r = inr r' → OrgID (base r') = OrgID (base r);
  kl_view : ∀ r, OrgID (base (k_view kd r)) = OrgID (base r);
  kl_errors : ∀ e, shown (k_get_error kd e) = [] ∧ shown (k_create_error kd e) = [] ∧ shown (k_delete_error kd e) = [];
}.

(** The body of an update names no other organization. *)
Definition keeps_org (body : string) : Prop :=
  ∀ x y : R, decode_body body x = inr y → OrgID (base y) = OrgID (base x).

Inductive endpoint := EList | EGet | ECreate (fuel : nat) (now : Time) | EUpdate (fuel : nat) (now : Time)
| EDelete (now : Time).

Definition serve kd (ep : endpoint) : handler R :=
  match ep with
  | EList => list_handler kd
  | EGet => get_handler kd
  | ECreate fuel now => create_handler kd fuel now
  | EUpdate fuel now => update_handler kd fuel now
  | EDelete now => delete_handler kd now
  end.

Definition endpoint_ok (ep : endpoint) (body : string) : Prop :=
  match ep with EUpdate _ _ => keeps_org body | _ => True end.

(** The outcome of a handler that stays inside an organization. *)
Definition inside (org : uuid) d (out : response R * D) : Prop :=
  others org (rows out.2) ≡ₚ others org (rows d) ∧ ∀ r, r ∈ shown out.1 → OrgID (base r) = org.

Lemma inside_quiet org d res d' : rows d' = rows d → shown res = [] → inside org d (res, d').
Proof. intros Hr Hs. split; simpl; [by rewrite Hr|]. rewrite Hs. set_solver. Qed.

Lemma list_inside kd org ctx r d :
  KindLaws kd → OrgIDFromContext ctx = inr org → inside org d (run (list_handler kd ctx r) d).
Proof.
  intros Hkd Ho. unfold list_handler, with_org. rewrite kl_org, Ho, run_bind.
  set (opts := MkListOptions _ _ _ _).
  pose proof (List_rows org opts d) as Hr. pose proof (List_items org opts d) as Hi.
  destruct (run (List org opts) d) as [[e|l] d']; simpl in *; [by apply inside_quiet|].
  split; simpl; [by rewrite Hr|]. intros x (y & -> & Hy)%list_elem_of_fmap.
  rewrite kl_view. by apply (Hi l eq_refl).
Qed.

Lemma get_inside kd org ctx r d :
  KindLaws kd → OrgIDFromContext ctx = inr org → inside org d (run (get_handler kd ctx r) d).
Proof.
  intros Hkd Ho. unfold get_handler, with_org. rewrite kl_org, Ho, run_bind.
  pose proof (Get_rows org (r_Param r "name") d) as Hr. pose proof (Get_item org (r_Param r "name") d) as Hi.
  destruct (run (Get _ _) d) as [[e|x] d']; simpl in *; [by apply inside_quiet, kl_errors|].
  split; simpl; [by rewrite Hr|]. intros y ->%list_elem_of_singleton.
  rewrite kl_view. by destruct (Hi x eq_refl) as (_ & _ & [=]).
Qed.

Lemma create_inside kd fuel now org ctx r d :
  isResourceAccessor (R := R) = true →
  KindLaws kd → OrgIDFromContext ctx = inr org → inside org d (run (create_handler kd fuel now ctx r) d).
Proof.
  intros Hacc Hkd Ho. unfold create_handler, with_org. destruct (decode_body _ _) as [e|x]; [by apply inside_quiet|].
  rewrite kl_org, Ho. destruct (k_prepare _ _) as [e|y] eqn:Ep; [by apply inside_quiet|].
  apply kl_prepare in Ep. rewrite base_on_base in Ep. simpl in Ep. rewrite run_bind.
  pose proof (Create_others fuel now y d Hacc) as Hothers. rewrite Ep in Hothers.
  pose proof (Create_outcome Hacc fuel now y d) as Hout.
  destruct (run (Create fuel now y) d) as [[[e|] y'] d']; simpl in *; [by apply inside_quiet, kl_errors|].
  destruct Hout as (_ & -> & _). split; simpl; [done|]. intros z ->%list_elem_of_singleton. rewrite kl_view.
  by destruct (prepare_create_fields now y) as ([= -> _] & _).
Qed.

Lemma update_inside kd fuel now org ctx r d :
  isResourceAccessor (R := R) = true → keeps_org (r_Body r) →
  KindLaws kd → OrgIDFromContext ctx = inr org → inside org d (run (update_handler kd fuel now ctx r) d).
Proof.
  intros Hacc Hbody Hkd Ho. unfold update_handler, with_org. rewrite kl_org, Ho, run_bind.
  pose proof (Get_rows org (r_Param r "name") d) as Hr. pose proof (Get_item org (r_Param r "name") d) as Hi.
  destruct (run (Get _ _) d) as [[e|x] d1]; simpl in *; [by apply inside_quiet, kl_errors|].
  destruct (Hi x eq_refl) as (_ & _ & [= Hox _]).
  destruct (decode_body _ x) as [e|y] eqn:Ed; [by apply inside_quiet|].
  apply Hbody in Ed. rewrite run_bind.
  pose proof (Update_others fuel now y d1 Hacc) as Hothers. rewrite Ed, Hox, Hr in Hothers.
  pose proof (Update_outcome Hacc fuel now y d1) as Hout. cbv zeta in Hout.
  destruct (run (Update fuel now y) d1) as [[[e|] y'] d']; simpl in *.
  - assert (rows d' = rows d) as Hd by congruence. destruct e; simpl; by apply inside_quiet.
  - destruct Hout as (_ & [[= Hk _]] & _). split; simpl; [by rewrite Hothers|].
    intros z ->%list_elem_of_singleton. rewrite kl_view. congruence.
Qed.

Lemma delete_inside kd now org ctx r d :
  KindLaws kd → OrgIDFromContext ctx = inr org → inside org d (run (delete_handler kd now ctx r) d).
Proof.
  intros Hkd Ho. unfold delete_handler, with_org. rewrite kl_org, Ho, run_bind.
  pose proof (Delete_others now org (r_Param r "name") d) as Hothers.
  destruct (run (Delete _ _ _) d) as [[e|] d']; simpl in *; split; simpl; try (by rewrite Hothers); [|set_solver].
  destruct (kl_errors e) as (_ & _ & ->). set_solver.
Qed.

Lemma serve_inside kd ep org ctx r d :
  isResourceAccessor (R := R) = true → endpoint_ok ep (r_Body r) →
  KindLaws kd → OrgIDFromContext ctx = inr org → inside org d (run (serve kd ep ctx r) d).
Proof.
  destruct ep; simpl; eauto using list_inside, get_inside, create_inside, update_inside, delete_inside.
Qed.

End scope.

(** [http.Error] of the middleware, as a program. *)
Definition http_error {R} `{Model R} (code : Z) (msg : string) : prog R (response R) := Ret (RError code (Text msg)).

Definition in_scope `{Uuid} (sub : Subject) (org : uuid) : Prop :=
  universal (Tenants sub) = true ∨ ∃ t, t ∈ tenants (Tenants sub) ∧ uuid_parse t = inr org.

(** End to end isolation of tenants.  A request that goes through the
    authentication, tenancy and authorization middleware to an endpoint of a
    tenant-scoped kind (policies, secrets, catalog items, webhooks, machines)
    either is refused without touching the database, or is served for one
    organization its subject belongs to, having been authorized for the method
    and resource: every resource in the answer belongs to that organization and
    no row of another one changes.  For updates this needs a body that names no
    other organization. *)
Theorem rest_isolation {R D} `{ModelLaws R} `{Decoder R} `{!Database R D} `{!DatabaseLaws R D}
    `{UuidLaws} `{RangeOrder} (kd : kind R) (ep : endpoint) authn (authz : Authorizer) ctx r (d : D) :
  isResourceAccessor (R := R) = true → KindLaws kd → endpoint_ok ep (r_Body r) →
  let out := run (chain http_error authn DefaultTenancyLogic authz (serve kd ep) ctx r) d in
  (out.2 = d ∧ ∃ code msg, out.1 = RError code (Text msg) ∧ code ∈ [400; 401; 403; 500]) ∨
  (∃ sub org, authn r = inr sub ∧ in_scope sub org ∧
     authz (MkContext (Some sub) (Some org)) sub (extractResource (r_Path r)) (methodToAction (r_Method r)) = None ∧
     others org (rows out.2) ≡ₚ others org (rows d) ∧
     ∀ x, x ∈ shown out.1 → OrgID (base x) = org).
Proof.
  intros Hacc Hkd Hep. cbv zeta.
  destruct (request_verdict authn DefaultTenancyLogic authz ctx r) as (v & Hchain & Hin & Hcode).
  rewrite Hchain. destruct v as [[code msg]|ctx']; simpl.
  - left. split; [done|]. exists code, msg. eauto.
  - right. pose proof (proj1 (Hin ctx') eq_refl) as Hg.
    destruct (granted_scope _ _ _ _ _ Hg) as (sub & org & -> & Ha & Hs).
    destruct Hg as (sub' & org' & [= <- <-] & _ & _ & Hz). exists sub, org.
    destruct (serve_inside kd ep org (MkContext (Some sub) (Some org)) r d) as [Ho Hi]; [done..|].
    split_and!; done.
Qed.

(** * The kinds of the providers *)

Section kinds.
Context {Spec Status : Type} `{Marshal Spec}.

#[global] Instance tenant_kind_laws name prepare view filter :
  (∀ r r' : Object Spec Status, prepare r = inr r' → o_base r' = o_base r) →
  (∀ r, o_base (view r) = o_base r) →
  KindLaws (tenant_kind (Spec := Spec) (Status := Status) name prepare view filter).
Proof.
  intros Hp Hv. split; simpl; [done|by intros r r' ->%Hp|by intros r; rewrite Hv|].
  intros e. by destruct e.
Qed.
End kinds.

#[global] Instance policies_laws `{Marshal PolicySpec} : KindLaws policies_kind.
Proof. apply tenant_kind_laws; naive_solver. Qed.
#[global] Instance secrets_laws `{Marshal SecretSpec} : KindLaws secrets_kind.
Proof. apply tenant_kind_laws; [intros r r' [= <-]|]; done. Qed.
#[global] Instance revealed_laws `{Marshal SecretSpec} : KindLaws revealed_kind.
Proof. apply tenant_kind_laws; [intros r r' [= <-]|]; done. Qed.
#[global] Instance catalog_laws `{Marshal CatalogItemSpec} : KindLaws catalog_kind.
Proof. apply tenant_kind_laws; [intros r r' [= <-]|]; done. Qed.
#[global] Instance webhooks_laws `{Marshal WebhookSpec} : KindLaws webhooks_kind.
Proof. apply tenant_kind_laws; [intros r r'; case_match; [done|]; intros [= <-]|]; done. Qed.
#[global] Instance machines_laws `{Marshal MachineSpec} : KindLaws machines_kind.
Proof. split; simpl; [done|intros r r' [= <-]|..]; done. Qed.

(** * Secrets *)

Section views.
Context {R : Type} `{Model R} `{Decoder R} {D : Type} `{!Database R D}.

(** Whatever a handler shows went through the view of its kind. *)
Lemma shown_viewed (kd : kind R) ep ctx r (d : D) x :
  (∀ e, shown (k_get_error kd e) = [] ∧ shown (k_create_error kd e) = [] ∧ shown (k_delete_error kd e) = []) →
  x ∈ shown (run (serve kd ep ctx r) d).1 → ∃ y, x = k_view kd y.
Proof.
  intros He. assert (∀ e, (x ∈ shown (k_get_error kd e) → False) ∧ (x ∈ shown (k_create_error kd e) → False) ∧
    (x ∈ shown (k_delete_error kd e) → False)) as Hne.
  { intros e. destruct (He e) as (-> & -> & ->). set_solver. }
  destruct ep; cbn [serve].
  - unfold list_handler, with_org. destruct (k_org kd ctx); [simpl; by intros Hx%elem_of_nil|]. rewrite run_bind.
    destruct (run _ d) as [[e|l] d']; simpl; [simpl; by intros Hx%elem_of_nil|].
    intros (y & -> & _)%list_elem_of_fmap. eauto.
  - unfold get_handler, with_org. destruct (k_org kd ctx); [simpl; by intros Hx%elem_of_nil|]. rewrite run_bind.
    destruct (run _ d) as [[e|y] d']; simpl; [by intros Hx%Hne|]. intros ->%list_elem_of_singleton. eauto.
  - unfold create_handler, with_org. destruct (decode_body _ _); [simpl; by intros Hx%elem_of_nil|].
    destruct (k_org kd ctx); [simpl; by intros Hx%elem_of_nil|]. destruct (k_prepare kd _); [simpl; by intros Hx%elem_of_nil|].
    rewrite run_bind. destruct (run _ d) as [[[e|] y] d']; simpl; [by intros Hx%Hne|].
    intros ->%list_elem_of_singleton. eauto.
  - unfold update_handler, with_org. destruct (k_org kd ctx); [simpl; by intros Hx%elem_of_nil|]. rewrite run_bind.
    destruct (run _ d) as [[e|y] d']; [simpl; by intros Hx%Hne|].
    destruct (decode_body _ y) as [e|z]; [simpl; by intros Hx%elem_of_nil|]. rewrite run_bind.
    destruct (run _ d') as [[[e|] y'] d'']; simpl; [destruct e; simpl; by intros Hx%elem_of_nil|].
    intros ->%list_elem_of_singleton. eauto.
  - unfold delete_handler, with_org. destruct (k_org kd ctx); [simpl; by intros Hx%elem_of_nil|]. rewrite run_bind.
    destruct (run _ d) as [[e|] d']; simpl; [by intros Hx%Hne|]. by intros Hx%elem_of_nil.
Qed.
End views.

Lemma Redacted_masks (s : Secret) m k v : s_Data (o_spec (Redacted s)) = Some m → m !! k = Some v → v = "***".
Proof.
  simpl. destruct (s_Data (o_spec s)) as [m0|]; [|done]. intros [= <-].
  rewrite lookup_fmap. intros (? & _ & [= <-])%fmap_Some. done.
Qed.


(** * Documents over REST: a decoder of the fields the witnesses use *)

Definition set_doc_field (d : Doc) (kv : string * json) : option Doc :=
  match kv with
  | ("org_id", JStr s) => match uuid_parse s with inr o => Some (on_base (SetOrgID o) d) | inl _ => None end
  | ("resource_version", JNum lit) => v ← ParseInt lit; Some (on_base (SetResourceVersion v) d)
  | ("spec", JStr s) => Some (map_spec (λ _, s) d)
  | _ => Some d
  end.

#[global] Instance Doc_Decoder : Decoder Doc := {
  zero := doc 0 "" None 0 "";
  decode_body body d :=
    match parse_json body with
    | Some (JObj kvs) =>
        match foldl (λ acc kv, d ← acc; set_doc_field d kv) (Some d) kvs with
        | Some d => inr d
        | None => inl "invalid field"
        end
    | _ => inl "invalid JSON"
    end;
}.

Definition docs_kind : kind Doc := tenant_kind "doc" inr (λ d, d) query_filter.

Definition ann : Authenticator := λ _, inr (MkSubject "ann" (NewTenantSet ["1"])).

Definition put_request (name body : string) : request :=
  MkRequest "PUT" ("/api/v1/docs/" +:+ name) (λ _, "") (λ _, "") (λ p, if String.eqb p "name" then name else "") body.

Definition two_tenants : MemDB Doc := MkMem [doc 1 "a" None 1 "s"; doc 2 "a" None 1 "t"] true.

Definition json_fields (kvs : list (string * string)) : string :=
  "{" +:+ Join ((λ kv, quoted (fst kv) +:+ ":" +:+ quoted (snd kv)) <$> kvs) "," +:+ "}".

(** The organization of an update is taken from the body.  A subject of tenant
    1 alone, whose request resolves to tenant 1, overwrites the row of tenant 2
    with the same name and version by naming tenant 2 in the body, since the
    handlers decode the body over the stored resource and update the result. *)
Theorem update_escapes_tenant :
  let r := put_request "a" (json_fields [("org_id", "2"); ("spec", "x")]) in
  let out := run (chain http_error ann DefaultTenancyLogic AllowAllAuthorizer (serve docs_kind (EUpdate 9 7))
                    (MkContext None None) r) two_tenants in
  (∃ x, out.1 = ROne 200 x ∧ OrgID (base x) = 2%N) ∧
  List.map (λ x, (OrgID (base x), o_spec x)) (rows out.2) = [(1%N, "s"); (2%N, "x")].
Proof. split; [eexists; split|]; vm_compute; reflexivity. Qed.

Lemma rest_isolation_witness :
  let r := put_request "a" (json_fields [("spec", "x")]) in
  let out := run (chain http_error ann DefaultTenancyLogic AllowAllAuthorizer (serve docs_kind EGet)
                    (MkContext None None) r) two_tenants in
  out.1 = ROne 200 (doc 1 "a" None 1 "s") ∧ ∃ sub org, in_scope sub org ∧ others org (rows out.2) ≡ₚ others org (rows two_tenants).
Proof.
  intros r out. split; [vm_compute; reflexivity|].
  destruct (rest_isolation docs_kind EGet ann AllowAllAuthorizer (MkContext None None) r two_tenants) as
    [(_ & code & msg & Hout & _)|(sub & org & _ & Hs & _ & Ho & _)].
  - reflexivity.
  - apply tenant_kind_laws; [intros x y [= <-]|]; reflexivity.
  - exact I.
  - exfalso. revert Hout. vm_compute. discriminate.
  - exists sub, org. split; [exact Hs|exact Ho].
Defined.

#[local] Instance Secret_Marshal : Marshal SecretSpec := λ s, Some (s_Type s).

#[local] Instance Secret_Decoder : Decoder Secret := {
  zero := MkObject (o_base (doc 0 "" None 0 "")) (MkSecretSpec "" None) (MkSecretStatus "");
  decode_body body s := inl "not used";
}.

Definition demo_secret : Secret :=
  MkObject (o_base (doc 1 "a" None 1 "")) (MkSecretSpec "opaque" (Some {["user" := "ann"]})) (MkSecretStatus "Active").

