(* ===== verification/Grpc.v ===== *)
(** The gRPC side: the metadata adapter (src/resource/proto/adapter.go), the
    authentication interceptors (src/grpc/interceptors.go) and the generic
    service handler (src/grpc/generic_server.go, src/grpc/errors.go). *)

From S2P Require Import Prelude GoStrings Resource Gorm Models Nesting Store StoreProps StoreClaims Auth.

(** * The metadata message

    The generated message of metadata.proto: strings and integers are never
    absent, the optional parent, the maps and lists, and the timestamps may be.
    A timestamp is the time it was made from. *)

Record Metadata := MkMetadata {
  md_OrgId : string;
  md_Name : string;
  md_Parent : option string;
  md_Labels : option (gmap string string);
  md_Annotations : option (gmap string string);
  md_Finalizers : option (list string);
  md_Generation : Z;
  md_ResourceVersion : Z;
  md_Owner : string;
  md_Creator : string;
  md_CreatedAt : option Time;
  md_UpdatedAt : option Time;
  md_DeletionTimestamp : option Time;
}.

Section adapter.
Context `{Uuid}.

Definition MetadataToProto (r : Resource) : Metadata :=
  MkMetadata (uuid_string (OrgID r)) (Name r) (Parent r) (Labels r) (Annotations r) (Finalizers r)
    (Generation r) (ResourceVersion r) (default "" (Owner r)) (Creator r)
    (Some (CreatedAt r)) (Some (UpdatedAt r)) (DeletionTimestamp r).

Definition MetadataFromProto (m : Metadata) : Resource :=
  MkResource (match uuid_parse (md_OrgId m) with inr id => id | inl _ => 0%N end)
    (md_Name m) (md_Parent m) (md_Labels m) (md_Annotations m) (md_Finalizers m)
    (md_Generation m) (md_ResourceVersion m)
    (if String.eqb (md_Owner m) "" then None else Some (md_Owner m)) (md_Creator m)
    (default 0 (md_CreatedAt m)) (default 0 (md_UpdatedAt m)) (md_DeletionTimestamp m) None.

(** [limit] is the [int32] of the message. *)
Definition ListOptionsFromProto (limit : Z) (continue_ filter sort : string) : ListOptions :=
  MkListOptions limit continue_ filter sort.

Definition OrgIDFromProto (orgID : string) : string + uuid := uuid_parse orgID.

Definition TimestampToProto (t : Time) : option Time := if t =? 0 then None else Some t.

End adapter.

(** The metadata of a resource survives the trip through its message, but for
    the soft-deletion mark, which the message does not carry, and an empty
    owner, which comes back as none. *)
Theorem metadata_roundtrip `{UuidLaws} r :
  MetadataFromProto (MetadataToProto r) =
  MkResource (OrgID r) (Name r) (Parent r) (Labels r) (Annotations r) (Finalizers r) (Generation r)
    (ResourceVersion r) (match Owner r with Some "" => None | o => o end) (Creator r) (CreatedAt r) (UpdatedAt r)
    (DeletionTimestamp r) None.
Proof.
  unfold MetadataFromProto, MetadataToProto. simpl. rewrite uuid_parse_string.
  f_equal. destruct (Owner r) as [[|]|]; done.
Qed.

(** * Statuses *)

Inductive code := Unauthenticated | Internal | PermissionDenied | NotFoundCode | AlreadyExistsCode | Aborted.

Inductive grpcErr :=
| Status (c : code) (msg : string)
| PlainStore (e : storeErr)     (* a store error that is not mapped *)
| Plain (msg : string)
| Panic (msg : string).         (* the handler panics *)

Definition ErrNotFoundStatus : grpcErr := Status NotFoundCode "resource not found".
Definition ErrAlreadyExistsStatus : grpcErr := Status AlreadyExistsCode "resource already exists".
Definition ErrConflictStatus : grpcErr := Status Aborted "resource version conflict".

Definition mapStoreError (err : storeErr) : grpcErr :=
  match err with
  | ErrNotFound => ErrNotFoundStatus
  | ErrAlreadyExists => ErrAlreadyExistsStatus
  | ErrConflict => ErrConflictStatus
  | _ => PlainStore err
  end.

(** * The interceptors *)

Section interceptor.
Context `{Uuid} `{RangeOrder} {T : Type} (Error : code → string → T).

(** [authn] is [AuthenticateContext] on the incoming context. *)
Definition AuthInterceptor (authn : context → string + Subject) (tenancy : TenancyLogic) (authz : Authorizer)
    (FullMethod : string) (handler : context → T) (ctx : context) : T :=
  match authn ctx with
  | inl err => Error Unauthenticated ("authentication failed: " +:+ err)
  | inr subject =>
      let ctx := ContextWithSubject ctx subject in
      match DetermineDefaultTenants tenancy ctx with
      | inl err => Error Internal ("default tenant resolution failed: " +:+ err)
      | inr defaults =>
          let authorize ctx :=
            match authz ctx subject FullMethod "invoke" with
            | Some err => Error PermissionDenied ("access denied: " +:+ err)
            | None => handler ctx
            end in
          match Values defaults with
          | [] => authorize ctx
          | t :: _ =>
              match uuid_parse t with
              | inl err => Error Internal ("invalid tenant UUID: " +:+ err)
              | inr parsed => authorize (ContextWithOrgID ctx parsed)
              end
          end
      end
  end.

(** The stream interceptor makes the same decision and hands the handler a
    stream that carries the new context. *)
Definition StreamAuthInterceptor (authn : context → string + Subject) (tenancy : TenancyLogic) (authz : Authorizer)
    (FullMethod : string) (handler : context → T) (ctx : context) : T :=
  AuthInterceptor authn tenancy authz FullMethod handler ctx.

End interceptor.

(** * The generic service handler *)

Class ResourceAdapter (R Msg : Type) := {
  ToProto : R → Msg;
  FromProto : Msg → string + R;
  ToProtoList : list R → string → Z → Msg;
}.

Section service.
Context {R Msg : Type} `{Model R} `{ResourceAdapter R Msg}.

Definition resolveOrgID (ctx : context) : string + uuid := OrgIDFromContext ctx.

(** [bare] says that [R] is [resource.Resource] itself: then the assertion
    [accessor.( *resource.Resource)] holds, and on every type that embeds it the
    assertion panics.  [set_creator] is the method [SetCreator] of the type, if
    it has one. *)
Definition GrpcCreate (bare : bool) (Attribution : option AttributionLogic) (set_creator : option (string → R → R))
    (fuel : nat) (now : Time) (ctx : context) (msg : Msg) : prog R (grpcErr + Msg) :=
  match FromProto msg with
  | inl err => Ret (inl (Plain err))
  | inr r =>
      match resolveOrgID ctx with
      | inl err => Ret (inl (Plain err))
      | inr orgID =>
          let needs_org := isResourceAccessor && N.eqb (OrgID (base r)) 0 in
          if needs_org && negb bare
          then Ret (inl (Panic "interface conversion: resource.ResourceAccessor is not *resource.Resource"))
          else
            let r := if needs_org then on_base (SetOrgID orgID) r else r in
            let r := match Attribution with
                     | None => r
                     | Some attribution =>
                         match attribution ctx, set_creator with
                         | inr creator, Some set => set creator r
                         | _, _ => r
                         end
                     end in
            '(err, r) ← Create fuel now r;
            match err with
            | Some err => Ret (inl (mapStoreError err))
            | None => Ret (inr (ToProto r))
            end
      end
  end.

Definition GrpcGet (ctx : context) (name : string) : prog R (grpcErr + Msg) :=
  match resolveOrgID ctx with
  | inl err => Ret (inl (Plain err))
  | inr orgID =>
      r ← Get orgID name;
      match r with
      | inl err => Ret (inl (mapStoreError err))
      | inr r => Ret (inr (ToProto r))
      end
  end.

Definition GrpcList (ctx : context) (opts : ListOptions) : prog R (grpcErr + Msg) :=
  match resolveOrgID ctx with
  | inl err => Ret (inl (Plain err))
  | inr orgID =>
      list ← List orgID opts;
      match list with
      | inl err => Ret (inl (mapStoreError err))
      | inr list => Ret (inr (ToProtoList (Items list) (NextContinue list) (Total list)))
      end
  end.

Definition GrpcUpdate (fuel : nat) (now : Time) (ctx : context) (msg : Msg) : prog R (grpcErr + Msg) :=
  match FromProto msg with
  | inl err => Ret (inl (Plain err))
  | inr r =>
      '(err, r) ← Update fuel now r;
      match err with
      | Some err => Ret (inl (mapStoreError err))
      | None => Ret (inr (ToProto r))
      end
  end.

Definition GrpcPartialUpdate (now : Time) (orgID : uuid) (name : string) (resourceVersion : Z)
    (fields : gmap string column) : prog R (grpcErr + Msg) :=
  '(err, _) ← PartialUpdate now orgID name resourceVersion fields;
  match err with
  | Some err => Ret (inl (mapStoreError err))
  | None =>
      r ← Get orgID name;
      match r with
      | inl err => Ret (inl (mapStoreError err))
      | inr r => Ret (inr (ToProto r))
      end
  end.

(** A deletion that waits for finalizers is a success. *)
Definition GrpcDelete (now : Time) (ctx : context) (name : string) : prog R (option grpcErr) :=
  match resolveOrgID ctx with
  | inl err => Ret (Some (Plain err))
  | inr orgID =>
      err ← Delete now orgID name;
      match err with
      | Some ErrFinalizersPending | None => Ret None
      | Some err => Ret (Some (mapStoreError err))
      end
  end.

End service.

(** * Creation over gRPC *)

Section create.
Context {R Msg : Type} `{ModelLaws R} `{ResourceAdapter R Msg} {D : Type} `{!Database R D} `{!DatabaseLaws R D}.

(** Over a type that embeds the base resource, without its own [SetCreator],
    the generic create never uses the organization of the caller: a message
    without organization makes the handler panic before any call to the
    database, and a creation that succeeds adds one row, in the organization the
    message names, whatever the one of the context is. *)
Theorem grpc_create_org attribution fuel now ctx msg (r : R) org (d : D) :
  isResourceAccessor (R := R) = true → FromProto msg = inr r → OrgIDFromContext ctx = inr org →
  let out := run (GrpcCreate false attribution None fuel now ctx msg) d in
  (OrgID (base r) = 0%N → out.2 = d ∧ ∃ m, out.1 = inl (Panic m)) ∧
  (∀ m, out.1 = inr m → ∃ r', rows out.2 ≡ₚ r' :: rows d ∧ OrgID (base r') = OrgID (base r) ∧ OrgID (base r) ≠ 0%N).
Proof.
  intros Hacc Hmsg Ho. cbv zeta. unfold GrpcCreate, resolveOrgID. rewrite Hmsg, Ho, Hacc. simpl.
  destruct (N.eqb_spec (OrgID (base r)) 0) as [Hz|Hz]; simpl; [split; [eauto|done]|].
  split; [done|].
  assert (match attribution with Some a => match a ctx with inr _ => r | inl _ => r end | None => r end = r) as Hr
    by (destruct attribution as [a|]; [destruct (a ctx)|]; done).
  rewrite Hr, run_bind. pose proof (Create_outcome Hacc fuel now r d) as Hc.
  destruct (run (Create fuel now r) d) as [[[e|] r'] d']; simpl in *; [done|].
  destruct Hc as (_ & -> & Hrows). intros m _. exists (prepare_create now r). split_and!; [done| |done].
  by destruct (prepare_create_fields now r) as ([= -> _] & _).
Qed.
End create.

(** * The default tenant *)

(** The keys of a set in the opposite order. *)
Definition reversed_RangeOrder : RangeOrder.
Proof. refine {| range_set s := reverse (elements s) |}. intros s. apply reverse_Permutation. Defined.

Definition both : context → string + Subject := λ _, inr (MkSubject "bob" (NewTenantSet ["1"; "2"])).

(** For a subject of several tenants the interceptor takes the first one the
    iteration over the tenant map yields, where the HTTP middleware refuses the
    request: the same call is served for one tenant or the other depending on
    the iteration order. *)
Theorem grpc_tenant_ambiguous :
  let serve_with order :=
    AuthInterceptor (H0 := order) (λ _ _, None) both DefaultTenancyLogic AllowAllAuthorizer "/svc/Get"
      ctx_orgID (MkContext None None) in
  serve_with elements_RangeOrder ≠ serve_with reversed_RangeOrder ∧
  (∀ order, serve_with order = Some 1%N ∨ serve_with order = Some 2%N).
Proof.
  split; [vm_compute; discriminate|].
  intros order. unfold AuthInterceptor, both, Values. simpl.
  pose proof (@range_set_perm order (NewTenantSet ["1"; "2"]).(tenants)) as Hp. simpl in Hp.
  set (s := {["1"]} ∪ ({["2"]} ∪ ∅)) in *.
  assert (∀ x, x ∈ @range_set order s → x = "1" ∨ x = "2") as Hin.
  { intros x Hx. rewrite Hp in Hx. apply elem_of_elements in Hx. set_solver. }
  destruct (@range_set order s) as [|t l] eqn:E.
  - apply Permutation_nil in Hp. apply elements_empty_inv in Hp. set_solver.
  - destruct (Hin t) as [->| ->]; [left|by left|by right].
Qed.

(** * Witnesses *)

Lemma metadata_roundtrip_witness :
  let r := MkResource 7 "a" (Some "p") None None (Some ["f"]) 2 3 (Some "ann") "bob" 10 20 None None in
  MetadataFromProto (MetadataToProto r) = r.
Proof. exact (metadata_roundtrip (MkResource 7 "a" (Some "p") None None (Some ["f"]) 2 3 (Some "ann") "bob" 10 20 None None)). Defined.

#[global] Instance Doc_adapter : ResourceAdapter Doc (list Doc) := {
  ToProto d := [d];
  FromProto m := match m with d :: _ => inr d | [] => inl "no document" end;
  ToProtoList l _ _ := l;
}.

Lemma grpc_create_org_witness :
  let d : MemDB Doc := MkMem [] true in
  let out := run (GrpcCreate false None None 9 7 (MkContext None (Some 1%N)) [doc 2 "a" None 0 "s"]) d in
  let bad := run (GrpcCreate false None None 9 7 (MkContext None (Some 1%N)) [doc 0 "a" None 0 "s"]) d in
  (∃ r', rows out.2 ≡ₚ [r'] ∧ OrgID (base r') = 2%N) ∧ ∃ m, bad.1 = inl (Panic m).
Proof.
  intros d out bad. split.
  - destruct (grpc_create_org (R := Doc) (Msg := list Doc) (D := MemDB Doc) None 9 7 (MkContext None (Some 1%N)) [doc 2 "a" None 0 "s"] (doc 2 "a" None 0 "s") 1%N d)
      as [_ Hok]; [reflexivity..|].
    destruct (Hok [prepare_create 7 (doc 2 "a" None 0 "s")]) as (r' & Hr & Ho & _); [vm_compute; reflexivity|].
    exists r'. split; [exact Hr|exact Ho].
  - apply (grpc_create_org (R := Doc) (Msg := list Doc) (D := MemDB Doc) None 9 7 (MkContext None (Some 1%N)) [doc 0 "a" None 0 "s"] (doc 0 "a" None 0 "s") 1%N d);
      reflexivity.
Defined.
