(* ===== verification/GrpcServer.v ===== *)
(** The gRPC server and its REST gateway (src/grpc/server.go, src/grpc/gateway.go),
    over the documented behaviour of google.golang.org/grpc, composed with the
    interceptors and the generic service of Grpc.v. *)

From S2P Require Import Prelude GoStrings Resource Gorm Models Nesting Store StoreProps StoreClaims Auth Rest RestProps Grpc.

(** * The library

    A unary interceptor gets the full name of the method, the rest of the chain
    and the context; [T] is the effect of a call. *)

Definition interceptor (T : Type) : Type := string → (context → T) → context → T.

Inductive ServerOption (T : Type) :=
| Creds (certFile keyFile : string) (minVersion : string)
| ChainUnaryInterceptor (l : list (interceptor T))
| OtherOption (name : string).
Arguments Creds {T}.
Arguments ChainUnaryInterceptor {T}.
Arguments OtherOption {T}.

Inductive serving_status := SERVING | NOT_SERVING.

(** A service is the list of its methods by full name; the health server keeps a
    status. *)
Class GrpcLib (T : Type) := {
  gserver : Type;
  hserver : Type;
  grpc_NewServer : list (ServerOption T) → gserver;
  register_service : list (string * (context → T)) → gserver → gserver;
  invoke : gserver → string → context → T;
  requires_tls : gserver → bool;
  health_NewServer : hserver;
  health_Check : hserver → serving_status;
  health_Shutdown : hserver → hserver;
  health_service : hserver → list (string * (context → T));
  reflection_service : list (string * (context → T));
}.

Definition chained {T} (opts : list (ServerOption T)) : list (interceptor T) :=
  flat_map (λ o, match o with ChainUnaryInterceptor l => l | _ => [] end) opts.

(** The first interceptor of the chain is the outermost. *)
Definition chain_call {T} (is_ : list (interceptor T)) (method : string) (h : context → T) : context → T :=
  foldr (λ (i : interceptor T) h, i method h) h is_.

Fixpoint find_method {T} (ms : list (string * (context → T))) (method : string) : option (context → T) :=
  match ms with
  | [] => None
  | (n, h) :: ms => if String.eqb n method then Some h else find_method ms method
  end.

Definition has_creds {T} (opts : list (ServerOption T)) : bool :=
  existsb (λ o, match o with Creds _ _ _ => true | _ => false end) opts.

(** A call of a registered method runs its handler inside the interceptors the
    server was made with, a call of another one none of them. *)
Class GrpcLibLaws (T : Type) `{GrpcLib T} (unimplemented : T) : Prop := {
  invoke_law : ∀ opts svcs method ctx,
    NoDup (List.concat svcs).*1 →
    invoke (foldl (λ s ms, register_service ms s) (grpc_NewServer opts) svcs) method ctx =
    match find_method (List.concat svcs) method with
    | Some h => chain_call (chained opts) method h ctx
    | None => unimplemented
    end;
  tls_law : ∀ opts svcs,
    requires_tls (foldl (λ s ms, register_service ms s) (grpc_NewServer opts) svcs) = has_creds opts;
  health_law : health_Check health_NewServer = SERVING ∧ ∀ h, health_Check (health_Shutdown h) = NOT_SERVING;
}.

(** * The server (server.go) *)

Record GrpcServerConfig := MkGrpcConfig { g_Addr : string; g_TLSCert : string; g_TLSKey : string }.

Section server.
Context {T : Type} `{GrpcLib T}.

Record GrpcServer := MkGrpcServer {
  GRPCServer : gserver;
  g_Config : GrpcServerConfig;
  Health : hserver;
}.

(** [load] is [tls.LoadX509KeyPair]; its error ends the process.  The credentials
    come before the options of the caller. *)
Definition NewServer (load : string → string → option string) (cfg : GrpcServerConfig) (opts : list (ServerOption T))
  : string + GrpcServer :=
  let make serverOpts :=
    let srv := grpc_NewServer (serverOpts ++ opts) in
    let healthSrv := health_NewServer in
    let srv := register_service (health_service healthSrv) srv in
    let srv := register_service reflection_service srv in
    inr (MkGrpcServer srv cfg healthSrv) in
  if negb (String.eqb (g_TLSCert cfg) "") && negb (String.eqb (g_TLSKey cfg) "") then
    match load (g_TLSCert cfg) (g_TLSKey cfg) with
    | Some err => inl err
    | None => make [Creds (g_TLSCert cfg) (g_TLSKey cfg) "1.2"]
    end
  else make [].

(** [RegisterServices] of a [GRPCProvider]. *)
Definition RegisterServices (ms : list (string * (context → T))) (s : GrpcServer) : GrpcServer :=
  MkGrpcServer (register_service ms (GRPCServer s)) (g_Config s) (Health s).

(** [lis] is the outcome of [net.Listen] on the address, [serve] what
    [Serve] returns. *)
Definition GrpcListenAndServe (lis : string → option string) (serve : option string) (s : GrpcServer) : option string :=
  let addr := if String.eqb (g_Addr (g_Config s)) "" then ":9090" else g_Addr (g_Config s) in
  match lis addr with
  | Some err => Some ("failed to listen on " +:+ addr +:+ ": " +:+ err)
  | None => serve
  end.

(** The states the server passes through when it is stopped: what the health
    service reports, and whether the server accepts calls. *)
Record running_server := MkRunning { rs_server : GrpcServer; rs_accepts : bool }.

Definition GracefulStop (s : running_server) : list running_server :=
  let s1 := MkRunning (MkGrpcServer (GRPCServer (rs_server s)) (g_Config (rs_server s)) (health_Shutdown (Health (rs_server s))))
              (rs_accepts s) in
  let s2 := MkRunning (rs_server s1) false in
  [s; s1; s2].
End server.

(** * The gateway (gateway.go) *)

Record GatewayConfig := MkGatewayConfig { GRPCAddr : string; HTTPAddr : string }.

(** [Mux] and [conn] are values of the library; a connection is made for an
    address and for transport credentials. *)
Record Gateway (Mux Conn : Type) := MkGateway { gw_Mux : Mux; gw_Config : GatewayConfig; gw_conn : Conn }.
Arguments MkGateway {Mux Conn}.
Arguments gw_Mux {Mux Conn}.
Arguments gw_Config {Mux Conn}.
Arguments gw_conn {Mux Conn}.

Section gateway.
Context {Mux Conn : Type} (NewServeMux : Mux).
Context (NewClient : string → bool → string + Conn).      (* the address, and whether the client speaks TLS *)

Definition NewGateway (cfg : GatewayConfig) : string + Gateway Mux Conn :=
  let grpcAddr := if String.eqb (GRPCAddr cfg) "" then "localhost:9090" else GRPCAddr cfg in
  match NewClient grpcAddr false with
  | inl err => inl err
  | inr conn => inr (MkGateway NewServeMux cfg conn)
  end.

Definition RegisterService (fn : Mux → Conn → option string * Mux) (g : Gateway Mux Conn) : option string * Gateway Mux Conn :=
  let '(err, mux) := fn (gw_Mux g) (gw_conn g) in (err, MkGateway mux (gw_Config g) (gw_conn g)).

Definition GatewayListenAndServe (serve : string → Mux → option string) (g : Gateway Mux Conn) : option string :=
  serve (if String.eqb (HTTPAddr (gw_Config g)) "" then ":8081" else HTTPAddr (gw_Config g)) (gw_Mux g).

Definition GatewayHandler (g : Gateway Mux Conn) : Mux := gw_Mux g.

Definition GatewayClose (close : Conn → option string) (g : Gateway Mux Conn) : option string := close (gw_conn g).
End gateway.

(** * The gate *)

Section gate.
Context `{Uuid} `{RangeOrder} {T : Type} `{!GrpcLib T} {unimplemented : T} `{!GrpcLibLaws T unimplemented}.
Context (Error : code → string → T).
Context (authn : context → string + Subject) (tenancy : TenancyLogic) (authz : Authorizer).

(** The calls whose handler runs, and the context it runs in. *)
Definition granted_call (method : string) (ctx ctx' : context) : Prop :=
  ∃ sub defaults, authn ctx = inr sub ∧ DetermineDefaultTenants tenancy (ContextWithSubject ctx sub) = inr defaults ∧
    authz ctx' sub method "invoke" = None ∧
    match Values defaults with
    | [] => ctx' = ContextWithSubject ctx sub
    | t :: _ => ∃ org, uuid_parse t = inr org ∧ ctx' = ContextWithOrgID (ContextWithSubject ctx sub) org
    end.

Definition deliver_call (h : context → T) (v : (code * string) + context) : T :=
  match v with inl (c, msg) => Error c msg | inr ctx => h ctx end.

Lemma interceptor_verdict method ctx :
  ∃ v : (code * string) + context,
    (∀ h, AuthInterceptor Error authn tenancy authz method h ctx = deliver_call h v) ∧
    (∀ ctx', v = inr ctx' ↔ granted_call method ctx ctx') ∧
    (∀ c msg, v = inl (c, msg) → c ∈ [Unauthenticated; Internal; PermissionDenied]).
Proof.
  unfold AuthInterceptor, granted_call. destruct (authn ctx) as [err|sub].
  { exists (inl (Unauthenticated, "authentication failed: " +:+ err)). split_and!; [done| |intros ?? [= <- <-]; set_solver].
    intros ctx'. split; [done|]. by intros (? & ? & ? & _). }
  destruct (DetermineDefaultTenants tenancy _) as [err|defaults] eqn:Ed.
  { exists (inl (Internal, "default tenant resolution failed: " +:+ err)). split_and!; [done| |intros ?? [= <- <-]; set_solver].
    intros ctx'. split; [done|]. intros (? & ? & [= <-] & E & _). congruence. }
  assert (∀ x : context, ∃ v : (code * string) + context,
    (∀ h, match authz x sub method "invoke" with
          | Some err => Error PermissionDenied ("access denied: " +:+ err)
          | None => h x
          end = deliver_call h v) ∧
    (∀ ctx', v = inr ctx' ↔ ctx' = x ∧ authz ctx' sub method "invoke" = None) ∧
    (∀ c msg, v = inl (c, msg) → c ∈ [Unauthenticated; Internal; PermissionDenied])) as Hauthz.
  { intros x. destruct (authz x sub method "invoke") as [err|] eqn:Ez.
    - exists (inl (PermissionDenied, "access denied: " +:+ err)). split_and!; [done|naive_solver|]. intros ?? [= <- <-]; set_solver.
    - exists (inr x). split_and!; [done|naive_solver|done]. }
  destruct (Values defaults) as [|t l] eqn:Ev.
  - destruct (Hauthz (ContextWithSubject ctx sub)) as (v & Hv1 & Hv2 & Hv3). exists v. split_and!; [done| |done].
    intros ctx'. rewrite Hv2. split.
    + intros [-> Hz]. exists sub, defaults. by rewrite Ev.
    + intros (s & d & [= <-] & E & Hz & Hc). rewrite Ed in E. injection E as <-. rewrite Ev in Hc. done.
  - destruct (uuid_parse t) as [err|org] eqn:Et.
    + exists (inl (Internal, "invalid tenant UUID: " +:+ err)). split_and!; [done| |intros ?? [= <- <-]; set_solver].
      intros ctx'. split; [done|]. intros (s & d & [= <-] & E & Hz & Hc). rewrite Ed in E. injection E as <-. rewrite Ev in Hc.
      destruct Hc as (o & Ho & _). congruence.
    + destruct (Hauthz (ContextWithOrgID (ContextWithSubject ctx sub) org)) as (v & Hv1 & Hv2 & Hv3). exists v. split_and!; [done| |done].
      intros ctx'. rewrite Hv2. split.
      * intros [-> Hz]. exists sub, defaults. rewrite Ev. split_and!; [done..|]. by exists org.
      * intros (s & d & [= <-] & E & Hz & Hc). rewrite Ed in E. injection E as <-. rewrite Ev in Hc.
        destruct Hc as (o & Ho & ->). rewrite Et in Ho. by injection Ho as <-.
Qed.

(** The methods of a server: those of the two services [NewServer] registers, and
    those of the providers. *)
Definition all_methods (svcs : list (list (string * (context → T)))) : list (list (string * (context → T))) :=
  health_service health_NewServer :: reflection_service :: svcs.

Lemma NewServer_built load cfg opts s : NewServer load cfg opts = inr s →
  GRPCServer s = foldl (λ s ms, register_service ms s)
    (grpc_NewServer ((if negb (String.eqb (g_TLSCert cfg) "") && negb (String.eqb (g_TLSKey cfg) "")
                      then [Creds (g_TLSCert cfg) (g_TLSKey cfg) "1.2"] else []) ++ opts)) (all_methods []) ∧
  health_Check (Health s) = SERVING.
Proof.
  unfold NewServer. destruct (negb _ && negb _); [destruct (load _ _); [done|]|]; intros [= <-]; (split; [done|]); apply health_law.
Qed.

Lemma RegisterServices_all svcs s :
  GRPCServer (foldl (λ s ms, RegisterServices ms s) s svcs) = foldl (λ s ms, register_service ms s) (GRPCServer s) svcs.
Proof. revert s. induction svcs as [|ms svcs IH]; intros s; [done|]. simpl. by rewrite IH. Qed.

Lemma gate_invoke load cfg s svcs method ctx :
  NewServer load cfg [ChainUnaryInterceptor [AuthInterceptor Error authn tenancy authz]] = inr s →
  NoDup (List.concat (all_methods svcs)).*1 →
  invoke (GRPCServer (foldl (λ s ms, RegisterServices ms s) s svcs)) method ctx =
  match find_method (List.concat (all_methods svcs)) method with
  | Some h => AuthInterceptor Error authn tenancy authz method h ctx
  | None => unimplemented
  end.
Proof.
  intros Hs Hnd. apply NewServer_built in Hs as [Hs _].
  rewrite RegisterServices_all, Hs, <-(foldl_app _ (all_methods []) svcs). change (all_methods [] ++ svcs) with (all_methods svcs).
  rewrite invoke_law by done. destruct (find_method _ method) as [h|]; [|done]. by destruct (negb _ && negb _).
Qed.

(** The gRPC server is a gate.  A server made with the authentication
    interceptor requires TLS exactly when both files are configured; a call of an
    unknown method runs nothing; the verdict on any other call, those of the
    health and reflection services included, does not depend on its handler: the
    handler runs exactly for the calls that authenticate, resolve their default
    tenant and are authorized for the full name of the method, in the context of
    that subject and organization, and every other call gets Unauthenticated,
    Internal or PermissionDenied. *)
Theorem grpc_gate load cfg s svcs method ctx :
  NewServer load cfg [ChainUnaryInterceptor [AuthInterceptor Error authn tenancy authz]] = inr s →
  NoDup (List.concat (all_methods svcs)).*1 →
  let srv := GRPCServer (foldl (λ s ms, RegisterServices ms s) s svcs) in
  requires_tls srv = negb (String.eqb (g_TLSCert cfg) "") && negb (String.eqb (g_TLSKey cfg) "") ∧
  (find_method (List.concat (all_methods svcs)) method = None → invoke srv method ctx = unimplemented) ∧
  ∃ v : (code * string) + context,
    (∀ h, find_method (List.concat (all_methods svcs)) method = Some h → invoke srv method ctx = deliver_call h v) ∧
    (∀ ctx', v = inr ctx' ↔ granted_call method ctx ctx') ∧
    (∀ c msg, v = inl (c, msg) → c ∈ [Unauthenticated; Internal; PermissionDenied]).
Proof.
  intros Hs Hnd srv. pose proof (gate_invoke load cfg s svcs method ctx Hs Hnd) as Hi. fold srv in Hi. split_and!.
  - unfold srv. apply NewServer_built in Hs as [Hs _].
    rewrite RegisterServices_all, Hs, <-(foldl_app _ (all_methods []) svcs), tls_law. by destruct (negb _ && negb _).
  - intros E. by rewrite Hi, E.
  - destruct (interceptor_verdict method ctx) as (v & Hv1 & Hv2 & Hv3). exists v. split_and!; [|done..].
    intros h E. by rewrite Hi, E.
Qed.

(** The health service reports that the server goes down before it does. *)
Theorem stop_announced (s s' : running_server) :
  s' ∈ GracefulStop s → rs_accepts s = true → rs_accepts s' = false → health_Check (Health (rs_server s')) = NOT_SERVING.
Proof.
  intros Hin Hs Hs'. unfold GracefulStop in Hin. rewrite !elem_of_cons in Hin.
  destruct Hin as [-> |[-> |[-> |Hin%elem_of_nil]]]; simpl in *; [congruence|apply health_law..|done].
Qed.
End gate.

(** The gateway connects without TLS, whatever the server it connects to
    requires. *)
Theorem gateway_never_tls {Mux Conn} (NewServeMux : Mux) (NewClient : string → bool → string + Conn) cfg g :
  NewGateway NewServeMux NewClient cfg = inr g →
  NewClient (if String.eqb (GRPCAddr cfg) "" then "localhost:9090" else GRPCAddr cfg) false = inr (gw_conn g).
Proof. unfold NewGateway. destruct (NewClient _ false); [done|]. by intros [= <-]. Qed.

(** * Isolation over gRPC *)

Section isolation.
Context {R Msg D : Type} `{ModelLaws R} `{ResourceAdapter R Msg} `{!Database R D} `{!DatabaseLaws R D}.
Context `{Uuid} `{RangeOrder}.

(** The calls of the generic service that take the organization of the caller,
    with what their request carries. *)
Inductive org_call := CGet (name : string) | CList (opts : ListOptions) | CDelete (now : Time) (name : string).

Definition org_handler (c : org_call) (ctx : context) : prog R (grpcErr + option Msg) :=
  match c with
  | CGet name => r ← GrpcGet ctx name; Ret (match r with inl e => inl e | inr m => inr (Some m) end)
  | CList opts => r ← GrpcList ctx opts; Ret (match r with inl e => inl e | inr m => inr (Some m) end)
  | CDelete now name => r ← GrpcDelete now ctx name; Ret (match r with Some e => inl e | None => inr None end)
  end.

(** The messages of resources of an organization. *)
Definition message_of (org : uuid) (d : D) (m : Msg) : Prop :=
  (∃ r, m = ToProto r ∧ r ∈ rows d ∧ OrgID (base r) = org) ∨
  (∃ l c t, m = ToProtoList l c t ∧ ∀ r, r ∈ l → r ∈ rows d ∧ OrgID (base r) = org).

Lemma org_handler_inside c ctx org d :
  OrgIDFromContext ctx = inr org →
  let out := run (org_handler c ctx) d in
  others org (rows out.2) = others org (rows d) ∧ ∀ m, out.1 = inr (Some m) → message_of org d m.
Proof.
  intros Ho out. subst out. destruct c as [name|opts|now name]; unfold org_handler.
  - unfold GrpcGet, resolveOrgID. rewrite Ho, !run_bind. pose proof (Get_rows org name d) as Hr. pose proof (Get_item org name d) as Hi.
    destruct (run (Get org name) d) as [[e|x] d']; simpl in *; (split; [by rewrite Hr|]); [done|]. intros m [= <-].
    left. exists x. destruct (Hi x eq_refl) as (? & _ & [=]). done.
  - unfold GrpcList, resolveOrgID. rewrite Ho, !run_bind. pose proof (List_rows org opts d) as Hr. pose proof (List_items org opts d) as Hi.
    destruct (run (List org opts) d) as [[e|l] d']; simpl in *; (split; [by rewrite Hr|]); [done|]. intros m [= <-].
    right. eexists _, _, _. split; [done|]. intros r Hr'. by destruct (Hi l eq_refl r Hr') as (? & _ & ?).
  - unfold GrpcDelete, resolveOrgID. rewrite Ho, !run_bind. pose proof (Delete_others now org name d) as Hd.
    destruct (run (Delete now org name) d) as [[e|] d']; simpl in *; [|done].
    destruct e; simpl; done.
Qed.

Abbreviation T := (prog R (grpcErr + option Msg)).
Context `{!GrpcLib T} {unimplemented : T} `{!GrpcLibLaws T unimplemented}.

Definition status_error (c : code) (msg : string) : T := Ret (inl (Status c msg)).

(** C37: Isolation of tenants over gRPC.  A Get, List or Delete that arrives at a
    server with the authentication interceptor either fails without changing
    anything, or it runs for an organization among the tenants of the caller:
    it changes no row of another organization and returns only resources of this
    one. *)
Theorem grpc_isolation load cfg s svcs method authn authz c d :
  NewServer load cfg [ChainUnaryInterceptor [AuthInterceptor status_error authn DefaultTenancyLogic authz]] = inr s →
  NoDup (List.concat (all_methods svcs)).*1 →
  find_method (List.concat (all_methods svcs)) method = Some (org_handler c) →
  let srv := GRPCServer (foldl (λ s ms, RegisterServices ms s) s svcs) in
  let out := run (invoke srv method (MkContext None None)) d in
  (out.2 = d ∧ ∃ err, out.1 = inl err) ∨
  ∃ sub t org, authn (MkContext None None) = inr sub ∧ t ∈ tenants (Tenants sub) ∧ uuid_parse t = inr org ∧
    others org (rows out.2) = others org (rows d) ∧ ∀ m, out.1 = inr (Some m) → message_of org d m.
Proof.
  intros Hs Hnd Hm srv out. unfold out, srv.
  rewrite (gate_invoke (unimplemented := unimplemented) status_error authn DefaultTenancyLogic authz load cfg) by done. rewrite Hm.
  destruct (interceptor_verdict status_error authn DefaultTenancyLogic authz method (MkContext None None)) as (v & Hv1 & Hv2 & _).
  rewrite Hv1. destruct v as [[code msg]|ctx']; simpl; [left; eauto|].
  destruct (proj1 (Hv2 ctx') eq_refl) as (sub & defaults & Ha & Hd & _ & Hc). simpl in Hd. injection Hd as <-.
  unfold Values in Hc. destruct (universal (Tenants sub)).
  { left. subst ctx'. destruct c; simpl; eauto. }
  destruct (range_set (tenants (Tenants sub))) as [|t l] eqn:Et; [left; subst ctx'; destruct c; simpl; eauto|].
  destruct Hc as (org & Hp & ->). right. exists sub, t, org. split; [done|]. split.
  { apply elem_of_elements. rewrite <-range_set_perm, Et. left. }
  split; [done|]. by apply org_handler_inside.
Qed.
End isolation.

(** * Witnesses: a library that keeps what it is given *)

Definition plain_lib {T} (unimplemented : T) : GrpcLib T := {|
  gserver := list (ServerOption T) * list (list (string * (context → T)));
  hserver := serving_status;
  grpc_NewServer opts := (opts, []);
  register_service ms s := (s.1, s.2 ++ [ms]);
  invoke s method ctx :=
    match find_method (List.concat s.2) method with
    | Some h => chain_call (chained s.1) method h ctx
    | None => unimplemented
    end;
  requires_tls s := has_creds s.1;
  health_NewServer := SERVING;
  health_Check h := h;
  health_Shutdown _ := NOT_SERVING;
  health_service _ := [("/grpc.health.v1.Health/Check", λ _, unimplemented)];
  reflection_service := [];
|}.

Lemma plain_lib_built {T} (u : T) (opts : list (ServerOption T)) pre svcs :
  foldl (λ s ms, register_service (GrpcLib := plain_lib u) ms s) (opts, pre) svcs = (opts, pre ++ svcs).
Proof.
  revert pre. induction svcs as [|ms svcs IH]; intros pre; simpl; [by rewrite app_nil_r|].
  unfold register_service in *. simpl in *. by rewrite IH, <-app_assoc.
Qed.

Lemma plain_lib_laws {T} (u : T) : @GrpcLibLaws T (plain_lib u) u.
Proof.
  split.
  - intros opts svcs method ctx _. pose proof (plain_lib_built u opts [] svcs) as E. simpl in E. simpl. by rewrite E.
  - intros opts svcs. pose proof (plain_lib_built u opts [] svcs) as E. simpl in E. simpl. by rewrite E.
  - done.
Qed.

Definition tenant_one : context → string + Subject := λ _, inr (MkSubject "ann" (NewTenantSet ["1"])).

Lemma grpc_gate_witness :
  let lib := plain_lib (T := option string) None in
  let s := NewServer (H := lib) (λ _ _, None) (MkGrpcConfig "" "cert" "")
             [ChainUnaryInterceptor [AuthInterceptor (λ _ msg, Some msg) (λ _, inl "no token") DefaultTenancyLogic AllowAllAuthorizer]] in
  ∃ s', s = inr s' ∧ requires_tls (GrpcLib := lib) (GRPCServer (H := lib) s') = false ∧
    ∃ msg, invoke (GrpcLib := lib) (GRPCServer (H := lib) s') "/grpc.health.v1.Health/Check" (MkContext None None) = Some msg.
Proof.
  intros lib s. eexists. split; [reflexivity|].
  destruct (@grpc_gate _ _ _ lib None (plain_lib_laws None) (λ _ msg, Some msg) (λ _, inl "no token") DefaultTenancyLogic
    AllowAllAuthorizer (λ _ _, None) (MkGrpcConfig "" "cert" "") _ [] "/grpc.health.v1.Health/Check" (MkContext None None) eq_refl)
    as (Htls & _ & v & Hv & Hg & _).
  - apply NoDup_singleton.
  - split; [exact Htls|]. destruct v as [[c msg]|ctx'].
    + exists msg. apply (Hv _ eq_refl).
    + exfalso. destruct (proj1 (Hg ctx') eq_refl) as (sub & _ & Ha & _). discriminate Ha.
Defined.

Lemma grpc_isolation_witness :
  let lib := plain_lib (T := prog Doc (grpcErr + option (list Doc))) (Ret (inl (Plain "unimplemented"))) in
  let svc := [("/docs/List", org_handler (CList (MkListOptions 10 "" "" "")))] in
  ∃ s, NewServer (H := lib) (λ _ _, None) (MkGrpcConfig "" "" "")
      [ChainUnaryInterceptor [AuthInterceptor status_error tenant_one DefaultTenancyLogic AllowAllAuthorizer]] = inr s ∧
    ∃ m, (run (invoke (GrpcLib := lib) (GRPCServer (H := lib) (RegisterServices (H := lib) svc s)) "/docs/List" (MkContext None None))
            two_tenants).1 = inr (Some m) ∧ ∃ org, message_of org two_tenants m.
Proof.
  intros lib svc. eexists. split; [reflexivity|]. exists [doc 1 "a" None 1 "s"]. split; [vm_compute; reflexivity|].
  destruct (@grpc_isolation Doc (list Doc) (MemDB Doc) _ _ _ _ _ _ _ lib (Ret (inl (Plain "unimplemented")))
    (plain_lib_laws _) (λ _ _, None) (MkGrpcConfig "" "" "") _ [svc] "/docs/List" tenant_one AllowAllAuthorizer
    (CList (MkListOptions 10 "" "" "")) two_tenants eq_refl) as [[_ [err Herr]]|(sub & t & org & _ & _ & _ & _ & Hm)].
  - apply (bool_decide_unpack _). vm_compute. exact I.
  - reflexivity.
  - exfalso. revert Herr. vm_compute. discriminate.
  - exists org. apply Hm. vm_compute. reflexivity.
Defined.
