(* ===== verification/Platform.v ===== *)
(** The event and task APIs (src/platform/event/handler.go,
    src/platform/task/handler.go): both work on tables of their own, not on the
    generic store. *)

From S2P Require Import Prelude GoStrings Resource Gorm Auth Rest Queue Events.

Inductive apiResponse (A : Type) :=
| AList (items : list A) (total : Z)
| AOne (a : A)
| AError (status : Z) (msg : string)
| ADbError (e : dberr)              (* 500 with the text of the error *)
| ACancelled.                       (* 200, status cancelled *)
Arguments AList {A} _ _.
Arguments AOne {A} _.
Arguments AError {A} _ _.
Arguments ADbError {A} _.
Arguments ACancelled {A}.

(** * Events: [list] is the store's [List] *)

Section events.
Context (list_events : uuid → EventListOptions → dberr + list Event).

Definition listEvents (ctx : context) (r : request) : apiResponse Event :=
  match OrgIDFromContext ctx with
  | inl err => AError 500 err
  | inr orgID =>
      let limit := page_limit r in
      let offset := fst (Atoi (r_Query r "offset")) in
      match list_events orgID (MkEventOpts limit offset (r_Query r "kind") (r_Query r "action")) with
      | inl e => ADbError e
      | inr evts => AList evts (Z.of_nat (length evts))
      end
  end.

Definition getEvent (ctx : context) (r : request) : apiResponse Event :=
  match OrgIDFromContext ctx with
  | inl err => AError 500 err
  | inr orgID =>
      let id := r_Param r "id" in
      match list_events orgID (MkEventOpts 1 0 "" "") with
      | inl e => ADbError e
      | inr evts =>
          match List.find (λ e, String.eqb (E_ID e) id) evts with
          | Some e => AOne e
          | None => AError 404 "event not found"
          end
      end
  end.

End events.

(** * Tasks: the table of the PostgreSQL queue *)

Definition status_string (s : TaskStatus) : string :=
  match s with
  | TaskPending => "pending"
  | TaskRunning => "running"
  | TaskCompleted => "completed"
  | TaskFailed => "failed"
  end.

(** The rows of a list request. *)
Definition task_matches (orgID : uuid) (kind status : string) (t : TaskRecord) : bool :=
  N.eqb (R_OrgID t) orgID &&
  (String.eqb kind "" || String.eqb (R_Kind t) kind) &&
  (String.eqb status "" || String.eqb (status_string (R_Status t)) status).

(** [newest] is [ORDER BY created_at DESC]. *)
Definition listTasks (newest : list TaskRecord → list TaskRecord) (fault : option dberr)
    (ctx : context) (r : request) (tb : list TaskRecord) : apiResponse TaskRecord :=
  match OrgIDFromContext ctx with
  | inl err => AError 500 err
  | inr orgID =>
      match fault with
      | Some e => ADbError e
      | None =>
          let records := take (Z.to_nat (page_limit r))
            (newest (bfilter (task_matches orgID (r_Query r "kind") (r_Query r "status")) tb)) in
          AList records (Z.of_nat (length records))
      end
  end.

Definition own_task (orgID : uuid) (id : string) (t : TaskRecord) : bool :=
  Pg.by_id id t && N.eqb (R_OrgID t) orgID.

Definition getTask (fault : option dberr) (ctx : context) (r : request) (tb : list TaskRecord)
  : apiResponse TaskRecord :=
  match OrgIDFromContext ctx with
  | inl err => AError 500 err
  | inr orgID =>
      match fault, List.find (own_task orgID (r_Param r "id")) tb with
      | None, Some record => AOne record
      | _, _ => AError 404 "task not found"
      end
  end.

Definition cancellable (orgID : uuid) (id : string) (t : TaskRecord) : bool :=
  own_task orgID id t && (bool_decide (R_Status t = TaskPending) || bool_decide (R_Status t = TaskRunning)).

Definition set_status_failed (t : TaskRecord) : TaskRecord :=
  MkRecord (R_ID t) (R_Kind t) (R_OrgID t) (R_Name t) (R_Payload t) TaskFailed (R_Error t)
    (Attempts t) (MaxAttempts t) (R_CreatedAt t) (ClaimedAt t) (CompletedAt t) (RetryAfter t).

Definition cancelTask (fault : option dberr) (ctx : context) (r : request) (tb : list TaskRecord)
  : apiResponse TaskRecord * list TaskRecord :=
  match OrgIDFromContext ctx with
  | inl err => (AError 500 err, tb)
  | inr orgID =>
      match fault with
      | Some e => (ADbError e, tb)
      | None =>
          let p := cancellable orgID (r_Param r "id") in
          if existsb p tb then (ACancelled, Pg.update_where p set_status_failed tb)
          else (AError 404 "task not found or already completed", tb)
      end
  end.

(** * The event API finds only the newest event *)

Lemma newest_head `{EventOrder} orgID tb newest :
  newest ∈ tb → E_OrgID newest = orgID →
  (∀ x, x ∈ tb → E_OrgID x = orgID → x ≠ newest → E_Timestamp x < E_Timestamp newest) →
  ∃ rest, newest_first (bfilter (matches orgID (MkEventOpts 1 0 "" "")) tb) = newest :: rest.
Proof.
  intros Hn Hno Hmax. set (evs := bfilter _ tb).
  assert (∀ x, x ∈ evs ↔ x ∈ tb ∧ E_OrgID x = orgID) as Hevs.
  { intros x. unfold evs. rewrite elem_of_bfilter. unfold matches. simpl. rewrite !andb_true_r, N.eqb_eq. done. }
  pose proof (newest_first_sorted evs) as Hs. pose proof (newest_first_perm evs) as Hp.
  assert (newest ∈ newest_first evs) as Hin by (rewrite Hp; by apply Hevs).
  destruct (newest_first evs) as [|h l0]; [by apply elem_of_nil in Hin|]. exists l0. f_equal.
  destruct (decide (h = newest)) as [|Hne]; [done|]. exfalso.
  assert (h ∈ evs) as [Hh Hho]%Hevs by (rewrite <-Hp; left). specialize (Hmax h Hh Hho Hne).
  apply elem_of_cons in Hin as [Hc|Hin]; [congruence|].
  apply StronglySorted_inv in Hs as [_ Hall]. rewrite Forall_forall in Hall. specialize (Hall _ Hin). lia.
Qed.

(** The event API finds only the newest event of the organization: [getEvent]
    asks the store for one event, without the id, and answers not found for
    every other event that exists. *)
Theorem getEvent_only_newest `{EventOrder} ctx r orgID tb e newest :
  OrgIDFromContext ctx = inr orgID → r_Param r "id" = E_ID e →
  e ∈ tb → E_OrgID e = orgID → newest ∈ tb → E_OrgID newest = orgID →
  NoDup (List.map E_ID tb) →
  (∀ x, x ∈ tb → E_OrgID x = orgID → x ≠ newest → E_Timestamp x < E_Timestamp newest) →
  getEvent (λ org opts, PgStore.List None org opts tb) ctx r =
    if decide (e = newest) then AOne e else AError 404 "event not found".
Proof.
  intros Hctx Hid He Heo Hn Hno Hnd Hmax. unfold getEvent, PgStore.List. rewrite Hctx, Hid. simpl.
  destruct (newest_head orgID tb newest Hn Hno Hmax) as [rest ->]. simpl.
  destruct (decide (e = newest)) as [->|Hne]; [by rewrite String.eqb_refl|].
  destruct (String.eqb_spec (E_ID newest) (E_ID e)) as [Hids|]; [|done].
  destruct Hne. by eapply (NoDup_key_inj E_ID).
Qed.

(** * Cancelling a task *)

Lemma cancellable_spec orgID id t :
  cancellable orgID id t = true ↔
  R_ID t = id ∧ R_OrgID t = orgID ∧ (R_Status t = TaskPending ∨ R_Status t = TaskRunning).
Proof.
  unfold cancellable, own_task. rewrite !andb_true_iff, orb_true_iff, by_id_true, N.eqb_eq, !bool_decide_eq_true.
  tauto.
Qed.

(** Cancelling marks as failed the one pending or running task with the id in
    the caller's organization, and no other row changes; a cancelled task is
    never claimed again while it stays in that state; when there is no such task
    the answer is 404 and nothing changes. *)
Theorem cancelTask_effect ctx r orgID tb :
  OrgIDFromContext ctx = inr orgID → NoDup (List.map R_ID tb) →
  let id := r_Param r "id" in
  let out := cancelTask None ctx r tb in
  (out.1 = ACancelled ∧ ∃ t, t ∈ tb ∧ cancellable orgID id t = true ∧
     (∀ x, x ∈ out.2 ↔ x = set_status_failed t ∨ (x ∈ tb ∧ x ≠ t)) ∧
     (∀ x now kinds locked, x ∈ Pg.candidates now kinds locked out.2 → R_ID x ≠ id)) ∨
  (out.1 = AError 404 "task not found or already completed" ∧ out.2 = tb ∧
     ∀ t, t ∈ tb → cancellable orgID id t = false).
Proof.
  intros Hctx Hnd. cbv zeta. unfold cancelTask. rewrite Hctx. set (p := cancellable _ _).
  destruct (existsb p tb) eqn:Ep.
  - left. apply existsb_exists in Ep as (t & Ht%list_elem_of_In & Hp). split; [done|]. exists t.
    assert (∀ x, x ∈ tb → p x = true → x = t) as Huniq.
    { intros x Hx (Hxi & _)%cancellable_spec. apply cancellable_spec in Hp as (Hti & _).
      eapply (NoDup_key_inj R_ID); eauto. congruence. }
    assert (∀ x, x ∈ Pg.update_where p set_status_failed tb ↔ x = set_status_failed t ∨ (x ∈ tb ∧ x ≠ t)) as Hup.
    { intros x. rewrite elem_of_update_where. split.
      - intros (y & Hy & ->). destruct (p y) eqn:Ey; [left; by rewrite (Huniq y)|]. right. split; [done|].
        intros ->. congruence.
      - intros [->|[Hx Hne]]; [exists t; by rewrite Hp|]. exists x. split; [done|].
        destruct (p x) eqn:Ex; [by apply Huniq in Ex|done]. }
    split_and!; [done|done|exact Hup|]. intros x now kinds locked Hx Hid. simpl in Hx.
    apply candidates_spec in Hx as (Hx & Hel & _). apply Hup in Hx as [->|[Hx Hne]].
    + unfold Pg.eligible in Hel. simpl in Hel. done.
    + apply Hne. apply cancellable_spec in Hp as (Hti & _). eapply (NoDup_key_inj R_ID); eauto. congruence.
  - right. split_and!; [done|done|]. intros t Ht. destruct (p t) eqn:Et; [|done].
    assert (existsb p tb = true); [|congruence]. apply existsb_exists. exists t. by rewrite <-list_elem_of_In.
Qed.

(** A cancelled task can run again: when the worker that was running it
    reports its failure, the queue reschedules it as long as attempts are
    left. *)
Theorem cancelled_task_retried ctx r orgID tb t now reason :
  OrgIDFromContext ctx = inr orgID → NoDup (List.map R_ID tb) → t ∈ tb →
  R_ID t = r_Param r "id" → R_OrgID t = orgID → R_Status t = TaskRunning → Attempts t < MaxAttempts t →
  let tb' := (cancelTask None ctx r tb).2 in
  set_status_failed t ∈ tb' ∧
  ∃ t', t' ∈ (Pg.Fail None None now (R_ID t) reason tb').2 ∧ R_ID t' = R_ID t ∧ R_Status t' = TaskPending.
Proof.
  intros Hctx Hnd Ht Hid Horg Hst Hlt. cbv zeta.
  assert (cancellable orgID (r_Param r "id") t = true) as Hc by (apply cancellable_spec; auto).
  unfold cancelTask. rewrite Hctx.
  assert (existsb (cancellable orgID (r_Param r "id")) tb = true) as ->.
  { apply existsb_exists. exists t. by rewrite <-list_elem_of_In. }
  simpl. set (tb' := Pg.update_where _ _ _).
  assert (set_status_failed t ∈ tb') as Hin.
  { apply elem_of_update_where. exists t. by rewrite Hc. }
  split; [done|]. apply (Fail_reopens (set_status_failed t)); [done| |done].
  unfold tb'. by rewrite update_where_ids.
Qed.

(** * Witnesses *)

Definition id_request (id : string) : request :=
  MkRequest "GET" "/api/v1/tasks" (λ _, "") (λ _, "") (λ p, if String.eqb p "id" then id else "") "".

Lemma getEvent_only_newest_witness :
  getEvent (λ org opts, PgStore.List None org opts [ev "old" 1; ev "new" 2]) (MkContext None (Some 1%N)) (id_request "old")
  = AError 404 "event not found".
Proof.
  refine (getEvent_only_newest (MkContext None (Some 1%N)) (id_request "old") 1%N [ev "old" 1; ev "new" 2]
    (ev "old" 1) (ev "new" 2) eq_refl eq_refl _ eq_refl _ eq_refl _ _).
  - left.
  - right. left.
  - apply (bool_decide_unpack _). reflexivity.
  - intros x Hx _ Hne. set_unfold. destruct Hx as [->|[->|[]]]; [reflexivity|done].
Defined.

Definition running_task : TaskRecord := MkRecord "t" "k" 1 "n" "" TaskRunning "" 1 3 0 (Some 5) None None.

Lemma cancelTask_effect_witness :
  let tb := [running_task] in
  (cancelTask None (MkContext None (Some 1%N)) (id_request "t") tb).1 = ACancelled ∧
  Pg.candidates 100 [] ∅ (cancelTask None (MkContext None (Some 1%N)) (id_request "t") tb).2 = [].
Proof.
  intros tb. split; [reflexivity|].
  destruct (cancelTask_effect (MkContext None (Some 1%N)) (id_request "t") 1%N tb) as [[_ _]|[Hno _]].
  - reflexivity.
  - apply (bool_decide_unpack _). reflexivity.
  - vm_compute. reflexivity.
  - exfalso. revert Hno. vm_compute. discriminate.
Defined.

Lemma cancelled_task_retried_witness :
  let tb' := (cancelTask None (MkContext None (Some 1%N)) (id_request "t") [running_task]).2 in
  ∃ t', t' ∈ (Pg.Fail None None 50 "t" "cancelled" tb').2 ∧ R_Status t' = TaskPending.
Proof.
  intros tb'.
  destruct (cancelled_task_retried (MkContext None (Some 1%N)) (id_request "t") 1%N [running_task] running_task
    50 "cancelled") as (_ & t' & Ht & _ & Hs).
  - reflexivity.
  - apply (bool_decide_unpack _). reflexivity.
  - left.
  - reflexivity.
  - reflexivity.
  - reflexivity.
  - vm_compute. reflexivity.
  - exists t'. split; [exact Ht|exact Hs].
Defined.
