(* ===== verification/Server.v ===== *)
(** The HTTP server (src/api/server.go, middleware.go, metrics.go, openapi.go):
    what a response writer does with the calls of a handler, the middleware stack
    every request goes through, and the operational endpoints.

    A handler is a program over the calls it makes on its response writer
    ([hprog]); the interface [http.ResponseWriter] is a class, whose instances are
    the connection's own writer and the wrappers that record the status. *)

From S2P Require Import Prelude GoStrings GoJson JsonPrint Resource Auth.
From Stdlib Require Import Ascii NArith.

(** * Headers *)

(** [textproto.CanonicalMIMEHeaderKey]: the first letter and every letter after a
    hyphen in upper case, the others in lower case; a key with a byte that is no
    token character is left alone. *)
Definition is_token (c : ascii) : bool :=
  is_digit c || in_range 65 90 c || in_range 97 122 c ||
  existsb (Ascii.eqb c) ["!"; "#"; "$"; "%"; "&"; "'"; "*"; "+"; "-"; "."; "^"; "_"; "`"; "|"; "~"]%char.

Definition upper (c : ascii) : ascii := if in_range 97 122 c then chr (code c - 32) else c.

Fixpoint canonical_go (start : bool) (s : string) : string :=
  match s with
  | "" => ""
  | String c s => String (if start then upper c else lower c) (canonical_go (Ascii.eqb c "-") s)
  end.

Definition CanonicalHeaderKey (s : string) : string :=
  if sforall is_token s then canonical_go true s else s.

Example canonical_ex : CanonicalHeaderKey "x-REQUEST-id" = "X-Request-Id" ∧ CanonicalHeaderKey "a b" = "a b".
Proof. by vm_compute. Qed.

Abbreviation header := (gmap string string).

Definition header_Set (k v : string) (h : header) : header := <[CanonicalHeaderKey k := v]> h.

(** * Response writers *)

(** [http.ResponseWriter]; [WriteHeader] may panic. *)
Class Writer (W : Type) := {
  on_header : (header → header) → W → W;
  WriteHeader : Z → W → option string * W;
  Write : string → W → option string * W;
}.

(** The writer of a connection: the header map, the status and the headers that
    were sent, the interim responses, and the body. *)
Record conn := MkConn {
  c_header : header;
  c_sent : option (Z * header);
  c_interim : list Z;
  c_body : string;
}.

Definition new_conn : conn := MkConn ∅ None [] "".

(** The first final status is sent; later ones are dropped.  A status in 1xx other
    than 101 is an interim response, one outside 100..999 panics. *)
Definition conn_WriteHeader (code : Z) (w : conn) : option string * conn :=
  match c_sent w with
  | Some _ => (None, w)
  | None =>
      if (code <? 100) || (999 <? code) then (Some ("invalid WriteHeader code " +:+ Itoa code), w)
      else if (code <=? 199) && negb (code =? 101)
           then (None, MkConn (c_header w) None (c_interim w ++ [code]) (c_body w))
           else (None, MkConn (c_header w) (Some (code, c_header w)) (c_interim w) (c_body w))
  end.

Definition body_allowed (code : Z) : bool := negb ((code <=? 199) || (code =? 204) || (code =? 304)).

Definition conn_Write (data : string) (w : conn) : option string * conn :=
  let '(p, w) := match c_sent w with None => conn_WriteHeader 200 w | Some _ => (None, w) end in
  match c_sent w with
  | Some (code, _) =>
      (p, if body_allowed code then MkConn (c_header w) (c_sent w) (c_interim w) (c_body w +:+ data) else w)
  | None => (p, w)
  end.

#[global] Instance conn_Writer : Writer conn := {
  on_header := λ f w, MkConn (f (c_header w)) (c_sent w) (c_interim w) (c_body w);
  WriteHeader := conn_WriteHeader;
  Write := conn_Write;
}.

(** When a handler ends without a status, 200 is sent. *)
Definition finish (w : conn) : conn :=
  match c_sent w with Some _ => w | None => (conn_WriteHeader 200 w).2 end.

(** [responseWriter] and [metricsWriter]: the status next to the wrapped writer.
    Only [WriteHeader] is overridden. *)
Record responseWriter (W : Type) := MkResponseWriter { rw_status : Z; rw_inner : W }.
Arguments MkResponseWriter {W} _ _.
Arguments rw_status {W} _.
Arguments rw_inner {W} _.

#[global] Instance responseWriter_Writer {W} `{Writer W} : Writer (responseWriter W) := {
  on_header := λ f w, MkResponseWriter (rw_status w) (on_header f (rw_inner w));
  WriteHeader := λ code w, let '(p, i) := WriteHeader code (rw_inner w) in (p, MkResponseWriter code i);
  Write := λ data w, let '(p, i) := Write data (rw_inner w) in (p, MkResponseWriter (rw_status w) i);
}.

(** * Handlers *)

Inductive hprog :=
| HDone
| HPanic (v : string)
| HHeader (f : header → header) (k : hprog)
| HWriteHeader (code : Z) (k : hprog)
| HWrite (data : string) (k : hprog).

(** [http.Error] *)
Definition http_Error {W} `{Writer W} (error : string) (code : Z) (w : W) : option string * W :=
  let w := on_header (λ h, header_Set "X-Content-Type-Options" "nosniff"
             (header_Set "Content-Type" "text/plain; charset=utf-8" (delete "Content-Length" h))) w in
  match WriteHeader code w with
  | (Some p, w) => (Some p, w)
  | (None, w) => Write (error +:+ String (chr 10) "") w
  end.

(** What the middlewares record. *)
Inductive observation :=
| LogRequest (method path : string) (status : Z)
| LogPanic (value method path : string)
| CountRequest (method route : string) (status : Z).

(** A handler of requests: it ends, or panics with a value, and leaves the writer
    and the records made on the way. *)
Definition Handler : Type :=
  ∀ W, Writer W → request → W → option string * W * list observation.

Fixpoint ServeHTTP (m : hprog) {W} `{Writer W} (w : W) : option string * W :=
  match m with
  | HDone => (None, w)
  | HPanic v => (Some v, w)
  | HHeader f k => ServeHTTP k (on_header f w)
  | HWriteHeader code k =>
      match WriteHeader code w with (Some p, w) => (Some p, w) | (None, w) => ServeHTTP k w end
  | HWrite data k =>
      match Write data w with (Some p, w) => (Some p, w) | (None, w) => ServeHTTP k w end
  end.

Definition HandlerFunc (f : request → hprog) : Handler := λ W _ r w, (ServeHTTP (f r) w, []).

Section middleware.

(** The id [uuid.New] gives, and the route pattern chi matched, empty when there
    is none. *)
Context (new_id : string) (RoutePattern : request → string).

Definition RequestID (next : Handler) : Handler := λ W _ r w,
  let id := r_Header r "X-Request-ID" in
  let id := if String.eqb id "" then new_id else id in
  next W _ r (on_header (header_Set "X-Request-ID" id) w).

(** A panic passes through the two recorders without a record. *)
Definition RequestLogger (next : Handler) : Handler := λ W _ r w,
  let '(p, ww, obs) := next (responseWriter W) _ r (MkResponseWriter 200 w) in
  match p with
  | Some _ => (p, rw_inner ww, obs)
  | None => (None, rw_inner ww, obs ++ [LogRequest (r_Method r) (r_Path r) (rw_status ww)])
  end.

Definition Metrics (next : Handler) : Handler := λ W _ r w,
  let '(p, mw, obs) := next (responseWriter W) _ r (MkResponseWriter 200 w) in
  match p with
  | Some _ => (p, rw_inner mw, obs)
  | None =>
      let routePattern := if String.eqb (RoutePattern r) "" then r_Path r else RoutePattern r in
      (None, rw_inner mw, obs ++ [CountRequest (r_Method r) routePattern (rw_status mw)])
  end.

Definition Recoverer (next : Handler) : Handler := λ W _ r w,
  let '(p, w, obs) := next W _ r w in
  match p with
  | None => (None, w, obs)
  | Some rec =>
      let '(p, w) := http_Error "Internal Server Error" 500 w in
      (p, w, obs ++ [LogPanic rec (r_Method r) (r_Path r)])
  end.

(** The stack [NewServer] installs, outermost first. *)
Definition NewServer_stack (h : Handler) : Handler := RequestID (Metrics (RequestLogger (Recoverer h))).

(** A request on a connection. *)
Definition serve (h : Handler) (r : request) : option string * conn * list observation :=
  let '(p, w, obs) := NewServer_stack h conn _ r new_conn in (p, finish w, obs).

End middleware.

(** * Endpoints *)

(** The tail of a handler that answers with a JSON value. *)
Definition encode_json (v : json) : hprog :=
  HHeader (header_Set "Content-Type" "application/json") (HWrite (encode_line v) HDone).

(** [writeJSON] of the handlers: the status first. *)
Definition writeJSON (status : Z) (v : json) : hprog :=
  HHeader (header_Set "Content-Type" "application/json") (HWriteHeader status (HWrite (encode_line v) HDone)).

Definition healthz : Handler := HandlerFunc (λ _,
  HHeader (header_Set "Content-Type" "application/json")
    (HWriteHeader 200 (HWrite (print_json (JObj [("status", JStr "ok")])) HDone))).

(** ** The registry of OpenAPI fragments (openapi.go) *)

Definition SpecRegistry : Type := gmap string string.

Definition NewSpecRegistry : SpecRegistry := ∅.

Definition SpecRegister (providerName fragment : string) (r : SpecRegistry) : SpecRegistry :=
  <[providerName := fragment]> r.

Definition member_le (a b : string * json) : Prop := Is_true (String.leb a.1 b.1).
#[global] Instance member_le_dec : RelDecision member_le := λ a b, _.

(** The encoder writes a map with sorted keys. *)
Definition map_json (m : gmap string json) : json := JObj (merge_sort member_le (map_to_list m)).

Definition SpecHandler (r : SpecRegistry) : Handler := HandlerFunc (λ _,
  encode_json (JObj [("providers", map_json ((λ frag, JNum (Itoa (slen frag))) <$> r))])).

(** ** Listening (server.go) *)

Record ServerConfig := MkServerConfig { Addr : string; TLSCert : string; TLSKey : string }.

Definition server_addr (cfg : ServerConfig) : string := if String.eqb (Addr cfg) "" then ":8080" else Addr cfg.

Definition server_tls (cfg : ServerConfig) : bool :=
  negb (String.eqb (TLSCert cfg) "") && negb (String.eqb (TLSKey cfg) "").

(** The [http.Server] values of the process, by number, and what each listens
    on: the address and whether it speaks TLS. *)
Record network := MkNetwork { next_server : nat; listeners : list (nat * string * bool) }.

(** Each of the two methods makes a server of its own. *)
Definition HTTPServer (cfg : ServerConfig) (n : network) : nat * network :=
  (next_server n, MkNetwork (S (next_server n)) (listeners n)).

Definition ListenAndServe (cfg : ServerConfig) (n : network) : network :=
  MkNetwork (S (next_server n)) (listeners n ++ [(next_server n, server_addr cfg, server_tls cfg)]).

(** [http.Server.Shutdown] closes the listeners of that server. *)
Definition Shutdown (srv : nat) (n : network) : network :=
  MkNetwork (next_server n) (bfilter (λ l, negb (l.1.1 =? srv)%nat) (listeners n)).

Definition BaseURL (cfg : ServerConfig) : string :=
  (if String.eqb (TLSCert cfg) "" then "http" else "https") +:+ "://" +:+ server_addr cfg.

(** * Lemmas: what the wrappers see *)

(** The last status a handler passes to [WriteHeader]. *)
Fixpoint last_status (m : hprog) (s : Z) {W} `{Writer W} (w : W) : Z :=
  match m with
  | HDone | HPanic _ => s
  | HHeader f k => last_status k s (on_header f w)
  | HWriteHeader code k =>
      match WriteHeader code w with (Some _, _) => code | (None, w) => last_status k code w end
  | HWrite data k =>
      match Write data w with (Some _, _) => s | (None, w) => last_status k s w end
  end.

(** A recorder is transparent: the wrapped writer goes through what it would go
    through alone. *)
Lemma ServeHTTP_recorded m {W} `{Writer W} s (w : W) :
  ServeHTTP m (MkResponseWriter s w) =
  let '(p, w') := ServeHTTP m w in (p, MkResponseWriter (last_status m s w) w').
Proof.
  revert s w. induction m as [|v|f m IH|code m IH|data m IH]; intros s w; try done.
  - apply IH.
  - simpl. destruct (WriteHeader code w) as [[p|] w']; [done|]. apply IH.
  - simpl. destruct (Write data w) as [[p|] w']; [done|]. apply IH.
Qed.

Lemma last_status_recorded m {W} `{Writer W} s t (w : W) :
  last_status m s (MkResponseWriter t w) = last_status m s w.
Proof.
  revert s t w. induction m as [|v|f m IH|code m IH|data m IH]; intros s t w; try done.
  - apply IH.
  - simpl. destruct (WriteHeader code w) as [[p|] w']; [done|]. apply IH.
  - simpl. destruct (Write data w) as [[p|] w']; [done|]. apply IH.
Qed.

Lemma http_Error_recorded {W} `{Writer W} e code s (w : W) :
  http_Error e code (MkResponseWriter s w) =
  let '(p, w') := http_Error e code w in (p, MkResponseWriter code w').
Proof.
  unfold http_Error. simpl. destruct (WriteHeader code _) as [[p|] w']; [done|]. simpl. by destruct (Write _ w').
Qed.

Section stack.
Context (new_id : string) (RoutePattern : request → string).

Definition request_conn (r : request) : conn :=
  on_header (header_Set "X-Request-ID"
    (if String.eqb (r_Header r "X-Request-ID") "" then new_id else r_Header r "X-Request-ID")) new_conn.

Definition route_label (r : request) : string :=
  if String.eqb (RoutePattern r) "" then r_Path r else RoutePattern r.

(** What the stack does, in terms of the handler alone on the connection. *)
Lemma serve_unfold f r :
  serve new_id RoutePattern (HandlerFunc f) r =
  let w := request_conn r in
  match ServeHTTP (f r) w with
  | (None, w') =>
      let s := last_status (f r) 200 w in
      (None, finish w', [LogRequest (r_Method r) (r_Path r) s; CountRequest (r_Method r) (route_label r) s])
  | (Some v, w') =>
      match http_Error "Internal Server Error" 500 w' with
      | (None, w') =>
          (None, finish w', [LogPanic v (r_Method r) (r_Path r); LogRequest (r_Method r) (r_Path r) 500;
                             CountRequest (r_Method r) (route_label r) 500])
      | (Some p, w') => (Some p, finish w', [LogPanic v (r_Method r) (r_Path r)])
      end
  end.
Proof.
  unfold serve, NewServer_stack, RequestID, Metrics, RequestLogger, Recoverer, HandlerFunc.
  fold (request_conn r). rewrite !ServeHTTP_recorded, last_status_recorded.
  destruct (ServeHTTP (f r) (request_conn r)) as [[v|] w']; [|done].
  rewrite !http_Error_recorded. by destruct (http_Error _ 500 w') as [[p|] w''].
Qed.

Lemma conn_Write_ok data w : (conn_Write data w).1 = None.
Proof.
  unfold conn_Write. destruct (c_sent w) as [[code h]|] eqn:E; [by rewrite E|].
  unfold conn_WriteHeader. by rewrite E.
Qed.

(** Once a final status is sent, it stays. *)
Lemma WriteHeader_sent code w x : c_sent w = Some x → conn_WriteHeader code w = (None, w).
Proof. unfold conn_WriteHeader. by intros ->. Qed.

Lemma Write_sent data w x :
  c_sent w = Some x → (conn_Write data w).1 = None ∧ c_sent (conn_Write data w).2 = Some x.
Proof.
  intros E. unfold conn_Write. rewrite E, E. destruct x as [code h]. simpl. by destruct (body_allowed code).
Qed.

Lemma finish_sent w : is_Some (c_sent (finish w)).
Proof. unfold finish. destruct (c_sent w) eqn:E; [by rewrite E|]. unfold conn_WriteHeader. rewrite E. by eexists. Qed.

Lemma http_Error_sends e w :
  (http_Error e 500 w).1 = None ∧
  c_sent (http_Error e 500 w).2 = match c_sent w with Some x => Some x | None =>
    Some (500, header_Set "X-Content-Type-Options" "nosniff"
      (header_Set "Content-Type" "text/plain; charset=utf-8" (delete "Content-Length" (c_header w)))) end.
Proof.
  unfold http_Error. simpl. set (w1 := MkConn _ _ _ _). destruct (c_sent w) as [x|] eqn:E.
  - rewrite (WriteHeader_sent 500 w1 x) by done. by apply (Write_sent _ w1 x).
  - change (conn_WriteHeader 500 w1)
      with (@None string, MkConn (c_header w1) (Some (500, c_header w1)) (c_interim w1) (c_body w1)).
    cbn iota. apply (Write_sent _ (MkConn (c_header w1) (Some (500, c_header w1)) (c_interim w1) (c_body w1))). done.
Qed.

(** C29: Every request is answered.  Whatever the handler does, panics included, the
    stack returns normally and exactly one final status was sent; a handler that
    panics before it sent a status is answered 500 as plain text, and one that
    ends without a status is answered 200. *)
Theorem every_request_answered f r :
  let '(p, w, _) := serve new_id RoutePattern (HandlerFunc f) r in
  let '(panic, w0) := ServeHTTP (f r) (request_conn r) in
  p = None ∧ (∃ s h, c_sent w = Some (s, h)) ∧
  (∀ x, c_sent w0 = Some x → c_sent w = Some x) ∧
  (c_sent w0 = None → panic = None → c_sent w = Some (200, c_header w0)) ∧
  (c_sent w0 = None → is_Some panic → ∃ h, c_sent w = Some (500, h) ∧
     h !! "Content-Type" = Some "text/plain; charset=utf-8").
Proof.
  rewrite serve_unfold. cbv zeta. destruct (ServeHTTP (f r) (request_conn r)) as [[v|] w0].
  - destruct (http_Error_sends "Internal Server Error" w0) as [Hp Hs].
    destruct (http_Error "Internal Server Error" 500 w0) as [p w1]. simpl in Hp, Hs. subst p.
    assert (c_sent (finish w1) = c_sent w1) as Hf.
    { unfold finish. rewrite Hs. by destruct (c_sent w0). }
    rewrite Hf, Hs. split_and!; [done| | |done|].
    + destruct (c_sent w0) as [[]|]; eauto.
    + by intros x ->.
    + intros -> _. eexists. split; [done|]. unfold header_Set.
      change (CanonicalHeaderKey "X-Content-Type-Options") with "X-Content-Type-Options".
      change (CanonicalHeaderKey "Content-Type") with "Content-Type".
      rewrite lookup_insert_ne by done. apply lookup_insert_eq.
  - split_and!; [done| | | |by intros _ [? ?]].
    + destruct (finish_sent w0) as [[s h] Hs]. eauto.
    + intros x Hx. unfold finish. by rewrite Hx.
    + intros Hn _. unfold finish, conn_WriteHeader. by rewrite Hn.
Qed.

(** After the status is sent, a well-behaved handler only writes its body. *)
Fixpoint only_body (m : hprog) : bool :=
  match m with
  | HDone => true
  | HPanic _ | HWriteHeader _ _ => false
  | HHeader _ k | HWrite _ k => only_body k
  end.

Definition final_code (code : Z) : bool := (code =? 101) || ((200 <=? code) && (code <=? 999)).

Definition invalid_code (code : Z) : bool := (code <? 100) || (999 <? code).

(** It sends at most one status, and no interim one. *)
Fixpoint well_behaved (m : hprog) : bool :=
  match m with
  | HDone | HPanic _ => true
  | HHeader _ k => well_behaved k
  | HWriteHeader code k => invalid_code code || (final_code code && only_body k)
  | HWrite _ k => only_body k
  end.

Lemma only_body_sent m s w x :
  only_body m = true → c_sent w = Some x →
  (ServeHTTP m w).1 = None ∧ c_sent (ServeHTTP m w).2 = Some x ∧ last_status m s w = s.
Proof.
  revert s w. induction m as [|v|f m IH|code m IH|data m IH]; intros s w Hm Hw; try done.
  - by apply IH.
  - simpl in *. destruct (Write_sent data w x Hw) as [Hp Hs].
    destruct (conn_Write data w) as [p w']. simpl in Hp, Hs. subst p. by apply IH.
Qed.

Lemma conn_WriteHeader_final code w :
  c_sent w = None → final_code code = true →
  conn_WriteHeader code w = (None, MkConn (c_header w) (Some (code, c_header w)) (c_interim w) (c_body w)).
Proof.
  unfold conn_WriteHeader, final_code. intros -> Hc.
  replace ((code <? 100) || (999 <? code)) with false by lia.
  by replace ((code <=? 199) && negb (code =? 101)) with false by lia.
Qed.

Lemma conn_Write_first data w :
  c_sent w = None →
  conn_Write data w = (None, MkConn (c_header w) (Some (200, c_header w)) (c_interim w) (c_body w +:+ data)).
Proof. intros E. unfold conn_Write, conn_WriteHeader. by rewrite E. Qed.

Lemma well_behaved_status m w :
  well_behaved m = true → c_sent w = None →
  match ServeHTTP m w with
  | (None, w') => ∃ h, c_sent (finish w') = Some (last_status m 200 w, h)
  | (Some _, w') => c_sent w' = None
  end.
Proof.
  revert w. induction m as [|v|f m IH|code m IH|data m IH]; intros w Hm Hw; simpl in *.
  - unfold finish, conn_WriteHeader. rewrite Hw. by eexists.
  - done.
  - by apply IH.
  - unfold invalid_code in Hm. destruct ((code <? 100) || (999 <? code)) eqn:Ei; simpl in Hm.
    { unfold conn_WriteHeader. by rewrite Hw, Ei. }
    bprop. rewrite conn_WriteHeader_final by done. set (w1 := MkConn _ _ _ _).
    destruct (only_body_sent m code w1 (code, c_header w)) as (Hp & Hs & ->); [done|done|].
    destruct (ServeHTTP m w1) as [p w']. simpl in Hp, Hs. subst p. unfold finish. rewrite Hs. eauto.
  - rewrite conn_Write_first by done. set (w1 := MkConn _ _ _ _).
    destruct (only_body_sent m 200 w1 (200, c_header w)) as (Hp & Hs & ->); [done|done|].
    destruct (ServeHTTP m w1) as [p w']. simpl in Hp, Hs. subst p. unfold finish. rewrite Hs. eauto.
Qed.

(** The recorded status is the sent one.  For a handler that sends at most one
    status and panics only before it, the log line and the metrics of the request
    carry exactly the status the client received; a recovered panic is logged
    before them. *)
Theorem recorded_status f r :
  well_behaved (f r) = true →
  let '(p, w, obs) := serve new_id RoutePattern (HandlerFunc f) r in
  ∃ s h pre, c_sent w = Some (s, h) ∧
    obs = pre ++ [LogRequest (r_Method r) (r_Path r) s; CountRequest (r_Method r) (route_label r) s] ∧
    match (ServeHTTP (f r) (request_conn r)).1 with
    | None => pre = []
    | Some v => s = 500 ∧ pre = [LogPanic v (r_Method r) (r_Path r)]
    end.
Proof.
  intros Hw. pose proof (well_behaved_status (f r) (request_conn r) Hw eq_refl) as Hs.
  rewrite serve_unfold. cbv zeta. destruct (ServeHTTP (f r) (request_conn r)) as [[v|] w0].
  - destruct (http_Error_sends "Internal Server Error" w0) as [Hp He]. rewrite Hs in He.
    destruct (http_Error "Internal Server Error" 500 w0) as [p w1]. simpl in Hp, He. subst p.
    unfold finish. rewrite He. do 2 eexists. exists [LogPanic v (r_Method r) (r_Path r)]. rewrite He. done.
  - destruct Hs as [h Hh]. do 2 eexists. exists []. by rewrite Hh.
Qed.

(** A panic after the response has begun is recorded as 500 by the log and the
    metrics, while the client has the status that was sent first. *)
Theorem panic_after_write_misreported data v r :
  let '(_, w, obs) := serve new_id RoutePattern (HandlerFunc (λ _, HWrite data (HPanic v))) r in
  c_sent w = Some (200, c_header (request_conn r)) ∧
  obs = [LogPanic v (r_Method r) (r_Path r); LogRequest (r_Method r) (r_Path r) 500;
         CountRequest (r_Method r) (route_label r) 500].
Proof. rewrite serve_unfold. done. Qed.
End stack.

(** * Endpoints: properties *)

Lemma map_json_wf (m : gmap string json) :
  map_Forall (λ k v, str_ok k ∧ wf_json v) m → wf_json (map_json m).
Proof.
  intros Hm. pose proof (merge_sort_Permutation member_le (map_to_list m)) as Hp. constructor.
  - rewrite Hp. apply NoDup_fst_map_to_list.
  - rewrite Hp. apply Forall_forall. intros [k v] Hkv%elem_of_map_to_list. by apply Hm.
Qed.

Lemma map_json_members (m : gmap string json) k v :
  (k, v) ∈ merge_sort member_le (map_to_list m) ↔ m !! k = Some v.
Proof. by rewrite merge_sort_Permutation, elem_of_map_to_list. Qed.

(** A map of strings. *)
Lemma string_map_height (m : gmap string string) : Z.of_nat (height (map_json (JStr <$> m))) ≤ max_depth.
Proof.
  transitivity 1; [|done]. apply (inj_le _ 1). simpl. apply le_n_S, list_max_le, List.Forall_map, Forall_forall.
  intros [f j] Hj%map_json_members. rewrite lookup_fmap, fmap_Some in Hj. by destruct Hj as (n & _ & ->).
Qed.

Lemma string_map_wf (m : gmap string string) :
  map_Forall (λ k v, str_ok k ∧ str_ok v) m → wf_json (map_json (JStr <$> m)).
Proof.
  intros Hm. apply map_json_wf. intros k j. rewrite lookup_fmap, fmap_Some. intros (v & Hv & ->).
  apply Hm in Hv as [? ?]. split; [done|by constructor].
Qed.

(** The address the server reports is the one it listens on, and the scheme is
    that of the listener when the certificate and the key are both set or both
    absent; with a certificate only, it reports https and speaks plain HTTP. *)
Theorem BaseURL_scheme cfg n :
  let tls := server_tls cfg in
  listeners (ListenAndServe cfg n) = listeners n ++ [(next_server n, server_addr cfg, tls)] ∧
  ((String.eqb (TLSCert cfg) "" = String.eqb (TLSKey cfg) "") →
     BaseURL cfg = (if tls then "https" else "http") +:+ "://" +:+ server_addr cfg) ∧
  (TLSCert cfg ≠ "" → TLSKey cfg = "" → tls = false ∧ BaseURL cfg = "https://" +:+ server_addr cfg).
Proof.
  unfold server_tls, BaseURL. simpl. split_and!; [done|by intros ->; destruct (String.eqb _ _)|].
  intros Hc ->. apply String.eqb_neq in Hc. by rewrite Hc.
Qed.

(** * Witnesses *)

Definition panicking (r : request) : hprog :=
  HHeader (header_Set "Content-Type" "application/json") (HPanic "boom").

Definition some_request : request := MkRequest "GET" "/api/v1/machines" (λ _, "") (λ _, "") (λ _, "") "".

Lemma recorded_status_witness :
  (∃ h, c_sent (serve "id" (λ _, "") (HandlerFunc panicking) some_request).1.2 = Some (500, h)) ∧
  (serve "id" (λ _, "") (HandlerFunc panicking) some_request).2 =
    [LogPanic "boom" "GET" "/api/v1/machines"; LogRequest "GET" "/api/v1/machines" 500;
     CountRequest "GET" "/api/v1/machines" 500].
Proof.
  pose proof (recorded_status "id" (λ _, "") panicking some_request eq_refl) as H.
  destruct (serve "id" (λ _, "") (HandlerFunc panicking) some_request) as [[p w] obs].
  destruct H as (s & h & pre & Hs & -> & [-> ->]). split; [exists h; exact Hs|reflexivity].
Defined.
