(* ===== verification/External.v ===== *)
(** External providers (src/provider/external.go, discovery.go and
    [RegisterExternalProviders] of registry.go): sidecar processes behind a
    socket, found through a configuration file, whose routes are proxied and
    whose hooks are forwarded. *)

From S2P Require Import Prelude GoStrings GoJson JsonPrint Resource Auth Registry Hooks Server.
From Stdlib Require Import Ascii NArith.

(** * File name patterns: filepath.Match

    The result of [isExcluded] does not depend on the error of a malformed
    pattern, which counts as no match. *)

(** [utf8.DecodeRuneInString]: the rune and its width; an invalid byte is U+FFFD of
    width one. *)
Definition decode_rune (s : string) : N * nat :=
  match s with
  | "" => (65533%N, 0%nat)
  | String a r =>
      if (code a <? 128)%N then (code a, 1%nat)
      else match utf8_len s, r with
           | 2%nat, String b _ => (((code a - 192) * 64 + (code b - 128))%N, 2%nat)
           | 3%nat, String b (String c _) =>
               (((code a - 224) * 4096 + (code b - 128) * 64 + (code c - 128))%N, 3%nat)
           | 4%nat, String b (String c (String d _)) =>
               (((code a - 240) * 262144 + (code b - 128) * 4096 + (code c - 128) * 64 + (code d - 128))%N, 4%nat)
           | _, _ => (65533%N, 1%nat)
           end
  end.

(** [getEsc]: a possibly escaped character of a class, and the rest, which must
    not be empty. *)
Definition getEsc (chunk : string) : option (N * string) :=
  match chunk with
  | "" => None
  | String c r =>
      if Ascii.eqb c "-" || Ascii.eqb c "]" then None
      else
        let chunk := if Ascii.eqb c backslash then r else chunk in
        if String.eqb chunk "" then None
        else
          let '(rune, n) := decode_rune chunk in
          if N.eqb rune 65533 && (n =? 1)%nat then None
          else let nchunk := sdrop n chunk in
               if String.eqb nchunk "" then None else Some (rune, nchunk)
  end.

(** The ranges of a class after its opening: whether [r] is in one, and the text
    after the closing bracket.  Each round consumes a byte. *)
Fixpoint class_ranges (fuel : nat) (r : N) (chunk : string) (nrange : nat) (matched : bool)
  : option (bool * string) :=
  match fuel with
  | O => None
  | S fuel =>
      match chunk with
      | String "]" rest =>
          if (0 <? nrange)%nat then Some (matched, rest)
          else None (* getEsc fails *)
      | _ =>
          '(lo, chunk) ← getEsc chunk;
          '(hi, chunk) ← match chunk with
                         | String "-" rest => getEsc rest
                         | _ => Some (lo, chunk)
                         end;
          class_ranges fuel r chunk (S nrange) (matched || ((lo <=? r)%N && (r <=? hi)%N))
      end
  end.

(** [matchChunk]: the rest of the name after a chunk without [*]; [None] when it
    does not match or is malformed. *)
Fixpoint matchChunk (fuel : nat) (chunk s : string) : option string :=
  match fuel with
  | O => None
  | S fuel =>
      match chunk with
      | "" => Some s
      | String c crest =>
          match s with
          | "" => None
          | String d srest =>
              if Ascii.eqb c "[" then
                let '(r, n) := decode_rune s in
                let '(negated, body) := match crest with
                                        | String "^" t => (true, t)
                                        | _ => (false, crest)
                                        end in
                '(matched, rest) ← class_ranges (String.length crest) r body 0 false;
                if Bool.eqb matched negated then None else matchChunk fuel rest (sdrop n s)
              else if Ascii.eqb c "?" then
                if Ascii.eqb d "/" then None else matchChunk fuel crest (sdrop (decode_rune s).2 s)
              else if Ascii.eqb c backslash then
                match crest with
                | "" => None
                | String e crest => if Ascii.eqb e d then matchChunk fuel crest srest else None
                end
              else if Ascii.eqb c d then matchChunk fuel crest srest else None
          end
      end
  end.

Definition match_chunk (chunk s : string) : option string := matchChunk (S (String.length chunk)) chunk s.

(** [scanChunk] after the leading stars: the chunk up to the next star outside a
    class, and the rest of the pattern. *)
Fixpoint scan_to_star (inrange : bool) (p : string) : string * string :=
  match p with
  | "" => ("", "")
  | String c r =>
      if Ascii.eqb c backslash then
        match r with
        | "" => (p, "")
        | String d r => let '(a, b) := scan_to_star inrange r in (String c (String d a), b)
        end
      else if Ascii.eqb c "*" && negb inrange then ("", p)
      else
        let inrange := if Ascii.eqb c "[" then true else if Ascii.eqb c "]" then false else inrange in
        let '(a, b) := scan_to_star inrange r in (String c a, b)
  end.

Fixpoint skip_stars (p : string) : bool * string :=
  match p with
  | String "*" r => (true, (skip_stars r).2)
  | _ => (false, p)
  end.

(** The loop over the start positions after a star: the first position where the
    chunk matches, and the whole rest if it is the last chunk. *)
Fixpoint star_search (chunk : string) (last : bool) (name : string) : option string :=
  match name with
  | "" => None
  | String c r =>
      if Ascii.eqb c "/" then None
      else match match_chunk chunk r with
           | Some t => if last && negb (String.eqb t "") then star_search chunk last r else Some t
           | None => star_search chunk last r
           end
  end.

Fixpoint match_loop (fuel : nat) (pattern name : string) : bool :=
  match fuel with
  | O => false
  | S fuel =>
      if String.eqb pattern "" then String.eqb name ""
      else
        let '(star, p) := skip_stars pattern in
        let '(chunk, pattern) := scan_to_star false p in
        if star && String.eqb chunk "" then lacks "/" name
        else
          let last := String.eqb pattern "" in
          let here := match match_chunk chunk name with
                      | Some t => if String.eqb t "" || negb last then Some t else None
                      | None => None
                      end in
          match here with
          | Some t => match_loop fuel pattern t
          | None =>
              if star then
                match star_search chunk last name with
                | Some t => match_loop fuel pattern t
                | None => false
                end
              else false
          end
  end.

(** Every round consumes at least a byte of the pattern. *)
Definition Match (pattern name : string) : bool := match_loop (S (String.length pattern)) pattern name.

Example Match_ex :
  List.map (λ '(p, n), Match p n)
    [("*.sock", "a.sock"); ("*.sock", "a.sock.bak"); ("gpu-?.sock", "gpu-1.sock"); ("[a-c]*", "bx");
     ("[^a-c]*", "bx"); ("a*b*c", "a-b-b-c"); ("a*b", "a/b"); ("[", "["); ("\*", "*"); ("", "")]
  = [true; false; true; true; false; true; false; false; true; true].
Proof. vm_compute. reflexivity. Qed.

(** * Paths: filepath.Join *)

Fixpoint clean_parts (rooted : bool) (parts stack : list string) : list string :=
  match parts with
  | [] => rev stack
  | e :: parts =>
      if String.eqb e "" || String.eqb e "." then clean_parts rooted parts stack
      else if String.eqb e ".." then
        match stack with
        | t :: stack' => if String.eqb t ".." then clean_parts rooted parts (e :: stack)
                         else clean_parts rooted parts stack'
        | [] => clean_parts rooted parts (if rooted then [] else [e])
        end
      else clean_parts rooted parts (e :: stack)
  end.

Definition Clean (path : string) : string :=
  let rooted := HasPrefix path "/" in
  let p := Join (clean_parts rooted (Split path "/") []) "/" in
  if rooted then "/" +:+ p else if String.eqb p "" then "." else p.

(** [filepath.Join(dir, name)], with empty elements left out. *)
Definition path_Join (dir name : string) : string :=
  if String.eqb dir "" then (if String.eqb name "" then "" else Clean name)
  else if String.eqb name "" then Clean dir else Clean (dir +:+ "/" +:+ name).

Example path_Join_ex :
  List.map (λ '(d, n), path_Join d n) [("/run/p/", "a.sock"); ("./x/../y", "b"); ("/..", "c")]
  = ["/run/p/a.sock"; "y/b"; "/c"].
Proof. vm_compute. reflexivity. Qed.

(** * Sidecars

    The messages of provider.proto, and the gRPC client of one sidecar: each call
    fails with an error or gives the answer of the process. *)

Record ProviderInfo := MkProviderInfo {
  pi_Name : string; pi_Version : string; pi_Features : list string; pi_Dependencies : list string;
}.
Record Route := MkRoute { rt_Method : string; rt_Path : string }.
Record HookRegistration := MkHookRegistration { reg_Feature : string; reg_Event : string; reg_Sync : bool }.
Record HookResult := MkHookResult { res_Success : bool; res_Error : string }.
Record HTTPRequest := MkHTTPRequest {
  hq_Method : string; hq_Path : string; hq_Headers : gmap string string; hq_Body : string; hq_Query : string;
}.
(** The headers of an answer in the order the range over the map yields them. *)
Record HTTPResponse := MkHTTPResponse {
  hp_StatusCode : Z; hp_Headers : list (string * string); hp_Body : string;
}.

Record sidecar (W : Type) := MkSidecar {
  rpc_GetInfo : string + ProviderInfo;
  rpc_Init : string → W → option string * W;
  rpc_Shutdown : W → option string * W;
  rpc_GetRoutes : W → (string + list Route) * W;
  rpc_HandleHTTP : HTTPRequest → W → (string + HTTPResponse) * W;
  rpc_GetHookRegistrations : W → (string + list HookRegistration) * W;
  rpc_HandleSyncHook : string → string → string → W → (string + HookResult) * W;
}.
Arguments MkSidecar {W}.
Arguments rpc_GetInfo {W} _.
Arguments rpc_Init {W} _ _ _.
Arguments rpc_Shutdown {W} _ _.
Arguments rpc_GetRoutes {W} _ _.
Arguments rpc_HandleHTTP {W} _ _ _.
Arguments rpc_GetHookRegistrations {W} _ _.
Arguments rpc_HandleSyncHook {W} _ _ _ _ _.

Record ExternalProvider (P W : Type) := MkExternal {
  x_info : ProviderInfo;
  x_client : sidecar W;
  x_socketPath : string;
  x_routes : list Route;
  x_hooks : list (SyncHook P W);
  x_reactions : list (Reaction P W);
}.
Arguments MkExternal {P W}.
Arguments x_info {P W} _.
Arguments x_client {P W} _.
Arguments x_socketPath {P W} _.
Arguments x_routes {P W} _.
Arguments x_hooks {P W} _.
Arguments x_reactions {P W} _.

Inductive extErr :=
| ErrConnect (socketPath e : string)
| ErrGetInfo (socketPath e : string)
| ErrInitRPC (name e : string)
| ErrGetRoutesRPC (name e : string)
| ErrGetHooksRPC (name e : string)
| ErrNoSocket (name : string)
| ErrEntryConnect (name : string) (e : extErr)
| ErrNoDirectory (name : string)
| ErrReadDir (dir e : string)
| ErrDiscover (dir : string) (e : extErr)
| ErrReadConfig (path e : string)
| ErrParseConfig (path e : string)
| ErrRegister (name : string) (e : registryErr).

Section external.
Context {P W : Type}.
Implicit Types (p : ExternalProvider P W) (w : W).

(** [json.Marshal] of a payload; dialling a socket; the rest of the system. *)
Context (marshal : P → string + string) (dial : string → string + sidecar W).

(** ** The provider (external.go) *)

Definition Name p : string := pi_Name (x_info p).

Definition set_hooks p (routes : list Route) (hs : list (SyncHook P W)) (rs : list (Reaction P W)) :=
  MkExternal (x_info p) (x_client p) (x_socketPath p) routes hs rs.

(** [open] lists the sockets of the open connections. *)
Definition ConnectExternalProvider (socketPath : string) (open : list string)
  : (extErr + ExternalProvider P W) * list string :=
  match dial socketPath with
  | inl e => (inl (ErrConnect socketPath e), open)
  | inr client =>
      match rpc_GetInfo client with
      | inl e => (inl (ErrGetInfo socketPath e), open)
      | inr info => (inr (MkExternal info client socketPath [] [] []), open ++ [socketPath])
      end
  end.

Definition makeSyncHookHandler (client : sidecar W) (feature event : string) (payload : P) (w : W) : option string * W :=
  match marshal payload with
  | inl err => (Some ("failed to marshal hook payload: " +:+ err), w)
  | inr payloadBytes =>
      match rpc_HandleSyncHook client feature event payloadBytes w with
      | (inl err, w) => (Some ("sync hook RPC failed for " +:+ feature +:+ ":" +:+ event +:+ ": " +:+ err), w)
      | (inr result, w) =>
          if res_Success result then (None, w)
          else (Some ("sync hook " +:+ feature +:+ ":" +:+ event +:+ " rejected: " +:+ res_Error result), w)
      end
  end.

(** Errors are logged only; the answer is not looked at. *)
Definition makeAsyncHookHandler (client : sidecar W) (feature event : string) (payload : P) (w : W) : option string * W :=
  match marshal payload with
  | inl _ => (None, w)
  | inr payloadBytes => (None, (rpc_HandleSyncHook client feature event payloadBytes w).2)
  end.

(** The loop over the registrations; a nil registry is [None]. *)
Fixpoint register_hooks (regs : list HookRegistration) p (hr : option (hookRegistry P W))
  : ExternalProvider P W * option (hookRegistry P W) :=
  match regs with
  | [] => (p, hr)
  | reg :: regs =>
      if reg_Sync reg then
        let hook := MkSyncHook (reg_Feature reg) (reg_Event reg)
                      (makeSyncHookHandler (x_client p) (reg_Feature reg) (reg_Event reg)) in
        register_hooks regs (set_hooks p (x_routes p) (x_hooks p ++ [hook]) (x_reactions p)) (RegisterHook hook <$> hr)
      else
        let reaction := MkReaction (reg_Feature reg) (reg_Event reg)
                          (makeAsyncHookHandler (x_client p) (reg_Feature reg) (reg_Event reg)) in
        register_hooks regs (set_hooks p (x_routes p) (x_hooks p) (x_reactions p ++ [reaction]))
          (RegisterReaction reaction <$> hr)
  end.

Definition ExternalInit (apiPrefix : string) p (hr : option (hookRegistry P W)) w
  : option extErr * ExternalProvider P W * option (hookRegistry P W) * W :=
  match rpc_Init (x_client p) apiPrefix w with
  | (Some e, w) => (Some (ErrInitRPC (Name p) e), p, hr, w)
  | (None, w) =>
      match rpc_GetRoutes (x_client p) w with
      | (inl e, w) => (Some (ErrGetRoutesRPC (Name p) e), p, hr, w)
      | (inr routes, w) =>
          let p := set_hooks p routes (x_hooks p) (x_reactions p) in
          match rpc_GetHookRegistrations (x_client p) w with
          | (inl e, w) => (Some (ErrGetHooksRPC (Name p) e), p, hr, w)
          | (inr regs, w) => let '(p, hr) := register_hooks regs p hr in (None, p, hr, w)
          end
      end
  end.

(** A failed RPC is logged; closing a connection twice is an error. *)
Definition ExternalShutdown p (open : list string) w : option string * list string * W :=
  let w := (rpc_Shutdown (x_client p) w).2 in
  if bool_decide (x_socketPath p ∈ open)
  then (None, bfilter (λ s, negb (String.eqb s (x_socketPath p))) open, w)
  else (Some "grpc: the client connection is closing", open, w).

(** The method a route is registered under; [None] is every method. *)
Definition route_method (method : string) : option string :=
  if existsb (String.eqb method) ["GET"; "POST"; "PUT"; "PATCH"; "DELETE"] then Some method else None.

Definition ExternalRoutes p : list (option string * string) :=
  List.map (λ route, (route_method (rt_Method route), rt_Path route)) (x_routes p).

(** ** The proxy *)

(** The request as the proxy reads it: the header map with all values, the raw
    query and the body or the error of reading it. *)
Record http_in := MkHttpIn {
  in_Method : string; in_Path : string; in_RawQuery : string;
  in_Header : gmap string (list string); in_Body : string + string;
}.

Definition error_response (msg : string) (status : Z) : hprog :=
  HHeader (λ h, header_Set "X-Content-Type-Options" "nosniff"
             (header_Set "Content-Type" "text/plain; charset=utf-8" (delete "Content-Length" h)))
    (HWriteHeader status (HWrite (msg +:+ String (chr 10) "") HDone)).

Definition first_values (h : gmap string (list string)) : gmap string string := omap head h.

Definition proxyHandler p (r : http_in) w : hprog * W :=
  match in_Body r with
  | inl err => (error_response ("failed to read request body: " +:+ err) 400, w)
  | inr body =>
      let grpcReq := MkHTTPRequest (in_Method r) (in_Path r) (first_values (in_Header r)) body (in_RawQuery r) in
      match rpc_HandleHTTP (x_client p) grpcReq w with
      | (inl err, w) => (error_response ("external provider RPC failed: " +:+ err) 502, w)
      | (inr resp, w) =>
          (HHeader (λ h, foldl (λ h kv, header_Set kv.1 kv.2 h) h (hp_Headers resp))
             (HWriteHeader (hp_StatusCode resp) (HWrite (hp_Body resp) HDone)), w)
      end
  end.

(** ** Discovery (discovery.go) *)

Record ExternalProviderConfig := MkEntry {
  e_Name : string; e_Type : string; e_Socket : string; e_Directory : string; e_Exclude : list string;
}.

Fixpoint isExcluded (name : string) (patterns : list string) : bool :=
  match patterns with
  | [] => false
  | pattern :: patterns => if Match pattern name then true else isExcluded name patterns
  end.

(** The entries of a directory: name and whether it is a directory. *)
Context (ReadDir : string → string + list (string * bool)).

Fixpoint discover_loop (dir : string) (exclude : list string) (entries : list (string * bool)) (open : list string)
  : list (ExternalProvider P W) * list string :=
  match entries with
  | [] => ([], open)
  | (name, isDir) :: entries =>
      if isDir then discover_loop dir exclude entries open
      else if negb (HasSuffix name ".sock") then discover_loop dir exclude entries open
      else if isExcluded name exclude then discover_loop dir exclude entries open
      else
        match ConnectExternalProvider (path_Join dir name) open with
        | (inl _, open) => discover_loop dir exclude entries open
        | (inr ep, open) => let '(ps, open) := discover_loop dir exclude entries open in (ep :: ps, open)
        end
  end.

Definition discoverFromDirectory (dir : string) (exclude : list string) (open : list string)
  : (extErr + list (ExternalProvider P W)) * list string :=
  match ReadDir dir with
  | inl e => (inl (ErrReadDir dir e), open)
  | inr entries => let '(ps, open) := discover_loop dir exclude entries open in (inr ps, open)
  end.

Fixpoint DiscoverExternalProviders (cfg : list ExternalProviderConfig) (providers : list (ExternalProvider P W))
    (open : list string) : (extErr + list (ExternalProvider P W)) * list string :=
  match cfg with
  | [] => (inr providers, open)
  | entry :: cfg =>
      if String.eqb (e_Type entry) "external" then
        if String.eqb (e_Socket entry) "" then (inl (ErrNoSocket (e_Name entry)), open)
        else match ConnectExternalProvider (e_Socket entry) open with
             | (inl e, open) => (inl (ErrEntryConnect (e_Name entry) e), open)
             | (inr ep, open) => DiscoverExternalProviders cfg (providers ++ [ep]) open
             end
      else if String.eqb (e_Type entry) "discover" then
        if String.eqb (e_Directory entry) "" then (inl (ErrNoDirectory (e_Name entry)), open)
        else match discoverFromDirectory (e_Directory entry) (e_Exclude entry) open with
             | (inl e, open) => (inl (ErrDiscover (e_Directory entry) e), open)
             | (inr discovered, open) => DiscoverExternalProviders cfg (providers ++ discovered) open
             end
      else DiscoverExternalProviders cfg providers open
  end.

(** Reading a file, its YAML, and whether [os.Stat] says it does not exist. *)
Context (ReadFile : string → string + string) (yaml : string → string + list ExternalProviderConfig)
  (not_exist : string → bool).

Definition LoadProvidersConfig (path : string) : extErr + list ExternalProviderConfig :=
  match ReadFile path with
  | inl e => inl (ErrReadConfig path e)
  | inr data => match yaml data with
                | inl e => inl (ErrParseConfig path e)
                | inr cfg => inr cfg
                end
  end.

(** The sidecars become providers of a registry over a larger world [V]. *)
Definition RegisterExternalProviders {V} (as_provider : ExternalProvider P W → Provider V) (configPath : string)
    (r : Registry V) (open : list string) : option extErr * Registry V * list string :=
  if not_exist configPath then (None, r, open)
  else match LoadProvidersConfig configPath with
       | inl e => (Some e, r, open)
       | inr cfg =>
           match DiscoverExternalProviders cfg [] open with
           | (inl e, open) => (Some e, r, open)
           | (inr ps, open) =>
               match register_external (List.map as_provider ps) r with
               | (Some (name, e), r) => (Some (ErrRegister name e), r, open)
               | (None, r) => (None, r, open)
               end
           end
       end.

End external.

(** * Discovery: properties *)

Section discovery.
Context {P W : Type} (dial : string → string + sidecar W) (ReadDir : string → string + list (string * bool)).

Definition connects (socketPath : string) : option (ExternalProvider P W) :=
  match dial socketPath with
  | inl _ => None
  | inr client => match rpc_GetInfo client with
                  | inl _ => None
                  | inr info => Some (MkExternal info client socketPath [] [] [])
                  end
  end.

Lemma Connect_spec s open :
  match ConnectExternalProvider dial s open with
  | (inl _, open') => connects s = None ∧ open' = open
  | (inr ep, open') => connects s = Some ep ∧ open' = open ++ [x_socketPath ep]
  end.
Proof. unfold ConnectExternalProvider, connects. destruct (dial s) as [|c]; [done|]. by destruct (rpc_GetInfo c). Qed.

(** The sockets of a directory that are tried. *)
Definition candidate (exclude : list string) (e : string * bool) : bool :=
  negb e.2 && HasSuffix e.1 ".sock" && negb (isExcluded e.1 exclude).

Definition dir_sockets (dir : string) (exclude : list string) (entries : list (string * bool)) : list string :=
  List.map (λ e, path_Join dir e.1) (bfilter (candidate exclude) entries).

Lemma dir_sockets_cons dir exclude e entries :
  dir_sockets dir exclude (e :: entries) =
  if candidate exclude e then path_Join dir e.1 :: dir_sockets dir exclude entries
  else dir_sockets dir exclude entries.
Proof. unfold dir_sockets, bfilter. simpl. by destruct (candidate exclude e). Qed.

Lemma discover_loop_spec dir exclude entries open :
  let ps := omap connects (dir_sockets dir exclude entries) in
  discover_loop dial dir exclude entries open = (ps, open ++ (x_socketPath <$> ps)).
Proof.
  revert open. induction entries as [|[name isDir] entries IH]; intros open; cbv zeta; [by rewrite app_nil_r|].
  rewrite dir_sockets_cons. unfold candidate. cbn [discover_loop fst snd].
  destruct isDir; simpl; [apply IH|]. destruct (HasSuffix name ".sock"); simpl; [|apply IH].
  destruct (isExcluded name exclude); simpl; [apply IH|].
  pose proof (Connect_spec (path_Join dir name) open) as Hc.
  destruct (ConnectExternalProvider dial (path_Join dir name) open) as [[e|ep] open']; destruct Hc as [-> ->].
  - apply IH.
  - rewrite IH. simpl. by rewrite <-app_assoc.
Qed.

Definition entry_ok (e : ExternalProviderConfig) : Prop :=
  (e_Type e = "external" → e_Socket e ≠ "" ∧ is_Some (connects (e_Socket e))) ∧
  (e_Type e = "discover" → e_Directory e ≠ "" ∧ is_inr (ReadDir (e_Directory e)) = true).

(** The sidecars of an entry, in order. *)
Definition entry_found (e : ExternalProviderConfig) : list (ExternalProvider P W) :=
  if String.eqb (e_Type e) "external" then option_list (connects (e_Socket e))
  else if String.eqb (e_Type e) "discover" then
    match ReadDir (e_Directory e) with
    | inl _ => []
    | inr entries => omap connects (dir_sockets (e_Directory e) (e_Exclude e) entries)
    end
  else [].

Definition sockets (ps : list (ExternalProvider P W)) : list string := x_socketPath <$> ps.

(** One entry: it fails and nothing is opened, or its sidecars are added. *)
Lemma Discover_step e cfg ps open :
  (¬ entry_ok e ∧ ∃ err, DiscoverExternalProviders dial ReadDir (e :: cfg) ps open = (inl err, open)) ∨
  (entry_ok e ∧ DiscoverExternalProviders dial ReadDir (e :: cfg) ps open =
     DiscoverExternalProviders dial ReadDir cfg (ps ++ entry_found e) (open ++ sockets (entry_found e))).
Proof.
  unfold entry_ok, entry_found. cbn [DiscoverExternalProviders].
  destruct (String.eqb_spec (e_Type e) "external") as [->|Hx].
  { destruct (String.eqb_spec (e_Socket e) "") as [->|Hs]; [left; naive_solver|].
    pose proof (Connect_spec (e_Socket e) open) as Hc.
    destruct (ConnectExternalProvider dial (e_Socket e) open) as [[err|ep] open']; destruct Hc as [-> ->].
    - left. split; [|eauto]. intros [H _]. by destruct (H eq_refl) as [_ [? ?]].
    - right. split; [|done]. split; [by eauto|done]. }
  destruct (String.eqb_spec (e_Type e) "discover") as [->|Hd].
  { destruct (String.eqb_spec (e_Directory e) "") as [->|Hs]; [left; naive_solver|].
    unfold discoverFromDirectory. destruct (ReadDir (e_Directory e)) as [err|entries].
    - left. split; [|eauto]. intros [_ H]. by destruct (H eq_refl).
    - right. rewrite discover_loop_spec. naive_solver. }
  right. split; [naive_solver|]. simpl. by rewrite !app_nil_r.
Qed.

Lemma Discover_spec cfg ps open :
  let '(res, open') := DiscoverExternalProviders dial ReadDir cfg ps open in
  match res with
  | inr ps' => Forall entry_ok cfg ∧ ps' = ps ++ concat (entry_found <$> cfg) ∧
      open' = open ++ sockets (concat (entry_found <$> cfg))
  | inl _ => ∃ pre e post, cfg = pre ++ e :: post ∧ Forall entry_ok pre ∧ ¬ entry_ok e ∧
      open' = open ++ sockets (concat (entry_found <$> pre))
  end.
Proof.
  revert ps open. induction cfg as [|e cfg IH]; intros ps open.
  { simpl. by rewrite !app_nil_r. }
  destruct (Discover_step e cfg ps open) as [[Hbad [err ->]]|[Hok ->]].
  { exists [], e, cfg. simpl. by rewrite app_nil_r. }
  specialize (IH (ps ++ entry_found e) (open ++ sockets (entry_found e))).
  destruct (DiscoverExternalProviders _ _ _ _ _) as [[err|ps'] open'].
  - destruct IH as (pre & e' & post & -> & Hpre & Hbad & ->). exists (e :: pre), e', post.
    split_and!; [done|by constructor|done|]. rewrite fmap_cons. simpl. unfold sockets. by rewrite fmap_app, app_assoc.
  - destruct IH as (Hall & -> & ->). rewrite fmap_cons. simpl. unfold sockets.
    rewrite fmap_app, !app_assoc. split; [by constructor|done].
Qed.

End discovery.

(** * Hooks: properties *)

Section forwarding.
Context {P W : Type} (marshal : P → string + string).
Implicit Types (p : ExternalProvider P W) (hr : hookRegistry P W).

Definition hooks_at hr (k : string) : list (SyncHook P W) := default [] (hooks hr !! k).
Definition reactions_at hr (k : string) : list (Reaction P W) := default [] (reactions hr !! k).

Definition registered_for (sync : bool) (k : string) (reg : HookRegistration) : bool :=
  Bool.eqb (reg_Sync reg) sync && String.eqb (hookKey (reg_Feature reg) (reg_Event reg)) k.

Definition sync_hook (client : sidecar W) (reg : HookRegistration) : SyncHook P W :=
  MkSyncHook (reg_Feature reg) (reg_Event reg) (makeSyncHookHandler marshal client (reg_Feature reg) (reg_Event reg)).

Definition async_reaction (client : sidecar W) (reg : HookRegistration) : Reaction P W :=
  MkReaction (reg_Feature reg) (reg_Event reg) (makeAsyncHookHandler marshal client (reg_Feature reg) (reg_Event reg)).

Lemma hooks_at_RegisterHook hook hr k :
  hooks_at (RegisterHook hook hr) k =
  hooks_at hr k ++ (if String.eqb (hookKey (h_Feature hook) (h_Event hook)) k then [hook] else []).
Proof.
  unfold hooks_at, RegisterHook. simpl. destruct (String.eqb_spec (hookKey (h_Feature hook) (h_Event hook)) k) as [<-|Hne].
  - by rewrite lookup_insert_eq.
  - by rewrite lookup_insert_ne, app_nil_r.
Qed.

Lemma reactions_at_RegisterReaction r hr k :
  reactions_at (RegisterReaction r hr) k =
  reactions_at hr k ++ (if String.eqb (hookKey (r_Feature r) (r_Event r)) k then [r] else []).
Proof.
  unfold reactions_at, RegisterReaction. simpl. destruct (String.eqb_spec (hookKey (r_Feature r) (r_Event r)) k) as [<-|Hne].
  - by rewrite lookup_insert_eq.
  - by rewrite lookup_insert_ne, app_nil_r.
Qed.

Lemma register_hooks_spec regs p hr :
  let '(p', hr') := register_hooks marshal regs p (Some hr) in
  x_routes p' = x_routes p ∧ x_client p' = x_client p ∧
  ∃ h', hr' = Some h' ∧
    (∀ k, hooks_at h' k = hooks_at hr k ++ List.map (sync_hook (x_client p)) (bfilter (registered_for true k) regs)) ∧
    (∀ k, reactions_at h' k = reactions_at hr k ++
       List.map (async_reaction (x_client p)) (bfilter (registered_for false k) regs)).
Proof.
  revert p hr. induction regs as [|reg regs IH]; intros p hr.
  { simpl. split_and!; [done|done|]. exists hr. split_and!; [done|..]; intros k; by rewrite app_nil_r. }
  cbn [register_hooks]. destruct (reg_Sync reg) eqn:Es; cbn [fmap option_fmap option_map].
  - specialize (IH (set_hooks p (x_routes p) (x_hooks p ++ [sync_hook (x_client p) reg]) (x_reactions p))
      (RegisterHook (sync_hook (x_client p) reg) hr)).
    unfold sync_hook in IH at 1 2. destruct (register_hooks _ regs _ _) as [p' hr'].
    destruct IH as (Hr & Hc & h' & -> & Hh & Hre). split_and!; [done|done|]. exists h'. split_and!; [done|..]; intros k.
    + rewrite Hh, hooks_at_RegisterHook, <-app_assoc. f_equal. unfold bfilter, registered_for. simpl. rewrite Es. simpl.
      by destruct (String.eqb _ k).
    + rewrite Hre. unfold bfilter, registered_for. simpl. by rewrite Es.
  - specialize (IH (set_hooks p (x_routes p) (x_hooks p) (x_reactions p ++ [async_reaction (x_client p) reg]))
      (RegisterReaction (async_reaction (x_client p) reg) hr)).
    unfold async_reaction in IH at 1 2. destruct (register_hooks _ regs _ _) as [p' hr'].
    destruct IH as (Hr & Hc & h' & -> & Hh & Hre). split_and!; [done|done|]. exists h'. split_and!; [done|..]; intros k.
    + rewrite Hh. unfold bfilter, registered_for. simpl. by rewrite Es.
    + rewrite Hre, reactions_at_RegisterReaction, <-app_assoc. f_equal. unfold bfilter, registered_for. simpl. rewrite Es. simpl.
      by destruct (String.eqb _ k).
Qed.

(** The sidecar accepts a hook call: the payload can be encoded, the call is
    answered, and the answer is a success. *)
Definition accepts (client : sidecar W) (reg : HookRegistration) (payload : P) (w : W) : Prop :=
  ∃ b res, marshal payload = inr b ∧
    (rpc_HandleSyncHook client (reg_Feature reg) (reg_Event reg) b w).1 = inr res ∧ res_Success res = true.

Lemma sync_handler_accepts client reg payload w :
  (makeSyncHookHandler marshal client (reg_Feature reg) (reg_Event reg) payload w).1 = None ↔ accepts client reg payload w.
Proof.
  unfold makeSyncHookHandler, accepts. destruct (marshal payload) as [e|b].
  { split; [done|]. by intros (? & ? & ? & _). }
  destruct (rpc_HandleSyncHook _ _ _ b w) as [[e|res] w'] eqn:E; simpl.
  { split; [done|]. intros (b' & res' & [= <-] & Hr & _). by rewrite E in Hr. }
  destruct (res_Success res) eqn:Es; (split; [try done|]).
  - intros _. exists b, res. by rewrite E.
  - done.
  - intros (b' & res' & [= <-] & Hr & Hs). rewrite E in Hr. simpl in Hr. congruence.
Qed.

(** A sidecar's hooks.  When one of the three calls of the initialization
    fails, the error names it and no hook was registered.  Otherwise the routes
    are those the sidecar declared, and for every feature and event its
    synchronous registrations are appended to the hooks and the others to the
    reactions, in order; an operation with a single synchronous hook of the
    sidecar is aborted exactly when the payload cannot be encoded, the sidecar
    does not answer, or it answers without success. *)
Theorem external_hooks apiPrefix p hr w :
  let '(err, p', hr', w') := ExternalInit marshal apiPrefix p (Some hr) w in
  match err with
  | Some e => hr' = Some hr ∧ ∃ msg, e = ErrInitRPC (Name p) msg ∨ e = ErrGetRoutesRPC (Name p) msg ∨ e = ErrGetHooksRPC (Name p) msg
  | None => ∃ regs h' w1 w2, hr' = Some h' ∧
      rpc_GetRoutes (x_client p) w1 = (inr (x_routes p'), w2) ∧
      rpc_GetHookRegistrations (x_client p) w2 = (inr regs, w') ∧
      (∀ k, hooks_at h' k = hooks_at hr k ++ List.map (sync_hook (x_client p)) (bfilter (registered_for true k) regs)) ∧
      (∀ k, reactions_at h' k = reactions_at hr k ++
         List.map (async_reaction (x_client p)) (bfilter (registered_for false k) regs)) ∧
      ∀ feature event reg payload v,
        hooks_at hr (hookKey feature event) = [] → bfilter (registered_for true (hookKey feature event)) regs = [reg] →
        ((FireSync hr' feature event payload v).1 = None ↔ accepts (x_client p) reg payload v)
  end.
Proof.
  unfold ExternalInit. destruct (rpc_Init (x_client p) apiPrefix w) as [[e|] w1]; [by eauto|].
  destruct (rpc_GetRoutes (x_client p) w1) as [[e|routes] w2] eqn:Er; [by eauto|].
  cbn [x_client set_hooks]. destruct (rpc_GetHookRegistrations (x_client p) w2) as [[e|regs] w3] eqn:Eg; [by eauto 10|].
  pose proof (register_hooks_spec regs (set_hooks p routes (x_hooks p) (x_reactions p)) hr) as Hs.
  destruct (register_hooks marshal regs _ (Some hr)) as [p' hr'].
  destruct Hs as (Hr & Hc & h' & -> & Hh & Hre). exists regs, h', w1, w2. rewrite Hr.
  split_and!; [done|done|done|exact Hh|exact Hre|]. intros feature event reg payload v Hnone Hone.
  unfold FireSync. change (default [] (hooks h' !! hookKey feature event)) with (hooks_at h' (hookKey feature event)).
  rewrite Hh, Hnone, Hone. simpl.
  rewrite <-sync_handler_accepts. by destruct (makeSyncHookHandler _ _ _ _ payload v) as [[e|] v'].
Qed.

(** * The proxy: properties *)

(** The proxy is transparent.  The sidecar gets the method, the path, the raw
    query, the body and the first value of every header of the request; its
    answer reaches the client with its status, its headers and its body.  A body
    that cannot be read is answered 400 without a call, a call that fails 502. *)
Theorem proxy_transparent p r w new_id req :
  let '(m, w') := proxyHandler p r w in
  let '(panic, c) := ServeHTTP m (request_conn new_id req) in
  match in_Body r with
  | inl _ => w' = w ∧ panic = None ∧ ∃ h, c_sent c = Some (400, h)
  | inr body =>
      match rpc_HandleHTTP (x_client p)
              (MkHTTPRequest (in_Method r) (in_Path r) (first_values (in_Header r)) body (in_RawQuery r)) w with
      | (inl _, v) => w' = v ∧ panic = None ∧ ∃ h, c_sent c = Some (502, h)
      | (inr resp, v) => w' = v ∧
          if final_code (hp_StatusCode resp) then
            panic = None ∧
            c_sent c = Some (hp_StatusCode resp,
              foldl (λ h kv, header_Set kv.1 kv.2 h) (c_header (request_conn new_id req)) (hp_Headers resp)) ∧
            c_body c = if body_allowed (hp_StatusCode resp) then hp_Body resp else ""
          else invalid_code (hp_StatusCode resp) = true → is_Some panic
      end
  end.
Proof.
  unfold proxyHandler. destruct (in_Body r) as [e|body]; [by split_and!; [..|eexists]|].
  destruct (rpc_HandleHTTP (x_client p) _ w) as [[e|resp] v]; [by split_and!; [..|eexists]|].
  cbn [ServeHTTP]. set (c0 := on_header _ _).
  change (WriteHeader (hp_StatusCode resp) c0) with (conn_WriteHeader (hp_StatusCode resp) c0).
  destruct (final_code (hp_StatusCode resp)) eqn:Hc.
  - rewrite conn_WriteHeader_final by done. set (c1 := MkConn _ _ _ _).
    change (Write (hp_Body resp) c1) with (conn_Write (hp_Body resp) c1). unfold conn_Write. simpl.
    by destruct (body_allowed (hp_StatusCode resp)).
  - destruct (invalid_code (hp_StatusCode resp)) eqn:Hi.
    + unfold conn_WriteHeader. simpl. unfold invalid_code in Hi. rewrite Hi. by eauto.
    + destruct (conn_WriteHeader _ c0) as [[|] c1]; [done|]. by destruct (Write _ c1) as [[|] c2].
Qed.

(** A sidecar that leaves the status at its default, zero, makes the proxy panic:
    the client gets the 500 of the recovery instead of the answer. *)
Theorem proxy_zero_status p r w body resp w' new_id route req :
  in_Body r = inr body →
  rpc_HandleHTTP (x_client p) (MkHTTPRequest (in_Method r) (in_Path r) (first_values (in_Header r)) body (in_RawQuery r)) w
    = (inr resp, w') →
  hp_StatusCode resp = 0 →
  let '(panic, c, _) := serve new_id route (HandlerFunc (λ _, (proxyHandler p r w).1)) req in
  panic = None ∧ (∃ h, c_sent c = Some (500, h)) ∧ c_body c = "Internal Server Error" +:+ String (chr 10) "".
Proof.
  intros Hb Hrpc Hs. rewrite serve_unfold. unfold proxyHandler. rewrite Hb, Hrpc, Hs.
  split_and!; [done|by eexists|done].
Qed.
End forwarding.

(** * Witnesses *)

Definition echo : sidecar nat :=
  MkSidecar (inr (MkProviderInfo "gpu" "1" ["gpu"] [])) (λ _ n, (None, S n)) (λ n, (None, n))
    (λ n, (inr [MkRoute "GET" "/gpus"], n)) (λ q n, (inr (MkHTTPResponse 200 [] (hq_Body q)), n))
    (λ n, (inr [MkHookRegistration "Machine" "pre_create" true], n))
    (λ _ _ b n, (inr (MkHookResult (String.eqb b "ok") "no"), n)).

(** A directory with two sockets that match, of which one answers. *)
Example discovery_ex :
  let dial s := if String.eqb s "/run/p/a.sock" then inr echo else inl "refused" in
  let res := DiscoverExternalProviders (P := string) dial
    (λ _, inr [("a.sock", false); ("b.sock", false); ("c.sock", true); ("old.sock", false); ("x.txt", false)])
    [MkEntry "local" "discover" "" "/run/p" ["old*"]; MkEntry "core" "builtin" "" "" []] [] [] in
  (List.map Name <$> (match res.1 with inr ps => Some ps | inl _ => None end), res.2) = (Some ["gpu"], ["/run/p/a.sock"]).
Proof. vm_compute. reflexivity. Qed.

(** The sidecar vetoes a creation. *)
Example veto_ex :
  let p := MkExternal (MkProviderInfo "gpu" "1" ["gpu"] []) echo "s" [] [] [] in
  let '(_, _, hr, _) := ExternalInit (λ b : string, inr b) "/api/v1" p (Some newHookRegistry) 0%nat in
  (FireSync hr "Machine" "pre_create" "bad" 0%nat).1 =
    Some (MkHookErr "Machine" "pre_create" "sync hook Machine:pre_create rejected: no") ∧
  (FireSync hr "Machine" "pre_create" "ok" 0%nat).1 = None.
Proof. by vm_compute. Qed.
