(* ===== verification/Organization.v ===== *)
(** The organization provider (src/platform/organization/provider.go): its
    reactions, which keep an external identity provider and the status of an
    organization in step with the handlers of Rest.v. *)

From S2P Require Import Prelude GoStrings Resource Gorm Models Nesting Store Columns StoreProps StoreSpec Hooks Auth Rest.

(** [auth.IdentityProvider]. *)
Record IdentityProvider := MkIdentityProvider {
  ProvisionOrganization : string → string → string + OrgProvisionResult;
  DeprovisionOrganization : string → option string;
}.

Definition NoOpIdentityProvider : IdentityProvider :=
  MkIdentityProvider NoOpProvisionOrganization NoOpDeprovisionOrganization.

(** What a reaction may be given: the payloads of the handlers, or another value. *)
Abbreviation payload := (hook_payload + string)%type.

(** The calls made on the identity provider. *)
Inductive idp_call := Provision (orgName displayName : string) | Deprovision (orgName : string).

(** The Pending status of the handler is replaced as a whole; the statement names
    the table, so GORM sets no other column. *)
Definition updateStatus (org : Organization) (phase message externalID : string) : prog Organization unit :=
  _ ← call (AUpdates (by_key (OrgID (base org)) (Name (base org)))
              (set_status (MkOrganizationStatus phase message externalID)));
  Ret tt.

Definition onPostCreate (idp : IdentityProvider) (p : payload) : prog Organization (list idp_call) :=
  match p with
  | inl (POrganization org) =>
      let displayName := if String.eqb (org_DisplayName (o_spec org)) "" then Name (base org)
                         else org_DisplayName (o_spec org) in
      match ProvisionOrganization idp (Name (base org)) displayName with
      | inl err => _ ← updateStatus org "Failed" err ""; Ret [Provision (Name (base org)) displayName]
      | inr result => _ ← updateStatus org "Active" "" (pr_ExternalID result); Ret [Provision (Name (base org)) displayName]
      end
  | _ => Ret []
  end.

Definition onPostDelete (p : payload) : list idp_call :=
  match p with
  | inl (PDeleted _ name) => [Deprovision name]
  | _ => []
  end.

Section organization.
Context {D : Type} `{!Database Organization D} `{!DatabaseLaws Organization D}.
Implicit Types (d : D) (org : Organization).

(** The state the reactions act on: the table, and the calls so far. *)
Definition state : Type := D * list idp_call.

Definition create_reaction (idp : IdentityProvider) (p : payload) (s : state) : option string * state :=
  let '(calls, d) := run (onPostCreate idp p) s.1 in (None, (d, s.2 ++ calls)).

Definition delete_reaction (p : payload) (s : state) : option string * state :=
  (None, (s.1, s.2 ++ onPostDelete p)).

(** The registrations of [Init]; without an identity provider the one that does
    nothing is used. *)
Definition register_reactions (idp : option IdentityProvider) (hr : hookRegistry payload state) : hookRegistry payload state :=
  let idp := default NoOpIdentityProvider idp in
  RegisterReaction (MkReaction "Organization" "post_delete" delete_reaction)
    (RegisterReaction (MkReaction "Organization" "post_create" (create_reaction idp)) hr).

(** The goroutines of the hooks a handler fired, each run to its end. *)
Definition run_fired (hr : hookRegistry payload state) (fired : list (string * string * hook_payload)) (s : state) : state :=
  foldl (λ s '(feature, event, p),
    foldl (λ s j, (j_run j s).2) s (FireAsync (Some hr) feature event (inl p))) s fired.

(** The status the reaction leaves. *)
Definition provisioned (idp : IdentityProvider) org : OrganizationStatus :=
  let displayName := if String.eqb (org_DisplayName (o_spec org)) "" then Name (base org)
                     else org_DisplayName (o_spec org) in
  match ProvisionOrganization idp (Name (base org)) displayName with
  | inl err => MkOrganizationStatus "Failed" err ""
  | inr result => MkOrganizationStatus "Active" "" (pr_ExternalID result)
  end.

Lemma updateStatus_row org ph msg ext d :
  healthy d = true →
  abs (rows (run (updateStatus org ph msg ext) d).2) =
  match abs_live (rows d) !! key org with
  | Some r => MkAbs (<[key org := set_status (MkOrganizationStatus ph msg ext) r]> (abs_live (rows d))) (abs_dead (rows d))
  | None => abs (rows d)
  end.
Proof.
  intros Hh. unfold updateStatus. simpl.
  pose proof (updates_by_key (OrgID (base org)) (Name (base org)) (set_status (MkOrganizationStatus ph msg ext)) d Hh
    (λ _, eq_refl) (λ _, eq_refl)) as Hk.
  destruct (exec _ d) as [x d']. exact Hk.
Qed.

Lemma create_reaction_row idp org d calls :
  healthy d = true →
  abs (rows (create_reaction idp (inl (POrganization org)) (d, calls)).2.1) =
  match abs_live (rows d) !! key org with
  | Some r => MkAbs (<[key org := set_status (provisioned idp org) r]> (abs_live (rows d))) (abs_dead (rows d))
  | None => abs (rows d)
  end.
Proof.
  intros Hh. unfold create_reaction, onPostCreate, provisioned. cbn [fst snd].
  destruct (ProvisionOrganization _ _ _) as [err|res]; rewrite run_bind;
    rewrite <-updateStatus_row by done; by destruct (run (updateStatus _ _ _ _) d).
Qed.

Lemma fire_post_create idp p s hr :
  hr = register_reactions idp newHookRegistry →
  foldl (λ s j, (j_run j s).2) s (FireAsync (Some hr) "Organization" "post_create" p) =
  (create_reaction (default NoOpIdentityProvider idp) p s).2.
Proof. by intros ->. Qed.

Lemma fire_post_delete idp p s hr :
  hr = register_reactions idp newHookRegistry →
  foldl (λ s j, (j_run j s).2) s (FireAsync (Some hr) "Organization" "post_delete" p) = (delete_reaction p s).2.
Proof. by intros ->. Qed.

Context `{!Decoder Organization}.

(** C28: A created organization is provisioned.  When the handler answers 201 it has
    fired one hook; after the reaction the stored organization has its spec and
    its metadata as answered, and the status is Active with the id of the
    identity provider, or Failed with its error; nothing else in the table
    changed, and the identity provider was asked once.  Any other answer fires
    nothing. *)
Theorem organization_provisioned idp fuel now ctx r d :
  healthy d = true →
  let hr := register_reactions idp newHookRegistry in
  let '((res, fired), d1) := run (createOrganization true fuel now ctx r) d in
  let '(d2, calls) := run_fired hr fired (d1, []) in
  match res with
  | ROne 201 org => live org = true →
      abs_live (rows d1) !! key org = Some org ∧
      abs (rows d2) = MkAbs (<[key org := set_status (provisioned (default NoOpIdentityProvider idp) org) org]> (abs_live (rows d1)))
                        (abs_dead (rows d1)) ∧
      length calls = 1%nat
  | _ => fired = [] ∧ calls = [] ∧ d2 = d1
  end.
Proof.
  intros Hh hr. unfold createOrganization, create_handler, with_org. rewrite run_bind.
  destruct (decode_body (r_Body r) zero) as [e|x]; [done|]. cbn [k_org organizations_kind system_org].
  change (k_prepare organizations_kind (on_base (SetOrgID SystemTenantID) x))
    with (@inr string Organization (set_status (MkOrganizationStatus "Pending" "" "") (on_base (SetOrgID SystemTenantID) x))).
  cbn iota. set (org := set_status _ _). rewrite run_bind.
  pose proof (Create_outcome (R := Organization) eq_refl fuel now org d) as Hc. pose proof (run_healthy (Create fuel now org) d Hh) as Hh1.
  destruct (run (Create fuel now org) d) as [[[e|] org'] d1].
  { cbn. unfold exists_or_500. by destruct (storeErr_is ErrAlreadyExists e). }
  simpl in Hc, Hh1. destruct Hc as (_ & _ & Hr). cbn [run k_view organizations_kind fired]. unfold run_fired. cbn [foldl].
  rewrite (fire_post_create idp) by done. pose proof (create_reaction_row (default NoOpIdentityProvider idp) org' d1 [] Hh1) as Ha.
  destruct (create_reaction _ _ (d1, [])) as [x0 [d2 calls]] eqn:Ec. simpl in Ha |- *. intros Hl.
  assert (abs_live (rows d1) !! key org' = Some org') as Hs.
  { apply abs_live_Some; [apply rows_unique|]. split_and!; [rewrite Hr; left|done|done]. }
  rewrite Hs in Ha. split_and!; [done|done|]. unfold create_reaction, onPostCreate in Ec. cbn [fst snd] in Ec.
  destruct (ProvisionOrganization _ _ _); rewrite run_bind in Ec; destruct (run (updateStatus _ _ _ _) d1);
    simpl in Ec; by injection Ec as <- <- <-.
Qed.
End organization.

(** * Witness: an identity provider that knows one name *)

Definition picky_idp : IdentityProvider :=
  MkIdentityProvider (λ name _, if String.eqb name "acme" then inr (MkProvision "kc-42" "" "") else inl "quota exceeded")
    (λ _, None).

Definition named_org (name : string) : Organization :=
  MkObject (MkResource 0 name None None None None 0 0 None "" 0 0 None None) (MkOrganizationSpec "" "") (MkOrganizationStatus "" "" "").

Definition name_decoder : Decoder Organization := {| zero := named_org ""; decode_body := λ body _, inr (named_org body) |}.

Definition post (body : string) : request := MkRequest "POST" "/organizations" (λ _, "") (λ _, "") (λ _, "") body.

#[local] Existing Instance name_decoder.

Definition created (name : string) : (response Organization * list (string * string * hook_payload)) * MemDB Organization :=
  run (createOrganization true 9 7 (MkContext None None) (post name)) (MkMem [] true).

Definition reacted (name : string) : @state (MemDB Organization) :=
  run_fired (register_reactions (Some picky_idp) newHookRegistry) (created name).1.2 ((created name).2, []).

Definition stored_status (name : string) : option OrganizationStatus :=
  o_status <$> a_live (abs (rows (reacted name).1)) !! (0%N, name).

Lemma organization_provisioned_witness :
  stored_status "acme" = Some (MkOrganizationStatus "Active" "" "kc-42") ∧
  stored_status "corp" = Some (MkOrganizationStatus "Failed" "quota exceeded" "").
Proof.
  split.
  - pose proof (organization_provisioned (D := MemDB Organization) (Some picky_idp) 9 7 (MkContext None None) (post "acme")
      (MkMem [] true) eq_refl eq_refl) as (_ & Ha & _).
    refine (eq_trans (f_equal (λ a, o_status <$> a_live a !! (0%N, "acme")) Ha) _). vm_compute. reflexivity.
  - pose proof (organization_provisioned (D := MemDB Organization) (Some picky_idp) 9 7 (MkContext None None) (post "corp")
      (MkMem [] true) eq_refl eq_refl) as (_ & Ha & _).
    refine (eq_trans (f_equal (λ a, o_status <$> a_live a !! (0%N, "corp")) Ha) _). vm_compute. reflexivity.
Defined.
