(* ===== verification/Start.v ===== *)
(** The server process (src/cmd/infractl-server/main.go, profiles.go): the
    providers of the default profile (src/platform/*/provider.go,
    src/examples/inventory/provider.go) with what each does when it is
    initialized, the start of the process, its capabilities endpoint and its
    shutdown. *)

From S2P Require Import Prelude GoStrings GoJson JsonPrint Resource Auth Registry Hooks Server External Organization.

(** * The process

    The state providers are initialized in: the state the hooks act on, the hook
    registry, the sidecars with their open connections, the migrated tables, the
    providers whose store is set, the running delivery loops and the log. *)

Record world (P W : Type) := MkWorld {
  w_state : W;
  w_hooks : hookRegistry P W;
  w_external : gmap string (ExternalProvider P W);
  w_open : list string;
  w_tables : list string;
  w_ready : list string;
  w_loops : nat;
  w_log : list string;
}.
Arguments MkWorld {P W}.
Arguments w_state {P W} _.
Arguments w_hooks {P W} _.
Arguments w_external {P W} _.
Arguments w_open {P W} _.
Arguments w_tables {P W} _.
Arguments w_ready {P W} _.
Arguments w_loops {P W} _.
Arguments w_log {P W} _.

(** [provider.Context]: which of its pointers are set, and the API prefix. *)
Record ProviderContext := MkCtx {
  c_DB : bool;
  c_Registry : bool;
  c_Hooks : bool;
  c_Bus : bool;
  c_APIPrefix : string;
}.

Section providers.
Context {P W : Type}.
Implicit Types (w : world P W).

(** [AutoMigrate] of a table; the callbacks of the organization provider; JSON of
    a payload; the text of an error. *)
Context (automigrate : string → W → option string * W).
Context (onCreate onDelete : P → W → option string * W).
Context (marshal : P → string + string) (show : extErr → string).

Definition set_ready (name : string) w : world P W :=
  MkWorld (w_state w) (w_hooks w) (w_external w) (w_open w) (w_tables w) (w_ready w ++ [name]) (w_loops w) (w_log w).

Definition set_hooks_of (hr : hookRegistry P W) w : world P W :=
  MkWorld (w_state w) hr (w_external w) (w_open w) (w_tables w) (w_ready w) (w_loops w) (w_log w).

Definition start_loop w : world P W :=
  MkWorld (w_state w) (w_hooks w) (w_external w) (w_open w) (w_tables w) (w_ready w) (S (w_loops w)) (w_log w).

Definition log (line : string) w : world P W :=
  MkWorld (w_state w) (w_hooks w) (w_external w) (w_open w) (w_tables w) (w_ready w) (w_loops w) (w_log w ++ [line]).

Definition migrated (table : string) (st : W) w : world P W :=
  MkWorld st (w_hooks w) (w_external w) (w_open w) (w_tables w ++ [table]) (w_ready w) (w_loops w) (w_log w).

(** A nil database panics in [AutoMigrate]; the process ends as it does on an
    error of [Init]. *)
Definition auto_migrate (ctx : ProviderContext) (table : string) w : option string * world P W :=
  if c_DB ctx then
    match automigrate table (w_state w) with
    | (Some e, st) => (Some e, MkWorld st (w_hooks w) (w_external w) (w_open w) (w_tables w) (w_ready w) (w_loops w) (w_log w))
    | (None, st) => (None, migrated table st w)
    end
  else (Some "invalid memory address or nil pointer dereference", w).

(** [AutoMigrate] of the resource package: the migration of several models in one
    call of the database. *)
Definition AutoMigrate {M} (db : list M → W → option string * W) (models : list M) (st : W) : option string * W :=
  match db models st with
  | (Some e, st) => (Some ("auto-migrating resource models: " +:+ e), st)
  | (None, st) => (None, st)
  end.

(** * The providers *)

(** [Init] of a provider that keeps a table: the store, the migration, what is
    particular to the provider, the log line. *)
Definition table_init (ctx : ProviderContext) (name table : string) (more : world P W → world P W) w
  : option string * world P W :=
  let w := set_ready name w in
  match auto_migrate ctx table w with
  | (Some e, w) => (Some e, w)
  | (None, w) => (None, log (name +:+ " provider initialized") (more w))
  end.

Definition log_shutdown (name : string) w : option string * world P W :=
  (None, log (name +:+ " provider shutdown") w).

Definition table_provider (ctx : ProviderContext) (name table : string) (deps : list string)
    (more : world P W → world P W) : Provider (world P W) :=
  MkProvider name "0.1.0" [name] deps (table_init ctx name table more) (log_shutdown name) true false false false.

Definition TenantProvider ctx := table_provider ctx "tenant" "tenants" [] id.
Definition CatalogProvider ctx := table_provider ctx "catalog" "catalog_items" [] id.
Definition SecretProvider ctx := table_provider ctx "secret" "secrets" [] id.
Definition PolicyProvider ctx := table_provider ctx "policy" "policies" [] id.
Definition InventoryProvider ctx := table_provider ctx "inventory" "machines" [] id.
Definition TaskProvider ctx := table_provider ctx "task" "tasks" [] id.

(** The organization provider registers its reactions. *)
Definition organization_more (ctx : ProviderContext) w : world P W :=
  if c_Registry ctx then
    set_hooks_of (RegisterReaction (MkReaction "Organization" "post_delete" onDelete)
      (RegisterReaction (MkReaction "Organization" "post_create" onCreate) (w_hooks w))) w
  else w.

Definition OrganizationProvider ctx :=
  table_provider ctx "organization" "organizations" ["tenant"] (organization_more ctx).

(** The webhook provider starts its delivery loop when there is a bus. *)
Definition WebhookProvider_ ctx :=
  table_provider ctx "webhook" "webhooks" [] (λ w, if c_Bus ctx then start_loop w else w).

(** The event provider works without a database, on a store in memory. *)
Definition event_init (ctx : ProviderContext) w : option string * world P W :=
  if c_DB ctx then
    match auto_migrate ctx "events" w with
    | (Some e, w) => (Some e, w)
    | (None, w) => (None, log "event provider initialized" (set_ready "event" w))
    end
  else (None, log "event provider initialized" (set_ready "event" w)).

Definition EventProvider ctx : Provider (world P W) :=
  MkProvider "event" "0.1.0" ["event"] [] (event_init ctx) (log_shutdown "event") true false false false.

(** A sidecar as a provider. *)
Definition external_provider (ctx : ProviderContext) (p : ExternalProvider P W) : Provider (world P W) :=
  MkProvider (pi_Name (x_info p)) (pi_Version (x_info p)) (pi_Features (x_info p)) (pi_Dependencies (x_info p))
    (λ w,
       let '(err, p, hr, st) := ExternalInit marshal (c_APIPrefix ctx) p
             (if c_Registry ctx then Some (w_hooks w) else None) (w_state w) in
       (show <$> err,
        MkWorld st (default (w_hooks w) hr) (<[x_socketPath p := p]> (w_external w)) (w_open w) (w_tables w)
          (w_ready w) (w_loops w) (w_log w)))
    (λ w,
       let '(err, open, st) := ExternalShutdown (default p (w_external w !! x_socketPath p)) (w_open w) (w_state w) in
       (err, MkWorld st (w_hooks w) (w_external w) open (w_tables w) (w_ready w) (w_loops w) (w_log w)))
    true false false false.

(** The factories [init] registers for the default profile. *)
Definition default_providers (ctx : ProviderContext) : list (Provider (world P W)) :=
  [TenantProvider ctx; OrganizationProvider ctx; CatalogProvider ctx; EventProvider ctx; SecretProvider ctx;
   TaskProvider ctx; WebhookProvider_ ctx; PolicyProvider ctx; InventoryProvider ctx].

Definition profiles (ctx : ProviderContext) : gmap string (list (Provider (world P W))) :=
  RegisterProfileProviders ProfileDefault (default_providers ctx) ∅.

(** * Routes

    The patterns a provider mounts, and the routes below each: the method, the
    pattern relative to the mount, and the handler. *)

Definition crud_routes (one many : string) : list (string * string * string) :=
  [("GET", "/", "list" +:+ many); ("POST", "/", "create" +:+ one); ("GET", "/{name}/", "get" +:+ one);
   ("PUT", "/{name}/", "update" +:+ one); ("DELETE", "/{name}/", "delete" +:+ one)].

Definition mount : Type := string * list (string * string * string).

Definition tenant_routes : mount := ("/tenants", crud_routes "Tenant" "Tenants").
Definition organization_routes : mount := ("/organizations", crud_routes "Organization" "Organizations").
Definition catalog_routes : mount := ("/catalog-items", crud_routes "CatalogItem" "CatalogItems").
Definition secret_routes : mount := ("/secrets", crud_routes "Secret" "Secrets" ++ [("GET", "/{name}/reveal", "revealSecret")]).
Definition webhook_routes : mount := ("/webhooks", crud_routes "Webhook" "Webhooks").
Definition policy_routes : mount := ("/policies", crud_routes "Policy" "Policies").
Definition inventory_routes : mount := ("/machines", crud_routes "Machine" "Machines").
Definition event_routes : mount := ("/events", [("GET", "/", "listEvents"); ("GET", "/{id}", "getEvent")]).
Definition task_routes : mount :=
  ("/tasks", [("GET", "/", "listTasks"); ("GET", "/{id}", "getTask"); ("POST", "/{id}/cancel", "cancelTask")]).

(** What [RegisterRoutes] of the provider mounts. *)
Definition mounts (name : string) : option mount :=
  snd <$> List.find (λ p, String.eqb p.1 name)
    [("tenant", tenant_routes); ("organization", organization_routes); ("catalog", catalog_routes);
     ("event", event_routes); ("secret", secret_routes); ("task", task_routes); ("webhook", webhook_routes);
     ("policy", policy_routes); ("inventory", inventory_routes)].

(** * main *)

Inductive fatal :=
| FatalNoDSN
| FatalConnect (e : string)
| FatalProfile (profile : string)
| FatalRegister (e : registryErr)
| FatalExternal (e : extErr)
| FatalBus (e : string)
| FatalQueue (e : string)
| FatalInit (e : registryErr).

Fixpoint register_all (ps : list (Provider (world P W))) (r : Registry (world P W))
  : registryErr + Registry (world P W) :=
  match ps with
  | [] => inr r
  | p :: ps => match Register p r with
               | (Some e, _) => inl e
               | (None, r) => register_all ps r
               end
  end.

(** The environment and what the process meets on its start: connecting to the
    database, the sockets and the files of the sidecar configuration, the bus and
    the queue. *)
Record environment := MkEnv {
  env_DSN : string;
  env_Profile : string;
  env_Config : string;
  connect : string → option string;
  dial : string → string + sidecar W;
  ReadDir : string → string + list (string * bool);
  ReadFile : string → string + string;
  yaml : string → string + list ExternalProviderConfig;
  not_exist : string → bool;
  new_bus : option string;
  new_queue : option string;
}.

Definition main_ctx : ProviderContext := MkCtx true true true true "/api/v1".

(** [keys] is the order in which the map of providers is iterated. *)
Definition start (env : environment) (keys : list string) w
  : fatal + Registry (world P W) * world P W :=
  if String.eqb (env_DSN env) "" then inl FatalNoDSN
  else match connect env (env_DSN env) with
  | Some e => inl (FatalConnect e)
  | None =>
      let profile := GetProfile (env_Profile env) in
      match profiles main_ctx !! profile with
      | None => inl (FatalProfile profile)
      | Some factories =>
          match register_all factories NewRegistry with
          | inl e => inl (FatalRegister e)
          | inr r =>
              let '(ext, r, open) :=
                if String.eqb (env_Config env) "" then (None, r, w_open w)
                else RegisterExternalProviders (dial env) (ReadDir env) (ReadFile env) (yaml env) (not_exist env)
                       (external_provider main_ctx) (env_Config env) r (w_open w) in
              let w := MkWorld (w_state w) (w_hooks w) (w_external w) open (w_tables w) (w_ready w) (w_loops w) (w_log w) in
              match ext with
              | Some e => inl (FatalExternal e)
              | None =>
                  match new_bus env with
                  | Some e => inl (FatalBus e)
                  | None =>
                      match new_queue env with
                      | Some e => inl (FatalQueue e)
                      | None =>
                          match InitAll keys r w with
                          | (Some e, _, _) => inl (FatalInit e)
                          | (None, r, w) => inr (r, w)
                          end
                      end
                  end
              end
          end
      end
  end.

(** * Capabilities and shutdown *)

Definition capabilities (r : Registry (world P W)) : gmap string string :=
  foldl (λ caps p, foldl (λ caps f, <[f := PName p]> caps) caps (Features p)) ∅ (APIProviders r).

Definition capabilitiesHandler (r : Registry (world P W)) : Handler := HandlerFunc (λ _,
  encode_json (map_json (JStr <$> capabilities r))).

(** The end of main: the server [HTTPServer] returned is shut down, then the
    providers; errors are logged only.  [listen] runs in its goroutine before. *)
Definition serve_and_stop (cfg : ServerConfig) (r : Registry (world P W)) w (n : network)
  : network * (option registryErr * world P W) :=
  let '(httpSrv, n) := HTTPServer cfg n in
  let n := ListenAndServe cfg n in
  let n := Server.Shutdown httpSrv n in
  (n, ShutdownAll r w).

End providers.

(** * Registration of distinct providers *)

Section registration.
Context {V : Type}.

Lemma register_features_fresh name fs m :
  NoDup fs → (∀ f, f ∈ fs → m !! f = None) → (register_features name fs m).1 = None.
Proof.
  revert m. induction fs as [|f fs IH]; intros m Hnd Hm; [done|]. simpl.
  apply NoDup_cons in Hnd as [Hf Hnd]. rewrite Hm by left. apply IH; [done|].
  intros g Hg. rewrite lookup_insert_ne by (intros ->; done). apply Hm. by right.
Qed.
End registration.

Section starting.
Context {P W : Type}.
Implicit Types (w : world P W) (r : Registry (world P W)) (ps : list (Provider (world P W))).

Lemma register_all_distinct ps r :
  NoDup (PName <$> ps) → NoDup (concat (Features <$> ps)) →
  (∀ p, p ∈ ps → providers r !! PName p = None) →
  (∀ f, f ∈ concat (Features <$> ps) → features r !! f = None) →
  ∃ r', register_all ps r = inr r' ∧ order r' = order r ∧
    ∀ n p, providers r' !! n = Some p ↔ (p ∈ ps ∧ PName p = n) ∨ providers r !! n = Some p.
Proof.
  revert r. induction ps as [|p ps IH]; intros r Hn Hf Hpr Hfr.
  { exists r. split_and!; [done|done|]. set_solver. }
  simpl in Hf, Hfr. rewrite fmap_cons in Hn. apply NoDup_cons in Hn as [Hp Hn]. apply NoDup_app in Hf as (Hf1 & Hf12 & Hf2).
  cbn [register_all]. unfold Register. rewrite Hpr by left.
  pose proof (register_features_fresh (PName p) (Features p) (features r) Hf1) as He.
  pose proof (register_features_spec (PName p) (Features p) (features r)) as Hs.
  destruct (register_features _ _ _) as [err m]. simpl in He. rewrite He.
  2: { intros f Hin. apply Hfr, elem_of_app. by left. }
  destruct Hs as (Hs & _ & _).
  destruct (IH (MkRegistry (<[PName p := p]> (providers r)) m (order r))) as (r' & Hr' & Ho & Hall); [done|done|..]; simpl.
  - intros q Hq. rewrite lookup_insert_ne; [apply Hpr; by right|]. intros Heq. apply Hp. rewrite Heq. by apply list_elem_of_fmap_2.
  - intros f Hin. destruct (m !! f) as [n|] eqn:E; [|done]. exfalso. destruct (Hs f n E) as [Hold|[_ Hin']].
    + rewrite Hfr in Hold; [done|]. apply elem_of_app. by right.
    + by eapply Hf12.
  - exists r'. split_and!; [done|done|]. intros n q. rewrite Hall. simpl. rewrite lookup_insert_Some, elem_of_cons.
    specialize (Hpr p ltac:(left)). split.
    + intros [[Hq Hqn]|[[<- <-]|[_ Hq]]]; naive_solver.
    + intros [[[->|Hq] <-]|Hq]; [by auto|by auto|]. right. right. split; [|done]. intros <-. congruence.
Qed.

(** * The default profile starts *)

Context (automigrate : string → W → option string * W) (onCreate onDelete : P → W → option string * W).
Context (migrates : ∀ table st, (automigrate table st).1 = None).

Abbreviation the_providers := (default_providers automigrate onCreate onDelete main_ctx).

Definition default_names : list string :=
  ["tenant"; "organization"; "catalog"; "event"; "secret"; "task"; "webhook"; "policy"; "inventory"].

Definition table_of (name : string) : string :=
  if String.eqb name "catalog" then "catalog_items" else if String.eqb name "policy" then "policies"
  else if String.eqb name "inventory" then "machines" else name +:+ "s".

(** The reactions the organization provider adds under a key. *)
Definition organization_reactions (k : string) : list (Reaction P W) :=
  (if String.eqb (hookKey "Organization" "post_create") k then [MkReaction "Organization" "post_create" onCreate] else []) ++
  (if String.eqb (hookKey "Organization" "post_delete") k then [MkReaction "Organization" "post_delete" onDelete] else []).

(** What the initialization of one of the providers changes. *)
Record initialized (names : list string) w w' : Prop := {
  in_ready : w_ready w' = w_ready w ++ names;
  in_tables : w_tables w' = w_tables w ++ (table_of <$> names);
  in_loops : w_loops w' = (w_loops w + length (bfilter (String.eqb "webhook") names))%nat;
  in_reactions : ∀ k, reactions_at (w_hooks w') k =
    reactions_at (w_hooks w) k ++ concat (List.map (λ _, organization_reactions k) (bfilter (String.eqb "organization") names));
  in_hooks : hooks (w_hooks w') = hooks (w_hooks w);
}.

Lemma initialized_trans l1 l2 w w1 w2 :
  initialized l1 w w1 → initialized l2 w1 w2 → initialized (l1 ++ l2) w w2.
Proof.
  intros [A1 A2 A3 A4 A5] [B1 B2 B3 B4 B5]. split.
  - by rewrite B1, A1, app_assoc.
  - by rewrite B2, A2, fmap_app, app_assoc.
  - rewrite B3, A3, bfilter_app, length_app. lia.
  - intros k. by rewrite B4, A4, bfilter_app, map_app, concat_app, app_assoc.
  - congruence.
Qed.

(** What is particular to a provider. *)
Definition more_of (name : string) : world P W → world P W :=
  if String.eqb name "organization" then organization_more onCreate onDelete main_ctx
  else if String.eqb name "webhook" then start_loop else id.

Lemma table_init_initialized name w :
  ∃ w', table_init automigrate main_ctx name (table_of name) (more_of name) w = (None, w') ∧ initialized [name] w w'.
Proof.
  unfold table_init, auto_migrate. simpl. pose proof (migrates (table_of name) (w_state w)) as Hm.
  destruct (automigrate (table_of name) (w_state w)) as [e st]. simpl in Hm. subst e.
  eexists. split; [reflexivity|]. unfold more_of.
  destruct (String.eqb_spec name "organization") as [->|Ho]; [|destruct (String.eqb_spec name "webhook") as [->|Hw]].
  - split; try done. intros k. simpl.
    rewrite !reactions_at_RegisterReaction, app_nil_r. unfold organization_reactions. simpl. by rewrite app_assoc.
  - split; try done; simpl; [lia|]. intros k. by rewrite app_nil_r.
  - assert (String.eqb "webhook" name = false) as E1 by (apply String.eqb_neq; congruence).
    assert (String.eqb "organization" name = false) as E2 by (apply String.eqb_neq; congruence).
    split; try done; unfold bfilter; cbn [List.filter]; rewrite ?E1, ?E2; [simpl; lia|]. intros k. simpl. by rewrite app_nil_r.
Qed.

Lemma event_init_initialized w :
  ∃ w', event_init automigrate main_ctx w = (None, w') ∧ initialized ["event"] w w'.
Proof.
  unfold event_init, auto_migrate. simpl. pose proof (migrates "events" (w_state w)) as Hm.
  destruct (automigrate "events" (w_state w)) as [e st]. simpl in Hm. subst e. eexists. split; [reflexivity|].
  split; try done; simpl; try lia; intros k; by rewrite app_nil_r.
Qed.

Lemma default_Init p w : p ∈ the_providers → ∃ w', Init p w = (None, w') ∧ initialized [PName p] w w'.
Proof.
  unfold default_providers. rewrite !elem_of_cons, elem_of_nil.
  intros [->|[->|[->|[->|[->|[->|[->|[->|[->|[]]]]]]]]]].
  - exact (table_init_initialized "tenant" w).
  - exact (table_init_initialized "organization" w).
  - exact (table_init_initialized "catalog" w).
  - apply event_init_initialized.
  - exact (table_init_initialized "secret" w).
  - exact (table_init_initialized "task" w).
  - exact (table_init_initialized "webhook" w).
  - exact (table_init_initialized "policy" w).
  - exact (table_init_initialized "inventory" w).
Qed.

Lemma init_loop_initialized (pm : gmap string (Provider (world P W))) names w :
  (∀ n, n ∈ names → ∃ p, pm !! n = Some p ∧ p ∈ the_providers ∧ PName p = n) →
  ∃ w', init_loop pm names w = (None, w') ∧ initialized names w w'.
Proof.
  revert w. induction names as [|n names IH]; intros w Hn.
  { exists w. split; [done|]. split; simpl; try lia; try intros k; by rewrite ?app_nil_r. }
  destruct (Hn n) as (p & Hp & Hin & <-); [left|]. simpl. rewrite Hp.
  destruct (default_Init p w Hin) as (w1 & -> & H1). destruct (IH w1) as (w2 & Hw2 & H2).
  { intros m Hm. apply Hn. by right. }
  exists w2. split; [done|]. by apply (initialized_trans [PName p] names w w1 w2).
Qed.

Lemma default_names_NoDup : NoDup default_names.
Proof. apply (bool_decide_unpack _). by vm_compute. Qed.

Lemma default_registered :
  ∃ r, register_all the_providers NewRegistry = inr r ∧ order r = [] ∧
    ∀ n p, providers r !! n = Some p ↔ p ∈ the_providers ∧ PName p = n.
Proof.
  destruct (register_all_distinct the_providers NewRegistry) as (r & Hr & Ho & Hall).
  - exact default_names_NoDup.
  - exact default_names_NoDup.
  - intros p _. apply lookup_empty.
  - intros f _. apply lookup_empty.
  - exists r. split_and!; [done|done|]. intros n p. rewrite Hall. simpl. rewrite lookup_empty. naive_solver.
Qed.

Lemma default_depends p n : p ∈ the_providers → n ∈ Dependencies p → PName p = "organization" ∧ n = "tenant".
Proof.
  unfold default_providers. rewrite !elem_of_cons, elem_of_nil.
  intros [->|[->|[->|[->|[->|[->|[->|[->|[->|[]]]]]]]]]]; simpl; rewrite ?elem_of_cons, ?elem_of_nil; naive_solver.
Qed.

Lemma default_named n : n ∈ default_names ↔ ∃ p, p ∈ the_providers ∧ PName p = n.
Proof.
  change default_names with (PName <$> the_providers). rewrite list_elem_of_fmap. naive_solver.
Qed.

Lemma default_resolves keys r :
  (∀ n p, providers r !! n = Some p ↔ p ∈ the_providers ∧ PName p = n) → (∀ n, n ∈ keys ↔ n ∈ default_names) →
  ∃ r', ResolveDependencies keys r = inr r' ∧ providers r' = providers r ∧ order r' ≡ₚ default_names ∧
    ∃ l1 l2, order r' = l1 ++ "organization" :: l2 ∧ "tenant" ∈ l1.
Proof.
  intros Hr Hk. assert (ranges_over keys r) as Hran.
  { intros n. rewrite Hk, default_named. unfold is_Some. setoid_rewrite Hr. done. }
  assert (∀ a b, depends (providers r) a b → a = "organization" ∧ b = "tenant") as Hd.
  { intros a b (p & [Hp <-]%Hr & Hb). by apply default_depends. }
  assert (deps_registered (providers r)) as Hreg.
  { intros a b [-> ->]%Hd. apply Hran, Hk. left. }
  assert (acyclic (depends (providers r))) as Hac.
  { apply (acyclic_measure _ (λ n, if String.eqb n "organization" then 1 else 0)%nat). intros a b [-> ->]%Hd. simpl. lia. }
  pose proof (ResolveDependencies_total keys r Hran Hreg Hac) as Htot.
  destruct (ResolveDependencies keys r) as [e|r'] eqn:Er; [done|].
  destruct (ResolveDependencies_resolved keys r r' Hran Er) as ((Hnd & Hall & Ht) & Hp & _).
  exists r'. split_and!; [done|done| |].
  - apply NoDup_Permutation; [done|apply default_names_NoDup|]. intros n. rewrite Hall, Hp. by rewrite <-(Hran n), Hk.
  - assert ("organization" ∈ order r') as (l1 & l2 & Heq)%list_elem_of_split.
    { apply Hall. rewrite Hp. apply Hran, Hk. right. left. }
    exists l1, l2. split; [done|]. apply (Ht l1 "organization" l2 Heq). rewrite Hp.
    exists (OrganizationProvider automigrate onCreate onDelete main_ctx). split; [|left].
    apply Hr. split; [|done]. right. left.
Qed.

Lemma default_mounts n : n ∈ default_names → is_Some (mounts n).
Proof. revert n. apply Forall_forall. repeat constructor; eauto. Qed.

(** C26: The server starts.  With a reachable database, migrations that succeed and
    no sidecars, the start with the default profile ends without a fatal error,
    whatever the order in which the map of providers is iterated: each of the
    nine providers is initialized once, the organization provider after the
    tenant provider, every provider's table is migrated, one webhook delivery
    loop runs, the reactions of the organization provider are registered, and each
    provider mounts its routes under a pattern of its own. *)
Theorem server_starts (marshal : P → string + string) (show : extErr → string) (env : environment) keys w :
  env_DSN env ≠ "" → connect env (env_DSN env) = None → GetProfile (env_Profile env) = ProfileDefault →
  env_Config env = "" → new_bus env = None → new_queue env = None → (∀ n, n ∈ keys ↔ n ∈ default_names) →
  ∃ r w', start automigrate onCreate onDelete marshal show env keys w = inr (r, w') ∧
    order r ≡ₚ default_names ∧ (∃ l1 l2, order r = l1 ++ "organization" :: l2 ∧ "tenant" ∈ l1) ∧
    w_ready w' = w_ready w ++ order r ∧ w_tables w' = w_tables w ++ (table_of <$> order r) ∧
    w_loops w' = S (w_loops w) ∧
    (∀ k, reactions_at (w_hooks w') k = reactions_at (w_hooks w) k ++ organization_reactions k) ∧
    PName <$> APIProviders r = order r ∧
    (∀ n, n ∈ order r → is_Some (mounts n)) ∧ NoDup (omap (λ n, fst <$> mounts n) (order r)).
Proof.
  intros Hdsn Hcon Hprof Hcfg Hbus Hq Hk. unfold start.
  apply String.eqb_neq in Hdsn. rewrite Hdsn, Hcon, Hprof. unfold profiles, RegisterProfileProviders. rewrite lookup_insert_eq.
  destruct default_registered as (r0 & -> & Ho & Hr0). rewrite Hcfg, Hbus, Hq. cbn iota. cbn [String.eqb].
  set (w0 := MkWorld _ _ _ _ _ _ _ _). unfold InitAll. rewrite Ho.
  destruct (default_resolves keys r0 Hr0 Hk) as (r & -> & Hp & Hperm & Hbefore).
  assert (∀ n, n ∈ order r → ∃ p, providers r !! n = Some p ∧ p ∈ the_providers ∧ PName p = n) as Hin.
  { intros n Hn. rewrite Hperm in Hn. apply default_named in Hn as (p & Hpin & Hpn). exists p. rewrite Hp, Hr0. auto. }
  destruct (init_loop_initialized (providers r) (order r) w0 Hin) as (w' & -> & [H1 H2 H3 H4 H5]).
  exists r, w'. split_and!; [done|done|done|exact H1|exact H2| | | | |].
  - rewrite H3. erewrite (bfilter_Permutation _ _ _ Hperm). simpl. lia.
  - intros k. rewrite H4. f_equal.
    pose proof (bfilter_Permutation (String.eqb "organization") _ _ Hperm) as Hb.
    apply Permutation_singleton_r in Hb. rewrite Hb. simpl. by rewrite app_nil_r.
  - unfold APIProviders, select_providers. clear H1 H2 H3 H4 H5 Hbefore Hperm. induction (order r) as [|n l IH]; [done|].
    destruct (Hin n) as (p & Hpn & Hpp & <-); [left|]. simpl. rewrite Hpn. simpl.
    assert (isAPIProvider p = true) as ->.
    { revert Hpp. unfold default_providers. rewrite !elem_of_cons, elem_of_nil.
      by intros [->|[->|[->|[->|[->|[->|[->|[->|[->|[]]]]]]]]]]. }
    simpl. f_equal. apply IH. intros m Hm. apply Hin. by right.
  - intros n. rewrite Hperm. apply default_mounts.
  - rewrite Hperm. apply (bool_decide_unpack _). by vm_compute.
Qed.
End starting.

(** * Capabilities *)

Section serving.
Context {P W : Type}.
Implicit Types (r : Registry (world P W)).

Definition capability_pairs r : list (string * string) :=
  concat (List.map (λ p, List.map (λ f, (f, PName p)) (Features p)) (APIProviders r)).

Lemma capabilities_pairs r :
  capabilities r = foldl (λ caps kv, <[kv.1 := kv.2]> caps) ∅ (capability_pairs r).
Proof.
  unfold capabilities, capability_pairs. generalize (∅ : gmap string string). induction (APIProviders r) as [|p l IH]; intros m; [done|].
  simpl. rewrite foldl_app, <-IH. f_equal. clear IH. revert m. induction (Features p) as [|f fs IHf]; intros m; [done|]. apply IHf.
Qed.

(** A map filled from pairs that agree on every key holds exactly the pairs. *)
Lemma fill_consistent (l : list (string * string)) (m : gmap string string) f n :
  (∀ f a b, (f, a) ∈ l → (f, b) ∈ l → a = b) → (∀ f a b, (f, a) ∈ l → m !! f = Some b → a = b) →
  foldl (λ m kv, <[kv.1 := kv.2]> m) m l !! f = Some n ↔ (f, n) ∈ l ∨ m !! f = Some n.
Proof.
  revert m. induction l as [|[g a] l IH]; intros m Hl Hm; simpl; [set_solver|]. rewrite IH.
  - rewrite lookup_insert_Some, elem_of_cons. split; [naive_solver|].
    intros [[[= -> ->]|Hin]|Hmf]; [by auto|by auto|]. right. destruct (decide (g = f)) as [->|Hne]; [|by auto].
    left. split; [done|]. apply (Hm f a n); [left|done].
  - intros. eapply Hl; by right.
  - intros f' a' b Hin. rewrite lookup_insert_Some. intros [[-> ->]|[_ Hb]]; [by eapply Hl; [right|left]|by eapply Hm; [right|]].
Qed.

Lemma elem_of_capability_pairs r f n :
  (f, n) ∈ capability_pairs r ↔ ∃ p, p ∈ APIProviders r ∧ f ∈ Features p ∧ PName p = n.
Proof.
  unfold capability_pairs. rewrite list_elem_of_In, in_concat. setoid_rewrite in_map_iff. split.
  - intros (l & (p & <- & Hp) & Hin). apply in_map_iff in Hin as (g & [= -> <-] & Hg). exists p. by rewrite !list_elem_of_In.
  - intros (p & Hp & Hf & <-). exists (List.map (λ f, (f, PName p)) (Features p)). rewrite !list_elem_of_In in *.
    split; [by exists p|]. apply in_map_iff. by exists f.
Qed.

(** The capabilities endpoint tells which provider serves which feature.  When
    no two API providers share a feature, a request is answered 200 with a JSON
    object that has a member for exactly the features of the API providers, the
    value being the name of the provider. *)
Theorem capabilities_served r new_id route req :
  (∀ p, p ∈ APIProviders r → str_ok (PName p) ∧ Forall str_ok (Features p)) →
  (∀ p q f, p ∈ APIProviders r → q ∈ APIProviders r → f ∈ Features p → f ∈ Features q → PName p = PName q) →
  let '(panic, c, _) := serve new_id route (capabilitiesHandler r) req in
  panic = None ∧ (∃ h, c_sent c = Some (200, h) ∧ h !! "Content-Type" = Some "application/json") ∧
  ∃ kvs, parse_json (c_body c) = Some (JObj kvs) ∧ NoDup kvs.*1 ∧
    ∀ f v, (f, v) ∈ kvs ↔ ∃ p, p ∈ APIProviders r ∧ f ∈ Features p ∧ v = JStr (PName p).
Proof.
  intros Hok Huniq. unfold capabilitiesHandler. rewrite serve_unfold. cbn [encode_json ServeHTTP].
  set (v := map_json _). simpl. split; [done|]. split.
  { eexists. split; [done|]. simpl. apply lookup_insert_eq. }
  assert (∀ f n, capabilities r !! f = Some n ↔ ∃ p, p ∈ APIProviders r ∧ f ∈ Features p ∧ PName p = n) as Hcaps.
  { intros f n. rewrite capabilities_pairs, fill_consistent, elem_of_capability_pairs, lookup_empty; [naive_solver|..].
    - intros g a b. rewrite !elem_of_capability_pairs. intros (p & Hp & Hf & <-) (q & Hq & Hg & <-). by eapply Huniq.
    - intros g a b _. by rewrite lookup_empty. }
  assert (wf_json v) as Hwf.
  { apply string_map_wf. intros f n (p & Hp & Hf & <-)%Hcaps. destruct (Hok p Hp) as [Hn Hfs].
    rewrite Forall_forall in Hfs. eauto. }
  exists (merge_sort member_le (map_to_list (JStr <$> capabilities r))). split_and!.
  - apply parse_encode_line; [done|apply string_map_height].
  - rewrite merge_sort_Permutation. apply NoDup_fst_map_to_list.
  - intros f j. rewrite map_json_members, lookup_fmap, fmap_Some. setoid_rewrite Hcaps. naive_solver.
Qed.

(** * Shutdown *)

(** The graceful shutdown does not reach the server that listens: main shuts down
    the server [HTTPServer] returned, [ListenAndServe] made another one, and its
    listener is still open when the providers are shut down. *)
Theorem shutdown_misses_listener cfg r w n :
  (S (next_server n), server_addr cfg, server_tls cfg) ∈ listeners (serve_and_stop cfg r w n).1.
Proof.
  unfold serve_and_stop. simpl. apply elem_of_bfilter. split; [apply elem_of_app; right; left|].
  apply negb_true_iff, Nat.eqb_neq. simpl. lia.
Qed.
End serving.

(** * Witnesses *)

Definition quiet_env : environment (W := nat) :=
  MkEnv "host=db" "" "" (λ _, None) (λ _, inl "no socket") (λ _, inl "no directory") (λ _, inl "no file") (λ _, inr [])
    (λ _, true) None None.

Definition empty_world : world string nat := MkWorld 0%nat newHookRegistry ∅ [] [] [] 0 [].

Definition started : fatal + Registry (world string nat) * world string nat :=
  start (λ _ n, (None, S n)) (λ _ n, (None, n)) (λ _ n, (None, n)) inr (λ _, "") quiet_env default_names empty_world.

Lemma server_starts_witness :
  ∃ r w', started = inr (r, w') ∧ w_loops w' = 1%nat ∧ order r ≡ₚ default_names.
Proof.
  destruct (server_starts (P := string) (λ _ n, (None, S n)) (λ _ n, (None, n)) (λ _ n, (None, n)) (λ _ _, eq_refl)
    inr (λ _, "") quiet_env default_names empty_world) as (r & w' & Hs & Ho & _ & _ & _ & Hl & _);
    [discriminate|reflexivity..|done|]. exists r, w'. split_and!; [exact Hs|exact Hl|exact Ho].
Defined.

Definition demo_registry : Registry (world string nat) :=
  match started with inr (r, _) => r | inl _ => NewRegistry end.

Example capabilities_ex :
  c_body (serve "id" (λ _, "") (capabilitiesHandler demo_registry) some_request).1.2 =
  ReplaceAll "{'catalog':'catalog','event':'event','inventory':'inventory','organization':'organization','policy':'policy','secret':'secret','task':'task','tenant':'tenant','webhook':'webhook'}"
    "'" (String quote "") +:+ String (chr 10) "".
Proof. vm_compute. reflexivity. Qed.

Definition tenant_only : Registry (world string nat) :=
  (Register (TenantProvider (λ _ n, (None, n)) main_ctx) NewRegistry).2.

Definition tenant_resolved : Registry (world string nat) :=
  MkRegistry (providers tenant_only) (features tenant_only) ["tenant"].

Lemma capabilities_served_witness :
  (serve "id" (λ _, "") (capabilitiesHandler tenant_resolved) some_request).1.1 = None ∧
  ∃ kvs, parse_json (c_body (serve "id" (λ _, "") (capabilitiesHandler tenant_resolved) some_request).1.2) = Some (JObj kvs) ∧
    ("tenant", JStr "tenant") ∈ kvs.
Proof.
  pose proof (capabilities_served tenant_resolved "id" (λ _, "") some_request) as H.
  destruct (serve "id" (λ _, "") (capabilitiesHandler tenant_resolved) some_request) as [[panic c] obs].
  destruct H as (Hp & _ & kvs & Hk & _ & Hin).
  - intros p ->%list_elem_of_singleton. split; [|constructor; [|constructor]]; split; vm_compute; reflexivity.
  - by intros p q f ->%list_elem_of_singleton ->%list_elem_of_singleton _ _.
  - split; [exact Hp|]. exists kvs. split; [exact Hk|]. apply Hin.
    exists (TenantProvider (λ _ n, (None, n)) main_ctx). split_and!; [left|left|reflexivity].
Defined.
