(* ===== verification/Router.v ===== *)
(** The routes of the server (NewServer in src/api/server.go, the router set-up of
    src/cmd/infractl-server/main.go, RegisterRoutes of the providers and
    RegisterCRUDRoutes in src/api/handler.go): which handler a request reaches,
    and as what it is authorized. *)

From S2P Require Import Prelude GoStrings Resource Auth Registry Hooks Server External Organization Start.
From Stdlib Require Import Ascii.

(** * Patterns

    A segment of a pattern is a text or a parameter.  [en_slash]: the pattern ends
    with the slash of a sub-router, which answers with and without it; a route
    without method serves all of them. *)

Inductive seg := Lit (s : string) | Param (name : string).

#[global] Instance seg_eq_dec : EqDecision seg.
Proof. solve_decision. Defined.

Record entry (H : Type) := MkEntry {
  en_method : option string;
  en_segs : list seg;
  en_slash : bool;
  en_handler : H;
}.
Arguments MkEntry {H}.
Arguments en_method {H}.
Arguments en_segs {H}.
Arguments en_slash {H}.
Arguments en_handler {H}.

Fixpoint match_segs (segs : list seg) (parts : list string) : option (list (string * string)) :=
  match segs, parts with
  | [], [] => Some []
  | s :: segs, p :: parts =>
      if String.eqb p "" then None
      else match s with
           | Lit t => if String.eqb t p then match_segs segs parts else None
           | Param n => cons (n, p) <$> match_segs segs parts
           end
  | _, _ => None
  end.

(** The parts of a path after its first slash. *)
Definition path_parts (path : string) : option (list string) :=
  match path with String "/" rest => Some (Split rest "/") | _ => None end.

Definition ends_slash (parts : list string) : bool := match last parts with Some "" => true | _ => false end.

Definition match_entry {H} (e : entry H) (path : string) : option (list (string * string)) :=
  parts ← path_parts path;
  match_segs (en_segs e) (if en_slash e && ends_slash parts then removelast parts else parts).

Definition method_ok {H} (e : entry H) (method : string) : bool :=
  match en_method e with None => true | Some m => String.eqb m method end.

(** * The router

    chi serves a request by the route that matches its method and path. *)

Class Chi (H : Type) := route : list (entry H) → string → string → option (H * list (string * string)).

Class ChiLaws (H : Type) `{Chi H} : Prop := {
  route_match : ∀ table method path e ps,
    e ∈ table → method_ok e method = true → match_entry e path = Some ps →
    (∀ e', e' ∈ table → method_ok e' method = true → e' ≠ e → match_entry e' path = None) →
    route table method path = Some (en_handler e, ps);
  route_none : ∀ table method path,
    (∀ e, e ∈ table → method_ok e method = true → match_entry e path = None) → route table method path = None;
}.

(** * The routes *)

Definition to_seg (s : string) : seg :=
  match s with
  | String "{" t => Param (stake (String.length t - 1) t)
  | _ => Lit s
  end.

Definition parse_pattern (p : string) : list seg * bool :=
  let parts := Split p "/" in
  (List.map to_seg (bfilter (λ s, negb (String.eqb s "")) parts), ends_slash parts).

Definition new_entry {H} (method : option string) (pattern : string) (h : H) : entry H :=
  let '(segs, slash) := parse_pattern pattern in MkEntry method segs slash h.

(** An operational endpoint, or a handler behind the authentication chain. *)
Inductive target := Op (name : string) | Api (name : string).

#[global] Instance target_eq_dec : EqDecision target.
Proof. solve_decision. Defined.

#[global] Instance entry_eq_dec : EqDecision (entry target).
Proof. solve_decision. Defined.

Definition operational : list (entry target) :=
  [new_entry None "/metrics" (Op "metrics"); new_entry (Some "GET") "/healthz" (Op "healthz")].

(** The generic routes of a resource type. *)
Definition RegisterCRUDRoutes (resourceName : string) : mount :=
  ("/" +:+ resourceName,
   [("GET", "/", "list"); ("POST", "/", "create"); ("GET", "/{name}", "get"); ("PUT", "/{name}", "update");
    ("DELETE", "/{name}", "delete")]).

Definition mount_entries (m : mount) : list (entry target) :=
  List.map (λ x, new_entry (Some x.1.1) ("/api/v1" +:+ m.1 +:+ x.1.2) (Api x.2)) m.2.

(** The router main builds for the API providers with the given names. *)
Definition server_routes (names : list string) : list (entry target) :=
  operational ++ flat_map (λ n, match mounts n with Some m => mount_entries m | None => [] end) names ++
  [new_entry (Some "GET") "/api/v1/capabilities" (Api "capabilities")].

(** The sub-router of the API is mounted behind the chain. *)
Definition under_api (path : string) : bool := String.eqb path "/api/v1" || HasPrefix path "/api/v1/".

(** What a request does: nothing but the handler for an operational endpoint, the
    chain for the others; 404 or 405 when no route matches, below the API after the
    chain. *)
Section dispatch.
Context `{Uuid} `{RangeOrder} `{Chi target} {T : Type} (Error : Z → string → T) (not_found : T).
Context (authn : Authenticator) (logic : TenancyLogic) (authz : Authorizer).
Context (handlers : string → http_handler T) (operations : string → T).

Definition with_params (ps : list (string * string)) (r : request) : request :=
  MkRequest (r_Method r) (r_Path r) (r_Header r) (r_Query r)
    (λ k, match List.find (λ p, String.eqb p.1 k) ps with Some p => p.2 | None => "" end) (r_Body r).

Definition dispatch (names : list string) (r : request) : T :=
  match route (server_routes names) (r_Method r) (r_Path r) with
  | None =>
      if under_api (r_Path r) then chain Error authn logic authz (λ _ _, not_found) (MkContext None None) r else not_found
  | Some (Op n, _) => operations n
  | Some (Api n, ps) => chain Error authn logic authz (handlers n) (MkContext None None) (with_params ps r)
  end.
End dispatch.

Example routes_ex :
  length (server_routes default_names) = 44%nat ∧
  match_entry (new_entry (Some "GET") "/api/v1/secrets/{name}/reveal" (Api "revealSecret")) "/api/v1/secrets/db/reveal" =
    Some [("name", "db")] ∧
  match_entry (new_entry (Some "GET") "/api/v1/tenants/" (Api "listTenants")) "/api/v1/tenants" = Some [] ∧
  match_entry (new_entry (Some "GET") "/api/v1/events/{id}" (Api "getEvent")) "/api/v1/events/" = None.
Proof. vm_compute. done. Qed.

(** * At most one route matches *)

Fixpoint segs_clash (a b : list seg) : bool :=
  match a, b with
  | [], [] => false
  | x :: a, y :: b => match x, y with
                      | Lit s, Lit t => negb (String.eqb s t) || segs_clash a b
                      | _, _ => segs_clash a b
                      end
  | _, _ => true
  end.

Lemma segs_clash_match a b parts ps : segs_clash a b = true → match_segs a parts = Some ps → match_segs b parts = None.
Proof.
  revert b parts ps. induction a as [|x a IH]; intros [|y b] [|p parts] ps; simpl; try done.
  destruct (String.eqb p ""); [done|]. destruct x as [s|n], y as [t|n']; intros Hc.
  - destruct (String.eqb_spec s p) as [->|]; [|done]. destruct (String.eqb_spec t p) as [->|]; [|done].
    rewrite String.eqb_refl in Hc. by apply IH.
  - destruct (String.eqb s p); [|done]. intros Ha. by rewrite (IH _ _ _ Hc Ha).
  - intros (qs & Ha & _)%fmap_Some. destruct (String.eqb t p); [|done]. by apply (IH _ _ _ Hc Ha).
  - intros (qs & Ha & _)%fmap_Some. by rewrite (IH _ _ _ Hc Ha).
Qed.

Lemma match_segs_trailing segs parts : ends_slash parts = true → match_segs segs parts = None.
Proof.
  revert segs. induction parts as [|p parts IH]; intros segs He; [done|]. destruct segs as [|x segs]; [done|]. simpl.
  destruct parts as [|q parts].
  - unfold ends_slash in He. simpl in He. by destruct p.
  - destruct (String.eqb p ""); [done|]. assert (ends_slash (q :: parts) = true) as He'.
    { revert He. unfold ends_slash. by rewrite last_cons_cons. }
    destruct x; rewrite (IH _ He'); [by destruct (String.eqb s p)|done].
Qed.

Lemma clash_match {H} (e e' : entry H) path ps :
  segs_clash (en_segs e) (en_segs e') = true → match_entry e path = Some ps → match_entry e' path = None.
Proof.
  intros Hc. unfold match_entry. destruct (path_parts path) as [parts|]; [|done]. simpl.
  destruct (ends_slash parts) eqn:Et; rewrite ?andb_false_r, ?andb_true_r; [|by apply segs_clash_match].
  destruct (en_slash e), (en_slash e'); intros Hm; rewrite ?match_segs_trailing in * by done; try done.
  by eapply segs_clash_match.
Qed.

(** Two routes of the table that serve a common method have patterns that no path
    matches both. *)
Definition methods_meet (a b : option string) : bool :=
  match a, b with Some x, Some y => String.eqb x y | _, _ => true end.

Fixpoint disjoint_routes (table : list (entry target)) : bool :=
  match table with
  | [] => true
  | e :: table =>
      forallb (λ e', negb (methods_meet (en_method e) (en_method e')) ||
                     segs_clash (en_segs e) (en_segs e') && segs_clash (en_segs e') (en_segs e)) table &&
      disjoint_routes table
  end.

Lemma disjoint_match table method path e e' ps :
  disjoint_routes table = true → e ∈ table → e' ∈ table → e' ≠ e → method_ok e method = true → method_ok e' method = true →
  match_entry e path = Some ps → match_entry e' path = None.
Proof.
  intros Hd He He' Hne Hm Hm' Hmatch.
  assert (methods_meet (en_method e) (en_method e') = true ∧ methods_meet (en_method e') (en_method e) = true) as [Hme Hme'].
  { unfold method_ok, methods_meet in *. destruct (en_method e) as [x|], (en_method e') as [y|]; try done.
    apply String.eqb_eq in Hm as ->, Hm' as ->. by rewrite String.eqb_refl. }
  enough (segs_clash (en_segs e) (en_segs e') = true) by by eapply clash_match.
  induction table as [|x table IH]; [by apply elem_of_nil in He|]. simpl in Hd. bprop. rewrite forallb_forall in H.
  apply elem_of_cons in He as [->|He], He' as [->|He']; [done|..|by apply IH].
  - specialize (H e' (proj1 (list_elem_of_In _ _) He')). rewrite Hme in H. simpl in H. by bprop.
  - specialize (H e (proj1 (list_elem_of_In _ _) He)). rewrite Hme' in H. simpl in H. by bprop.
Qed.

(** * Requests of a route *)

(** The path of a route with a value for its parameter. *)
Definition fill_segs (v : string) (segs : list seg) : list string :=
  List.map (λ s, match s with Lit t => t | Param _ => v end) segs.

Definition fill_path (v : string) (segs : list seg) : string := "/" +:+ Join (fill_segs v segs) "/".

Definition params (v : string) (segs : list seg) : list (string * string) :=
  omap (λ s, match s with Lit _ => None | Param n => Some (n, v) end) segs.

Definition segs_ok (segs : list seg) : bool :=
  forallb (λ s, match s with Lit t => segment t | Param _ => true end) segs && negb (bool_decide (segs = [])).

Lemma fill_segments v segs : segs_ok segs = true → segment v = true → Forall (λ s, segment s = true) (fill_segs v segs).
Proof.
  unfold segs_ok. intros Hs Hv. bprop. apply List.Forall_map, List.Forall_forall. intros s Hin.
  rewrite forallb_forall in H. specialize (H s Hin). by destruct s.
Qed.

Lemma match_fill v segs : segs_ok segs = true → segment v = true → match_segs segs (fill_segs v segs) = Some (params v segs).
Proof.
  unfold segs_ok. intros [Hs _]%andb_true_iff Hv.
  assert (∀ t, segment t = true → String.eqb t "" = false) as Hne by (unfold segment, nonempty; intros t Ht; by bprop).
  induction segs as [|s segs IH]; [done|]. simpl in *. apply andb_true_iff in Hs as [Hx Hs]. destruct s as [t|n]; simpl.
  - rewrite Hne, String.eqb_refl by done. by apply IH.
  - rewrite Hne, IH by done. done.
Qed.

Lemma fill_parts v segs : segs_ok segs = true → segment v = true →
  path_parts (fill_path v segs) = Some (fill_segs v segs) ∧ ends_slash (fill_segs v segs) = false ∧
  path_parts (fill_path v segs +:+ "/") = Some (fill_segs v segs ++ [""]).
Proof.
  intros Hs Hv. pose proof (fill_segments v segs Hs Hv) as Hf. unfold fill_path. cbn [path_parts String.append].
  assert (fill_segs v segs ≠ []) as Hne. { unfold segs_ok in Hs. bprop. by destruct segs. }
  assert (Forall (λ s, lacks "/" s = true) (fill_segs v segs)) as Hl.
  { eapply Forall_impl; [exact Hf|]. unfold segment. intros s H. by bprop. }
  split_and!.
  - by rewrite (Split_Join "/" "").
  - unfold ends_slash. destruct (last (fill_segs v segs)) as [x|] eqn:E; [|done].
    apply last_Some_elem_of in E. rewrite Forall_forall in Hf. specialize (Hf x E). unfold segment, nonempty in Hf.
    destruct x; [|done]. by bprop.
  - replace (Join (fill_segs v segs) "/" +:+ "/") with (Join (fill_segs v segs ++ [""]) "/").
    + rewrite (Split_Join "/" ""); [done|by destruct (fill_segs v segs)|]. apply Forall_app. split; [done|]. by constructor.
    + clear - Hne. induction (fill_segs v segs) as [|a l IH]; [done|]. destruct l as [|b l]; [done|].
      change ((a :: b :: l) ++ [""]) with (a :: ((b :: l) ++ [""])). rewrite !Join_cons by done. rewrite IH by done. by rewrite !sapp_assoc.
Qed.

Lemma match_entry_fill {H} (e : entry H) v : segs_ok (en_segs e) = true → segment v = true →
  match_entry e (fill_path v (en_segs e)) = Some (params v (en_segs e)) ∧
  (en_slash e = true → match_entry e (fill_path v (en_segs e) +:+ "/") = Some (params v (en_segs e))).
Proof.
  intros Hs Hv. destruct (fill_parts v (en_segs e) Hs Hv) as (H1 & H2 & H3). unfold match_entry.
  rewrite H1, H3. simpl. rewrite H2, andb_false_r. split; [by apply match_fill|]. intros ->.
  unfold ends_slash. rewrite last_snoc. simpl. rewrite removelast_app by done. simpl. rewrite app_nil_r. by apply match_fill.
Qed.

(** * The routes of the default profile *)

Lemma server_routes_disjoint : disjoint_routes (server_routes default_names) = true.
Proof. vm_compute. reflexivity. Qed.

(** A route below the mount of a kind: [/api/v1/kind/...]. *)
Definition route_of_kind (kind : string) (segs : list seg) : bool :=
  match segs with
  | Lit a :: Lit b :: Lit k :: _ =>
      String.eqb a "api" && String.eqb b "v1" && String.eqb k kind && negb (skipped kind) && segs_ok segs
  | _ => false
  end.

Lemma routes_of_kinds :
  forallb (λ name, match mounts name with
                   | Some (mp, routes) =>
                       forallb (λ x, route_of_kind (sdrop 1 mp) (parse_pattern ("/api/v1" +:+ mp +:+ x.1.2)).1) routes
                   | None => false
                   end) default_names = true.
Proof. vm_compute. reflexivity. Qed.

Lemma route_of_kind_inv kind segs : route_of_kind kind segs = true →
  segs_ok segs = true ∧ skipped kind = false ∧ ∃ rest, segs = Lit "api" :: Lit "v1" :: Lit kind :: rest.
Proof.
  unfold route_of_kind. destruct segs as [|[a|] [|[b|] [|[k|] rest]]]; try done.
  rewrite !andb_true_iff, !String.eqb_eq, negb_true_iff. intros ((((-> & ->) & ->) & Hs) & Hok). eauto.
Qed.

(** The resource of a request on such a route, with and without a final slash. *)
Lemma route_resource kind segs v tail_ : route_of_kind kind segs = true → segment v = true → tail_ = "" ∨ tail_ = "/" →
  extractResource (fill_path v segs +:+ tail_) = kind.
Proof.
  intros Hk Hv Ht. apply route_of_kind_inv in Hk as (Hok & Hsk & rest & Es). unfold extractResource.
  pose proof (fill_segments v segs Hok Hv) as Hf.
  assert (splitPath (fill_path v segs +:+ tail_) = fill_segs v segs) as ->.
  { destruct Ht as [->| ->]; [rewrite sapp_nil_r; by apply splitPath_Join|].
    destruct (fill_parts v segs Hok Hv) as (_ & _ & H3). rewrite splitPath_spec.
    unfold fill_path in *. cbn [String.append path_parts] in *. injection H3 as H3.
    unfold Split in *. rewrite split_char_cons, H3. simpl (Ascii.eqb _ _). cbv iota. unfold bfilter. cbn [List.filter]. rewrite List.filter_app. simpl. rewrite app_nil_r.
    clear - Hf. induction Hf as [|x l Hx _ IH]; [done|]. simpl. unfold segment in Hx. bprop. by rewrite H, IH. }
  rewrite Es. simpl. by rewrite Hsk.
Qed.

Lemma route_found `{!Chi target} `{!ChiLaws target} e method path ps :
  e ∈ server_routes default_names → method_ok e method = true → match_entry e path = Some ps →
  route (server_routes default_names) method path = Some (en_handler e, ps).
Proof.
  intros He Hm Hp. eapply route_match; [done..|]. intros e' He' Hm' Hne.
  eapply disjoint_match; [apply server_routes_disjoint|exact He|..]; done.
Qed.


(** A request to reveal a secret is authorized as a request to read it masked: an
    authorizer that allows the one allows the other. *)
Theorem reveal_authorized_as_read name : segment name = true →
  extractResource ("/api/v1/secrets/" +:+ name +:+ "/reveal") = extractResource ("/api/v1/secrets/" +:+ name).
Proof.
  intros Hn. pose proof (route_resource "secrets" [Lit "api"; Lit "v1"; Lit "secrets"; Param "name"; Lit "reveal"] name "") as H1.
  pose proof (route_resource "secrets" [Lit "api"; Lit "v1"; Lit "secrets"; Param "name"] name "") as H2.
  unfold fill_path in *. simpl in *. rewrite !sapp_nil_r in *. rewrite H1, H2 by auto. done.
Qed.

(** * Witness: a router that takes the first match *)

Fixpoint first_match {H} (table : list (entry H)) (method path : string) : option (H * list (string * string)) :=
  match table with
  | [] => None
  | e :: table =>
      if method_ok e method then
        match match_entry e path with Some ps => Some (en_handler e, ps) | None => first_match table method path end
      else first_match table method path
  end.

#[local] Instance first_Chi : Chi target := first_match.

#[local] Instance first_ChiLaws : ChiLaws target.
Proof.
  split.
  - intros table method path e ps He Hm Hp Hu. change (first_match table method path = Some (en_handler e, ps)).
    induction table as [|x table IH]; [by apply elem_of_nil in He|]. simpl.
    destruct (decide (x = e)) as [->|Hne]; [by rewrite Hm, Hp|]. apply elem_of_cons in He as [->|He]; [done|].
    rewrite IH by (try done; intros e' He'; apply Hu; by right). destruct (method_ok x method) eqn:Hmx; [|done].
    by rewrite (Hu x (list_elem_of_here _ _) Hmx Hne).
  - intros table method path Hn. change (first_match table method path = None).
    induction table as [|x table IH]; [done|]. simpl. rewrite IH by (intros e' He'; apply Hn; by right).
    destruct (method_ok x method) eqn:Hmx; [|done]. by rewrite (Hn x (list_elem_of_here _ _) Hmx).
Qed.

Definition reveal_request : request :=
  MkRequest "GET" "/api/v1/secrets/db/reveal" (λ _, "") (λ _, "") (λ _, "") "".

