(* ===== verification/Process.v ===== *)
(** The running server process (src/cmd/infractl-server/main.go, after its start):
    the loops that clean up events and recover tasks (StartCleanup in
    src/events/pg_bus.go, StartRecovery in src/work/pg_queue.go), the signal, and
    the shutdown, as steps that interleave with requests. *)

From S2P Require Import Prelude GoStrings Resource Gorm Registry Queue Events Server.

(** * Periodic loops

    [for { select { case <-ctx.Done(): return; case <-ticker.C: ... } }].  A
    ticker of the interval [i] is next due at [due]; its channel holds one tick,
    further ones are dropped.  [serving] is the time the body read from the clock
    before its statement runs. *)

Record loop := MkLoop { due : Time; fired : bool; serving : option Time; running : bool }.

Definition NewLoop (i now : Time) : loop := MkLoop (now + i) false None true.

Definition advance (i now : Time) (l : loop) : loop :=
  if running l && (due l <=? now) then MkLoop (due l + i * ((now - due l) / i + 1)) true (serving l) true else l.

Definition take_tick (now : Time) (l : loop) : loop := MkLoop (due l) false (Some now) (running l).
Definition finish (l : loop) : loop := MkLoop (due l) (fired l) None (running l).
Definition stop_loop (l : loop) : loop := MkLoop (due l) (fired l) (serving l) false.

(** The loop waits for its next tick. *)
Definition waiting (l : loop) : Prop := fired l = false ∧ serving l = None.

(** The intervals and the ages main passes. *)
Definition hour : Time := 3600000000000.
Definition minute : Time := 60000000000.
Definition cleanup_interval : Time := hour.
Definition retention : Time := 7 * 24 * hour.
Definition recovery_interval : Time := minute.
Definition staleTimeout : Time := 15 * minute.

(** * The process *)

(** Where main is: waiting for the signal, after the shutdown of the HTTP server,
    after that of the providers, returned, or ended by a fatal error of the
    listener. *)
Inductive mphase := MServing | MHttp | MProviders | MReturned | MFatal.

Section process.
Context {V : Type} (r : Registry V) (cfg : ServerConfig).
Context (marshal : notifyPayload → string) (uuid_string : uuid → string).

Record process := MkProc {
  p_now : Time;
  p_bus : PgBus;
  p_tasks : Pg.table;
  p_cleanup : loop;
  p_recovery : loop;
  p_signal : bool;
  p_main : mphase;
  p_http : nat;
  p_net : network;
  p_world : V;
  p_listening : bool;
  p_closed : bool;
}.

(** main after the start: the two loops, and the server [HTTPServer] makes. *)
Definition launch (now : Time) (b : PgBus) (tasks : Pg.table) (n : network) (w : V) : process :=
  let '(http, n) := HTTPServer cfg n in
  MkProc now b tasks (NewLoop cleanup_interval now) (NewLoop recovery_interval now) false MServing http n w false false.

Definition alive (s : process) : Prop := p_main s ≠ MReturned ∧ p_main s ≠ MFatal.

Definition set_bus b (s : process) :=
  MkProc (p_now s) b (p_tasks s) (p_cleanup s) (p_recovery s) (p_signal s) (p_main s)
    (p_http s) (p_net s) (p_world s) (p_listening s) (p_closed s).
Definition set_tasks t (s : process) :=
  MkProc (p_now s) (p_bus s) t (p_cleanup s) (p_recovery s) (p_signal s) (p_main s)
    (p_http s) (p_net s) (p_world s) (p_listening s) (p_closed s).
Definition set_cleanup l (s : process) :=
  MkProc (p_now s) (p_bus s) (p_tasks s) l (p_recovery s) (p_signal s) (p_main s)
    (p_http s) (p_net s) (p_world s) (p_listening s) (p_closed s).
Definition set_recovery l (s : process) :=
  MkProc (p_now s) (p_bus s) (p_tasks s) (p_cleanup s) l (p_signal s) (p_main s)
    (p_http s) (p_net s) (p_world s) (p_listening s) (p_closed s).
Definition set_world w (s : process) :=
  MkProc (p_now s) (p_bus s) (p_tasks s) (p_cleanup s) (p_recovery s) (p_signal s) (p_main s)
    (p_http s) (p_net s) w (p_listening s) (p_closed s).

Definition elapse (d : Time) (s : process) : process :=
  let now := p_now s + d in
  MkProc now (p_bus s) (p_tasks s) (advance cleanup_interval now (p_cleanup s)) (advance recovery_interval now (p_recovery s))
    (p_signal s) (p_main s)
    (p_http s) (p_net s) (p_world s) (p_listening s) (p_closed s).

Definition signal (s : process) :=
  MkProc (p_now s) (p_bus s) (p_tasks s) (p_cleanup s) (p_recovery s) true (p_main s) (p_http s) (p_net s) (p_world s) (p_listening s) (p_closed s).

(** ** The end of main *)

Definition main_http (s : process) :=
  MkProc (p_now s) (p_bus s) (p_tasks s) (p_cleanup s) (p_recovery s) (p_signal s) MHttp (p_http s) (Server.Shutdown (p_http s) (p_net s)) (p_world s) (p_listening s) (p_closed s).

(** An error of the shutdown is logged only. *)
Definition main_providers (s : process) :=
  MkProc (p_now s) (p_bus s) (p_tasks s) (p_cleanup s) (p_recovery s) (p_signal s) MProviders (p_http s) (p_net s) (ShutdownAll r (p_world s)).2 (p_listening s) (p_closed s).

(** [bus.Close], and the process ends with main. *)
Definition main_close (s : process) :=
  MkProc (p_now s) (p_bus s) (p_tasks s) (p_cleanup s) (p_recovery s) (p_signal s) MReturned (p_http s) (p_net s) (p_world s) (p_listening s) true.

Definition listen (s : process) :=
  MkProc (p_now s) (p_bus s) (p_tasks s) (p_cleanup s) (p_recovery s) (p_signal s) (p_main s) (p_http s) (Server.ListenAndServe cfg (p_net s)) (p_world s) true (p_closed s).

Definition listen_fatal (s : process) :=
  MkProc (p_now s) (p_bus s) (p_tasks s) (p_cleanup s) (p_recovery s) (p_signal s) MFatal (p_http s) (p_net s) (p_world s) (p_listening s) (p_closed s).

Inductive main_step : process → process → Prop :=
| ms_http s : p_main s = MServing → p_signal s = true → main_step s (main_http s)
| ms_providers s : p_main s = MHttp → main_step s (main_providers s)
| ms_close s : p_main s = MProviders → main_step s (main_close s).

(** The operations on the queue, at the time of the call. *)
Inductive task_op (now : Time) : Pg.table → Pg.table → Prop :=
| to_enqueue fault uid task tb : task_op now tb (Pg.Enqueue fault uid now task tb).2
| to_claim fault fault' kinds locked tb : task_op now tb (Pg.Claim fault fault' now kinds locked tb).2
| to_complete fault id tb : task_op now tb (Pg.Complete fault now id tb).2
| to_fail fault fault' id reason tb : task_op now tb (Pg.Fail fault fault' now id reason tb).2.

(** What a body of a loop does, once the tick was taken at [at_]. *)
Definition clean (fault : option dberr) (at_ : Time) (s : process) : process :=
  set_cleanup (finish (p_cleanup s)) (set_bus (Cleanup fault at_ retention (p_bus s)) s).

Definition recover (fault : option dberr) (at_ : Time) (s : process) : process :=
  set_recovery (finish (p_recovery s)) (set_tasks (Pg.Recover fault at_ staleTimeout (p_tasks s)) s).

(** A loop that keeps up: time passes only while it waits, and not past its next
    tick. *)
Definition keeps_up (d : Time) (now : Time) (l : loop) : Prop := running l = true → waiting l ∧ now + d ≤ due l.

(** The steps of a process that has not ended.  With [prompt] the loops keep up,
    their statements succeed and publishers leave the time of an event to the
    bus. *)
Inductive step (prompt : bool) : process → process → Prop :=
| st_elapse s d : alive s → 0 ≤ d →
    (prompt = true → keeps_up d (p_now s) (p_cleanup s) ∧ keeps_up d (p_now s) (p_recovery s)) → step prompt s (elapse d s)
| st_publish s fault fault' uid e : alive s → (prompt = true → E_Timestamp e = 0) →
    step prompt s (set_bus (PgPublish marshal uuid_string fault fault' uid (p_now s) e (p_bus s)).2 s)
| st_subscribers s b : alive s → events_table b = events_table (p_bus s) → step prompt s (set_bus b s)
| st_task s tb : alive s → task_op (p_now s) (p_tasks s) tb → step prompt s (set_tasks tb s)
| st_request s w : alive s → step prompt s (set_world w s)
| st_clean_tick s : alive s → running (p_cleanup s) = true → fired (p_cleanup s) = true → serving (p_cleanup s) = None →
    step prompt s (set_cleanup (take_tick (p_now s) (p_cleanup s)) s)
| st_clean s fault at_ : alive s → serving (p_cleanup s) = Some at_ → (prompt = true → fault = None) →
    step prompt s (clean fault at_ s)
| st_clean_stop s : alive s → p_signal s = true → serving (p_cleanup s) = None →
    step prompt s (set_cleanup (stop_loop (p_cleanup s)) s)
| st_recover_tick s : alive s → running (p_recovery s) = true → fired (p_recovery s) = true → serving (p_recovery s) = None →
    step prompt s (set_recovery (take_tick (p_now s) (p_recovery s)) s)
| st_recover s fault at_ : alive s → serving (p_recovery s) = Some at_ → (prompt = true → fault = None) →
    step prompt s (recover fault at_ s)
| st_recover_stop s : alive s → p_signal s = true → serving (p_recovery s) = None →
    step prompt s (set_recovery (stop_loop (p_recovery s)) s)
| st_signal s : alive s → step prompt s (signal s)
| st_listen s : alive s → p_listening s = false → step prompt s (listen s)
| st_listen_fatal s : alive s → step prompt s (listen_fatal s)
| st_main s s' : main_step s s' → step prompt s s'.

End process.

(** * Loops that keep up *)

(** [B t]: the table is clean as of [t].  Between two ticks it is clean as of the
    last one; while a tick is being served, as of the one before.  Nothing is
    known before the first tick after [t0]. *)
Definition served (i t0 now : Time) (l : loop) (B : Time → Prop) : Prop :=
  running l = true →
  (waiting l ∧ now < due l ≤ now + i ∧ (t0 < due l - i → B (due l - i))) ∨
  ((fired l = true ∧ serving l = None ∨ fired l = false ∧ serving l = Some now) ∧ due l = now + i ∧
   (t0 < now - i → B (now - i))).

Section served.
Context (i t0 : Time).
Hypothesis Hi : 0 < i.

Lemma served_new B : served i t0 t0 (NewLoop i t0) B.
Proof. intros _. left. simpl. split; [done|]. split; [lia|]. lia. Qed.

Lemma served_elapse now d l B : 0 ≤ d → keeps_up d now l → served i t0 now l B → served i t0 (now + d) (advance i (now + d) l) B.
Proof.
  intros Hd Hk Hs. unfold advance. destruct (running l) eqn:Hr; simpl; [|intros H; congruence].
  destruct (Hk Hr) as [Hw Hdue]. destruct (Hs Hr) as [(_ & Hn & HB)|([[Hf _]|[_ Hf]] & _)];
    [|destruct Hw; congruence|destruct Hw; congruence].
  destruct (Z.leb_spec (due l) (now + d)) as [Hle|Hlt]; intros _.
  - right. assert (due l = now + d) as E by lia. destruct Hw as [_ Hsv]. simpl. rewrite E, Z.sub_diag, Z.div_0_l by lia.
    split; [by left|]. split; [lia|]. rewrite <-E. done.
  - left. split; [done|]. split; [lia|done].
Qed.

Lemma served_mono now l (B B' : Time → Prop) : (∀ t, t ≤ now → B t → B' t) → served i t0 now l B → served i t0 now l B'.
Proof.
  intros H Hs Hr. destruct (Hs Hr) as [(Hw & Hn & HB)|(Hf & Hd & HB)]; [left|right]; split_and!; try done; try lia;
    intros Ht; apply H; auto; lia.
Qed.

Lemma served_tick now l B : fired l = true → serving l = None → served i t0 now l B → served i t0 now (take_tick now l) B.
Proof.
  intros Hf Hsv Hs Hr. destruct (Hs Hr) as [([Hw _] & _)|(_ & Hd & HB)]; [congruence|]. right. split; [by right|]. done.
Qed.

Lemma served_finish now at_ l (B B' : Time → Prop) : serving l = Some at_ → running l = true →
  served i t0 now l B → (at_ = now → B' now) → served i t0 now (finish l) B'.
Proof.
  intros Hsv Hr Hs HB' _. destruct (Hs Hr) as [([_ Hw] & _)|([[_ Hf]|[Hf Hat]] & Hd & HB)]; [congruence..|].
  left. split; [done|]. simpl. split; [lia|]. intros _. replace (due l - i) with now by lia. apply HB'. congruence.
Qed.

(** Whenever the loop runs and has run for more than its interval, the table is
    clean as of one interval ago. *)
Lemma served_bound now l (B : Time → Prop) :
  (∀ t t', t ≤ t' → B t' → B t) → running l = true → t0 + i < now → served i t0 now l B → B (now - i).
Proof.
  intros Hm Hr Ht Hs. destruct (Hs Hr) as [(_ & Hn & HB)|(_ & _ & HB)]; [|apply HB; lia].
  apply (Hm _ (due l - i)); [lia|]. apply HB. lia.
Qed.
End served.

(** * The tables *)

(** No event older than the retention at [t]; no running task claimed longer than
    the timeout before [t]. *)
Definition clean_events (tb : list Event) (t : Time) : Prop := ∀ e, e ∈ tb → t - retention ≤ E_Timestamp e.

Definition clean_tasks (tb : Pg.table) (t : Time) : Prop :=
  ∀ x c, x ∈ tb → R_Status x = TaskRunning → ClaimedAt x = Some c → t - staleTimeout ≤ c.

Lemma clean_events_mono tb t t' : t ≤ t' → clean_events tb t' → clean_events tb t.
Proof. intros Ht H e He. specialize (H e He). lia. Qed.

Lemma clean_tasks_mono tb t t' : t ≤ t' → clean_tasks tb t' → clean_tasks tb t.
Proof. intros Ht H x c Hx Hs Hc. specialize (H x c Hx Hs Hc). lia. Qed.

Lemma PgPublish_events marshal uuid_string fault fault' uid now e b :
  events_table (PgPublish marshal uuid_string fault fault' uid now e b).2 = events_table b ∨
  events_table (PgPublish marshal uuid_string fault fault' uid now e b).2 = events_table b ++ [stamp uid now e].
Proof.
  unfold PgPublish, PgStore.Save. destruct fault; [by left|]. case_match eqn:E; case_match; simplify_eq; [by left..|].
  right. destruct fault'; simpl; unfold stamp; simpl; f_equal; f_equal; f_equal; repeat case_match; bprop; congruence.
Qed.

Lemma Cleanup_events fault at_ b e :
  e ∈ events_table b → e ∈ events_table (Cleanup fault at_ retention b) ∨ E_Timestamp e < at_ - retention.
Proof.
  intros He. unfold Cleanup. destruct fault; [by left|]. simpl.
  destruct (Z.ltb_spec (E_Timestamp e) (at_ - retention)) as [|Hge]; [by right|left]. apply elem_of_bfilter. split; [done|].
  apply negb_true_iff. by apply Z.ltb_ge.
Qed.

Lemma Cleanup_clean at_ b : clean_events (events_table (Cleanup None at_ retention b)) at_.
Proof. intros e He. apply elem_of_bfilter in He as [_ He]. bprop. lia. Qed.

Lemma elem_update_where p f tb x : x ∈ Pg.update_where p f tb → ∃ y, y ∈ tb ∧ x = (if p y then f y else y).
Proof. intros (y & <- & Hy%list_elem_of_In)%list_elem_of_In%in_map_iff. eauto. Qed.

Lemma Recover_clean at_ tb : clean_tasks (Pg.Recover None at_ staleTimeout tb) at_.
Proof.
  intros x c (y & Hy & ->)%elem_update_where. case_match eqn:E; [done|]. intros Hs Hc.
  unfold Pg.stale in E. rewrite Hs, Hc in E. simpl in E. bprop. lia.
Qed.

Lemma task_op_clean now t tb tb' : task_op now tb tb' → t ≤ now → clean_tasks tb t → clean_tasks tb' t.
Proof.
  assert (0 ≤ staleTimeout) as Hst by (by vm_compute).
  assert (∀ p f, (∀ x c, R_Status (f x) = TaskRunning → ClaimedAt (f x) = Some c → t - staleTimeout ≤ c) →
    clean_tasks tb t → clean_tasks (Pg.update_where p f tb) t) as Hup.
  { intros p f Hf H x c (y & Hy & ->)%elem_update_where. case_match; [apply Hf|apply H, Hy]. }
  destruct 1 as [fault uid task tb|fault fault' kinds locked tb|fault id tb|fault fault' id reason tb]; intros Ht H.
  - unfold Pg.Enqueue. destruct fault; [done|]. case_match; [done|]. simpl.
    intros x c [Hx| ->%list_elem_of_singleton]%elem_of_app; [by apply H|done].
  - unfold Pg.Claim. destruct fault; [done|]. case_match; [|done]. destruct fault'; [done|]. simpl.
    apply Hup; [|done]. intros x c _ [= <-]. lia.
  - unfold Pg.Complete. destruct fault; [done|]. case_match; [|done]. by apply Hup.
  - unfold Pg.Fail. destruct fault; [done|]. case_match; [|done]. destruct fault'; [done|]. case_match; by apply Hup.
Qed.

(** * Theorems *)

Section theorems.
Context {V : Type} (r : Registry V) (cfg : ServerConfig).
Context (marshal : notifyPayload → string) (uuid_string : uuid → string).
Implicit Types (s : process (V := V)).

Abbreviation steps prompt := (rtc (step r cfg marshal uuid_string prompt)).

(** ** Retention *)

(** A statement in flight uses a time of the past. *)
Definition clocked s : Prop := ∀ at_, serving (p_cleanup s) = Some at_ → at_ ≤ p_now s.

Lemma serving_advance i now l : serving (advance i now l) = serving l.
Proof. unfold advance. by case_match. Qed.

Lemma step_keeps prompt s s' : step r cfg marshal uuid_string prompt s s' → clocked s →
  clocked s' ∧ p_now s ≤ p_now s' ∧
  ∀ e, e ∈ events_table (p_bus s) → e ∈ events_table (p_bus s') ∨ E_Timestamp e < p_now s' - retention.
Proof.
  intros Hs Hc.
  destruct Hs as [s d _ Hd _|s fault fault' uid e _ _|s b _ Hb| | |s _ _ _ _|s fault at_ _ Hsv _| | | | | | | |s s' Hm];
    try (split; [exact Hc|split; [done|by left]]).
  - split; [|split; [simpl; lia|by left]]. intros at_. simpl. rewrite serving_advance. intros H%Hc. lia.
  - split; [done|]. split; [done|]. intros x Hx. left. simpl.
    destruct (PgPublish_events marshal uuid_string fault fault' uid (p_now s) e (p_bus s)) as [->| ->]; [done|]. set_solver.
  - split; [done|]. split; [done|]. simpl. rewrite Hb. by left.
  - split; [|split; [done|by left]]. intros at_ [= <-]. simpl. lia.
  - split; [done|]. split; [done|]. intros e He. simpl.
    destruct (Cleanup_events fault at_ (p_bus s) e He) as [|Hlt]; [by left|right]. specialize (Hc at_ Hsv). lia.
  - destruct Hm; (split; [exact Hc|split; [done|by left]]).
Qed.

Lemma steps_keep prompt s s' : steps prompt s s' → clocked s →
  clocked s' ∧ p_now s ≤ p_now s' ∧
  ∀ e, e ∈ events_table (p_bus s) → e ∈ events_table (p_bus s') ∨ E_Timestamp e < p_now s' - retention.
Proof.
  induction 1 as [s|s s1 s' H1 _ IH]; intros Hc; [split; [done|split; [done|by left]]|].
  destruct (step_keeps _ _ _ H1 Hc) as (Hc1 & Hn1 & He1). destruct (IH Hc1) as (Hc' & Hn' & He').
  split; [done|]. split; [lia|]. intros e He. destruct (He1 e He) as [H|H]; [by apply He'|right; lia].
Qed.

(** C38: Events are kept for the retention period.  Whatever the process does, an
    event that is in the table and later is not was at least seven days old: no
    event is lost to the clean-up early, however long a tick waits, however slow
    its statement is, and whichever statements fail. *)
Theorem retention_respected prompt t0 b tasks n w s s' e :
  steps prompt (launch cfg t0 b tasks n w) s → steps prompt s s' →
  e ∈ events_table (p_bus s) → e ∉ events_table (p_bus s') →
  E_Timestamp e < p_now s' - retention.
Proof.
  intros H1 H2 He Hne. assert (clocked s) as Hc by (by apply (steps_keep _ _ _ H1)).
  destruct (steps_keep _ _ _ H2 Hc) as (_ & _ & H). by destruct (H e He).
Qed.

(** ** Age bounds *)

Definition bounded (t0 : Time) s : Prop :=
  served cleanup_interval t0 (p_now s) (p_cleanup s) (clean_events (events_table (p_bus s))) ∧
  served recovery_interval t0 (p_now s) (p_recovery s) (clean_tasks (p_tasks s)).

Lemma bounded_step t0 s s' : step r cfg marshal uuid_string true s s' → bounded t0 s → bounded t0 s'.
Proof.
  assert (0 < cleanup_interval ∧ 0 < recovery_interval ∧ 0 ≤ retention) as (Hci & Hri & Hret) by (by vm_compute).
  intros Hs [Hb1 Hb2].
  destruct Hs as [s d _ Hd Hk|s fault fault' uid e _ Hp|s b _ Hb|s tb _ Hop| |s _ _ Hf Hsv|s fault at_ _ Hsv Hfault
                 |s _ _ _|s _ _ Hf Hsv|s fault at_ _ Hsv Hfault|s _ _ _| | | |s s' Hm]; try done.
  - destruct (Hk eq_refl). split; by apply served_elapse.
  - split; [|done]. eapply served_mono; [done| |exact Hb1]. intros t Ht H. simpl.
    destruct (PgPublish_events marshal uuid_string fault fault' uid (p_now s) e (p_bus s)) as [->| ->]; [done|].
    intros x [Hx| ->%list_elem_of_singleton]%elem_of_app; [by apply H|].
    unfold stamp. cbn [E_Timestamp]. rewrite Hp, Z.eqb_refl by done. change (t ≤ p_now s) in Ht. lia.
  - split; [|done]. simpl. by rewrite Hb.
  - split; [done|]. eapply served_mono; [done| |exact Hb2]. intros t Ht. by apply (task_op_clean (p_now s)).
  - split; [by apply served_tick|done].
  - split; [|done]. destruct (running (p_cleanup s)) eqn:Hr; [|by intros H; simpl in H; congruence].
    eapply served_finish; [done..|]. intros ->. simpl. rewrite Hfault by done. apply Cleanup_clean.
  - split; [done|by apply served_tick].
  - split; [done|]. destruct (running (p_recovery s)) eqn:Hr; [|by intros H; simpl in H; congruence].
    eapply served_finish; [done..|]. intros ->. simpl. rewrite Hfault by done. apply Recover_clean.
  - by destruct Hm.
Qed.

Lemma bounded_steps t0 s s' : steps true s s' → bounded t0 s → bounded t0 s'.
Proof. induction 1; eauto using bounded_step. Qed.


(** ** Shutdown *)

(** How much of the shutdown is left. *)
Definition remaining s : nat :=
  match p_main s with MServing => 3 | MHttp => 2 | MProviders => 1 | MReturned | MFatal => 0 end.

(** Main does not return before the signal. *)
Definition signalled s : Prop := p_main s ≠ MServing → p_main s ≠ MFatal → p_signal s = true.

(** The signal stays, and no step takes main back. *)
Lemma step_progress prompt s s' : step r cfg marshal uuid_string prompt s s' → signalled s →
  signalled s' ∧ (p_signal s = true → p_signal s' = true) ∧ (remaining s' ≤ remaining s)%nat ∧
  (alive s' → ¬ main_step r s s' → p_main s' = p_main s).
Proof.
  intros Hs Hsg. destruct Hs as [| | | | | | | | | | |s _| |s _|s s' Hm]; try (split; [exact Hsg|done]).
  - split; [by intros _ _|]. done.
  - split; [by intros _ H|]. split; [done|]. split; [|by intros [_ []]]. unfold remaining. simpl. lia.
  - destruct Hm as [s Hp Hsig|s Hp|s Hp]; (split; [|split; [done|split; [unfold remaining; simpl; rewrite Hp; lia|]]]);
      try (intros _ []; by constructor); intros _ _; simpl; try done; apply Hsg; rewrite Hp; done.
Qed.

Lemma steps_progress prompt s s' : steps prompt s s' → signalled s →
  signalled s' ∧ (p_signal s = true → p_signal s' = true) ∧ (remaining s' ≤ remaining s)%nat.
Proof.
  induction 1 as [s|s s1 s' H1 _ IH]; intros Hg; [done|]. destruct (step_progress _ _ _ H1 Hg) as (Hg1 & Hs1 & Hr1 & _).
  destruct (IH Hg1) as (Hg' & Hs' & Hr'). split; [done|]. split; [auto|]. lia.
Qed.

(** C40: A signal ends the process in order.  Main returns only after a signal; the
    signal is never lost, no other step takes main back or moves it, and from any
    state reached after the signal three steps of main at most end it.  When the
    process was serving, these shut the providers down in the reverse of the order
    they were initialized in, up to the first that fails, and close the bus. *)
Theorem shutdown_completes prompt t0 b tasks n w s :
  (∀ name, name ∈ order r → is_Some (providers r !! name)) →
  steps prompt (launch cfg t0 b tasks n w) s →
  (p_main s = MReturned → p_signal s = true) ∧
  (∀ s', step r cfg marshal uuid_string prompt s s' → alive s' → ¬ main_step r s s' → p_main s' = p_main s) ∧
  (∀ s', steps prompt s s' → p_signal s = true → p_signal s' = true) ∧
  (p_signal s = true → alive s →
   ∃ k s', (k ≤ 3)%nat ∧ nsteps (main_step r) k s s' ∧ p_main s' = MReturned ∧ p_closed s' = true ∧
     (p_main s = MServing →
      ∃ w1 err, ShutdownAll r (p_world s) = (err, w1) ∧ p_world s' = w1 ∧
        match err with
        | None => shutdowns (providers r) (rev (order r)) (p_world s) w1
        | Some e => ∃ l1 name l2 p w' msg, rev (order r) = l1 ++ name :: l2 ∧ e = ErrShutdown name msg ∧
            shutdowns (providers r) l1 (p_world s) w' ∧ providers r !! name = Some p ∧
            Registry.Shutdown p w' = (Some msg, w1)
        end)).
Proof.
  intros Hreg Hreach. destruct (steps_progress _ _ _ Hreach) as (Hg & _ & _); [by intros []|]. split_and!.
  - intros E. apply Hg; rewrite E; done.
  - intros s' Hs'. by apply (step_progress _ _ _ Hs' Hg).
  - intros s' Hs' Hsig. by apply (steps_progress _ _ _ Hs' Hg).
  - intros Hsig [Ha1 Ha2]. destruct (p_main s) eqn:Em; try done.
    + exists 3%nat. eexists. split; [done|]. split_and!.
      * eapply nsteps_l; [by apply ms_http|]. eapply nsteps_l; [by apply ms_providers|].
        eapply nsteps_l; [by apply ms_close|constructor].
      * done.
      * done.
      * intros _. simpl. pose proof (shutdown_loop_spec (providers r) (rev (order r)) (p_world s)) as H.
        unfold ShutdownAll in *. destruct (shutdown_loop _ _ _) as [err w1]. exists w1, err. split; [done|]. split; [done|].
        apply H. intros name Hn. apply Hreg. by apply list_elem_of_In, in_rev, list_elem_of_In.
    + exists 2%nat. eexists. split; [lia|].
      split_and!; [eapply nsteps_l; [by apply ms_providers|]; eapply nsteps_l; [by apply ms_close|constructor]|done..].
    + exists 1%nat. eexists. split; [lia|]. split_and!; [eapply nsteps_l; [by apply ms_close|constructor]|done..].
Qed.
End theorems.

(** * Witnesses *)

Definition old_event : Event := MkEvent "e1" 1 "vm" "a" "created" 1 None.

Abbreviation demo_step := (step (V := nat) NewRegistry (MkServerConfig "" "" "") (λ _, "") (λ _, "")).
Abbreviation demo_launch := (launch (V := nat) (MkServerConfig "" "" "")).

Definition seven_days_later : process (V := nat) :=
  elapse (7 * 24 * hour + 1) (demo_launch 1 (NewPgBus [old_event]) [] (MkNetwork 0 []) 0%nat).

Definition cleaned : process (V := nat) :=
  clean None (1 + (7 * 24 * hour + 1)) (set_cleanup (take_tick (p_now seven_days_later) (p_cleanup seven_days_later)) seven_days_later).

Lemma retention_respected_witness :
  old_event ∈ events_table (p_bus seven_days_later) ∧ events_table (p_bus cleaned) = [] ∧
  E_Timestamp old_event < p_now cleaned - retention.
Proof.
  split; [left|]. split; [vm_compute; reflexivity|].
  apply (retention_respected NewRegistry (MkServerConfig "" "" "") (λ _, "") (λ _, "") false 1 (NewPgBus [old_event]) []
    (MkNetwork 0 []) 0%nat seven_days_later).
  - apply rtc_once, st_elapse; [done|by vm_compute|done].
  - eapply rtc_l; [apply st_clean_tick; [done|vm_compute; reflexivity|vm_compute; reflexivity|vm_compute; reflexivity]|].
    apply rtc_once, st_clean; [done|vm_compute; reflexivity|done].
  - left.
  - vm_compute. by intros ?%elem_of_nil.
Defined.

Definition stale_task : TaskRecord :=
  MkRecord "t1" "k" 1 "n" "" TaskRunning "" 1 3 1 (Some 1) None None.

Definition minute_later : process (V := nat) :=
  elapse minute (demo_launch (16 * minute) (NewPgBus []) [stale_task] (MkNetwork 0 []) 0%nat).

Definition recovered : process (V := nat) :=
  elapse 1 (recover None (17 * minute)
    (set_recovery (take_tick (p_now minute_later) (p_recovery minute_later)) minute_later)).


Lemma shutdown_completes_witness :
  ∃ k s', (k ≤ 3)%nat ∧ nsteps (main_step NewRegistry) k (signal seven_days_later) s' ∧ p_main s' = MReturned.
Proof.
  destruct (shutdown_completes NewRegistry (MkServerConfig "" "" "") (λ _, "") (λ _, "") false 1 (NewPgBus [old_event]) []
    (MkNetwork 0 []) 0%nat (signal seven_days_later)) as (_ & _ & _ & H).
  - by intros name ?%elem_of_nil.
  - eapply rtc_l; [apply (st_elapse _ _ _ _ _ _ (7 * 24 * hour + 1)); [done|by vm_compute|done]|]. by apply rtc_once, st_signal.
  - destruct H as (k & s' & Hk & Hn & Hm & _); [reflexivity|done|]. exists k, s'. split_and!; assumption.
Defined.
