(* ===== verification/Url.v ===== *)
(** The part of net/url that the client and the handlers use: escaping a path
    segment or a query component, and encoding and parsing a query. *)

From S2P Require Import Prelude GoStrings GoJson.
From Stdlib Require Import Ascii.

(** * Escaping *)

Inductive encoding := PathSegment | QueryComponent.

Definition unreserved (c : ascii) : bool :=
  in_range 97 122 c || in_range 65 90 c || in_range 48 57 c ||
  bool_decide (c ∈ ["-"%char; "_"%char; "."%char; "~"%char]).

Definition shouldEscape (mode : encoding) (c : ascii) : bool :=
  negb (unreserved c ||
    match mode with
    | PathSegment => bool_decide (c ∈ ["$"%char; "&"%char; "+"%char; ":"%char; "="%char; "@"%char])
    | QueryComponent => false
    end).

(** An upper case hexadecimal digit. *)
Definition upperhex (n : N) : ascii := (if n <? 10 then chr (48 + n) else chr (55 + n))%N.

Definition space : ascii := " "%char.

Definition escape_char (mode : encoding) (c : ascii) : string :=
  if negb (shouldEscape mode c) then String c ""
  else match mode, Ascii.eqb c space with
       | QueryComponent, true => "+"
       | _, _ => String "%" (String (upperhex (code c / 16)) (String (upperhex (code c mod 16)) ""))
       end.

Fixpoint escape (mode : encoding) (s : string) : string :=
  match s with "" => "" | String c s => escape_char mode c +:+ escape mode s end.

(** An error is a percent sign without two hexadecimal digits. *)
Fixpoint unescape (mode : encoding) (s : string) : option string :=
  match s with
  | "" => Some ""
  | String "%" (String a (String b r)) =>
      a ← hex_val a; b ← hex_val b; String (chr (16 * a + b)) <$> unescape mode r
  | String "%" _ => None
  | String c r =>
      String (match mode with QueryComponent => if Ascii.eqb c "+" then space else c | PathSegment => c end)
        <$> unescape mode r
  end.

Definition QueryEscape : string → string := escape QueryComponent.
Definition QueryUnescape : string → option string := unescape QueryComponent.
Definition PathEscape : string → string := escape PathSegment.
Definition PathUnescape : string → option string := unescape PathSegment.

Example escape_ex : PathEscape "a/b c+d" = "a%2Fb%20c+d" ∧ QueryEscape "name=a b&c" = "name%3Da+b%26c".
Proof. by vm_compute. Qed.

(** A property of every byte, by evaluation. *)
Lemma every_char (p : ascii → bool) :
  forallb (λ n, p (ascii_of_nat n)) (seq 0 256) = true → ∀ c, p c = true.
Proof.
  intros Hall c. rewrite forallb_forall in Hall. specialize (Hall (nat_of_ascii c)).
  rewrite ascii_nat_embedding in Hall. apply Hall, in_seq. pose proof (nat_ascii_bounded c). lia.
Qed.

(** The escaped form of a byte reads back as the byte, whatever follows. *)
Lemma unescape_char mode c r : unescape mode (escape_char mode c +:+ r) = String c <$> unescape mode r.
Proof. destruct c as [[] [] [] [] [] [] [] []], mode; reflexivity. Qed.

Lemma unescape_escape mode s : unescape mode (escape mode s) = Some s.
Proof. induction s as [|c s IH]; [done|]. simpl. by rewrite unescape_char, IH. Qed.

(** The bytes of an escaped text. *)
Definition escaped_char (mode : encoding) (c : ascii) : bool :=
  negb (shouldEscape mode c) || Ascii.eqb c "%" || Ascii.eqb c "+".

Lemma escape_chars mode s : sforall (escaped_char mode) (escape mode s) = true.
Proof.
  induction s as [|c s IH]; [done|]. simpl. rewrite sforall_app, IH, andb_true_r. revert c.
  destruct mode; apply every_char; vm_compute; reflexivity.
Qed.

Lemma escape_lacks mode d s : escaped_char mode d = false → lacks d (escape mode s) = true.
Proof.
  intros Hd. unfold lacks. eapply sforall_impl; [|apply (escape_chars mode s)].
  intros c Hc. destruct (Ascii.eqb_spec d c) as [->|]; [congruence|done].
Qed.

Lemma lacks_app d s t : lacks d (s +:+ t) = lacks d s && lacks d t.
Proof. apply sforall_app. Qed.

(** * Queries: [url.Values] *)

Abbreviation Values := (gmap string (list string)).

Definition Values_Set (k v : string) (q : Values) : Values := <[k := [v]]> q.

Definition Values_Get (q : Values) (k : string) : string :=
  match q !! k with Some (v :: _) => v | _ => "" end.

Definition Values_Add (q : Values) (kv : string * string) : Values :=
  <[kv.1 := default [] (q !! kv.1) ++ [kv.2]]> q.

Definition values_le (a b : string * list string) : Prop := Is_true (String.leb a.1 b.1).
#[global] Instance values_le_dec : RelDecision values_le := λ a b, _.

(** The keys in order, each with its values. *)
Definition flat_pairs (l : list (string * list string)) : list (string * string) :=
  concat (List.map (λ kv, pair kv.1 <$> kv.2) l).

Definition encode_pair (kv : string * string) : string := QueryEscape kv.1 +:+ "=" +:+ QueryEscape kv.2.

Definition Values_Encode (q : Values) : string :=
  Join (List.map encode_pair (flat_pairs (merge_sort values_le (map_to_list q)))) "&".

(** [strings.Cut] at one byte. *)
Fixpoint Cut (s : string) (c : ascii) : string * string :=
  match s with
  | "" => ("", "")
  | String d r => if Ascii.eqb d c then ("", r) else let '(a, b) := Cut r c in (String d a, b)
  end.

(** A part with a semicolon, an empty part, and one that does not unescape are
    left out ([URL.Query] drops the error). *)
Definition parse_pair (part : string) : option (string * string) :=
  if negb (lacks ";" part) || String.eqb part "" then None
  else let '(k, v) := Cut part "=" in
       k ← QueryUnescape k; v ← QueryUnescape v; Some (k, v).

Definition ParseQuery (query : string) : Values :=
  foldl Values_Add ∅ (omap parse_pair (Split query "&")).

Example query_ex :
  Values_Get (ParseQuery "a=1&b=x%3Dy+z&;&a=2&c") "b" = "x=y z" ∧ ParseQuery "a=1&a=2" !! "a" = Some ["1"; "2"].
Proof. by vm_compute. Qed.

Lemma Cut_app a b c : lacks c a = true → Cut (a +:+ String c b) c = (a, b).
Proof.
  unfold lacks. induction a as [|d a IH]; simpl; [by rewrite Ascii.eqb_refl|]. intros Ha. bprop.
  rewrite IH by done. destruct (Ascii.eqb_spec d c) as [->|]; [by rewrite Ascii.eqb_refl in *|done].
Qed.

Lemma encode_pair_lacks d kv :
  escaped_char QueryComponent d = false → Ascii.eqb d "=" = false → lacks d (encode_pair kv) = true.
Proof.
  intros Hd He. unfold encode_pair. rewrite !lacks_app, !(escape_lacks _ _ _ Hd). cbn. by rewrite He.
Qed.

Lemma parse_encode_pair kv : parse_pair (encode_pair kv) = Some kv.
Proof.
  destruct kv as [k v]. unfold parse_pair. rewrite (encode_pair_lacks ";" (k, v)) by done.
  unfold encode_pair. cbn [fst snd]. destruct (String.eqb_spec (QueryEscape k +:+ "=" +:+ QueryEscape v) "") as [He|_].
  { by destruct (QueryEscape k). }
  simpl. rewrite Cut_app by by apply escape_lacks. unfold QueryUnescape, QueryEscape. by rewrite !unescape_escape.
Qed.

Lemma parse_encode_pairs l : omap parse_pair (List.map encode_pair l) = l.
Proof. induction l as [|kv l IH]; [done|]. cbn. rewrite parse_encode_pair. by f_equal. Qed.

(** Adding the pairs of distinct keys. *)
Lemma add_values k vs (q : Values) :
  vs ≠ [] → q !! k = None → foldl Values_Add q (pair k <$> vs) = <[k := vs]> q.
Proof.
  intros Hne Hk. enough (∀ vs acc, vs ≠ [] ∨ acc ≠ [] →
    foldl Values_Add (if acc is [] then q else <[k := acc]> q) (pair k <$> vs) = <[k := acc ++ vs]> q) as Hg.
  { apply (Hg vs []). by left. }
  clear vs Hne. induction vs as [|v vs IH]; intros acc Hne; simpl.
  - rewrite app_nil_r. destruct acc; [naive_solver|done].
  - rewrite (cons_middle v acc vs), (app_assoc acc [v] vs), <-(IH (acc ++ [v])) by (right; by destruct acc).
    unfold Values_Add. simpl. f_equal. destruct acc as [|a acc]; simpl; [by rewrite Hk|].
    by rewrite lookup_insert_eq, insert_insert_eq.
Qed.

Lemma add_all (l : list (string * list string)) (q : Values) :
  NoDup l.*1 → Forall (λ kv, kv.2 ≠ []) l → (∀ k, k ∈ l.*1 → q !! k = None) →
  foldl Values_Add q (flat_pairs l) = list_to_map l ∪ q.
Proof.
  revert q. induction l as [|[k vs] l IH]; intros q Hnd Hne Hq; simpl; [by rewrite (left_id_L ∅ (∪))|].
  rewrite fmap_cons in Hnd. apply NoDup_cons in Hnd as [Hk Hnd]. apply Forall_cons in Hne as [Hvs Hne]. simpl in *.
  unfold flat_pairs. simpl. rewrite foldl_app, add_values; [|done|apply Hq; by left].
  fold (flat_pairs l). rewrite IH; [|done|done|].
  - rewrite <-insert_union_l. symmetry. apply insert_union_r. by apply not_elem_of_list_to_map.
  - intros k' Hk'. rewrite lookup_insert_ne by (intros ->; done). apply Hq. by right.
Qed.

(** A query that has a value for each of its keys is read back as it was. *)
Lemma ParseQuery_Encode (q : Values) :
  map_Forall (λ _ vs, vs ≠ []) q → ParseQuery (Values_Encode q) = q.
Proof.
  intros Hq. unfold ParseQuery, Values_Encode. set (l := merge_sort values_le (map_to_list q)).
  pose proof (merge_sort_Permutation values_le (map_to_list q)) as Hp. fold l in Hp.
  assert (NoDup l.*1) as Hnd by (rewrite Hp; apply NoDup_fst_map_to_list).
  assert (list_to_map l = q) as Hl.
  { rewrite <-(list_to_map_to_list q). by apply list_to_map_proper. }
  transitivity (foldl Values_Add ∅ (flat_pairs l)).
  - f_equal. destruct (flat_pairs l) as [|p ps] eqn:E; [done|]. rewrite <-E.
    rewrite Split_Join; [|by rewrite E|].
    + apply parse_encode_pairs.
    + apply List.Forall_map, Forall_forall. intros kv _. by apply encode_pair_lacks.
  - rewrite add_all; [by rewrite Hl, (right_id_L ∅ (∪))|done| |intros; apply lookup_empty].
    apply Forall_forall. intros [k vs] Hkv. rewrite Hp in Hkv. apply elem_of_map_to_list in Hkv. by apply (Hq k).
Qed.
