(* ===== verification/Wire.v ===== *)
(** Resources on the wire: the JSON of the base resource and of the domain types
    as the REST API writes and reads it (the struct tags of
    src/resource/model.go, src/resource/store.go and src/platform/*/model.go,
    encoded and decoded by encoding/json). *)

From S2P Require Import Prelude GoStrings GoJson JsonPrint Resource Gorm Models Nesting Store Columns Rest.
From Stdlib Require Import DecimalString DecimalZ.

(** * Identifiers and times as text

    The text of a [uuid.UUID] and of a [time.Time], which json writes as a string,
    with the documented behaviour that reading inverts writing; [time_range] are
    the times that have a text. *)
Class Formats := {
  uuid_text : uuid → string;
  parse_uuid : string → option uuid;
  time_text : Time → string;
  parse_time : string → option Time;
  time_range : Time → Prop;
  uuid_law : ∀ u, (u < 2 ^ 128)%N → parse_uuid (uuid_text u) = Some u ∧ str_ok (uuid_text u);
  time_law : ∀ t, time_range t → parse_time (time_text t) = Some t ∧ str_ok (time_text t);
}.

Section wire.
Context `{Formats}.

Definition unmarshal_text {A} (parse : string → option A) (x : A) (j : json) : option A :=
  match j with JStr s => parse s | JNull => Some x | _ => None end.

Program Definition uuid_Codec : Codec uuid := {|
  Columns.zero := 0%N; marshal := λ u, JStr (uuid_text u); unmarshal := unmarshal_text parse_uuid;
  codec_ok := λ u, (u < 2 ^ 128)%N; codec_depth := 0;
|}.
Next Obligation. intros u Hu. split; [constructor; by apply uuid_law|done]. Qed.
Next Obligation. intros u j Hu Hj. inversion Hj; subst. by apply uuid_law. Qed.

Program Definition time_Codec : Codec Time := {|
  Columns.zero := 0; marshal := λ t, JStr (time_text t); unmarshal := unmarshal_text parse_time;
  codec_ok := time_range; codec_depth := 0;
|}.
Next Obligation. intros t Ht. split; [constructor; by apply time_law|done]. Qed.
Next Obligation. intros t j Ht Hj. inversion Hj; subst. by apply time_law. Qed.

(** Pointers, and [gorm.DeletedAt], whose JSON is the time or null. *)
Definition marshal_option {A} (f : A → json) (x : option A) : json :=
  match x with None => JNull | Some a => f a end.

Definition unmarshal_option {A} (f : json → option A) (_ : option A) (j : json) : option (option A) :=
  match j with JNull => Some None | _ => Some <$> f j end.

Definition option_ok {A} (ok : A → Prop) (x : option A) : Prop := match x with None => True | Some a => ok a end.

Program Definition time_option_Codec : Codec (option Time) := {|
  Columns.zero := None; marshal := marshal_option (λ t, JStr (time_text t));
  unmarshal := unmarshal_option (unmarshal_text parse_time 0);
  codec_ok := option_ok time_range; codec_depth := 0;
|}.
Next Obligation. intros [t|] Ht; (split; [|done]); [constructor; by apply time_law|constructor]. Qed.
Next Obligation.
  intros [t|] j Ht Hj; inversion Hj; subst; [|done]. simpl. by rewrite (proj1 (time_law t Ht)).
Qed.

Program Definition string_option_Codec : Codec (option string) := {|
  Columns.zero := None; marshal := marshal_option JStr; unmarshal := unmarshal_option (unmarshal_string "");
  codec_ok := option_ok str_ok; codec_depth := 0;
|}.
Next Obligation. intros [s|] Hs; (split; [|done]); by constructor. Qed.
Next Obligation. intros [s|] j Hs Hj; by inversion Hj. Qed.

Definition empty_option {A} (x : option A) : bool := match x with None => true | Some _ => false end.

(** * The base resource *)

Definition SetName (v : string) (r : Resource) : Resource :=
  MkResource (OrgID r) v (Parent r) (Labels r) (Annotations r) (Finalizers r) (Generation r) (ResourceVersion r)
    (Owner r) (Creator r) (CreatedAt r) (UpdatedAt r) (DeletionTimestamp r) (DeletedAt r).
Definition SetLabels (v : option (gmap string string)) (r : Resource) : Resource :=
  MkResource (OrgID r) (Name r) (Parent r) v (Annotations r) (Finalizers r) (Generation r) (ResourceVersion r)
    (Owner r) (Creator r) (CreatedAt r) (UpdatedAt r) (DeletionTimestamp r) (DeletedAt r).
Definition SetAnnotations (v : option (gmap string string)) (r : Resource) : Resource :=
  MkResource (OrgID r) (Name r) (Parent r) (Labels r) v (Finalizers r) (Generation r) (ResourceVersion r)
    (Owner r) (Creator r) (CreatedAt r) (UpdatedAt r) (DeletionTimestamp r) (DeletedAt r).
Definition SetOwner (v : option string) (r : Resource) : Resource :=
  MkResource (OrgID r) (Name r) (Parent r) (Labels r) (Annotations r) (Finalizers r) (Generation r) (ResourceVersion r)
    v (Creator r) (CreatedAt r) (UpdatedAt r) (DeletionTimestamp r) (DeletedAt r).
Definition SetCreator (v : string) (r : Resource) : Resource :=
  MkResource (OrgID r) (Name r) (Parent r) (Labels r) (Annotations r) (Finalizers r) (Generation r) (ResourceVersion r)
    (Owner r) v (CreatedAt r) (UpdatedAt r) (DeletionTimestamp r) (DeletedAt r).

Definition Resource_fields : list (field Resource) :=
  [fld (H := uuid_Codec) "org_id" keep OrgID SetOrgID;
   fld "name" keep Name SetName;
   fld (H := string_option_Codec) "parent" empty_option Parent SetParent;
   fld "labels" empty_map Labels SetLabels;
   fld "annotations" empty_map Annotations SetAnnotations;
   fld "finalizers" empty_slice Finalizers SetFinalizers;
   fld "generation" keep Generation SetGeneration;
   fld "resource_version" keep ResourceVersion SetResourceVersion;
   fld (H := string_option_Codec) "owner" empty_option Owner SetOwner;
   fld "creator" empty_string Creator SetCreator;
   fld (H := time_Codec) "created_at" keep CreatedAt (λ v r, SetTimes v (UpdatedAt r) r);
   fld (H := time_Codec) "updated_at" keep UpdatedAt (λ v r, SetTimes (CreatedAt r) v r);
   fld (H := time_option_Codec) "deletion_timestamp" empty_option DeletionTimestamp SetDeletionTimestamp;
   fld (H := time_option_Codec) "deleted_at" keep DeletedAt SetDeletedAt].

Definition zero_Resource : Resource := MkResource 0 "" None None None None 0 0 None "" 0 0 None None.

(** * The wrapper of spec and status, and the domain types *)

(** [JSONField] has no JSON methods of its own: it is an object with the member
    [Data]. *)
Record JSONField (T : Type) := MkJSONField { Data : T }.
Arguments MkJSONField {T} _.
Arguments Data {T} _.

Section object.
Context {Spec Status : Type} `{HSpec : !Codec Spec} `{HStatus : !Codec Status}.

#[global] Program Instance JSONField_Codec {T} `{!Codec T} : Codec (JSONField T) :=
  struct_codec (MkJSONField Columns.zero) [fld "Data" keep Data (λ v _, MkJSONField v)] _ _ _.
Next Obligation. intros. apply NoDup_singleton. Qed.
Next Obligation. by intros T ? []. Qed.
Next Obligation. by intros T ? []. Qed.

Definition Object_fields : list (field (Object Spec Status)) :=
  List.map (embed o_base (λ b o, MkObject b (o_spec o) (o_status o))) Resource_fields ++
  [fld "spec" keep (λ o, MkJSONField (o_spec o)) (λ v o, MkObject (o_base o) (Data v) (o_status o));
   fld "status" keep (λ o, MkJSONField (o_status o)) (λ v o, MkObject (o_base o) (o_spec o) (Data v))].

Definition zero_Object : Object Spec Status := MkObject zero_Resource Columns.zero Columns.zero.

#[global] Program Instance Object_Codec : Codec (Object Spec Status) :=
  struct_codec zero_Object Object_fields _ _ _.
Next Obligation. apply (bool_decide_unpack _). vm_compute. exact I. Qed.
Next Obligation. by intros [[] ? ?]. Qed.
Next Obligation. intros [[] ? ?]. repeat (split; [done|]). done. Qed.

(** [json.NewDecoder(body).Decode(&x)]: the first value of the body is decoded
    over [x], what follows it is not read.  The text of the error is the
    decoder's. *)
Definition Decode (body : string) (x : Object Spec Status) : string + Object Spec Status :=
  match value (2 * String.length body + 2) 0 body with
  | None => inl "invalid JSON"
  | Some (j, _) => match unmarshal x j with
                   | None => inl "json: cannot unmarshal value"
                   | Some x => inr x
                   end
  end.

#[global] Instance wire_Decoder : Decoder (Object Spec Status) := {| zero := zero_Object; decode_body := Decode |}.

(** The body of a response with one resource. *)
Definition Encode (x : Object Spec Status) : string := encode_line (marshal x).

Lemma value_encode_line v :
  wf_json v → Z.of_nat (height v) ≤ max_depth →
  value (2 * String.length (encode_line v) + 2) 0 (encode_line v) = Some (v, String (chr 10) "").
Proof. intros Hwf Hh. unfold encode_line. apply value_print; [done|rewrite slength_app; lia|lia|done]. Qed.

(** A page of a list ([resource.List]). *)
Record page := MkPage { p_Items : option (list (Object Spec Status)); p_Continue : string; p_Total : Z }.

Definition page_fields : list (field page) :=
  [fld "items" keep p_Items (λ v l, MkPage v (p_Continue l) (p_Total l));
   fld "continue" empty_string p_Continue (λ v l, MkPage (p_Items l) v (p_Total l));
   fld "total" keep p_Total (λ v l, MkPage (p_Items l) (p_Continue l) v)].

#[global] Program Instance page_Codec : Codec page := struct_codec (MkPage None "" 0) page_fields _ _ _.
Next Obligation. distinct_tags. Qed.
Next Obligation. by intros []. Qed.
Next Obligation. intros []. repeat (split; [done|]). done. Qed.

(** The body of a response, decoded the way a request body is, gives back the
    resource with its metadata, its spec and its status. *)
Lemma wire_read (x : Object Spec Status) :
  codec_ok x → Z.of_nat (codec_depth (T := Object Spec Status)) ≤ max_depth → Decode (Encode x) zero_Object = inr x.
Proof.
  intros Hok Hd. destruct (codec_wf x Hok) as [Hwf Hh]. unfold Decode, Encode.
  rewrite value_encode_line by (done || lia). simpl.
  pose proof (codec_read x (marshal x) Hok (jp_refl _)) as Hr. simpl in Hr. by rewrite Hr.
Qed.

End object.
End wire.
Arguments page : clear implicits.
Arguments MkJSONField {T} _.
Arguments Data {T} _.

(** * Witness: numbers in place of the texts *)

Definition parse_number (s : string) : option Z := Z.of_int <$> NilZero.int_of_string s.

Lemma parse_number_Itoa z : parse_number (Itoa z) = Some z.
Proof. unfold parse_number. rewrite int_of_Itoa. simpl. by rewrite DecimalZ.of_to. Qed.

#[local] Program Instance number_Formats : Formats := {
  uuid_text := λ u, Itoa (Z.of_N u); parse_uuid := λ s, Z.to_N <$> parse_number s;
  time_text := Itoa; parse_time := parse_number; time_range := λ _, True;
}.
Next Obligation.
  intros u _. simpl. rewrite parse_number_Itoa. simpl. rewrite N2Z.id. split; [done|]. apply plain_str_ok, Itoa_plain.
Qed.
Next Obligation. intros t _. split; [apply parse_number_Itoa|]. apply plain_str_ok, Itoa_plain. Qed.

Definition rack_machine : Machine :=
  MkObject (MkResource 7 "m-1" (Some "rack-1") (Some {["zone" := "a"]}) None (Some ["ipam"]) 2 5 None "admin" 10 20 None None)
    (MkMachineSpec (MkBMCSpec "10.0.0.9" "" "") "x86_64" 64 262144 0) machine_status.

Example rack_machine_text :
  Encode (tenant_named "Acme") = ReplaceAll
    "{'org_id':'1','name':'acme','generation':3,'resource_version':7,'created_at':'1','updated_at':'1','deleted_at':null,'spec':{'Data':{'display_name':'Acme'}},'status':{'Data':{'phase':''}}}"
    "'" (String quote "") +:+ String (chr 10) "".
Proof. vm_compute. reflexivity. Qed.

Lemma rack_machine_ok : codec_ok rack_machine.
Proof. concrete_ok. intros k v [<- <-]%lookup_singleton_Some. concrete_ok. Qed.

Example rack_machine_read : decode_body (Encode rack_machine) Rest.zero = inr rack_machine.
Proof. apply wire_read; [exact rack_machine_ok|vm_compute; discriminate]. Qed.
