(* ===== verification/Catalog.v ===== *)
(** Catalog items and their free-form field values (src/platform/catalog/model.go):
    the codec of values of any type and of the catalog item spec, and what the
    encoding keeps of them. *)

From S2P Require Import Prelude GoStrings GoJson Float JsonPrint Any Resource Gorm Models Nesting Store Columns Rest Wire.

(** * Values of any type *)

Fixpoint decode_members (m : list (string * any)) (kvs : list (string * json)) : option (list (string * any)) :=
  match kvs with [] => Some m | (k, j) :: kvs => x ← decode_any j; decode_members (put k x m) kvs end.

Fixpoint decode_elems (l : list json) : option (list any) :=
  match l with [] => Some [] | j :: l => x ← decode_any j; xs ← decode_elems l; Some (x :: xs) end.

Lemma decode_any_obj kvs : decode_any (JObj kvs) = AObj <$> decode_members [] kvs.
Proof. done. Qed.

Lemma decode_any_arr l : decode_any (JArr l) = AArr <$> decode_elems l.
Proof. done. Qed.

Lemma decode_members_all m dl kvs :
  Forall2 (λ (a : string * any) (b : string * json), a.1 = b.1 ∧ decode_any b.2 = Some a.2) dl kvs →
  decode_members m kvs = Some (put_all m dl).
Proof.
  intros H. revert m. induction H as [|[k v] [k' j] dl kvs [Hk Hj] _ IH]; intros m; [done|]. simpl in *. subst k'.
  rewrite Hj. apply IH.
Qed.

Lemma decode_elems_all l js : Forall2 (λ v j, decode_any j = Some v) l js → decode_elems js = Some l.
Proof. induction 1 as [|v j l js Hj _ IH]; [done|]. simpl. by rewrite Hj, IH. Qed.

(** A written value is read back, through any jsonb column. *)
Lemma decode_encode c v j : formed c v → jperm (encode_any v) j → decode_any j = Some v.
Proof.
  revert j. induction v as [| |f| |l IH|kvs IH] using any_rect'; intros j Hk Hj; simpl in Hj;
    try by (inversion Hj; subst).
  - inversion Hk; subst. inversion Hj as [|? ? _ Hs| |]; subst; simpl; [by rewrite ParseFloat_FormatFloat|].
    by rewrite <-(ParseFloat_same _ _ Hs), ParseFloat_FormatFloat.
  - apply jperm_arr in Hj as (l' & -> & Hl). rewrite decode_any_arr, (decode_elems_all l); [done|].
    assert (Forall (formed c) l) as Hl0 by by inversion Hk. clear Hk. revert l' Hl. induction l as [|v l IHl]; intros l' Hl; inversion Hl; subst; [constructor|].
    apply Forall_cons in IH as [IHv IH], Hl0 as [Hv Hl0]. constructor; auto.
  - inversion Hk as [| | | | |? Hs Hf]; subst. apply jperm_obj in Hj as (mid & kvs' & -> & Hmid & Hp).
    assert (Forall2 (λ (a : string * any) (b : string * json), a.1 = b.1 ∧ decode_any b.2 = Some a.2) kvs mid) as Hd.
    { clear Hk Hs Hp. revert mid Hmid. induction kvs as [|[k v] kvs IHl]; intros mid Hmid; inversion Hmid as [|? [k' j] ? ? [Hk Hj]]; subst; [constructor|].
      apply Forall_cons in IH as [IHv IH], Hf as [[_ Hv] Hf]. simpl in *. subst k'. constructor; [|by apply IHl]. split; [done|]. by apply IHv. }
    apply Forall2_flip in Hd. destruct (Permutation_Forall2 Hp Hd) as (dl & Hdl & Hd'). apply Forall2_flip in Hd'.
    rewrite decode_any_obj, (decode_members_all [] dl) by done. simpl. do 2 f_equal.
    apply put_all_rebuild; [done|by apply sorted_keys|done].
Qed.

(** The bound on the nesting leaves room below the limit of the decoder. *)
Definition any_depth : nat := 1000.

#[global] Program Instance any_Codec : Codec any := {
  Columns.zero := ANil; marshal := encode_any; unmarshal := λ _, decode_any;
  codec_ok := λ v, formed has_sign v ∧ (height (encode_any v) ≤ any_depth)%nat;
  codec_depth := any_depth;
}.
Next Obligation. intros v [Hv Hh]. split; [by apply encode_wf|done]. Qed.
Next Obligation. intros v j [Hv _] Hj. by eapply decode_encode. Qed.

(** * The catalog item spec *)

(** A nil interface is left out; an empty string, a zero or [false] in one is
    not. *)
Definition empty_any (v : any) : bool := match v with ANil => true | _ => false end.

#[global] Instance FieldDefinition_Codec : Codec FieldDefinition :=
  struct! (MkFieldDefinition "" false ANil ANil)
    [fld "field" keep Field (λ v x, MkFieldDefinition v (Locked x) (Default x) (Value x));
     fld "locked" keep Locked (λ v x, MkFieldDefinition (Field x) v (Default x) (Value x));
     fld "default" empty_any Default (λ v x, MkFieldDefinition (Field x) (Locked x) v (Value x));
     fld "value" empty_any Value (λ v x, MkFieldDefinition (Field x) (Locked x) (Default x) v)].

#[global] Instance ProvisioningMetadata_Codec : Codec ProvisioningMetadata :=
  struct! (MkProvisioningMetadata "" "")
    [fld "collection" keep Collection (λ v x, MkProvisioningMetadata v (ResourceAction x));
     fld "resource_action" keep ResourceAction (λ v x, MkProvisioningMetadata (Collection x) v)].

#[global] Instance CatalogItemSpec_Codec : Codec CatalogItemSpec :=
  struct! (MkCatalogItemSpec "" "" "" false (MkProvisioningMetadata "" "") None)
    [fld "title" keep Title
       (λ v x, MkCatalogItemSpec v (c_Description x) (c_ResourceType x) (Published x) (Provisioning x) (FieldDefinitions x));
     fld "description" empty_string c_Description
       (λ v x, MkCatalogItemSpec (Title x) v (c_ResourceType x) (Published x) (Provisioning x) (FieldDefinitions x));
     fld "resource_type" keep c_ResourceType
       (λ v x, MkCatalogItemSpec (Title x) (c_Description x) v (Published x) (Provisioning x) (FieldDefinitions x));
     fld "published" keep Published
       (λ v x, MkCatalogItemSpec (Title x) (c_Description x) (c_ResourceType x) v (Provisioning x) (FieldDefinitions x));
     fld "provisioning" keep Provisioning
       (λ v x, MkCatalogItemSpec (Title x) (c_Description x) (c_ResourceType x) (Published x) v (FieldDefinitions x));
     fld "field_definitions" empty_slice FieldDefinitions
       (λ v x, MkCatalogItemSpec (Title x) (c_Description x) (c_ResourceType x) (Published x) (Provisioning x) v)].

(** * Theorems *)

(** C36: Catalog items keep their free-form values.  The value that a document of
    valid strings decodes to is written as a document that decodes to the same
    value: numbers are rounded to [float64] when they are first read, and never
    again; integers up to [2^53] are not rounded.  A catalog item spec written to
    its column is read back unchanged, and a response with a catalog item decodes
    to that item. *)
Theorem catalog_kept `{Jsonb} `{Formats} :
  (∀ j v, text_ok j → decode_any j = Some v → decode_any (encode_any v) = Some v) ∧
  (∀ z, Z.abs z ≤ 2 ^ 53 → ∃ f, decode_any (JNum (Itoa z)) = Some (ANum f) ∧
     neg f = (z <? 0) ∧ magnitude f = Z.abs z * 2 ^ 1074) ∧
  (∀ (s : CatalogItemSpec) src, codec_ok s → returned (JSONField_Value s) src → JSONField_Scan Columns.zero src = inr s) ∧
  (∀ x : CatalogItem, codec_ok x → decode_body (Encode x) Rest.zero = inr x).
Proof.
  split_and!.
  - intros j v Hj Hv. apply decode_formed in Hv; [|done]. by eapply decode_encode, jp_refl.
  - intros z Hz. destruct (ParseFloat_int z Hz) as (f & Hf & Hs & Hm). exists f. simpl. by rewrite Hf.
  - intros s src Hs. apply (column_read "JSONField" "JSONField.Scan" s src Hs). by vm_compute.
  - intros x Hx. apply wire_read; [done|by vm_compute].
Qed.

(** Larger integers are rounded: the API hands out another number than it was
    given. *)
Example large_integer_rounded :
  decode_any (JNum "9007199254740993") = decode_any (JNum "9007199254740992").
Proof. vm_compute. reflexivity. Qed.

(** * Witness *)

Definition half : any := ANum (MkF64 false (2 ^ 52) 1021).

Definition vm_item : CatalogItem :=
  MkObject (MkResource 1 "small-vm" None None None None 1 1 None "" 1 1 None None)
    (MkCatalogItemSpec "Small VM" "" "vm" true (MkProvisioningMetadata "infra.vm" "create")
       (Some [MkFieldDefinition "cpus" true ANil (AObj [("max", ANil); ("share", half)]);
              MkFieldDefinition "image" false (AStr "") ANil]))
    (MkCatalogItemStatus "Active").

Example vm_item_text :
  json_Marshal (o_spec vm_item) = Some (ReplaceAll
    "{'title':'Small VM','resource_type':'vm','published':true,'provisioning':{'collection':'infra.vm','resource_action':'create'},'field_definitions':[{'field':'cpus','locked':true,'value':{'max':null,'share':0.5}},{'field':'image','locked':false,'default':''}]}"
    "'" (String quote "")).
Proof. vm_compute. reflexivity. Qed.

Lemma half_formed : formed has_sign half.
Proof. constructor; [unfold valid_f64, canonical; simpl; lia|done]. Qed.

Lemma share_ok : codec_ok (AObj [("max", ANil); ("share", half)]).
Proof.
  split; [|vm_compute; lia]. apply formed_obj; [repeat constructor|].
  apply Forall_cons_2; [split; [concrete_ok|apply formed_nil]|].
  apply Forall_cons_2; [split; [concrete_ok|apply half_formed]|apply Forall_nil_2].
Qed.

Lemma vm_item_ok : codec_ok (o_spec vm_item).
Proof.
  concrete_ok; first [apply formed_nil|apply (proj1 share_ok)|apply formed_str; concrete_ok|vm_compute; lia].
Qed.

Lemma catalog_kept_witness :
  decode_any (encode_any half) = Some half ∧
  JSONField_Scan Columns.zero (VBytes (print_json (marshal (o_spec vm_item)))) = inr (o_spec vm_item).
Proof.
  destruct (@catalog_kept Jsonb_text number_Formats) as (H1 & _ & H3 & _). split.
  - apply (H1 (JNum "0.5")); [constructor|]. vm_compute. reflexivity.
  - apply H3; [exact vm_item_ok|]. exact (ret_bytes (H := Jsonb_text) (print_json (marshal (o_spec vm_item)))).
Defined.
