(* ===== verification/Respond.v ===== *)
(** Responses on the connection: how the handlers write what they answer
    ([writeJSON], [http.Error] and [WriteHeader] in src/platform/*/handler.go), and
    what the client receives through the middleware stack of the server. *)

From S2P Require Import Prelude GoStrings GoJson JsonPrint Resource Gorm Models Nesting Store Columns Auth Rest RestProps Server Queue Platform Wire Catalog.

(** * Writing an answer *)

(** [http.Error] as the calls of a handler. *)
Definition error_headers (h : header) : header :=
  header_Set "X-Content-Type-Options" "nosniff"
    (header_Set "Content-Type" "text/plain; charset=utf-8" (delete "Content-Length" h)).

Definition plain_error (msg : string) (code : Z) : hprog :=
  HHeader error_headers
    (HWriteHeader code (HWrite (msg +:+ String (chr 10) "") HDone)).

Lemma plain_error_http {W} `{Writer W} msg code (w : W) : ServeHTTP (plain_error msg code) w = http_Error msg code w.
Proof.
  simpl. unfold http_Error. destruct (WriteHeader code _) as [[p|] w']; [done|]. by destruct (Write _ w') as [[p|] w''].
Qed.

(** [err.Error()] of the errors of the store and of the driver. *)
Section write.
Context (store_text : storeErr → string) (db_text : dberr → string).

Definition message_text (m : message) : string := match m with Text s => s | StoreErr e => store_text e end.

Section rest.
Context `{Formats} {Spec Status : Type} `{HSpec : !Codec Spec} `{HStatus : !Codec Status}.

(** The page of a list; the driver leaves an empty slice, never nil. *)
Definition list_page (l : ListResult (Object Spec Status)) : page Spec Status :=
  MkPage (Some (Items l)) (NextContinue l) (Total l).

Definition write_response (res : response (Object Spec Status)) : hprog :=
  match res with
  | ROne status x => writeJSON status (marshal x)
  | RMany status l => writeJSON status (marshal (list_page l))
  | RError status m => plain_error (message_text m) status
  | RStatus status => HWriteHeader status HDone
  end.
End rest.

(** The event and task APIs: [item] is the JSON of an item.  The status of a
    cancellation is written before [writeJSON]. *)
Definition write_api {A} (item : A → json) (res : apiResponse A) : hprog :=
  match res with
  | AList items total => writeJSON 200 (JObj [("items", JArr (List.map item items)); ("total", JNum (Itoa total))])
  | AOne a => writeJSON 200 (item a)
  | AError status msg => plain_error msg status
  | ADbError e => plain_error (db_text e) 500
  | ACancelled => HWriteHeader 200 (writeJSON 200 (JObj [("status", JStr "cancelled")]))
  end.

(** * What is sent *)

(** The status of a response, and those the handlers use. *)
Definition response_status {R} (res : response R) : Z :=
  match res with ROne s _ => s | RMany s _ => s | RError s _ => s | RStatus s => s end.

Definition usual {R} (res : response R) : Prop :=
  match res with
  | ROne s _ => s = 200 ∨ s = 201
  | RMany s _ => s = 200
  | RError s _ => s ∈ [400; 401; 403; 404; 409; 500]
  | RStatus s => s = 202 ∨ s = 204
  end.

Class UsualErrors {R} `{Model R} (kd : kind R) : Prop :=
  usual_errors : ∀ e, usual (k_get_error kd e) ∧ usual (k_create_error kd e) ∧ usual (k_delete_error kd e).

(** A response begun by a header and a status that has a body. *)
Lemma sent_body f code data new_id RoutePattern r g :
  g r = HHeader f (HWriteHeader code (HWrite data HDone)) → final_code code = true → body_allowed code = true →
  ∃ h, serve new_id RoutePattern (HandlerFunc g) r =
    (None, MkConn h (Some (code, h)) [] data,
     [LogRequest (r_Method r) (r_Path r) code; CountRequest (r_Method r) (route_label RoutePattern r) code]) ∧
    h = f (c_header (request_conn new_id r)).
Proof.
  intros Hg Hc Hb. eexists. split; [|reflexivity]. rewrite serve_unfold, Hg. cbv zeta. simpl.
  rewrite !conn_WriteHeader_final by done. simpl. unfold conn_Write. simpl. by rewrite Hb.
Qed.

Lemma line_read {T} `{Codec T} (x : T) :
  codec_ok x → Z.of_nat (codec_depth (T := T)) ≤ max_depth →
  json_Unmarshal Columns.zero (encode_line (marshal x)) = Some x.
Proof.
  intros Hok Hd. destruct (codec_wf x Hok) as [Hwf Hh]. unfold json_Unmarshal. rewrite parse_encode_line by (done || lia).
  exact (codec_read x (marshal x) Hok (jp_refl _)).
Qed.

(** The handlers of a kind use the usual statuses, and so does the chain. *)
Lemma serve_usual {R D} `{Model R} `{Decoder R} `{!Database R D} (kd : kind R) ep ctx r (d : D) :
  UsualErrors kd → usual (run (RestProps.serve kd ep ctx r) d).1.
Proof.
  intros He. assert (∀ m, usual (R := R) (RError 500 m) ∧ usual (R := R) (RError 400 m) ∧ usual (R := R) (RError 409 m)) as Hu
    by (intros m; simpl; set_solver).
  destruct ep; cbn [RestProps.serve].
  - unfold list_handler, with_org. destruct (k_org kd ctx); [apply Hu|]. rewrite run_bind.
    destruct (run _ d) as [[e|l] d']; [apply Hu|done].
  - unfold get_handler, with_org. destruct (k_org kd ctx); [apply Hu|]. rewrite run_bind.
    destruct (run _ d) as [[e|x] d']; [apply He|by left].
  - unfold create_handler, with_org. destruct (decode_body _ _); [apply Hu|]. destruct (k_org kd ctx); [apply Hu|].
    destruct (k_prepare kd _); [apply Hu|]. rewrite run_bind. destruct (run _ d) as [[[e|] x] d']; [apply He|by right].
  - unfold update_handler, with_org. destruct (k_org kd ctx); [apply Hu|]. rewrite run_bind.
    destruct (run _ d) as [[e|x] d']; [apply He|]. destruct (decode_body _ x); [apply Hu|]. rewrite run_bind.
    destruct (run _ d') as [[[e|] y] d'']; [|by left]. by destruct (storeErr_is ErrConflict e); apply Hu.
  - unfold delete_handler, with_org. destruct (k_org kd ctx); [apply Hu|]. rewrite run_bind.
    destruct (run _ d) as [[e|] d']; [apply He|by right].
Qed.

Lemma chain_usual {R D} `{Model R} `{Decoder R} `{!Database R D} `{Uuid} `{RangeOrder} (kd : kind R) ep authn logic authz ctx r (d : D) :
  UsualErrors kd → usual (run (chain http_error authn logic authz (RestProps.serve kd ep) ctx r) d).1.
Proof.
  intros He. destruct (request_verdict authn logic authz ctx r) as (v & -> & _ & Hc).
  destruct v as [[code msg]|ctx']; [|by apply serve_usual]. specialize (Hc code msg eq_refl). simpl. set_solver.
Qed.

Section received.
Context `{Formats} {Spec Status : Type} `{HSpec : !Codec Spec} `{HStatus : !Codec Status}.

(** The values of the response are written without loss. *)
Definition deliverable (res : response (Object Spec Status)) : Prop :=
  match res with ROne _ x => codec_ok x | RMany _ l => codec_ok (list_page l) | RError _ _ | RStatus _ => True end.

Lemma page_deeper : (codec_depth (T := Object Spec Status) ≤ codec_depth (T := page Spec Status))%nat.
Proof. cbn. lia. Qed.

(** What the client gets of a response. *)
Definition received_as (res : response (Object Spec Status)) (h : header) (body : string) : Prop :=
  match res with
  | ROne _ x => h !! "Content-Type" = Some "application/json" ∧ decode_body body Rest.zero = inr x
  | RMany _ l => h !! "Content-Type" = Some "application/json" ∧ json_Unmarshal Columns.zero body = Some (list_page l)
  | RError _ m => h !! "Content-Type" = Some "text/plain; charset=utf-8" ∧ body = message_text m +:+ String (chr 10) ""
  | RStatus _ => body = ""
  end.

Lemma content_type_set (h : header) v : header_Set "Content-Type" v h !! "Content-Type" = Some v.
Proof. unfold header_Set. change (CanonicalHeaderKey "Content-Type") with "Content-Type". apply lookup_insert_eq. Qed.

Lemma error_type_set (h : header) :
  header_Set "X-Content-Type-Options" "nosniff" (header_Set "Content-Type" "text/plain; charset=utf-8" h) !! "Content-Type"
  = Some "text/plain; charset=utf-8".
Proof.
  unfold header_Set at 1. change (CanonicalHeaderKey "X-Content-Type-Options") with "X-Content-Type-Options".
  rewrite lookup_insert_ne by done. apply content_type_set.
Qed.

Lemma usual_sent (res : response (Object Spec Status)) :
  usual res → final_code (response_status res) = true ∧
  match res with RStatus _ => True | _ => body_allowed (response_status res) = true end.
Proof.
  destruct res as [s x|s l|s m|s]; simpl; intros Hs; try (destruct Hs as [-> | ->]); subst; try done.
  repeat (apply elem_of_cons in Hs as [->|Hs]; [done|]). by apply elem_of_nil in Hs.
Qed.

(** C25: What a client receives is what the handler answered.  A request to any
    endpoint of a kind, through the server's stack, the authentication chain, the
    handler and the store, is answered with the status of the handler's response,
    one of those the API uses, and that status is the one in the log and in the
    metrics.  The body of a response with a resource or a list is JSON, labelled
    as such, that decodes to that resource, with its metadata, spec and status, or
    to that page; an error is its message as plain text; the responses without
    body have none. *)
Theorem responses_received {D} `{!Database (Object Spec Status) D} `{Uuid} `{RangeOrder}
    (kd : kind (Object Spec Status)) ep authn logic authz ctx r (d : D) new_id RoutePattern :
  UsualErrors kd → Z.of_nat (codec_depth (T := page Spec Status)) ≤ max_depth →
  let answer r := (run (chain http_error authn logic authz (RestProps.serve kd ep) ctx r) d).1 in
  let '(p, w, obs) := serve new_id RoutePattern (HandlerFunc (λ r, write_response (answer r))) r in
  deliverable (answer r) →
  p = None ∧ usual (answer r) ∧
  obs = [LogRequest (r_Method r) (r_Path r) (response_status (answer r));
         CountRequest (r_Method r) (route_label RoutePattern r) (response_status (answer r))] ∧
  ∃ h, c_sent w = Some (response_status (answer r), h) ∧ received_as (answer r) h (c_body w).
Proof.
  intros He Hd answer. pose proof (chain_usual kd ep authn logic authz ctx r d He) as Hu. fold (answer r) in Hu.
  pose proof page_deeper as Hdeep. destruct (usual_sent _ Hu) as [Hfinal Hbody].
  destruct (answer r) as [s x|s l|s m|s] eqn:Ea; cbn [response_status] in *.
  - destruct (sent_body (header_Set "Content-Type" "application/json") s (encode_line (marshal x)) new_id RoutePattern r
      (λ r, write_response (answer r))) as (h & -> & ->); [by rewrite Ea|done|done|].
    intros Hx. split_and!; [done..|]. eexists. split; [done|]. split; [apply content_type_set|].
    apply wire_read; [done|lia].
  - destruct (sent_body (header_Set "Content-Type" "application/json") s (encode_line (marshal (list_page l))) new_id RoutePattern r
      (λ r, write_response (answer r))) as (h & -> & ->); [by rewrite Ea|done|done|].
    intros Hl. split_and!; [done..|]. eexists. split; [done|]. split; [apply content_type_set|]. by apply line_read.
  - destruct (sent_body error_headers s (message_text m +:+ String (chr 10) "") new_id RoutePattern r
      (λ r, write_response (answer r))) as (h & -> & ->); [by rewrite Ea|done|done|].
    intros _. split_and!; [done..|]. eexists. split; [done|]. split; [apply error_type_set|done].
  - rewrite serve_unfold. cbv beta zeta. rewrite Ea. cbn [write_response ServeHTTP last_status].
    change (WriteHeader s (request_conn new_id r)) with (conn_WriteHeader s (request_conn new_id r)).
    rewrite conn_WriteHeader_final by done. intros _. split_and!; [done..|]. by eexists.
Qed.
End received.
End write.

(** * The kinds of the providers *)

#[global] Instance tenant_kind_usual {Spec Status} `{Marshal Spec} name prepare view filter :
  UsualErrors (tenant_kind (Spec := Spec) (Status := Status) name prepare view filter).
Proof. intros e. by destruct e; split_and!; simpl; set_solver. Qed.
#[global] Instance tenants_usual `{Marshal TenantSpec} : UsualErrors tenants_kind.
Proof. intros e. destruct e; split_and!; simpl; try set_solver; by left. Qed.
#[global] Instance organizations_usual `{Marshal OrganizationSpec} : UsualErrors organizations_kind.
Proof. intros e. destruct e; split_and!; simpl; try set_solver; by left. Qed.
#[global] Instance machines_usual `{Marshal MachineSpec} : UsualErrors machines_kind.
Proof. intros e. by destruct e; split_and!; simpl; set_solver. Qed.

(** The answer to a cancellation is JSON without its label: the status is on its
    way when the content type is set. *)
Theorem cancelled_without_type db_text item new_id r :
  let w := (ServeHTTP (write_api (A := TaskRecord) db_text item ACancelled) (request_conn new_id r)).2 in
  ∃ h, c_sent w = Some (200, h) ∧ h !! "Content-Type" = None ∧ c_header w !! "Content-Type" = Some "application/json".
Proof. eexists. split; [done|]. split; [vm_compute; done|vm_compute; done]. Qed.

(** * Witness *)

#[local] Existing Instance number_Formats.

Definition get_machine_request : request :=
  MkRequest "GET" "/api/v1/machines/m-1" (λ _, "") (λ _, "") (λ p, if String.eqb p "name" then "m-1" else "") "".

Definition rack_owner : Authenticator := λ _, inr (MkSubject "ann" (NewTenantSet ["7"])).

Lemma machine_page_depth : Z.of_nat (codec_depth (T := page MachineSpec MachineStatus)) ≤ max_depth.
Proof. vm_compute. discriminate. Qed.

Lemma responses_received_witness :
  let answer r := (run (chain http_error rack_owner DefaultTenancyLogic AllowAllAuthorizer (RestProps.serve machines_kind EGet)
                          (MkContext None None) r) (MkMem [rack_machine] true)).1 in
  let '(_, w, _) := serve "id" (λ _, "") (HandlerFunc (λ r, write_response (λ _, "error") (answer r))) get_machine_request in
  ∃ h, c_sent w = Some (200, h) ∧ decode_body (c_body w) Rest.zero = inr rack_machine.
Proof.
  intros answer. assert (answer get_machine_request = ROne 200 rack_machine) as Ha by (vm_compute; reflexivity).
  pose proof (responses_received (Spec := MachineSpec) (Status := MachineStatus) (D := MemDB Machine) (λ _, "error") machines_kind EGet
    rack_owner DefaultTenancyLogic AllowAllAuthorizer (MkContext None None) get_machine_request (MkMem [rack_machine] true) "id" (λ _, "")
    machines_usual machine_page_depth) as Hr.
  cbv zeta in Hr. fold answer in Hr. destruct (serve _ _ _ _) as [[p w] obs]. rewrite Ha in Hr.
  destruct (Hr rack_machine_ok) as (_ & _ & _ & h & Hs & _ & Hb). exists h. split; [exact Hs|exact Hb].
Defined.
