(* ===== verification/Api.v ===== *)
(** The whole HTTP API: the handlers of the nine providers over the tables of the
    server, reached through the router and the middleware chain of main
    (src/cmd/infractl-server/main.go with the providers of its profile), with
    request bodies in the JSON of the domain types. *)

From S2P Require Import Prelude GoStrings GoJson JsonPrint Resource Gorm Models Nesting Store StoreProps StoreClaims Columns Queue Events Auth Rest RestProps Platform Registry Hooks Server External Organization Start Router Wire Any Catalog.

(** * The state and the answers *)

Section api.
Context `{Formats} `{EventOrder} (D : Type → Type) (HD : ∀ R (M : Model R), Database R (D R)).
#[local] Existing Instance HD.

Record tables := MkTables {
  tb_tenants : D Tenant;
  tb_organizations : D Organization;
  tb_policies : D Policy;
  tb_secrets : D Secret;
  tb_catalog : D CatalogItem;
  tb_webhooks : D Webhook;
  tb_machines : D Machine;
  tb_tasks : list TaskRecord;
  tb_events : list Event;
}.

Definition set_tenants d t := MkTables d (tb_organizations t) (tb_policies t) (tb_secrets t) (tb_catalog t) (tb_webhooks t) (tb_machines t) (tb_tasks t) (tb_events t).
Definition set_organizations d t := MkTables (tb_tenants t) d (tb_policies t) (tb_secrets t) (tb_catalog t) (tb_webhooks t) (tb_machines t) (tb_tasks t) (tb_events t).
Definition set_policies d t := MkTables (tb_tenants t) (tb_organizations t) d (tb_secrets t) (tb_catalog t) (tb_webhooks t) (tb_machines t) (tb_tasks t) (tb_events t).
Definition set_secrets d t := MkTables (tb_tenants t) (tb_organizations t) (tb_policies t) d (tb_catalog t) (tb_webhooks t) (tb_machines t) (tb_tasks t) (tb_events t).
Definition set_catalog d t := MkTables (tb_tenants t) (tb_organizations t) (tb_policies t) (tb_secrets t) d (tb_webhooks t) (tb_machines t) (tb_tasks t) (tb_events t).
Definition set_webhooks d t := MkTables (tb_tenants t) (tb_organizations t) (tb_policies t) (tb_secrets t) (tb_catalog t) d (tb_machines t) (tb_tasks t) (tb_events t).
Definition set_machines d t := MkTables (tb_tenants t) (tb_organizations t) (tb_policies t) (tb_secrets t) (tb_catalog t) (tb_webhooks t) d (tb_tasks t) (tb_events t).
Definition set_tasks d t := MkTables (tb_tenants t) (tb_organizations t) (tb_policies t) (tb_secrets t) (tb_catalog t) (tb_webhooks t) (tb_machines t) d (tb_events t).

(** What a client gets; next to an answer on organizations the hooks it fired. *)
Inductive answer :=
| RefusedBy (code : Z) (msg : string)
| NotFound
| Operational (name : string)
| Capabilities
| OfTenant (res : response Tenant)
| OfOrganization (res : response Organization) (hooks : list (string * string * hook_payload))
| OfPolicy (res : response Policy)
| OfSecret (res : response Secret)
| OfCatalogItem (res : response CatalogItem)
| OfWebhook (res : response Webhook)
| OfMachine (res : response Machine)
| OfTask (res : apiResponse TaskRecord)
| OfEvent (res : apiResponse Event).

Abbreviation effect := (tables → answer * tables).

(** A program on one of the tables. *)
Definition on {R A} {M : Model R} (get : tables → D R) (set : D R → tables → tables) (inj : A → answer)
    (p : context → request → prog R A) : http_handler effect := λ ctx r t,
  let '(a, d) := run (p ctx r) (get t) in (inj a, set d t).

Definition crud {R} {M : Model R} {Dec : Decoder R} (one many : string) (kd : kind R) (fuel : nat) (now : Time)
    (get : tables → D R) (set : D R → tables → tables) (inj : response R → answer) : list (string * http_handler effect) :=
  [("list" +:+ many, on get set inj (list_handler kd)); ("create" +:+ one, on get set inj (create_handler kd fuel now));
   ("get" +:+ one, on get set inj (get_handler kd)); ("update" +:+ one, on get set inj (update_handler kd fuel now));
   ("delete" +:+ one, on get set inj (delete_handler kd now))].

(** The handlers the providers register, by name: [fuel] bounds the walk of
    ancestors, [now] is the time of the request, [fault] the outcome of a statement
    on the tables of tasks and events, [newest] the order of the tasks. *)
Section handlers.
Context (fuel : nat) (now : Time) (fault : option dberr) (newest : list TaskRecord → list TaskRecord).

Definition organization_handlers : list (string * http_handler effect) :=
  let plain res := OfOrganization res [] in
  let fired x := OfOrganization x.1 x.2 in
  [("listOrganizations", on tb_organizations set_organizations plain listOrganizations);
   ("createOrganization", on tb_organizations set_organizations fired (createOrganization true fuel now));
   ("getOrganization", on tb_organizations set_organizations plain getOrganization);
   ("updateOrganization", on tb_organizations set_organizations plain (updateOrganization fuel now));
   ("deleteOrganization", on tb_organizations set_organizations fired (deleteOrganization true now))].

Definition event_handlers : list (string * http_handler effect) :=
  [("listEvents", λ ctx r t, (OfEvent (listEvents (λ org opts, PgStore.List fault org opts (tb_events t)) ctx r), t));
   ("getEvent", λ ctx r t, (OfEvent (getEvent (λ org opts, PgStore.List fault org opts (tb_events t)) ctx r), t))].

Definition task_handlers : list (string * http_handler effect) :=
  [("listTasks", λ ctx r t, (OfTask (listTasks newest fault ctx r (tb_tasks t)), t));
   ("getTask", λ ctx r t, (OfTask (getTask fault ctx r (tb_tasks t)), t));
   ("cancelTask", λ ctx r t, let '(res, tb) := cancelTask fault ctx r (tb_tasks t) in (OfTask res, set_tasks tb t))].

Definition api_table : list (string * http_handler effect) :=
  crud "Tenant" "Tenants" tenants_kind fuel now tb_tenants set_tenants OfTenant ++
  organization_handlers ++
  crud "CatalogItem" "CatalogItems" catalog_kind fuel now tb_catalog set_catalog OfCatalogItem ++
  event_handlers ++
  crud "Secret" "Secrets" secrets_kind fuel now tb_secrets set_secrets OfSecret ++
  [("revealSecret", on tb_secrets set_secrets OfSecret revealSecret)] ++
  task_handlers ++
  crud "Webhook" "Webhooks" webhooks_kind fuel now tb_webhooks set_webhooks OfWebhook ++
  crud "Policy" "Policies" policies_kind fuel now tb_policies set_policies OfPolicy ++
  crud "Machine" "Machines" machines_kind fuel now tb_machines set_machines OfMachine ++
  [("capabilities", λ _ _ t, (Capabilities, t))].

Definition api (name : string) : http_handler effect :=
  match List.find (λ p, String.eqb p.1 name) api_table with Some p => p.2 | None => λ _ _ t, (NotFound, t) end.

(** The router of main with these handlers, as a function of the tables; main
    passes the guest authenticator and tenancy and allows every request. *)
Definition server `{Uuid} `{RangeOrder} `{Chi target} (authn : Authenticator) (logic : TenancyLogic) (authz : Authorizer)
    (r : request) : effect :=
  dispatch (λ code msg t, (RefusedBy code msg, t)) (λ t, (NotFound, t)) authn logic authz api (λ n t, (Operational n, t))
    default_names r.
End handlers.
End api.

(** * Bodies that name no organization *)

(** The decoder takes the member [org_id], in any case, for the organization. *)
Definition names_org (body : string) : bool :=
  match value (2 * String.length body + 2) 0 body with
  | Some (JObj kvs, _) => existsb (λ kv, String.eqb kv.1 "org_id" || fold_eq "org_id" kv.1) kvs
  | _ => false
  end.

Section bodies.
Context `{Formats} {Spec Status : Type} `{HSpec : !Codec Spec} `{HStatus : !Codec Status}.
Implicit Types (f : field (Object Spec Status)) (kvs : list (string * json)).

Definition keeps_owner f : Prop := ∀ y j y', assign f y j = Some y' → OrgID (o_base y') = OrgID (o_base y).

Lemma Object_fields_keep : Forall (λ f, tag f = "org_id" ∨ keeps_owner f) (Object_fields (Spec := Spec) (Status := Status)).
Proof.
  unfold Object_fields, Resource_fields. cbn [List.map app].
  apply Forall_cons_2; [by left|].
  repeat (apply Forall_cons_2; [right; intros y j y'; simpl; unfold assign_field; intros Ha;
    repeat (apply bind_Some in Ha as (? & Ha & [= <-])); by simplify_eq/=|]).
  apply Forall_nil_2.
Qed.

Lemma resolve_org_id (fs : list (field (Object Spec Status))) k :
  resolve fs k = Some "org_id" → String.eqb k "org_id" || fold_eq "org_id" k = true.
Proof.
  unfold resolve. destruct (existsb _ fs); [intros [= ->]; done|].
  intros (f & Hf & Ht)%fmap_Some. apply List.find_some in Hf as [_ Hf]. rewrite <-Ht in Hf. by rewrite Hf, orb_true_r.
Qed.

Lemma assign_members_keep f kvs y y' :
  keeps_owner f → assign_members f kvs y = Some y' → OrgID (o_base y') = OrgID (o_base y).
Proof.
  intros Hk. revert y. induction kvs as [|[k j] kvs IH]; intros y; simpl; [by intros [= ->]|].
  intros (z & Hz & Ha)%bind_Some. apply Hk in Hz. by rewrite (IH z Ha).
Qed.

Lemma assign_fields_keep all fs kvs y y' :
  Forall (λ f, tag f = "org_id" ∨ keeps_owner f) fs →
  existsb (λ kv, String.eqb kv.1 "org_id" || fold_eq "org_id" kv.1) kvs = false →
  assign_fields all fs kvs y = Some y' → OrgID (o_base y') = OrgID (o_base y).
Proof.
  intros Hfs Hkvs. revert y. induction Hfs as [|f fs Hf _ IH]; intros y; simpl; [by intros [= ->]|].
  intros (z & Hz & Ha)%bind_Some. rewrite (IH z Ha). destruct Hf as [Ht|Hk]; [|by eapply assign_members_keep].
  replace (matched all f kvs) with (@nil (string * json)) in Hz; [by injection Hz as ->|]. symmetry.
  unfold matched. rewrite Ht. clear - Hkvs. induction kvs as [|[k j] kvs IH]; [done|]. cbn [existsb fst] in Hkvs.
  apply orb_false_iff in Hkvs as [Hk Hkvs]. unfold bfilter in *. cbn [List.filter fst].
  case_bool_decide as Hr; [|by apply IH]. apply resolve_org_id in Hr. congruence.
Qed.

(** A body that does not name an organization keeps the one it is decoded over. *)
Lemma unnamed_keeps body : names_org body = false → keeps_org (R := Object Spec Status) body.
Proof.
  intros Hb x y Hd. unfold names_org in Hb. change (Decode body x = inr y) in Hd. unfold Decode in Hd.
  destruct (value _ 0 body) as [[j rest]|]; [|done].
  destruct (unmarshal x j) as [z|] eqn:Eu; [|done]. injection Hd as <-. simpl in *.
  change (unmarshal_struct Object_fields x j = Some z) in Eu.
  destruct j as [| | | | |kvs]; try done; [by injection Eu as ->|].
  eapply assign_fields_keep; [apply Object_fields_keep|exact Hb|exact Eu].
Qed.
End bodies.

(** * Isolation *)

Definition api_items {A} (res : apiResponse A) : list A :=
  match res with AList items _ => items | AOne a => [a] | AError _ _ | ADbError _ | ACancelled => [] end.

Section isolation.
Context `{Formats} `{EventOrder} (D : Type → Type) (HD : ∀ R (M : Model R), Database R (D R)).
Context (HL : ∀ R (M : Model R), ModelLaws R → DatabaseLaws R (D R)).
#[local] Existing Instance HD.
#[local] Existing Instance HL.
Context (fuel : nat) (now : Time) (fault : option dberr).
Context (newest : list TaskRecord → list TaskRecord) (Hnewest : ∀ l, newest l ≡ₚ l).

Abbreviation tables := (tables D).
Implicit Types (t : tables) (org : uuid).

(** The organizations of the resources an answer shows; tenants and
    organizations belong to the system. *)
Definition owners_shown {R} {M : Model R} (res : response R) : list uuid := List.map (λ x, OrgID (base x)) (shown res).

Definition owners (a : answer) : list uuid :=
  match a with
  | OfPolicy res => owners_shown res
  | OfSecret res => owners_shown res
  | OfCatalogItem res => owners_shown res
  | OfWebhook res => owners_shown res
  | OfMachine res => owners_shown res
  | OfTask res => List.map R_OrgID (api_items res)
  | OfEvent res => List.map E_OrgID (api_items res)
  | _ => []
  end.

Definition system_owners (a : answer) : list uuid :=
  match a with
  | OfTenant res => owners_shown res
  | OfOrganization res _ => owners_shown res
  | _ => []
  end.

(** No value of a secret is in the answer. *)
Definition hides_values (a : answer) : Prop :=
  match a with
  | OfSecret res => ∀ s m k v, s ∈ shown res → s_Data (o_spec s) = Some m → m !! k = Some v → v = "***"
  | _ => True
  end.

Definition other_tasks org (tb : list TaskRecord) : list TaskRecord := bfilter (λ x, negb (N.eqb (R_OrgID x) org)) tb.

(** Nothing of another organization changes, and no event. *)
Definition preserved org t t' : Prop :=
  others SystemTenantID (rows (tb_tenants _ t')) ≡ₚ others SystemTenantID (rows (tb_tenants _ t)) ∧
  others SystemTenantID (rows (tb_organizations _ t')) ≡ₚ others SystemTenantID (rows (tb_organizations _ t)) ∧
  others org (rows (tb_policies _ t')) ≡ₚ others org (rows (tb_policies _ t)) ∧
  others org (rows (tb_secrets _ t')) ≡ₚ others org (rows (tb_secrets _ t)) ∧
  others org (rows (tb_catalog _ t')) ≡ₚ others org (rows (tb_catalog _ t)) ∧
  others org (rows (tb_webhooks _ t')) ≡ₚ others org (rows (tb_webhooks _ t)) ∧
  others org (rows (tb_machines _ t')) ≡ₚ others org (rows (tb_machines _ t)) ∧
  other_tasks org (tb_tasks _ t') = other_tasks org (tb_tasks _ t) ∧
  tb_events _ t' = tb_events _ t.

Definition stays org t (out : answer * tables) : Prop :=
  preserved org t out.2 ∧ Forall (eq org) (owners out.1) ∧ Forall (eq SystemTenantID) (system_owners out.1).

Definition is_update (name : string) : bool := HasPrefix name "update".

(** What each handler does for an organization. *)
Definition handler_ok (nh : string * http_handler (tables → answer * tables)) : Prop :=
  ∀ ctx r org t, OrgIDFromContext ctx = inr org → (is_update nh.1 = true → names_org (r_Body r) = false) →
  stays org t (nh.2 ctx r t) ∧ (nh.1 ≠ "revealSecret" → hides_values (nh.2 ctx r t).1).

Lemma preserved_refl org t : preserved org t t.
Proof. done. Qed.

Lemma shown_owned {R} {M : Model R} org (res : response R) :
  (∀ x, x ∈ shown res → OrgID (base x) = org) → Forall (eq org) (owners_shown res).
Proof. intros Hs. apply List.Forall_map, Forall_forall. intros x Hx. by rewrite Hs. Qed.

(** The handlers of a kind. *)
Lemma crud_ok {R} {M : Model R} {Dec : Decoder R} one many (kd : kind R) (get : tables → D R) set (inj : response R → answer) :
  (∀ body, names_org body = false → keeps_org (R := R) body) →
  (∀ ep ctx r org t, OrgIDFromContext ctx = inr org → endpoint_ok (R := R) ep (r_Body r) →
     let out := run (RestProps.serve kd ep ctx r) (get t) in stays org t (inj out.1, set out.2 t) ∧ hides_values (inj out.1)) →
  Forall handler_ok (crud D HD one many kd fuel now get set inj).
Proof.
  intros Hbody Hep.
  assert (∀ name ep, (is_update name = false → match ep with EUpdate _ _ => False | _ => True end) →
    handler_ok (name, on D HD get set inj (RestProps.serve kd ep))) as Hok.
  { intros name ep Hu ctx r org t Ho Hn. cbn [fst snd] in *. unfold on.
    assert (endpoint_ok (R := R) ep (r_Body r)) as Hb.
    { destruct ep; try done. simpl. apply Hbody, Hn. by destruct (is_update name); [|destruct Hu]. }
    specialize (Hep ep ctx r org t Ho Hb). cbv zeta in Hep.
    destruct (run (RestProps.serve kd ep ctx r) (get t)) as [a d]. destruct Hep as [Hs Hh]. split; [exact Hs|by intros _]. }
  unfold crud. repeat apply Forall_cons_2; [..|apply Forall_nil_2].
  - refine (Hok _ EList (λ _, I)).
  - refine (Hok _ (ECreate fuel now) (λ _, I)).
  - refine (Hok _ EGet (λ _, I)).
  - apply (Hok _ (EUpdate fuel now)). by destruct one.
  - refine (Hok _ (EDelete now) (λ _, I)).
Qed.

(** A kind kept under the system tenant, whatever the organization of the
    request. *)
Lemma system_inside {R} {M : Model R} {ML : ModelLaws R} {Dec : Decoder R} (kd : kind R) ep ctx r (d : D R) :
  isResourceAccessor (R := R) = true → endpoint_ok (R := R) ep (r_Body r) → k_org kd = system_org →
  (∀ x y, k_prepare kd x = inr y → OrgID (base y) = OrgID (base x)) → (∀ x, OrgID (base (k_view kd x)) = OrgID (base x)) →
  (∀ e, shown (k_get_error kd e) = [] ∧ shown (k_create_error kd e) = [] ∧ shown (k_delete_error kd e) = []) →
  inside SystemTenantID d (run (RestProps.serve kd ep ctx r) d).
Proof.
  intros Hacc Hep Ho Hp Hv He.
  set (kd' := MkKind OrgIDFromContext (k_prepare kd) (k_view kd) (k_filter kd) (k_get_error kd) (k_create_error kd) (k_delete_error kd)).
  assert (RestProps.serve kd ep ctx r = RestProps.serve kd' ep (MkContext None (Some SystemTenantID)) r) as ->.
  { destruct ep; simpl; unfold list_handler, get_handler, create_handler, update_handler, delete_handler, with_org; by rewrite Ho. }
  by apply serve_inside.
Qed.

#[local] Hint Resolve unnamed_keeps preserved_refl : core.

Ltac crud_tenant_scoped :=
  apply crud_ok; [by intros; apply unnamed_keeps|]; intros ep ctx r org t Ho Hb; cbv zeta;
  match goal with |- context [run (RestProps.serve ?kd ep ctx r) ?d] =>
    assert (inside org d (run (RestProps.serve kd ep ctx r) d)) as [Hrows Hown]; [apply serve_inside; [done|done|apply _|done]|] end;
  split; [split_and!; simpl; try done; by apply shown_owned|].

Ltac crud_system_scoped :=
  apply crud_ok; [by intros; apply unnamed_keeps|]; intros ep ctx r org t Ho Hb; cbv zeta;
  match goal with |- context [run (RestProps.serve ?kd ep ctx r) ?d] =>
    assert (inside SystemTenantID d (run (RestProps.serve kd ep ctx r) d)) as [Hrows Hown];
      [apply system_inside; [done|done|done|by intros x y [= <-]|done|by intros []]|] end;
  split; [split_and!; simpl; try done; by apply shown_owned|done].

Lemma policies_ok : Forall handler_ok (crud D HD "Policy" "Policies" policies_kind fuel now (tb_policies D) (set_policies D) OfPolicy).
Proof. crud_tenant_scoped; done. Qed.

Lemma tenants_ok : Forall handler_ok (crud D HD "Tenant" "Tenants" tenants_kind fuel now (tb_tenants D) (set_tenants D) OfTenant).
Proof. crud_system_scoped. Qed.

Lemma catalog_ok :
  Forall handler_ok (crud D HD "CatalogItem" "CatalogItems" catalog_kind fuel now (tb_catalog D) (set_catalog D) OfCatalogItem).
Proof. crud_tenant_scoped; done. Qed.

Lemma webhooks_ok : Forall handler_ok (crud D HD "Webhook" "Webhooks" webhooks_kind fuel now (tb_webhooks D) (set_webhooks D) OfWebhook).
Proof. crud_tenant_scoped; done. Qed.

Lemma machines_ok : Forall handler_ok (crud D HD "Machine" "Machines" machines_kind fuel now (tb_machines D) (set_machines D) OfMachine).
Proof. crud_tenant_scoped; done. Qed.

Lemma secrets_ok : Forall handler_ok (crud D HD "Secret" "Secrets" secrets_kind fuel now (tb_secrets D) (set_secrets D) OfSecret).
Proof.
  crud_tenant_scoped. simpl. intros s m k v Hs. apply shown_viewed in Hs as [s' ->]; [|by intros []]. apply Redacted_masks.
Qed.

Lemma reveal_ok : handler_ok ("revealSecret", on D HD (tb_secrets D) (set_secrets D) OfSecret revealSecret).
Proof.
  intros ctx r org t Ho _. split; [|done]. unfold on. cbn [snd].
  assert (inside org (tb_secrets D t) (run (revealSecret ctx r) (tb_secrets D t))) as [Hrows Hown].
  { apply (get_inside revealed_kind); [apply _|done]. }
  destruct (run (revealSecret ctx r) (tb_secrets D t)) as [a d]. split_and!; simpl; try done. by apply shown_owned.
Qed.

(** The hooks are fired next to the answer. *)
Lemma fired_response {X} (p : prog Organization (response Organization)) (k : response Organization → prog Organization (response Organization * X)) (d : D Organization) :
  (∀ res d', (run (k res) d').1.1 = res ∧ (run (k res) d').2 = d') →
  (run (res ← p; k res) d).1.1 = (run p d).1 ∧ (run (res ← p; k res) d).2 = (run p d).2.
Proof. intros Hk. rewrite run_bind. destruct (run p d) as [res d']. apply Hk. Qed.

Lemma organizations_ok : Forall handler_ok (organization_handlers D HD fuel now).
Proof.
  assert (∀ name {X} ep inj (p : context → request → prog Organization X) (f : X → response Organization),
    (is_update name = false → match ep with EUpdate _ _ => False | _ => True end) →
    (∀ x, ∃ hooks, inj x = OfOrganization (f x) hooks) →
    (∀ ctx r (d : D Organization), f (run (p ctx r) d).1 = (run (RestProps.serve organizations_kind ep ctx r) d).1 ∧
       (run (p ctx r) d).2 = (run (RestProps.serve organizations_kind ep ctx r) d).2) →
    handler_ok (name, on D HD (tb_organizations D) (set_organizations D) inj p)) as Hok.
  { intros name X ep inj p f Hu Hinj Hp ctx r org t Ho Hn. unfold on. cbn [fst snd] in *.
    assert (inside SystemTenantID (tb_organizations D t) (run (RestProps.serve organizations_kind ep ctx r) (tb_organizations D t))) as [Hrows Hown].
    { apply system_inside; [done| |done|by intros x y [= <-]|done|by intros []].
      destruct ep; try done. apply unnamed_keeps, Hn. by destruct (is_update name); [|destruct Hu]. }
    destruct (Hp ctx r (tb_organizations D t)) as [H1 H2]. rewrite <-H1 in Hown. rewrite <-H2 in Hrows.
    destruct (run (p ctx r) (tb_organizations D t)) as [a d]. destruct (Hinj a) as [hooks ->]. simpl in *.
    split; [split_and!; simpl; try done; by apply shown_owned|done]. }
  unfold organization_handlers. repeat apply Forall_cons_2; [..|apply Forall_nil_2].
  - by refine (Hok _ _ EList _ _ (λ x, x) (λ _, I) _ _); [eauto|].
  - refine (Hok _ _ (ECreate fuel now) _ _ fst (λ _, I) _ _); [eauto|]. intros ctx r d. apply fired_response.
    intros res d'. destruct res as [[|[]|] ?| | |]; simpl; try done. repeat case_match; done.
  - by refine (Hok _ _ EGet _ _ (λ x, x) (λ _, I) _ _); [eauto|].
  - by refine (Hok _ _ (EUpdate fuel now) _ _ (λ x, x) _ _ _); [|eauto|].
  - refine (Hok _ _ (EDelete now) _ _ fst (λ _, I) _ _); [eauto|]. intros ctx r d. apply fired_response.
    intros res d'. destruct res as [| | |[]]; simpl; try done. repeat case_match; done.
Qed.

Lemma stays_quiet org t a : Forall (eq org) (owners a) → system_owners a = [] → stays org t (a, t).
Proof. intros Ha Hs. split_and!; simpl; try done. by rewrite Hs. Qed.

Lemma tasks_owned org fault' ctx r tb :
  OrgIDFromContext ctx = inr org →
  Forall (eq org) (List.map R_OrgID (api_items (listTasks newest fault' ctx r tb))) ∧
  Forall (eq org) (List.map R_OrgID (api_items (getTask fault' ctx r tb))).
Proof.
  intros Ho. unfold listTasks, getTask. rewrite Ho. split; destruct fault'; simpl; [constructor| |constructor|].
  - apply List.Forall_map, Forall_forall. intros x Hx%elem_of_take. destruct Hx as (i & Hx & _).
    apply list_elem_of_lookup_2 in Hx. rewrite Hnewest in Hx. apply elem_of_bfilter in Hx as [_ Hm].
    apply andb_true_iff in Hm as [[->%N.eqb_eq _]%andb_true_iff _]. done.
  - destruct (List.find _ tb) as [x|] eqn:Ef; simpl; [|constructor]. apply List.find_some in Ef as [_ Hm].
    apply andb_true_iff in Hm as [_ ->%N.eqb_eq]. by repeat constructor.
Qed.

Lemma cancel_other_tasks org id tb :
  other_tasks org (Pg.update_where (cancellable org id) set_status_failed tb) = other_tasks org tb.
Proof.
  unfold other_tasks, Pg.update_where, bfilter. induction tb as [|x tb IH]; [done|]. simpl.
  destruct (cancellable org id x) eqn:Ec; simpl; rewrite IH; [|done].
  apply cancellable_spec in Ec as (_ & -> & _). by rewrite N.eqb_refl.
Qed.

Lemma tasks_ok : Forall handler_ok (task_handlers D fault newest).
Proof.
  unfold task_handlers. repeat apply Forall_cons_2; [..|apply Forall_nil_2]; intros ctx r org t Ho _; cbn [fst snd].
  - split; [apply stays_quiet; [by apply tasks_owned|done]|done].
  - split; [apply stays_quiet; [by apply tasks_owned|done]|done].
  - unfold cancelTask. rewrite Ho. destruct fault; [by repeat split|]. destruct (existsb _ _); [|by repeat split]. split; [|done].
    repeat split; try done. apply cancel_other_tasks.
Qed.

Lemma events_owned org opts tb evts :
  PgStore.List fault org opts tb = inr evts → Forall (eq org) (List.map E_OrgID evts).
Proof.
  unfold PgStore.List. destruct fault; [done|]. intros [= <-]. apply List.Forall_map, Forall_forall. intros x Hx.
  apply elem_of_take in Hx as (i & Hx & _). apply list_elem_of_lookup_2 in Hx.
  assert (x ∈ newest_first (bfilter (matches org opts) tb)) as Hin.
  { destruct (0 <? eo_Offset opts); [|done]. rewrite <-(take_drop (Z.to_nat (eo_Offset opts))). apply elem_of_app. by right. }
  rewrite newest_first_perm in Hin. apply elem_of_bfilter in Hin as [_ Hm]. apply andb_true_iff in Hm as [[->%N.eqb_eq _]%andb_true_iff _]. done.
Qed.

Lemma events_ok : Forall handler_ok (event_handlers D fault).
Proof.
  unfold event_handlers. repeat apply Forall_cons_2; [..|apply Forall_nil_2]; intros ctx r org t Ho _; cbn [fst snd];
    (split; [apply stays_quiet; [|done]|done]); unfold listEvents, getEvent; rewrite Ho;
    destruct (PgStore.List _ _ _ _) as [e|evts] eqn:El; try (by constructor); apply events_owned in El.
  - done.
  - simpl. destruct (List.find _ evts) as [x|] eqn:Ef; simpl; [|constructor]. apply List.find_some in Ef as [Hin _].
    rewrite Forall_forall in El. repeat constructor. apply El, list_elem_of_In, in_map, Hin.
Qed.

Lemma api_table_ok : Forall handler_ok (api_table D HD fuel now fault newest).
Proof.
  unfold api_table. repeat (apply Forall_app; split);
    auto using tenants_ok, organizations_ok, catalog_ok, events_ok, secrets_ok, tasks_ok, webhooks_ok, policies_ok, machines_ok.
  - apply Forall_cons_2; [apply reveal_ok|apply Forall_nil_2].
  - apply Forall_cons_2; [|apply Forall_nil_2]. intros ctx r org t _ _. split; [by apply stays_quiet|done].
Qed.

(** A routed request matches a route of the table. *)
Lemma route_inv `{!Chi target} `{!ChiLaws target} method path h ps :
  route (server_routes default_names) method path = Some (h, ps) →
  ∃ e, e ∈ server_routes default_names ∧ method_ok e method = true ∧ match_entry e path = Some ps ∧ en_handler e = h.
Proof.
  intros Hr.
  destruct (existsb (λ e, method_ok e method && negb (empty_option (match_entry e path))) (server_routes default_names)) eqn:Ex.
  - apply existsb_exists in Ex as (e & He%list_elem_of_In & [Hm Hp]%andb_true_iff).
    destruct (match_entry e path) as [ps'|] eqn:Em; [|done]. exists e.
    rewrite (route_found e _ _ ps' He Hm Em) in Hr. by injection Hr as <- <-.
  - rewrite route_none in Hr; [done|]. intros e He Hm. destruct (match_entry e path) as [ps'|] eqn:Em; [|done].
    assert (existsb (λ e, method_ok e method && negb (empty_option (match_entry e path))) (server_routes default_names) = true); [|congruence].
    apply existsb_exists. exists e. rewrite Hm, Em. split; [by apply list_elem_of_In|done].
Qed.

Definition reveal_route : entry target := new_entry (Some "GET") "/api/v1/secrets/{name}/reveal" (Api "revealSecret").

(** Updates are reached by PUT only, and reveal by its route only. *)
Lemma routes_checked :
  forallb (λ e : entry target, match en_handler e with
    | Api n => (negb (is_update n) || bool_decide (en_method e = Some "PUT")) &&
               (negb (String.eqb n "revealSecret") || bool_decide (e = reveal_route))
    | Op _ => true end) (server_routes default_names) = true.
Proof. vm_compute. reflexivity. Qed.

Lemma route_checked `{!Chi target} `{!ChiLaws target} method path n ps :
  route (server_routes default_names) method path = Some (Api n, ps) →
  (is_update n = true → method = "PUT") ∧ (n = "revealSecret" → match_entry reveal_route path = Some ps).
Proof.
  intros (e & He & Hm & Hp & Hn)%route_inv. pose proof routes_checked as Hc. rewrite forallb_forall in Hc.
  specialize (Hc e (proj1 (list_elem_of_In _ _) He)). rewrite Hn in Hc. apply andb_true_iff in Hc as [Hu Hv]. split.
  - intros Hup. rewrite Hup in Hu. simpl in Hu. apply bool_decide_eq_true in Hu. unfold method_ok in Hm.
    rewrite Hu in Hm. by apply String.eqb_eq in Hm.
  - intros ->. simpl in Hv. apply bool_decide_eq_true in Hv as <-. exact Hp.
Qed.

Lemma api_handler_ok n ctx r org t :
  OrgIDFromContext ctx = inr org → (is_update n = true → names_org (r_Body r) = false) →
  let out := api D HD fuel now fault newest n ctx r t in
  stays org t out ∧ (n ≠ "revealSecret" → hides_values out.1).
Proof.
  intros Ho Hn. cbv zeta. unfold api. pose proof api_table_ok as Hall. rewrite Forall_forall in Hall.
  destruct (List.find _ _) as [[n' h]|] eqn:Ef; [|by split; [apply stays_quiet|]].
  apply List.find_some in Ef as [Hin Heq]. apply String.eqb_eq in Heq. simpl in Heq. subst n'.
  exact (Hall (n, h) (proj2 (list_elem_of_In _ _) Hin) ctx r org t Ho Hn).
Qed.

(** Every route of the API has its handler. *)
Lemma routes_served :
  forallb (λ e : entry target, match en_handler e with
    | Api n => existsb (String.eqb n) (List.map fst (api_table D HD fuel now fault newest))
    | Op _ => true end) (server_routes default_names) = true.
Proof. vm_compute. reflexivity. Qed.

(** No resource at all. *)
Definition no_resource (a : answer) : Prop :=
  match a with RefusedBy _ _ | NotFound | Operational _ => True | _ => False end.

End isolation.

(** * Witness: two tenants with a secret of the same name *)

#[local] Existing Instance first_Chi.
#[local] Existing Instance first_ChiLaws.
#[local] Existing Instance number_Formats.

Definition secret_of (org : uuid) (v : string) : Secret :=
  MkObject (MkResource org "db" None None None None 1 1 None "" 1 1 None None)
    (MkSecretSpec "opaque" (Some {["password" := v]})) (MkSecretStatus "Active").

Definition two_secrets : tables MemDB :=
  MkTables MemDB (MkMem [] true) (MkMem [] true) (MkMem [] true) (MkMem [secret_of 1 "one"; secret_of 2 "two"] true)
    (MkMem [] true) (MkMem [] true) (MkMem [] true) [] [].

Definition quote_body (s : string) : string := ReplaceAll s "'" (String quote "").

(** A new password for the secret of the first tenant. *)
Definition put_secret : request :=
  MkRequest "PUT" "/api/v1/secrets/db" (λ _, "") (λ _, "") (λ _, "")
    (quote_body "{'resource_version':1,'spec':{'Data':{'data':{'password':'new'}}}}").

Definition served (r : request) : answer * tables MemDB :=
  server MemDB (λ R M, MemDB_Database) 9 7 None (λ l, l) ann DefaultTenancyLogic AllowAllAuthorizer r two_secrets.

Definition passwords (t : tables MemDB) : list (uuid * option (option string)) :=
  List.map (λ s, (OrgID (o_base s), (λ m : gmap string string, m !! "password") <$> s_Data (o_spec s))) (m_rows (tb_secrets _ t)).

Example served_ex :
  passwords (served put_secret).2 = [(1%N, Some (Some "new")); (2%N, Some (Some "two"))] ∧
  owners (served put_secret).1 = [1%N] ∧
  (served (MkRequest "GET" "/healthz" (λ _, "") (λ _, "") (λ _, "") "")).1 = Operational "healthz" ∧
  (served (MkRequest "GET" "/api/v1/nothing" (λ _, "") (λ _, "") (λ _, "") "")).1 = NotFound.
Proof. vm_compute. done. Qed.

