(* ===== verification/Messages.v ===== *)
(** Tasks and events as JSON (the struct tags of [Task] in src/work/queue.go and
    of [Event] in src/events/bus.go), as the Valkey queue and the Valkey bus send
    them: byte slices in base64, and what a receiver decodes. *)

From S2P Require Import Prelude GoStrings GoJson JsonPrint Resource Gorm Models Columns Wire Queue Events.
From Stdlib Require Import Ascii NArith.

(** * base64.StdEncoding

    The alphabet with [+] and [/], padded to groups of four. *)

Fixpoint smap (f : ascii → ascii) (s : string) : string :=
  match s with "" => "" | String c s => String (f c) (smap f s) end.

Definition to_std (c : ascii) : ascii :=
  if Ascii.eqb c "-" then "+"%char else if Ascii.eqb c "_" then "/"%char else c.

(** The bytes that belong to the other alphabet only are rejected, as [=] is. *)
Definition from_std (c : ascii) : ascii :=
  if Ascii.eqb c "+" then "-"%char else if Ascii.eqb c "/" then "_"%char
  else if Ascii.eqb c "-" || Ascii.eqb c "_" then "="%char else c.

(** The padding after a text of the given length. *)
Definition padding (n : nat) : string :=
  match (n mod 4)%nat with 2%nat => "==" | 3%nat => "=" | _ => "" end.

Definition std_encode (s : string) : string :=
  let t := smap to_std (base64_encode s) in t +:+ padding (String.length t).

Definition strip_pad (s : string) : string := TrimSuffix (TrimSuffix s "=") "=".

Definition std_decode (s : string) : option string :=
  let s := drop_newlines s in
  if ((String.length s) mod 4 =? 0)%nat then base64_groups (smap from_std (strip_pad s)) else None.

(** ** The round trip *)

Lemma smap_length f s : String.length (smap f s) = String.length s.
Proof. induction s as [|c s IH]; simpl; by rewrite ?IH. Qed.

Lemma smap_app f s t : smap f (s +:+ t) = smap f s +:+ smap f t.
Proof. induction s as [|c s IH]; simpl; by rewrite ?IH. Qed.

Lemma sforall_smap p f s : sforall p (smap f s) = sforall (λ c, p (f c)) s.
Proof. induction s as [|c s IH]; simpl; by rewrite ?IH. Qed.

Lemma smap_smap f g s : sforall (λ c, Ascii.eqb (g (f c)) c) s = true → smap g (smap f s) = s.
Proof.
  induction s as [|c s IH]; simpl; [done|]. intros H. bprop. apply Ascii.eqb_eq in H as ->. by rewrite IH.
Qed.

Lemma drop_newlines_none s : sforall (λ c, negb (existsb (N.eqb (code c)) [10; 13]%N)) s = true → drop_newlines s = s.
Proof. induction s as [|c s IH]; [done|]. cbn [sforall drop_newlines]. intros H. bprop. by rewrite H, IH. Qed.

(** What holds of every character of the alphabet: its place in the other
    alphabet leads back to it and is printable, and it is neither padding nor a
    line break. *)
Definition std_char (c : ascii) : bool :=
  Ascii.eqb (from_std (to_std c)) c && plain (to_std c) && negb (Ascii.eqb "=" (to_std c)) &&
  negb (existsb (N.eqb (code (to_std c))) [10; 13]%N).

Lemma std_char_spec c : std_char c = true →
  Ascii.eqb (from_std (to_std c)) c = true ∧ plain (to_std c) = true ∧ negb (Ascii.eqb "=" (to_std c)) = true ∧
  negb (existsb (N.eqb (code (to_std c))) [10; 13]%N) = true.
Proof. unfold std_char. rewrite !andb_true_iff. tauto. Qed.

Lemma sextet_std n : (n < 64)%N → std_char (sextet_char n) = true.
Proof.
  intros Hn. assert (forallb (λ n, std_char (sextet_char n)) (N.of_nat <$> seq 0 64) = true) as HF by by vm_compute.
  rewrite forallb_forall in HF. apply HF. apply list_elem_of_In, list_elem_of_fmap.
  exists (N.to_nat n). rewrite N2Nat.id. split; [done|]. apply elem_of_seq. lia.
Qed.

Lemma base64_encode_std s : sforall std_char (base64_encode s) = true.
Proof.
  induction s using string_ind3; [done|..]; cbn [base64_encode sforall];
    repeat (rewrite sextet_std by eauto using sextet0, sextet1, sextet1', sextet2, sextet2', sextet3); done.
Qed.

Lemma base64_encode_length s : (String.length (base64_encode s) mod 4 ≠ 1)%nat.
Proof.
  induction s as [| | |a b c s IH] using string_ind3; [done..|]. cbn [base64_encode String.length].
  by replace (S _) with (String.length (base64_encode s) + 1 * 4)%nat by lia; rewrite Nat.Div0.mod_add.
Qed.

Lemma TrimSuffix_app t p : TrimSuffix (t +:+ p) p = t.
Proof.
  unfold TrimSuffix, HasSuffix. rewrite slength_app.
  replace (String.length t + String.length p - String.length p)%nat with (String.length t) by lia.
  rewrite sdrop_app_exact, String.eqb_refl, stake_app. by replace (_ <=? _)%nat with true by lia.
Qed.

Lemma TrimSuffix_none t : lacks "=" t = true → TrimSuffix t "=" = t.
Proof.
  intros Ht. unfold TrimSuffix. destruct (HasSuffix t "=") eqn:E; [|done].
  apply (HasSuffix_sforall _ _ _ E) in Ht. done.
Qed.

Lemma strip_padding t n : lacks "=" t = true → strip_pad (t +:+ padding n) = t.
Proof.
  intros Ht. unfold strip_pad, padding.
  destruct (n mod 4)%nat as [|[|[|[|k]]]]; rewrite ?sapp_nil_r, ?(TrimSuffix_none t) by done; try done.
  - change "==" with ("=" +:+ "="). by rewrite <-sapp_assoc, !TrimSuffix_app.
  - by rewrite TrimSuffix_app, TrimSuffix_none.
Qed.

Lemma padded_length n : (n mod 4 ≠ 1)%nat → ((n + String.length (padding n)) mod 4 =? 0)%nat = true.
Proof.
  intros Hn. apply Nat.eqb_eq. rewrite <-Nat.Div0.add_mod_idemp_l. unfold padding.
  pose proof (Nat.mod_upper_bound n 4). by destruct (n mod 4)%nat as [|[|[|[|k]]]]; try lia.
Qed.

Lemma std_encode_plain s : sforall plain (std_encode s) = true.
Proof.
  unfold std_encode. rewrite sforall_app, sforall_smap. apply andb_true_iff. split.
  - eapply sforall_impl; [|apply base64_encode_std]. intros c. apply std_char_spec.
  - unfold padding. by destruct (_ mod 4)%nat as [|[|[|[|k]]]].
Qed.

Lemma std_roundtrip s : std_decode (std_encode s) = Some s.
Proof.
  unfold std_decode, std_encode. pose proof (base64_encode_std s) as Hs.
  assert (∀ p, (∀ c, std_char c = true → p (to_std c) = true) → sforall p (smap to_std (base64_encode s)) = true) as Hp.
  { intros p H. rewrite sforall_smap. eapply sforall_impl; [exact H|done]. }
  rewrite drop_newlines_none.
  2: { rewrite sforall_app, Hp by (intros c; apply std_char_spec).
       unfold padding. by destruct (_ mod 4)%nat as [|[|[|[|k]]]]. }
  rewrite slength_app, smap_length, padded_length by apply base64_encode_length.
  rewrite strip_padding by (apply Hp; intros c; apply std_char_spec).
  rewrite smap_smap; [|eapply sforall_impl; [|exact Hs]; intros c; apply std_char_spec].
  pose proof (base64_roundtrip s) as Hr. unfold base64_decode in Hr. by rewrite base64_encode_clean in Hr.
Qed.

(** * Byte slices

    A nil slice is null; text that is not base64 is an error. *)

Definition marshal_bytes (x : option string) : json :=
  match x with None => JNull | Some s => JStr (std_encode s) end.

Definition unmarshal_bytes (_ : option string) (j : json) : option (option string) :=
  match j with JNull => Some None | JStr t => Some <$> std_decode t | _ => None end.

Program Definition bytes_Codec : Codec (option string) := {|
  Columns.zero := None; marshal := marshal_bytes; unmarshal := unmarshal_bytes; codec_ok := λ _, True; codec_depth := 0;
|}.
Next Obligation. intros [s|] _; (split; [|done]); constructor; apply plain_str_ok, std_encode_plain. Qed.
Next Obligation. intros [s|] j _ Hj; inversion Hj; subst; [|done]. simpl. by rewrite std_roundtrip. Qed.

Definition empty_bytes (x : option string) : bool := match x with None => true | Some s => String.eqb s "" end.

(** The payload of a task is kept as a string: an empty one stands for nil too. *)
Definition unmarshal_payload (_ : string) (j : json) : option string :=
  match j with JNull => Some "" | JStr t => std_decode t | _ => None end.

Program Definition payload_Codec : Codec string := {|
  Columns.zero := ""; marshal := λ s, JStr (std_encode s); unmarshal := unmarshal_payload;
  codec_ok := λ _, True; codec_depth := 0;
|}.
Next Obligation. intros s _. split; [|done]. constructor. apply plain_str_ok, std_encode_plain. Qed.
Next Obligation. intros s j _ Hj. inversion Hj; subst. simpl. apply std_roundtrip. Qed.

(** * The status of a task *)

Definition status_text (st : TaskStatus) : string :=
  match st with
  | TaskPending => "pending" | TaskRunning => "running" | TaskCompleted => "completed" | TaskFailed => "failed"
  end.

(** Any string decodes; one that is no status counts as pending here, which the
    queue cannot tell, as it overwrites the status of a task it decoded. *)
Definition status_of (s : string) : TaskStatus :=
  if String.eqb s "running" then TaskRunning
  else if String.eqb s "completed" then TaskCompleted
  else if String.eqb s "failed" then TaskFailed else TaskPending.

Definition unmarshal_status (x : TaskStatus) (j : json) : option TaskStatus :=
  match j with JStr s => Some (status_of s) | JNull => Some x | _ => None end.

#[global] Program Instance TaskStatus_Codec : Codec TaskStatus := {
  Columns.zero := TaskPending; marshal := λ st, JStr (status_text st); unmarshal := unmarshal_status;
  codec_ok := λ _, True; codec_depth := 0;
}.
Next Obligation. intros [] _; (split; [|done]); constructor; split; by vm_compute. Qed.
Next Obligation. intros [] j _ Hj; by inversion Hj. Qed.

(** * Tasks and events *)

Section messages.
Context `{Formats}.

#[global] Program Instance Task_Codec : Codec Task :=
  struct_codec (MkTask "" "" 0 "" "" TaskPending "" 0)
    [fld "id" keep T_ID
       (λ v t, MkTask v (T_Kind t) (T_OrgID t) (T_Name t) (T_Payload t) (T_Status t) (T_Error t) (T_CreatedAt t));
     fld "kind" keep T_Kind
       (λ v t, MkTask (T_ID t) v (T_OrgID t) (T_Name t) (T_Payload t) (T_Status t) (T_Error t) (T_CreatedAt t));
     fld (H := uuid_Codec) "org_id" keep T_OrgID
       (λ v t, MkTask (T_ID t) (T_Kind t) v (T_Name t) (T_Payload t) (T_Status t) (T_Error t) (T_CreatedAt t));
     fld "name" keep T_Name
       (λ v t, MkTask (T_ID t) (T_Kind t) (T_OrgID t) v (T_Payload t) (T_Status t) (T_Error t) (T_CreatedAt t));
     fld (H := payload_Codec) "payload" empty_string T_Payload
       (λ v t, MkTask (T_ID t) (T_Kind t) (T_OrgID t) (T_Name t) v (T_Status t) (T_Error t) (T_CreatedAt t));
     fld "status" keep T_Status
       (λ v t, MkTask (T_ID t) (T_Kind t) (T_OrgID t) (T_Name t) (T_Payload t) v (T_Error t) (T_CreatedAt t));
     fld "error" empty_string T_Error
       (λ v t, MkTask (T_ID t) (T_Kind t) (T_OrgID t) (T_Name t) (T_Payload t) (T_Status t) v (T_CreatedAt t));
     fld (H := time_Codec) "created_at" keep T_CreatedAt
       (λ v t, MkTask (T_ID t) (T_Kind t) (T_OrgID t) (T_Name t) (T_Payload t) (T_Status t) (T_Error t) v)] _ _ _.
Next Obligation. distinct_tags. Qed.
Next Obligation. by intros []. Qed.
Next Obligation. intros []. repeat (split; [done|]). done. Qed.

#[global] Program Instance Event_Codec : Codec Event :=
  struct_codec (MkEvent "" 0 "" "" "" 0 None)
    [fld "id" keep E_ID
       (λ v e, MkEvent v (E_OrgID e) (E_Kind e) (E_Name e) (E_Action e) (E_Timestamp e) (E_Payload e));
     fld (H := uuid_Codec) "org_id" keep E_OrgID
       (λ v e, MkEvent (E_ID e) v (E_Kind e) (E_Name e) (E_Action e) (E_Timestamp e) (E_Payload e));
     fld "kind" keep E_Kind
       (λ v e, MkEvent (E_ID e) (E_OrgID e) v (E_Name e) (E_Action e) (E_Timestamp e) (E_Payload e));
     fld "name" keep E_Name
       (λ v e, MkEvent (E_ID e) (E_OrgID e) (E_Kind e) v (E_Action e) (E_Timestamp e) (E_Payload e));
     fld "action" keep E_Action
       (λ v e, MkEvent (E_ID e) (E_OrgID e) (E_Kind e) (E_Name e) v (E_Timestamp e) (E_Payload e));
     fld (H := time_Codec) "timestamp" keep E_Timestamp
       (λ v e, MkEvent (E_ID e) (E_OrgID e) (E_Kind e) (E_Name e) (E_Action e) v (E_Payload e));
     fld (H := bytes_Codec) "payload" empty_bytes E_Payload
       (λ v e, MkEvent (E_ID e) (E_OrgID e) (E_Kind e) (E_Name e) (E_Action e) (E_Timestamp e) v)] _ _ _.
Next Obligation. distinct_tags. Qed.
Next Obligation. by intros []. Qed.
Next Obligation. intros []. repeat (split; [done|]). done. Qed.

(** [json.Marshal] and [json.Unmarshal] at these types. *)
Definition marshal_task (t : Task) : option string := json_Marshal t.
Definition unmarshal_task (data : string) : option Task := json_Unmarshal Columns.zero data.
Definition marshal_event (e : Event) : option string := json_Marshal e.
Definition unmarshal_event (data : string) : option Event := json_Unmarshal Columns.zero data.

Lemma message_read {T} `{HT : !Codec T} (x : T) :
  codec_ok x → Z.of_nat (codec_depth (T := T)) ≤ max_depth →
  ∃ data, json_Marshal x = Some data ∧ json_Unmarshal Columns.zero data = Some x.
Proof. intros Hok Hd. eexists. split; [done|]. by apply (json_read (H := Jsonb_text)). Qed.

Lemma task_read t : codec_ok t → ∃ data, marshal_task t = Some data ∧ unmarshal_task data = Some t.
Proof. intros Hok. apply message_read; [done|by vm_compute]. Qed.

Lemma event_read e : codec_ok e → ∃ data, marshal_event e = Some data ∧ unmarshal_event data = Some e.
Proof. intros Hok. apply message_read; [done|by vm_compute]. Qed.

(** * The Valkey bus from publisher to subscriber *)

(** Whether the server hands a message of a channel to a subscription: a channel
    by its name, a pattern that ends in a star by its prefix. *)
Definition subscribed (s : valkeySubscription) (channel : string) : bool :=
  match s with
  | Pattern p => HasPrefix channel (TrimSuffix p "*")
  | Channels cs => bool_decide (channel ∈ cs)
  end.

Lemma subscribed_wants kinds e :
  subscribed (ValkeySubscribe kinds) (valkeyChannelPrefix +:+ E_Kind e) = wants (list_to_set kinds) e.
Proof.
  unfold wants. destruct kinds as [|k kinds].
  - unfold ValkeySubscribe, subscribed. rewrite TrimSuffix_app. unfold HasPrefix. rewrite prefix_app. by rewrite bool_decide_eq_true_2.
  - cbn [ValkeySubscribe subscribed]. rewrite (bool_decide_eq_false_2 (list_to_set _ = _)) by set_solver.
    apply bool_decide_ext. rewrite elem_of_list_to_set, list_elem_of_In, in_map_iff. setoid_rewrite <-list_elem_of_In.
    split; [intros (x & Hx%(inj (String.append _)) & Hk); by subst|eauto].
Qed.

(** An event published on the Valkey bus reaches exactly the subscribers that want
    its kind, and they decode the event that was published, with its payload and
    its time. *)
Theorem valkey_delivers send uid now e0 kinds :
  let e := stamp uid now e0 in
  codec_ok e →
  ∃ channel data, ValkeyPublish marshal_event send uid now e0 = send channel data ∧
    unmarshal_event data = Some e ∧ subscribed (ValkeySubscribe kinds) channel = wants (list_to_set kinds) e.
Proof.
  intros e He. destruct (event_read e He) as (data & Hm & Hu). eexists _, data.
  split; [|split; [exact Hu|apply subscribed_wants]]. unfold ValkeyPublish. fold e. by rewrite Hm.
Qed.
End messages.
