(* ===== verification/TaskQueue.v ===== *)
(** The contract of a task queue (the interface [Queue] of src/work/queue.go): its
    specification as a labelled transition system, the interface of an
    implementation with its laws, the refinement theorem proved against that
    interface, and what clients get from it.  The three queues of src/work are
    shown to satisfy the laws in TaskQueueImpl.v. *)

From S2P Require Import Prelude GoStrings Resource Gorm Queue.

(** * The specification *)

(** What a queue keeps of a task. *)
Record job := MkJob {
  j_ID : string;
  j_Kind : string;
  j_OrgID : uuid;
  j_Name : string;
  j_Payload : string;
  j_CreatedAt : Time;
}.

Definition job_of (t : Task) : job :=
  MkJob (T_ID t) (T_Kind t) (T_OrgID t) (T_Name t) (T_Payload t) (T_CreatedAt t).

(** A job waits, waits for a retry, is held by a worker, or is done with. *)
Inductive jstate := Ready | Later (at_ : Time) | Held | Gone.

Definition due (now : Time) (st : jstate) : bool :=
  match st with Ready => true | Later t => t <=? now | Held | Gone => false end.

(** The jobs in order of arrival. *)
Abbreviation backlog := (list (job * jstate)).

Definition ids (s : backlog) : list string := (λ x, j_ID x.1) <$> s.

Definition held (id : string) (s : backlog) : Prop := ∃ j, (j, Held) ∈ s ∧ j_ID j = id.

(** The jobs whose id passes the test get the state. *)
Definition mark (p : string → bool) (st : jstate) (s : backlog) : backlog :=
  List.map (λ x, if p (j_ID x.1) then (x.1, st) else x) s.

(** What is seen of a call, with its outcome. *)
Inductive call :=
| Enqueued (j : job)
| Claimed (kinds : list string) (t : Task)
| NoTasks (kinds : list string)
| Completed (id : string)
| Failed (id : string)
| Released (released : list string)
| Refused.

(** A claim takes the first due job of its kind; which kind, if it accepts several
    that have one, is left open.  A failed job is done with or waits for a retry.
    The queue may release jobs whose workers are taken for dead. *)
Inductive spec_step (now : Time) (s : backlog) : call → backlog → Prop :=
| sp_enqueue j : j_ID j ∉ ids s → spec_step now s (Enqueued j) (s ++ [(j, Ready)])
| sp_claim kinds t s1 st s2 :
    s = s1 ++ (job_of t, st) :: s2 → due now st = true → T_Kind t ∈ kinds → T_Status t = TaskRunning →
    (∀ j st', (j, st') ∈ s1 → due now st' = true → j_Kind j ≠ T_Kind t) →
    spec_step now s (Claimed kinds t) (mark (String.eqb (T_ID t)) Held s)
| sp_none kinds :
    (∀ j st, (j, st) ∈ s → j_Kind j ∈ kinds → due now st = false) → spec_step now s (NoTasks kinds) s
| sp_complete id : held id s → spec_step now s (Completed id) (mark (String.eqb id) Gone s)
| sp_fail id st : held id s → st = Gone ∨ (∃ t, st = Later t) → spec_step now s (Failed id) (mark (String.eqb id) st s)
| sp_release l : (∀ id, id ∈ l → held id s) →
    spec_step now s (Released l) (mark (λ id, bool_decide (id ∈ l)) Ready s)
| sp_refuse : spec_step now s Refused s.

(** The calls of a run, in order. *)
Inductive run {S} (step : S → call → S → Prop) : S → list call → S → Prop :=
| run_nil x : run step x [] x
| run_cons x c y l z : step x c y → run step y l z → run step x (c :: l) z.

Definition spec (x : Time * backlog) (c : call) (y : Time * backlog) : Prop :=
  x.1 ≤ y.1 ∧ spec_step y.1 x.2 c y.2.

(** * The protocol of the clients

    Tasks have ids of their own, and only a task that was claimed and not reported
    or released since is reported. *)

Definition obeys (p : gset string * gset string) (c : call) : Prop :=
  match c with
  | Enqueued j => j_ID j ∉ p.1
  | Completed id | Failed id => id ∈ p.2
  | _ => True
  end.

Definition after (p : gset string * gset string) (c : call) : gset string * gset string :=
  match c with
  | Enqueued j => ({[j_ID j]} ∪ p.1, p.2)
  | Claimed _ t => (p.1, {[T_ID t]} ∪ p.2)
  | Completed id | Failed id => (p.1, p.2 ∖ {[id]})
  | Released l => (p.1, p.2 ∖ list_to_set l)
  | NoTasks _ | Refused => p
  end.

Fixpoint protocol (p : gset string * gset string) (l : list call) : Prop :=
  match l with [] => True | c :: l => obeys p c ∧ protocol (after p c) l end.

(** * Implementations *)

(** The interface [Queue], with the outcome of statements that can fail as an
    argument of type [E], and the maintenance that runs besides it.  [calm] says
    that nothing fails during a call, [q_accepts] of the stored task that the
    implementation can represent it. *)
Class TaskQueue (Q E : Type) := {
  q_new : Q;
  q_enqueue : E → string → Time → Task → Q → option queueErr * Q;
  q_claim : E → Time → list string → Q → (queueErr + Task) * Q;
  q_complete : E → Time → string → Q → option queueErr * Q;
  q_fail : E → Time → string → string → Q → option queueErr * Q;
  q_tick : E → Time → Q → list string * Q;
  q_accepts : Task → Prop;
  calm : E → Q → Prop;
}.

Section impl.
Context {Q E : Type} `{TaskQueue Q E}.

(** Every call of an implementation with its outcome, at a time that moves on from
    one task to the next. *)
Inductive impl_step : Time * Q → call → Time * Q → Prop :=
| i_enqueue env uid last now task q q' :
    last < now → q_accepts (fresh_task uid now task) → q_enqueue env uid now task q = (None, q') →
    impl_step (last, q) (Enqueued (job_of (fresh_task uid now task))) (now, q')
| i_enqueue_err env uid last now task q e q' :
    last < now → q_enqueue env uid now task q = (Some e, q') → impl_step (last, q) Refused (now, q')
| i_claim env last now kinds q t q' :
    last ≤ now → kinds ≠ [] → q_claim env now kinds q = (inr t, q') → impl_step (last, q) (Claimed kinds t) (now, q')
| i_none env last now kinds q q' :
    last ≤ now → kinds ≠ [] → calm env q → q_claim env now kinds q = (inl ErrNoTasks, q') →
    impl_step (last, q) (NoTasks kinds) (now, q')
| i_claim_err env last now kinds q e q' :
    last ≤ now → kinds ≠ [] → e ≠ ErrNoTasks ∨ ¬ calm env q → q_claim env now kinds q = (inl e, q') →
    impl_step (last, q) Refused (now, q')
| i_complete env last now id q q' :
    last ≤ now → q_complete env now id q = (None, q') → impl_step (last, q) (Completed id) (now, q')
| i_complete_err env last now id q e q' :
    last ≤ now → q_complete env now id q = (Some e, q') → impl_step (last, q) Refused (now, q')
| i_fail env last now id reason q q' :
    last ≤ now → q_fail env now id reason q = (None, q') → impl_step (last, q) (Failed id) (now, q')
| i_fail_err env last now id reason q e q' :
    last ≤ now → q_fail env now id reason q = (Some e, q') → impl_step (last, q) Refused (now, q')
| i_tick env last now q l q' :
    last ≤ now → q_tick env now q = (l, q') → impl_step (last, q) (Released l) (now, q').

(** When nothing fails the calls a client is entitled to succeed. *)
Definition progress (last : Time) (s : backlog) (q : Q) : Prop :=
  ∀ env now, last < now → calm env q →
  (∀ uid task, q_accepts (fresh_task uid now task) → T_ID (fresh_task uid now task) ∉ ids s →
     (q_enqueue env uid now task q).1 = None) ∧
  (∀ kinds j st, (j, st) ∈ s → j_Kind j ∈ kinds → due now st = true → ∃ t, (q_claim env now kinds q).1 = inr t) ∧
  (∀ id reason, held id s → (q_complete env now id q).1 = None ∧ (q_fail env now id reason q).1 = None).

(** The queue implements the contract. *)
Definition implements : Prop :=
  ∀ t0 l t q, run impl_step (t0, q_new) l (t, q) → protocol (∅, ∅) l →
  ∃ s, run spec (t0, []) l (t, s) ∧ progress t s q.
End impl.
Arguments implements Q E {_}.

(** The laws of an implementation: a relation between a backlog and its state, and
    for each operation what it returns and that the relation is kept. *)
Class TaskQueueLaws (Q E : Type) `{TaskQueue Q E} := {
  rep : Time → backlog → Q → Prop;
  rep_new : ∀ t, rep t [] q_new;
  enqueue_law : ∀ env uid last now task s q,
    rep last s q → last < now →
    match q_enqueue env uid now task q with
    | (None, q') =>
        q_accepts (fresh_task uid now task) → T_ID (fresh_task uid now task) ∉ ids s →
        rep now (s ++ [(job_of (fresh_task uid now task), Ready)]) q'
    | (Some _, q') =>
        rep now s q' ∧
        (calm env q → q_accepts (fresh_task uid now task) → T_ID (fresh_task uid now task) ∈ ids s)
    end;
  claim_law : ∀ env last now kinds s q,
    rep last s q → last ≤ now → kinds ≠ [] →
    match q_claim env now kinds q with
    | (inr t, q') => ∃ s', spec_step now s (Claimed kinds t) s' ∧ rep now s' q'
    | (inl e, q') =>
        rep now s q' ∧ (calm env q → e = ErrNoTasks ∧ ∀ j st, (j, st) ∈ s → j_Kind j ∈ kinds → due now st = false)
    end;
  complete_law : ∀ env last now id s q,
    rep last s q → last ≤ now →
    match q_complete env now id q with
    | (None, q') => held id s → rep now (mark (String.eqb id) Gone s) q'
    | (Some _, q') => rep now s q' ∧ (calm env q → ¬ held id s)
    end;
  fail_law : ∀ env last now id reason s q,
    rep last s q → last ≤ now →
    match q_fail env now id reason q with
    | (None, q') => held id s → ∃ st, (st = Gone ∨ ∃ t, st = Later t) ∧ rep now (mark (String.eqb id) st s) q'
    | (Some _, q') => rep now s q' ∧ (calm env q → ¬ held id s)
    end;
  tick_law : ∀ env last now s q,
    rep last s q → last ≤ now →
    let '(l, q') := q_tick env now q in
    (∀ id, id ∈ l → held id s) ∧ rep now (mark (λ id, bool_decide (id ∈ l)) Ready s) q';
}.

(** * Lemmas on backlogs *)

Lemma ids_mark p st s : ids (mark p st s) = ids s.
Proof. unfold ids, mark. rewrite <-list_fmap_compose. apply list_fmap_ext. intros i x _. simpl. by destruct (p _). Qed.

Lemma ids_app s1 s2 : ids (s1 ++ s2) = ids s1 ++ ids s2.
Proof. apply fmap_app. Qed.

Lemma elem_of_ids id s : id ∈ ids s ↔ ∃ j st, (j, st) ∈ s ∧ j_ID j = id.
Proof.
  unfold ids. rewrite list_elem_of_fmap. split.
  - intros ([j st] & -> & Hx). eauto.
  - intros (j & st & Hx & <-). by exists (j, st).
Qed.

Lemma elem_of_mark p st s j st' :
  (j, st') ∈ mark p st s ↔ ∃ st0, (j, st0) ∈ s ∧ st' = if p (j_ID j) then st else st0.
Proof.
  unfold mark. rewrite list_elem_of_fmap. split.
  - intros ([j0 st0] & Hx & Hin). simpl in Hx. exists st0. destruct (p (j_ID j0)) eqn:Ep; simplify_eq; by rewrite ?Ep.
  - intros (st0 & Hin & ->). exists (j, st0). split; [|done]. simpl. by destruct (p (j_ID j)).
Qed.

Lemma held_ids id s : held id s → id ∈ ids s.
Proof. intros (j & Hj & Hid). apply elem_of_ids. eauto. Qed.

Lemma held_mark id p st s :
  held id (mark p st s) ↔ if p id then st = Held ∧ id ∈ ids s else held id s.
Proof.
  unfold held. setoid_rewrite elem_of_mark. destruct (p id) eqn:Ep; [rewrite elem_of_ids|].
  - split; [intros (j & (st0 & Hj & Hst) & <-); rewrite Ep in Hst; eauto 6|].
    intros (-> & j & st0 & Hj & <-). exists j. split; [|done]. exists st0. by rewrite Ep.
  - split; intros (j & Hj & <-); exists j; (split; [|done]).
    + destruct Hj as (st0 & Hj & Hst). rewrite Ep in Hst. by subst.
    + exists Held. by rewrite Ep.
Qed.

Lemma mark_none p st s : (∀ id, id ∈ ids s → p id = false) → mark p st s = s.
Proof.
  intros Hp. unfold mark. rewrite <-(list_fmap_id s) at 2. apply list_fmap_ext. intros i [j st0] Hx. simpl.
  rewrite Hp; [done|]. apply elem_of_ids. exists j, st0. split; [by eapply list_elem_of_lookup_2|done].
Qed.

Lemma mark_app p st s1 s2 : mark p st (s1 ++ s2) = mark p st s1 ++ mark p st s2.
Proof. apply List.map_app. Qed.

(** In a backlog whose ids differ, one of them occurs once. *)
Lemma job_unique s j st j' st' :
  NoDup (ids s) → (j, st) ∈ s → (j', st') ∈ s → j_ID j = j_ID j' → j = j' ∧ st = st'.
Proof. intros Hnd H1 H2 He. pose proof (NoDup_key_inj (λ x : job * jstate, j_ID x.1) s _ _ Hnd H1 H2 He). by simplify_eq. Qed.

Lemma held_only id s j st : NoDup (ids s) → held id s → (j, st) ∈ s → j_ID j = id → st = Held.
Proof. intros Hnd (j' & Hj' & <-) Hj He. by destruct (job_unique s j st j' Held). Qed.

(** The ids around a split backlog differ from the one in the middle. *)
Lemma ids_split s1 j st s2 id :
  NoDup (ids (s1 ++ (j, st) :: s2)) → id ∈ ids s1 ∨ id ∈ ids s2 → j_ID j ≠ id.
Proof.
  rewrite ids_app. change (ids ((j, st) :: s2)) with (j_ID j :: ids s2). rewrite NoDup_app, NoDup_cons. set_solver.
Qed.

(** * Agreement of the protocol with the backlog *)

Definition agree (p : gset string * gset string) (s : backlog) : Prop :=
  NoDup (ids s) ∧ (∀ id, id ∈ p.1 ↔ id ∈ ids s) ∧ (∀ id, id ∈ p.2 ↔ held id s).

Lemma spec_agree now p s c s' : spec_step now s c s' → agree p s → agree (after p c) s'.
Proof.
  intros Hs (Hnd & Hid & Hh). destruct Hs as [j Hj|kinds t s1 st s2 -> Hd Hk _ _|kinds _|id Hi|id st Hi Hst|l Hl|];
    unfold agree; cbn [after fst snd]; rewrite ?ids_mark.
  - rewrite ids_app. split_and!.
    + apply NoDup_app. split_and!; [done| |apply NoDup_singleton]. set_solver.
    + intros id. rewrite elem_of_app, <-Hid. set_solver.
    + intros id. rewrite Hh. unfold held. set_solver.
  - split_and!; [done..|]. intros id. rewrite elem_of_union, elem_of_singleton, held_mark, Hh.
    destruct (String.eqb_spec (T_ID t) id) as [<-|]; [|set_solver].
    split; [intros _; split; [done|]; rewrite ids_app; set_solver|by left].
  - done.
  - split_and!; [done..|]. intros x. rewrite elem_of_difference, elem_of_singleton, held_mark, Hh.
    destruct (String.eqb_spec id x) as [<-|]; [split; [tauto|by intros []]|naive_solver].
  - split_and!; [done..|]. intros x. rewrite elem_of_difference, elem_of_singleton, held_mark, Hh.
    destruct (String.eqb_spec id x) as [<-|]; [split; [tauto|by intros [-> _]; destruct Hst as [|[]]]|naive_solver].
  - split_and!; [done..|]. intros x. rewrite elem_of_difference, elem_of_list_to_set, held_mark, Hh.
    destruct (bool_decide_reflect (x ∈ l)); [split; [tauto|by intros []]|tauto].
  - done.
Qed.

(** * The refinement *)

(** A law at the call in the context, with the outcome the call had. *)
Ltac law L := pose proof L as Hl; match goal with Hq : _ = (_, _) |- _ => rewrite Hq in Hl end.

Section refinement.
Context {Q E : Type} `{TaskQueueLaws Q E}.

Lemma impl_simulates last q c now q' s p :
  impl_step (last, q) c (now, q') → rep last s q → agree p s → obeys p c →
  ∃ s', spec (last, s) c (now, s') ∧ rep now s' q' ∧ agree (after p c) s'.
Proof.
  intros Hs Hr Ha Ho.
  enough (∃ s', last ≤ now ∧ spec_step now s c s' ∧ rep now s' q') as (s' & Hle & Hsp & Hr').
  { exists s'. split; [done|]. split; [done|]. by eapply spec_agree. }
  destruct Ha as (_ & Hid & Hh). inversion Hs; subst; clear Hs.
  - law (enqueue_law env uid last now task s q Hr ltac:(done)).
    simpl in Ho. rewrite Hid in Ho. eexists. split; [lia|]. split; [by constructor|]. by apply Hl.
  - law (enqueue_law env uid last now task s q Hr ltac:(done)).
    exists s. split; [lia|]. split; [constructor|]. by apply Hl.
  - law (claim_law env last now kinds s q Hr ltac:(done) ltac:(done)).
    destruct Hl as (s' & ? & ?). eauto.
  - law (claim_law env last now kinds s q Hr ltac:(done) ltac:(done)).
    exists s. split; [done|]. destruct Hl as [? Hc]. split; [|done]. constructor. by apply Hc.
  - law (claim_law env last now kinds s q Hr ltac:(done) ltac:(done)).
    exists s. split; [done|]. split; [constructor|]. by apply Hl.
  - law (complete_law env last now id s q Hr ltac:(done)).
    simpl in Ho. rewrite Hh in Ho. eexists. split; [done|]. split; [by constructor|]. by apply Hl.
  - law (complete_law env last now id s q Hr ltac:(done)).
    exists s. split; [done|]. split; [constructor|]. by apply Hl.
  - law (fail_law env last now id reason s q Hr ltac:(done)).
    simpl in Ho. rewrite Hh in Ho. destruct (Hl Ho) as (st & Hst & ?). eexists. split; [done|]. split; [by constructor|done].
  - law (fail_law env last now id reason s q Hr ltac:(done)).
    exists s. split; [done|]. split; [constructor|]. by apply Hl.
  - law (tick_law env last now s q Hr ltac:(done)). destruct Hl as [? ?].
    eexists. split; [done|]. split; [by constructor|done].
Qed.

Lemma impl_runs x l y s p :
  run impl_step x l y → rep x.1 s x.2 → agree p s → protocol p l →
  ∃ s', run spec (x.1, s) l (y.1, s') ∧ rep y.1 s' y.2 ∧ ∃ p', agree p' s'.
Proof.
  intros Hrun. revert s p. induction Hrun as [x|[t q] c [t1 q1] l z Hs _ IH]; intros s p Hr Ha Hp.
  - exists s. split; [constructor|eauto].
  - destruct Hp as [Ho Hp]. destruct (impl_simulates _ _ _ _ _ _ _ Hs Hr Ha Ho) as (s1 & Hs1 & Hr1 & Ha1).
    destruct (IH s1 _ Hr1 Ha1 Hp) as (s' & Hs' & ?). exists s'. split; [|done]. by econstructor.
Qed.

Lemma agree_new : agree (∅, ∅) [].
Proof. split; [constructor|]. split; intros id; [set_solver|]. unfold held. set_solver. Qed.

Lemma laws_progress last s q : rep last s q → progress last s q.
Proof.
  intros Hr env now Hlt Hc. split_and!.
  - intros uid task Ha Hid. pose proof (enqueue_law env uid last now task s q Hr Hlt) as Hl.
    destruct (q_enqueue env uid now task q) as [[e|] q']; [|done]. by destruct Hid; apply Hl.
  - intros kinds j st Hj Hk Hd. assert (kinds ≠ []) as Hne by (intros ->; set_solver).
    pose proof (claim_law env last now kinds s q Hr ltac:(lia) Hne) as Hl.
    destruct (q_claim env now kinds q) as [[e|t] q']; [|eauto]. destruct Hl as [_ Hl].
    destruct (Hl Hc) as [_ Hn]. by rewrite (Hn j st Hj Hk) in Hd.
  - intros id reason Hh. split.
    + pose proof (complete_law env last now id s q Hr ltac:(lia)) as Hl.
      destruct (q_complete env now id q) as [[e|] q']; [|done]. by destruct Hl as [_ []].
    + pose proof (fail_law env last now id reason s q Hr ltac:(lia)) as Hl.
      destruct (q_fail env now id reason q) as [[e|] q']; [|done]. by destruct Hl as [_ []].
Qed.

Lemma laws_implement : implements Q E.
Proof.
  intros t0 l t q Hrun Hp. destruct (impl_runs _ _ _ [] _ Hrun (rep_new t0) agree_new Hp) as (s & Hs & Hr & _).
  exists s. split; [exact Hs|by apply laws_progress].
Qed.
End refinement.

(** * What the contract gives to clients *)

Definition claimed_of (k : string) (c : call) : option job :=
  match c with Claimed _ t => if String.eqb (T_Kind t) k then Some (job_of t) else None | _ => None end.

Definition enqueued_of (k : string) (c : call) : option job :=
  match c with Enqueued j => if String.eqb (j_Kind j) k then Some j else None | _ => None end.

(** The calls after which a task can be claimed again. *)
Definition reopens (id : string) (c : call) : Prop :=
  match c with Failed x => x = id | Released l => id ∈ l | _ => False end.

#[global] Instance reopens_dec id c : Decision (reopens id c).
Proof. destruct c; simpl; apply _. Defined.

Lemma run_app {S} (step : S → call → S → Prop) x l1 l2 z :
  run step x (l1 ++ l2) z → ∃ y, run step x l1 y ∧ run step y l2 z.
Proof.
  revert x. induction l1 as [|c l1 IH]; intros x Hr; [exists x; split; [constructor|done]|].
  inversion Hr as [|? ? y ? ? Hs Hr']; subst. destruct (IH y Hr') as (w & ? & ?). exists w. split; [by econstructor|done].
Qed.

Lemma spec_nodup now s c s' : spec_step now s c s' → NoDup (ids s) → NoDup (ids s').
Proof.
  intros Hs Hnd. destruct Hs; rewrite ?ids_mark; try done. rewrite ids_app. apply NoDup_app.
  split_and!; [done|set_solver|apply NoDup_singleton].
Qed.

(** ** Tasks come from clients *)

Definition genuine (l : list call) (s : backlog) : Prop := ∀ j st, (j, st) ∈ s → Enqueued j ∈ l.

Lemma spec_genuine now l s c s' : spec_step now s c s' → genuine l s → genuine (l ++ [c]) s'.
Proof.
  intros Hs Hg j st. assert (∀ j st, (j, st) ∈ s → Enqueued j ∈ l ++ [c]) as Hg' by (intros; apply elem_of_app; left; eauto).
  destruct Hs as [j0 Hj|kinds t s1 st0 s2 -> Hd Hk _ _|kinds _|id Hi|id st0 Hi Hst|l0 Hl|];
    rewrite ?elem_of_mark; try naive_solver.
  intros [|Hin%list_elem_of_singleton]%elem_of_app; [eauto|]. simplify_eq. set_solver.
Qed.

Lemma run_genuine x l y l0 : run spec x l y → genuine l0 x.2 → genuine (l0 ++ l) y.2.
Proof.
  intros Hr. revert l0. induction Hr as [x|x c y l z [_ Hs] _ IH]; intros l0 Hg; [by rewrite app_nil_r|].
  rewrite (cons_middle c l0 l), (assoc_L (++)). apply IH. by eapply spec_genuine.
Qed.

(** ** A claimed task is not handed out again *)

(** The task is held or done with. *)
Definition taken (id : string) (s : backlog) : Prop :=
  id ∈ ids s ∧ ∀ j st, (j, st) ∈ s → j_ID j = id → st = Held ∨ st = Gone.

Lemma spec_taken now id s c s' :
  spec_step now s c s' → taken id s → ¬ reopens id c → taken id s' ∧ ∀ ks t, c = Claimed ks t → T_ID t ≠ id.
Proof.
  intros Hs [Hi Ht] Hc. unfold taken.
  destruct Hs as [j0 Hj|kinds t s1 st0 s2 -> Hd Hk _ _|kinds _|x Hx|x st0 Hx Hst|l0 Hl|]; rewrite ?ids_mark;
    (split; [split; [try done|]|try done]); try done; try setoid_rewrite elem_of_mark.
  - rewrite ids_app. set_solver.
  - intros j st [|Hin%list_elem_of_singleton]%elem_of_app Hj'; [eauto|]. simplify_eq. done.
  - intros j st (st1 & Hin & ->) Hj. destruct (String.eqb (T_ID t) (j_ID j)); [by left|eauto].
  - intros ks t' [= <- <-] He. destruct (Ht (job_of t) st0) as [-> | ->]; [set_solver|done..].
  - intros j st (st1 & Hin & ->) Hj. destruct (String.eqb x (j_ID j)); [by right|eauto].
  - intros j st (st1 & Hin & ->) Hj. destruct (String.eqb_spec x (j_ID j)) as [->|]; [done|eauto].
  - intros j st (st1 & Hin & ->) Hj. destruct (bool_decide_reflect (j_ID j ∈ l0)); [by subst|eauto].
Qed.

Lemma run_reopened id l1 : ∀ x ks t l2 z,
  run spec x (l1 ++ Claimed ks t :: l2) z → taken id x.2 → T_ID t = id → ∃ c, c ∈ l1 ∧ reopens id c.
Proof.
  induction l1 as [|c l1 IH]; intros x ks t l2 z Hr Ht He; inversion Hr as [|? ? y ? ? [_ Hs] Hr']; subst.
  - destruct (spec_taken _ _ _ _ _ Hs Ht (λ H, H)) as [_ Hne]. by destruct (Hne ks t).
  - destruct (decide (reopens (T_ID t) c)) as [Hc|Hc]; [exists c; split; [left|done]|].
    destruct (spec_taken _ _ _ _ _ Hs Ht Hc) as [Ht' _]. destruct (IH y ks t l2 z Hr' Ht' eq_refl) as (c' & ? & ?).
    exists c'. split; [by right|done].
Qed.

Lemma claim_taken now s ks t s' : spec_step now s (Claimed ks t) s' → taken (T_ID t) s'.
Proof.
  inversion 1 as [|? ? s1 st0 s2| | | | |]; subst. split; [rewrite ids_mark, ids_app; set_solver|].
  intros j st (st1 & _ & ->)%elem_of_mark <-. rewrite String.eqb_refl. by left.
Qed.

(** ** First in, first out *)

Definition of_kind (k : string) (s : backlog) : backlog := bfilter (λ x, String.eqb (j_Kind x.1) k) s.

Lemma of_kind_app k s1 s2 : of_kind k (s1 ++ s2) = of_kind k s1 ++ of_kind k s2.
Proof. apply List.filter_app. Qed.

Lemma of_kind_cons k j st s :
  of_kind k ((j, st) :: s) = (if String.eqb (j_Kind j) k then [(j, st)] else []) ++ of_kind k s.
Proof. unfold of_kind, bfilter. simpl. by destruct (String.eqb _ _). Qed.

Lemma of_kind_mark k p st s : of_kind k (mark p st s) = mark p st (of_kind k s).
Proof.
  unfold of_kind, bfilter, mark. induction s as [|[j st0] s IH]; [done|]. simpl.
  destruct (p (j_ID j)) eqn:Ep; simpl; destruct (String.eqb (j_Kind j) k); simpl; rewrite ?Ep, IH; done.
Qed.

Lemma elem_of_kind k s j st : (j, st) ∈ of_kind k s ↔ (j, st) ∈ s ∧ j_Kind j = k.
Proof. unfold of_kind. rewrite elem_of_bfilter. simpl. by rewrite String.eqb_eq. Qed.

Lemma ids_of_kind k s id : id ∈ ids (of_kind k s) → id ∈ ids s.
Proof. rewrite !elem_of_ids. setoid_rewrite elem_of_kind. naive_solver. Qed.

Lemma fst_mark p st s : (mark p st s).*1 = s.*1.
Proof. unfold mark. rewrite <-list_fmap_compose. apply list_fmap_ext. intros i x _. simpl. by destruct (p _). Qed.

(** A list is split at its first element with a property in one way only. *)
Lemma first_split {A} (P : A → Prop) (l1 l2 d w : list A) x :
  l1 ++ x :: l2 = d ++ w → P x → Forall (λ y, ¬ P y) l1 → Forall (λ y, ¬ P y) d → Forall P w → l1 = d ∧ x :: l2 = w.
Proof.
  revert d. induction l1 as [|y l1 IH]; intros [|z d] He Hx Hl Hd Hw; simpl in *.
  - done.
  - injection He as <- _. by apply Forall_cons in Hd as [? _].
  - subst w. apply Forall_cons in Hw as [? _]. by apply Forall_cons in Hl as [? _].
  - injection He as <- He. apply Forall_cons in Hl as [_ Hl], Hd as [_ Hd]. destruct (IH d He) as [-> ?]; done.
Qed.

(** The claimed jobs of a kind come before those that wait, and both together are
    those enqueued. *)
Record in_order (k : string) (claimed enqueued : list job) (s : backlog) : Prop := {
  io_nodup : NoDup (ids s);
  io_split : ∃ d w, of_kind k s = d ++ w ∧ Forall (λ x, x.2 = Held ∨ x.2 = Gone) d ∧ Forall (λ x, x.2 = Ready) w ∧
    d.*1 = claimed ∧ (d ++ w).*1 = enqueued;
}.

(** A job that is held or done with is marked as such: the order is kept. *)
Lemma in_order_mark k C N s id st :
  in_order k C N s → st = Held ∨ st = Gone → held id s → in_order k C N (mark (String.eqb id) st s).
Proof.
  intros [Hnd (d & w & Hs & Hd & Hw & HC & HN)] Hst Hh. split; [by rewrite ids_mark|].
  rewrite of_kind_mark, Hs, mark_app. rewrite (mark_none _ _ w).
  - exists (mark (String.eqb id) st d), w. rewrite fmap_app, fst_mark, <-fmap_app. split_and!; [done| |done..].
    apply Forall_forall. intros [j st'] (st0 & Hj & ->)%elem_of_mark. rewrite Forall_forall in Hd.
    destruct (String.eqb id (j_ID j)); [done|]. by apply (Hd _ Hj).
  - intros x (j & st0 & Hj & <-)%elem_of_ids. destruct (String.eqb_spec id (j_ID j)) as [->|]; [|done].
    rewrite Forall_forall in Hw. specialize (Hw _ Hj). simpl in Hw. subst st0.
    assert ((j, Ready) ∈ s) as Hin by (apply (elem_of_kind k); rewrite Hs; set_solver).
    by pose proof (held_only _ _ _ _ Hnd Hh Hin eq_refl).
Qed.

Lemma in_order_claim k C N s1 t st s2 :
  in_order k C N (s1 ++ (job_of t, st) :: s2) → st = Ready → T_Kind t = k →
  (∀ j st', (j, st') ∈ s1 → j_Kind j = k → st' ≠ Ready) →
  in_order k (C ++ [job_of t]) N (mark (String.eqb (T_ID t)) Held (s1 ++ (job_of t, st) :: s2)).
Proof.
  intros [Hnd (d & w & Hs & Hd & Hw & HC & HN)] -> Hk Hf. split; [by rewrite ids_mark|].
  pose proof (ids_split _ _ _ _ (T_ID t) Hnd) as Hne.
  assert (String.eqb (j_Kind (job_of t)) k = true) as Hkk by (by apply String.eqb_eq).
  rewrite of_kind_app, of_kind_cons, Hkk in Hs.
  destruct (first_split (λ x, x.2 = Ready) _ _ _ _ _ Hs) as [<- <-]; [done| | |done|].
  { apply Forall_forall. intros [j st] [Hj Hjk]%elem_of_kind. by apply (Hf j). }
  { eapply Forall_impl; [exact Hd|]. intros x [-> | ->]; done. }
  apply Forall_cons in Hw as [_ Hw].
  exists (of_kind k s1 ++ [(job_of t, Held)]), (of_kind k s2).
  assert (∀ s0, (∀ id, id ∈ ids s0 → id ∈ ids s1 ∨ id ∈ ids s2) → mark (String.eqb (T_ID t)) Held (of_kind k s0) = of_kind k s0) as Hm.
  { intros s0 H0. apply mark_none. intros id Hid%ids_of_kind%H0. apply String.eqb_neq. by apply (ids_split s1 (job_of t) Ready s2). }
  rewrite of_kind_mark, of_kind_app, mark_app, Hm by auto. split_and!.
  - rewrite of_kind_cons, Hkk, mark_app, Hm, <-(assoc_L (++)) by auto. simpl. by rewrite String.eqb_refl.
  - apply Forall_app. split; [done|]. by repeat constructor; left.
  - done.
  - by rewrite fmap_app, HC.
  - rewrite <-HN. rewrite !fmap_app, <-(assoc_L (++)). done.
Qed.

(** Claims of another kind do not touch the kind. *)
Lemma in_order_other k C N s t st :
  in_order k C N s → (job_of t, st) ∈ s → T_Kind t ≠ k → in_order k C N (mark (String.eqb (T_ID t)) Held s).
Proof.
  intros [Hnd Hs] Hin Hk. split; [by rewrite ids_mark|]. rewrite of_kind_mark, mark_none; [done|].
  intros id (j & st0 & [Hj Hjk]%elem_of_kind & <-)%elem_of_ids. apply String.eqb_neq. intros He.
  destruct (job_unique s (job_of t) st j st0 Hnd Hin Hj He) as [<- _]. done.
Qed.

Definition closes (c : call) : Prop := match c with Failed _ | Released _ => False | _ => True end.

(** Without failures no job waits for a retry. *)
Definition punctual (s : backlog) : Prop := ∀ j st, (j, st) ∈ s → ∀ t, st ≠ Later t.

Lemma spec_punctual now s c s' : spec_step now s c s' → closes c → punctual s → punctual s'.
Proof.
  intros Hs Hc Hp. destruct Hs; try done; intros j' st'; rewrite ?elem_of_mark.
  - intros [|Hin%list_elem_of_singleton]%elem_of_app; [eauto|by simplify_eq].
  - intros (st0 & Hj & ->). destruct (String.eqb _ _); [done|eauto].
  - intros (st0 & Hj & ->). destruct (String.eqb _ _); [done|eauto].
Qed.

Lemma spec_in_order now k C N s c s' :
  spec_step now s c s' → closes c → punctual s → in_order k C N s →
  in_order k (C ++ omap (claimed_of k) [c]) (N ++ omap (enqueued_of k) [c]) s'.
Proof.
  intros Hs Hc Hdue Hio. assert (∀ j st, (j, st) ∈ s → due now st = true → st = Ready) as Hready.
  { intros j [|at_| |] Hj; try done. by destruct (Hdue j _ Hj at_). }
  destruct Hs as [j Hj|kinds t s1 st s2 -> Hd Hk _ Hf|kinds _|id Hh|id st _ _|l _|]; try done;
    cbn [omap list_omap claimed_of enqueued_of]; rewrite ?app_nil_r; try done.
  - destruct Hio as [Hnd (d & w & Hs & Hd & Hw & HC & HN)]. split.
    { rewrite ids_app. apply NoDup_app. split_and!; [done|set_solver|apply NoDup_singleton]. }
    rewrite of_kind_app, of_kind_cons. change (of_kind k []) with (@nil (job * jstate)). rewrite app_nil_r.
    destruct (String.eqb (j_Kind j) k); [|rewrite !app_nil_r; eauto 10].
    exists d, (w ++ [(j, Ready)]). rewrite Hs, (assoc_L (++)), fmap_app, HN. split_and!; try done.
    apply Forall_app. split; [done|by repeat constructor].
  - assert (st = Ready) as -> by (apply (Hready (job_of t)); [set_solver|done]).
    destruct (String.eqb_spec (T_Kind t) k) as [Hkk|Hkk]; [|rewrite app_nil_r; apply (in_order_other k C N _ t Ready); [done|set_solver|done]].
    eapply in_order_claim; [done..|]. intros j st' Hj Hjk ->. by apply (Hf j Ready Hj); [|congruence].
  - apply in_order_mark; auto.
Qed.

Lemma run_in_order k x l y C N :
  run spec x l y → (∀ c, c ∈ l → closes c) → punctual x.2 → in_order k C N x.2 →
  in_order k (C ++ omap (claimed_of k) l) (N ++ omap (enqueued_of k) l) y.2.
Proof.
  intros Hr. revert C N. induction Hr as [x|x c y l z [_ Hs] _ IH]; intros C N Hc Hp Hio; [by rewrite !app_nil_r|].
  change (c :: l) with ([c] ++ l). rewrite !omap_app, !(assoc_L (++)).
  assert (closes c) as Hcc by (apply Hc; left). apply IH.
  - intros c' Hc'. apply Hc. by right.
  - by eapply spec_punctual.
  - by eapply spec_in_order.
Qed.

