(* ===== verification/TaskQueueImpl.v ===== *)
(** The queues of src/work as instances of the contract of TaskQueue.v: the
    in-memory queue, the PostgreSQL queue with its retries and its recovery loop,
    and the Valkey queue over the documented behaviour of streams with a consumer
    group. *)

From S2P Require Import Prelude GoStrings GoJson JsonPrint Resource Gorm Models Columns Wire Queue Events Messages TaskQueue.

(** * Tables that follow a backlog *)

Section follows.
Context {R : Type} (key : R → string) (P : job * jstate → R → Prop).
Hypothesis P_key : ∀ x r, P x r → key r = j_ID x.1.

Lemma follows_ids s q : Forall2 P s q → key <$> q = ids s.
Proof. induction 1 as [|x r s q Hx _ IH]; [done|]. cbn. by rewrite IH, (P_key x r). Qed.

Lemma follows_mark p st f s q :
  Forall2 P s q → (∀ x r, x ∈ s → r ∈ q → P x r → p (j_ID x.1) = true → P (x.1, st) (f r)) →
  Forall2 P (mark p st s) (List.map (λ r, if p (key r) then f r else r) q).
Proof.
  induction 1 as [|x r s q Hx _ IH]; intros Hf; [constructor|]. cbn. rewrite (P_key x r) by done. constructor.
  - destruct (p (j_ID x.1)) eqn:Ep; [|done]. apply Hf; [left|left|done..].
  - apply IH. intros x' r' Hx' Hr'. apply Hf; by right.
Qed.

(** The entry of a record, and the other way round. *)
Lemma follows_entry s q r : Forall2 P s q → r ∈ q → ∃ x, x ∈ s ∧ P x r.
Proof.
  induction 1 as [|x r' s q Hx _ IH]; intros Hr; [by apply elem_of_nil in Hr|].
  apply elem_of_cons in Hr as [->|Hr]; [exists x; split; [left|done]|]. destruct (IH Hr) as (y & ? & ?). exists y. split; [by right|done].
Qed.

Lemma follows_record s q x : Forall2 P s q → x ∈ s → ∃ r, r ∈ q ∧ P x r.
Proof.
  induction 1 as [|x' r s q Hx _ IH]; intros Hin; [by apply elem_of_nil in Hin|].
  apply elem_of_cons in Hin as [->|Hin]; [exists r; split; [left|done]|]. destruct (IH Hin) as (y & ? & ?). exists y. split; [by right|done].
Qed.
End follows.

(** Changing the records with the key of one of them changes that one. *)
Lemma map_unique {R} (key : R → string) (f : R → R) l1 r l2 :
  NoDup (key <$> (l1 ++ r :: l2)) →
  List.map (λ x, if String.eqb (key r) (key x) then f x else x) (l1 ++ r :: l2) = l1 ++ f r :: l2.
Proof.
  rewrite fmap_app, fmap_cons, NoDup_app, NoDup_cons. intros (_ & Hd & Hr & _).
  assert (∀ l, key r ∉ key <$> l → List.map (λ x, if String.eqb (key r) (key x) then f x else x) l = l) as Hl.
  { intros l. induction l as [|y l IH]; [done|]. rewrite fmap_cons, not_elem_of_cons. intros [Hne Hn].
    simpl. rewrite IH by done. by destruct (String.eqb_spec (key r) (key y)). }
  rewrite List.map_app. simpl. rewrite String.eqb_refl, !Hl; [done|done|].
  intros H. by apply (Hd (key r) H); left.
Qed.

(** * The in-memory queue *)

#[global] Instance Mem_TaskQueue : TaskQueue (list Task) unit := {
  q_new := [];
  q_enqueue := λ _ uid now task q, Mem.Enqueue uid now task q;
  q_claim := λ _ _ kinds q, Mem.Claim kinds q;
  q_complete := λ _ _ id q, Mem.Complete id q;
  q_fail := λ _ _ id reason q, Mem.Fail id reason q;
  q_tick := λ _ _ q, ([], q);
  q_accepts := λ _, True;
  calm := λ _ _, True;
}.

Definition mem_entry (x : job * jstate) (t : Task) : Prop :=
  job_of t = x.1 ∧
  match x.2 with
  | Ready => T_Status t = TaskPending
  | Later _ => False
  | Held => T_Status t = TaskRunning
  | Gone => T_Status t = TaskCompleted ∨ T_Status t = TaskFailed
  end.

Definition mem_rep (_ : Time) (s : backlog) (q : list Task) : Prop := NoDup (ids s) ∧ Forall2 mem_entry s q.

Lemma mem_key x t : mem_entry x t → T_ID t = j_ID x.1.
Proof. by intros [<- _]. Qed.

Lemma update_first_spec id f q :
  NoDup (T_ID <$> q) →
  match Mem.update_first id f q with
  | (None, q') => q' = List.map (λ t, if String.eqb id (T_ID t) then f t else t) q
  | (Some _, q') => q' = q ∧ id ∉ T_ID <$> q
  end.
Proof.
  induction q as [|t q IH]; intros Hnd; simpl; [split; [done|apply not_elem_of_nil]|].
  rewrite fmap_cons in *. apply NoDup_cons in Hnd as [Ht Hnd]. destruct (String.eqb_spec (T_ID t) id) as [<-|Hne].
  - pose proof (map_unique T_ID f [] t q) as Hm. simpl in Hm. by rewrite Hm by (by apply NoDup_cons).
  - specialize (IH Hnd). rewrite (proj2 (String.eqb_neq _ _)) by congruence.
    destruct (Mem.update_first id f q) as [[e|] q']; [|by subst].
    destruct IH as [-> Hn]. split; [done|]. by apply not_elem_of_cons.
Qed.

Lemma mem_report id f st t s q :
  mem_rep t s q → (∀ x r, mem_entry x r → x.2 = Held → mem_entry (x.1, st) (f r)) →
  match Mem.update_first id f q with
  | (None, q') => held id s → mem_rep t (mark (String.eqb id) st s) q'
  | (Some _, q') => mem_rep t s q' ∧ ¬ held id s
  end.
Proof.
  intros [Hnd Hf] Hst. pose proof (follows_ids T_ID mem_entry mem_key s q Hf) as Hids.
  pose proof (update_first_spec id f q) as Hu. rewrite Hids in Hu. specialize (Hu Hnd).
  destruct (Mem.update_first id f q) as [[e|] q'].
  - destruct Hu as [-> Hn]. split; [done|]. by intros ?%held_ids.
  - intros Hh. subst q'. split; [by rewrite ids_mark|]. apply (follows_mark T_ID mem_entry mem_key); [done|].
    intros [j st0] r Hx _ Hr He%String.eqb_eq. simpl in *. subst id. apply (Hst (j, st0)); [done|].
    by apply (held_only (j_ID j) s j).
Qed.

Lemma mem_claim_rep t now kinds s q :
  mem_rep t s q → kinds ≠ [] →
  match Mem.Claim kinds q with
  | (inr x, q') => ∃ s', spec_step now s (Claimed kinds x) s' ∧ mem_rep t s' q'
  | (inl e, q') => mem_rep t s q' ∧ e = ErrNoTasks ∧ ∀ j st, (j, st) ∈ s → j_Kind j ∈ kinds → due now st = false
  end.
Proof.
  intros [Hnd Hf] Hk. pose proof (follows_ids T_ID mem_entry mem_key s q Hf) as Hids.
  assert (∀ x r, mem_entry x r → claimable kinds r = due now x.2 && bool_decide (j_Kind x.1 ∈ kinds)) as Hc.
  { intros [j [|a| |]] r [Hj Hs]; unfold claimable, Mem.kind_ok; simpl in *; subst j; rewrite (bool_decide_eq_false_2 (kinds = [])) by done;
      simpl; [by rewrite Hs|done|by rewrite Hs|by destruct Hs as [-> | ->]]. }
  pose proof (mem_claim_fifo kinds q) as Hm. destruct (Mem.Claim kinds q) as [[e|x] q'].
  - destruct Hm as (-> & -> & Hn). split; [done|]. split; [done|]. intros j st Hj Hjk.
    destruct (follows_record mem_entry s q _ Hf Hj) as (r & Hr & Hp). specialize (Hn r Hr). rewrite (Hc _ _ Hp) in Hn.
    by rewrite (bool_decide_eq_true_2 (j_Kind j ∈ kinds)), andb_true_r in Hn.
  - destruct Hm as (l1 & r & l2 & -> & Hr & Hl1 & -> & ->).
    apply Forall2_app_inv_r in Hf as (s1 & s2' & Hf1 & Hf2 & ->). apply Forall2_cons_inv_r in Hf2 as ([j st] & s2 & Hx & Hf2 & ->).
    rewrite (Hc _ _ Hx) in Hr. apply andb_true_iff in Hr as [Hd Hin%bool_decide_eq_true]. pose proof Hx as [Hj _]. simpl in *. subst j.
    eexists. split.
    + eapply (sp_claim _ _ _ (set_task TaskRunning (T_Error r) r) s1 st s2); [done|done|done|done|].
      intros j st' Hj' Hd' Hk'. destruct (follows_record mem_entry s1 l1 _ Hf1 Hj') as (r' & Hr' & Hp').
      specialize (Hl1 r' Hr'). rewrite (Hc _ _ Hp') in Hl1. simpl in Hl1. rewrite Hd' in Hl1. simpl in *.
      apply bool_decide_eq_false in Hl1. congruence.
    + split; [by rewrite ids_mark|]. simpl.
      rewrite <-(map_unique T_ID (λ t, set_task TaskRunning (T_Error t) t) l1 r l2) by (by rewrite Hids).
      apply (follows_mark T_ID mem_entry mem_key); [by apply Forall2_app; [|constructor]|].
      intros [j' st'] r' _ _ [Hj' _] _. simpl in *. by subst.
Qed.

#[global] Program Instance Mem_Laws : TaskQueueLaws (list Task) unit := {| rep := mem_rep |}.
Next Obligation. intros t. split; constructor. Qed.
Next Obligation.
  intros [] uid last now task s q [Hnd Hf] _. simpl. intros _ Hid. split.
  - rewrite ids_app. apply NoDup_app. split_and!; [done|set_solver|apply NoDup_singleton].
  - by apply Forall2_app; [|repeat constructor].
Qed.
Next Obligation.
  intros [] last now kinds s q Hr _ Hk. simpl. pose proof (mem_claim_rep last now kinds s q Hr Hk) as Hc.
  destruct (Mem.Claim kinds q) as [[e|x] q']; [|done]. by destruct Hc as (? & ? & ?).
Qed.
Next Obligation.
  intros [] last now id s q Hr _. simpl.
  pose proof (mem_report id (λ t, set_task TaskCompleted (T_Error t) t) Gone last s q Hr) as Hc. unfold Mem.Complete.
  specialize (Hc ltac:(intros x r [? _] _; split; [done|by left])).
  destruct (Mem.update_first _ _ q) as [[e|] q']; [|done]. by destruct Hc.
Qed.
Next Obligation.
  intros [] last now id reason s q Hr _. simpl.
  pose proof (mem_report id (set_task TaskFailed reason) Gone last s q Hr) as Hc. unfold Mem.Fail.
  specialize (Hc ltac:(intros x r [? _] _; split; [done|by right])).
  destruct (Mem.update_first _ _ q) as [[e|] q']; [by destruct Hc|].
  intros Hh. exists Gone. split; [by left|by apply Hc].
Qed.
Next Obligation.
  intros [] last now s q Hr _. simpl. split; [by intros id ?%elem_of_nil|]. rewrite mark_none; [done|].
  by intros id _.
Qed.

(** * The PostgreSQL queue

    The outcomes of the two statements of a call; the recovery loop is the
    maintenance. *)

Section pg.
Import Pg.
Context (staleTimeout : Time).

Definition released (fault : option dberr) (now : Time) (tb : table) : list string :=
  match fault with Some _ => [] | None => R_ID <$> bfilter (stale (now - staleTimeout)) tb end.

#[global] Instance Pg_TaskQueue : TaskQueue table (option dberr * option dberr) := {
  q_new := [];
  q_enqueue := λ f uid now task tb, Enqueue f.1 uid now task tb;
  q_claim := λ f now kinds tb, Claim f.1 f.2 now kinds ∅ tb;
  q_complete := λ f now id tb, Complete f.1 now id tb;
  q_fail := λ f now id reason tb, Fail f.1 f.2 now id reason tb;
  q_tick := λ f now tb, (released f.1 now tb, Recover f.1 now staleTimeout tb);
  q_accepts := λ _, True;
  calm := λ f _, f = (None, None);
}.

Definition rec_job (r : TaskRecord) : job :=
  MkJob (R_ID r) (R_Kind r) (R_OrgID r) (R_Name r) (R_Payload r) (R_CreatedAt r).

(** The time of a retry that was served stays in the record. *)
Definition retry_past (t : Time) (r : TaskRecord) : Prop := match RetryAfter r with None => True | Some a => a ≤ t end.

Definition pg_entry (t : Time) (x : job * jstate) (r : TaskRecord) : Prop :=
  rec_job r = x.1 ∧
  match x.2 with
  | Ready => R_Status r = TaskPending ∧ retry_past t r
  | Later a => R_Status r = TaskPending ∧ RetryAfter r = Some a
  | Held => R_Status r = TaskRunning ∧ retry_past t r
  | Gone => R_Status r = TaskCompleted ∨ R_Status r = TaskFailed
  end.

Definition arrival (s : backlog) : list Time := (λ x, j_CreatedAt x.1) <$> s.

Definition pg_rep (t : Time) (s : backlog) (tb : table) : Prop :=
  NoDup (ids s) ∧ Forall2 (pg_entry t) s tb ∧ StronglySorted Z.lt (arrival s) ∧ Forall (λ a, a ≤ t) (arrival s).

Lemma pg_key t x r : pg_entry t x r → R_ID r = j_ID x.1.
Proof. by intros [<- _]. Qed.

Lemma pg_entry_later t now x r : pg_entry t x r → t ≤ now → pg_entry now x r.
Proof.
  intros [Hj Hs] Hle. split; [done|]. destruct (x.2); try done; destruct Hs as [? Hp]; (split; [done|]); unfold retry_past in *;
    destruct (RetryAfter r); done || lia.
Qed.

Lemma pg_rep_later t now s tb : pg_rep t s tb → t ≤ now → pg_rep now s tb.
Proof.
  intros (Hnd & Hf & Hs & Ha) Hle. split_and!; [done| |done|].
  - eapply Forall2_impl; [exact Hf|]. intros x r Hx. by eapply pg_entry_later.
  - eapply Forall_impl; [exact Ha|]. intros a. simpl. lia.
Qed.

Lemma arrival_mark p st s : arrival (mark p st s) = arrival s.
Proof. unfold arrival, mark. rewrite <-list_fmap_compose. apply list_fmap_ext. intros i x _. simpl. by destruct (p _). Qed.

Lemma pg_ids t s tb : pg_rep t s tb → R_ID <$> tb = ids s.
Proof. intros (_ & Hf & _). by eapply (follows_ids R_ID (pg_entry t) (pg_key t)). Qed.

(** The rows of the ids that pass the test are updated, the entries marked. *)
Lemma pg_update t p st f s tb :
  pg_rep t s tb → (∀ x r, x ∈ s → r ∈ tb → pg_entry t x r → p (j_ID x.1) = true → pg_entry t (x.1, st) (f r)) →
  pg_rep t (mark p st s) (update_where (λ r, p (R_ID r)) f tb).
Proof.
  intros (Hnd & Hf & Hs & Ha) Hst. unfold pg_rep. rewrite ids_mark, arrival_mark. split_and!; [done| |done..].
  by apply (follows_mark R_ID (pg_entry t) (pg_key t)).
Qed.

Lemma update_where_ext p p' f tb : (∀ r, r ∈ tb → p r = p' r) → update_where p f tb = update_where p' f tb.
Proof.
  intros Hp. unfold update_where. induction tb as [|r tb IH]; [done|]. simpl. rewrite Hp by left. f_equal. apply IH.
  intros r' Hr'. apply Hp. by right.
Qed.

Lemma by_id_eqb id r : by_id id r = String.eqb id (R_ID r).
Proof. apply String.eqb_sym. Qed.

(** A report on a held task. *)
Lemma pg_report t id st f s tb :
  pg_rep t s tb → held id s → (∀ x r, pg_entry t x r → x.2 = Held → pg_entry t (x.1, st) (f r)) →
  pg_rep t (mark (String.eqb id) st s) (update_where (by_id id) f tb).
Proof.
  intros Hr Hh Hst. rewrite (update_where_ext _ (λ r, String.eqb id (R_ID r))) by (intros; apply by_id_eqb).
  apply pg_update; [done|]. intros [j st0] r Hx _ Hp He%String.eqb_eq. simpl in *. subst id. apply (Hst (j, st0)); [done|].
  destruct Hr as [Hnd _]. by apply (held_only (j_ID j) s j).
Qed.

Lemma existsb_id id tb : existsb (by_id id) tb = bool_decide (id ∈ R_ID <$> tb).
Proof.
  induction tb as [|r tb IH]; [done|]. rewrite fmap_cons. simpl. rewrite IH. unfold by_id.
  destruct (String.eqb_spec (R_ID r) id) as [<-|Hne]; simpl; [by rewrite bool_decide_eq_true_2 by left|].
  apply bool_decide_ext. rewrite elem_of_cons. naive_solver.
Qed.

Lemma eligible_due t now kinds x r :
  pg_entry t x r → t ≤ now → kinds ≠ [] → eligible now kinds r = due now x.2 && bool_decide (j_Kind x.1 ∈ kinds).
Proof.
  intros [Hj Hs] Hle Hk. unfold eligible. rewrite <-Hj, (bool_decide_eq_false_2 (kinds = [])) by done. simpl.
  destruct (x.2) as [|a| |]; simpl.
  - destruct Hs as [Hs Hp]. rewrite Hs. unfold retry_past in Hp. destruct (RetryAfter r) as [a|]; [|done].
    by assert ((a <=? now) = true) as -> by lia.
  - by destruct Hs as [-> ->].
  - by destruct Hs as [-> _].
  - by destruct Hs as [-> | ->].
Qed.

Lemma elem_of_candidates now kinds tb r : r ∈ candidates now kinds ∅ tb ↔ r ∈ tb ∧ eligible now kinds r = true.
Proof.
  unfold candidates. rewrite elem_of_bfilter, andb_true_iff, negb_true_iff, bool_decide_eq_false. set_solver.
Qed.

Lemma oldest_none l : oldest l = None → l = [].
Proof. destruct l as [|r l]; [done|]. simpl. destruct (oldest l) as [s|]; [by destruct (before r s)|done]. Qed.

(** Entries before another one arrived before it. *)
Lemma arrival_before s1 j st s2 j' st' :
  StronglySorted Z.lt (arrival (s1 ++ (j, st) :: s2)) → (j', st') ∈ s1 → j_CreatedAt j' < j_CreatedAt j.
Proof.
  unfold arrival. rewrite fmap_app. intros Hs Hin.
  apply (StronglySorted_app_1_elem_of _ _ _ _ _ Hs); [|left]. apply list_elem_of_fmap. by exists (j', st').
Qed.

Lemma pg_claim_rep t now kinds s tb r :
  pg_rep t s tb → t ≤ now → kinds ≠ [] → oldest (candidates now kinds ∅ tb) = Some r →
  ∃ s', spec_step now s (Claimed kinds (to_task (set_claim now r))) s' ∧
    pg_rep now s' (update_where (by_id (R_ID r)) (λ _, set_claim now r) tb).
Proof.
  intros Hrep Hle Hk [Hr Hmin]%oldest_spec. apply elem_of_candidates in Hr as [Hr He].
  pose proof (pg_ids t s tb Hrep) as Hids. pose proof Hrep as (Hnd & Hf & Hs & _).
  apply list_elem_of_split in Hr as (tb1 & tb2 & ->).
  pose proof Hf as Hf'. apply Forall2_app_inv_r in Hf' as (s1 & s2' & Hf1 & Hf2 & ->).
  apply Forall2_cons_inv_r in Hf2 as ([j st] & s2 & Hx & Hf2 & ->).
  rewrite (eligible_due t now kinds _ _ Hx) in He by done. apply andb_true_iff in He as [Hd Hin%bool_decide_eq_true].
  pose proof Hx as [Hj Hst]. simpl in *. subst j. eexists. split.
  - apply (sp_claim _ _ _ (to_task (set_claim now r)) s1 st s2); [done|done|done|done|].
    intros j st' Hj' Hd' Hk'. destruct (follows_record (pg_entry t) s1 tb1 _ Hf1 Hj') as (r' & Hr' & Hp').
    pose proof (arrival_before _ _ _ _ _ _ Hs Hj') as Hlt. simpl in Hlt.
    assert (r' ∈ candidates now kinds ∅ (tb1 ++ r :: tb2)) as Hc.
    { apply elem_of_candidates. split; [set_solver|]. rewrite (eligible_due t now kinds _ _ Hp') by done. simpl. rewrite Hd'.
      apply bool_decide_eq_true. simpl in Hk'. by rewrite Hk'. }
    specialize (Hmin r' Hc). destruct Hp' as [Hp' _]. simpl in Hp'. subst j. simpl in *. lia.
  - assert (update_where (by_id (R_ID r)) (λ _, set_claim now r) (tb1 ++ r :: tb2) =
      update_where (λ x, String.eqb (R_ID r) (R_ID x)) (set_claim now) (tb1 ++ r :: tb2)) as ->.
    { unfold update_where. apply map_ext_in. intros r' Hr'%list_elem_of_In. rewrite by_id_eqb.
      destruct (String.eqb_spec (R_ID r) (R_ID r')) as [Heq|]; [|done].
      rewrite (NoDup_key_inj R_ID (tb1 ++ r :: tb2) r r'); [done|by rewrite Hids|set_solver|done|done]. }
    apply (pg_update now (String.eqb (R_ID r))); [by eapply pg_rep_later|].
    intros [j' st'] r' Hx' Hr' [Hj' Hst'] He'%String.eqb_eq. simpl in *. subst j'. split; [done|]. simpl. split; [done|].
    destruct (job_unique _ (rec_job r) st (rec_job r') st' Hnd) as [_ <-]; [set_solver|done|done|].
    unfold retry_past in *. simpl. destruct st as [|a| |]; try done; destruct Hst' as [_ Hret]; [done|].
    rewrite Hret. simpl in Hd. lia.
Qed.

#[global] Program Instance Pg_Laws : TaskQueueLaws table (option dberr * option dberr) := {| rep := pg_rep |}.
Next Obligation. intros t. split_and!; constructor. Qed.
Next Obligation.
  intros [f f'] uid last now task s tb Hr Hlt. pose proof (pg_ids _ _ _ Hr) as Hids. cbn [q_enqueue Pg_TaskQueue fst].
  unfold Enqueue. destruct f as [e|]; [split; [apply (pg_rep_later last); [done|lia]|done]|]. rewrite existsb_id, Hids.
  case_bool_decide as Hin; [split; [apply (pg_rep_later last); [done|lia]|done]|]. intros _ _.
  pose proof Hr as (Hnd & _ & Hs & Ha). apply (pg_rep_later _ now) in Hr as (_ & Hf & _ & Ha'); [|lia].
  unfold pg_rep. rewrite ids_app. unfold arrival in *. rewrite fmap_app. split_and!.
  - apply NoDup_app. split_and!; [done| |apply NoDup_singleton]. set_solver.
  - by apply Forall2_app; [|repeat constructor].
  - apply StronglySorted_app_2; [|done|by repeat constructor]. intros a b Hina Hb%list_elem_of_singleton.
    rewrite Forall_forall in Ha. specialize (Ha a Hina). subst b. simpl. lia.
  - apply Forall_app. split; [done|]. by repeat constructor.
Qed.
Next Obligation.
  intros [f f'] last now kinds s tb Hr Hle Hk. cbn [q_claim Pg_TaskQueue fst snd]. unfold Claim.
  destruct f as [e|]; [split; [by eapply pg_rep_later|done]|].
  destruct (oldest (candidates now kinds ∅ tb)) as [r|] eqn:Eo.
  - destruct f' as [e|]; [split; [by eapply pg_rep_later|done]|]. exact (pg_claim_rep last now kinds s tb r Hr Hle Hk Eo).
  - split; [by eapply pg_rep_later|]. intros _. split; [done|]. intros j st Hj Hjk. pose proof Hr as (_ & Hf & _).
    destruct (follows_record (pg_entry last) s tb _ Hf Hj) as (r & Hin & Hp).
    pose proof (eligible_due _ now kinds _ _ Hp Hle Hk) as He. simpl in He.
    rewrite (bool_decide_eq_true_2 (j_Kind j ∈ kinds)), andb_true_r in He by done. rewrite <-He.
    destruct (eligible now kinds r) eqn:Ee; [|done]. apply oldest_none in Eo.
    assert (r ∈ candidates now kinds ∅ tb) as Hc by (by apply elem_of_candidates). rewrite Eo in Hc. by apply elem_of_nil in Hc.
Qed.
Next Obligation.
  intros [f f'] last now id s tb Hr Hle. pose proof (pg_ids _ _ _ Hr) as Hids. apply (pg_rep_later _ now) in Hr; [|done].
  cbn [q_complete Pg_TaskQueue fst]. unfold Complete. destruct f as [e|]; [done|]. rewrite existsb_id, Hids.
  case_bool_decide as Hin; [|split; [done|]; by intros _ ?%held_ids].
  intros Hh. apply pg_report; [done..|]. intros x r [Hj _] _. split; [done|by left].
Qed.
Next Obligation.
  intros [f f'] last now id reason s tb Hr Hle. pose proof (pg_ids _ _ _ Hr) as Hids. apply (pg_rep_later _ now) in Hr; [|done].
  cbn [q_fail Pg_TaskQueue fst snd]. unfold Fail. destruct f as [e|]; [done|].
  destruct (List.find (by_id id) tb) as [rec|] eqn:Ef.
  - destruct f' as [e|]; [done|]. destruct (Attempts rec <? MaxAttempts rec); intros Hh.
    + exists (Later (now + backoff (Attempts rec))). split; [eauto|]. apply pg_report; [done..|]. by intros x r [Hj _] _.
    + exists Gone. split; [by left|]. apply pg_report; [done..|]. intros x r [Hj _] _. split; [done|by right].
  - split; [done|]. intros _ Hh%held_ids. rewrite <-Hids in Hh. apply list_elem_of_fmap in Hh as (r & -> & Hin%list_elem_of_In).
    apply (find_none _ _ Ef) in Hin. unfold by_id in Hin. by rewrite String.eqb_refl in Hin.
Qed.
Next Obligation.
  intros [f f'] last now s tb Hr Hle. pose proof (pg_ids _ _ _ Hr) as Hids. apply (pg_rep_later _ now) in Hr; [|done].
  cbn [q_tick Pg_TaskQueue fst]. unfold released, Recover. destruct f as [e|].
  { split; [by intros id ?%elem_of_nil|]. by rewrite mark_none. }
  set (p := stale (now - staleTimeout)). pose proof Hr as (Hnd & Hf & _).
  assert (∀ x r, pg_entry now x r → p r = true → x.2 = Held) as Hp.
  { intros x r [_ Hs] [Hst _]%andb_true_iff. apply bool_decide_eq_true in Hst. rewrite Hst in Hs.
    destruct (x.2); try done; by destruct Hs. }
  split.
  - intros id (r & -> & [Hin Hpr]%elem_of_bfilter)%list_elem_of_fmap.
    destruct (follows_entry (pg_entry now) s tb r Hf Hin) as ([j st] & Hj & Hx). pose proof (Hp _ _ Hx Hpr) as Hh. simpl in Hh. subst st.
    exists j. split; [done|]. by rewrite (pg_key _ _ _ Hx).
  - rewrite (update_where_ext p (λ r, bool_decide (R_ID r ∈ R_ID <$> bfilter p tb))).
    + apply (pg_update now (λ id, bool_decide (id ∈ R_ID <$> bfilter p tb))); [done|].
      intros [j st] r Hj Hr' Hx (r' & He & [Hin' Hpr]%elem_of_bfilter)%bool_decide_eq_true%list_elem_of_fmap. simpl in *.
      pose proof (pg_key _ _ _ Hx) as Hkey. simpl in Hkey. rewrite <-Hkey in He. rewrite (NoDup_key_inj R_ID tb r r') in Hx |- * by (done || by rewrite Hids).
      pose proof (Hp _ _ Hx Hpr) as Hh. simpl in Hh. subst st. destruct Hx as [Hj' [_ Hret]]. by split.
    + intros r Hin. symmetry. destruct (p r) eqn:Ep.
      * apply bool_decide_eq_true, list_elem_of_fmap. exists r. split; [done|]. by apply elem_of_bfilter.
      * apply bool_decide_eq_false. intros (r' & He & [Hin' Hpr]%elem_of_bfilter)%list_elem_of_fmap.
        rewrite (NoDup_key_inj R_ID tb r r') in Ep by (done || by rewrite Hids). congruence.
Qed.
End pg.

(** * The Valkey queue *)

(** The documented behaviour of streams read by one consumer group: [fresh] are the
    messages of a stream no consumer has been given, [issued] the message ids used
    so far, and [answers] says that the server answers from now on.  A command that
    fails has no effect; a read without new messages may count as a failure. *)
Section server.
Context {K : Type} `{Valkey K}.

Record same_stream (fresh : K → string → list (string * option string)) (issued : K → string → gset string)
    (answers : K → Prop) (k k' : K) : Prop := {
  same_fresh : ∀ s, fresh k' s = fresh k s;
  same_issued : ∀ s, issued k' s = issued k s;
  same_answers : answers k → answers k';
}.

Class ValkeyServer := {
  k_new : K;
  fresh : K → string → list (string * option string);
  issued : K → string → gset string;
  answers : K → Prop;
  fresh_new : ∀ s, fresh k_new s = [];
  fresh_nodup : ∀ k s, NoDup (fresh k s).*1;
  fresh_issued : ∀ k s m, m ∈ (fresh k s).*1 → m ∈ issued k s;
  group_law : ∀ k s, same_stream fresh issued answers k (XGroupCreate s k);
  add_law : ∀ k s id data,
    match XAdd s id data k with
    | (None, k') => ∃ m, (m ∉ issued k s) ∧
        (∀ s', fresh k' s' = if String.eqb s s' then fresh k s ++ [(m, Some data)] else fresh k s') ∧
        (∀ s', issued k s' ⊆ issued k' s') ∧ (answers k → answers k')
    | (Some _, k') => same_stream fresh issued answers k k' ∧ ¬ answers k
    end;
  read_law : ∀ k c s,
    let '(res, k') := XReadGroup c s (XGroupCreate s k) in
    match res, fresh k s with
    | inl _, l => same_stream fresh issued answers k k' ∧ (answers k → l = [])
    | inr ms, [] => same_stream fresh issued answers k k' ∧ ∀ x, x ∈ ms → x.2 = []
    | inr ms, m :: rest => ms = [(s, [m])] ∧
        (∀ s', fresh k' s' = if String.eqb s s' then rest else fresh k s') ∧
        (∀ s', issued k' s' = issued k s') ∧ (answers k → answers k')
    end;
  ack_law : ∀ k s m, same_stream fresh issued answers k (XAck s m k);
  del_law : ∀ k s m,
    (∀ s', fresh (XDel s m k) s' = if String.eqb s s' then bfilter (λ x, negb (String.eqb x.1 m)) (fresh k s) else fresh k s') ∧
    (∀ s', issued (XDel s m k) s' = issued k s') ∧ (answers k → answers (XDel s m k));
}.
End server.
Arguments ValkeyServer K {_}.

Section valkey.
Context `{Formats} {K : Type} `{!Valkey K} `{!ValkeyServer K} (consumerID : string).
Import Valkey.

Abbreviation vqueue := (gmap string claimedTask * K)%type.

#[global] Instance Valkey_TaskQueue : TaskQueue vqueue unit := {
  q_new := (∅, k_new);
  q_enqueue := λ _ uid now task q, let '(err, k) := Enqueue marshal_task uid now task q.2 in (err, (q.1, k));
  q_claim := λ _ _ kinds q, let '(res, c, k) := Claim unmarshal_task consumerID kinds q.1 q.2 in (res, (c, k));
  q_complete := λ _ _ id q, let '(err, c, k) := Complete id q.1 q.2 in (err, (c, k));
  q_fail := λ _ _ id reason q, let '(err, c, k) := Fail id reason q.1 q.2 in (err, (c, k));
  q_tick := λ _ _ q, ([], q);
  q_accepts := codec_ok;
  calm := λ _ q, answers q.2;
}.

Definition stream_of (kind : string) : string := valkeyStreamPrefix +:+ kind.
#[global] Arguments stream_of : simpl never.

Definition is_ready (st : jstate) : bool := match st with Ready => true | _ => false end.

Definition waiting_of (kind : string) (s : backlog) : backlog :=
  bfilter (λ x, is_ready x.2 && String.eqb (j_Kind x.1) kind) s.

(** A message holds the job of an entry. *)
Definition holds (x : job * jstate) (m : string * option string) : Prop :=
  ∃ t, m.2 ≫= unmarshal_task = Some t ∧ job_of t = x.1.

Record vk_rep (t : Time) (s : backlog) (q : vqueue) : Prop := {
  vk_nodup : NoDup (ids s);
  vk_punctual : punctual s;
  vk_waiting : ∀ kind, Forall2 holds (waiting_of kind s) (fresh q.2 (stream_of kind));
  vk_held : ∀ id, held id s ↔ is_Some (q.1 !! id);
  vk_claimed : ∀ id ct, q.1 !! id = Some ct →
    ct_msgID ct ∈ issued q.2 (ct_stream ct) ∧ ct_msgID ct ∉ (fresh q.2 (ct_stream ct)).*1;
}.

Lemma stream_eqb a b : String.eqb (stream_of a) (stream_of b) = String.eqb a b.
Proof.
  destruct (String.eqb_spec a b) as [->|Hne]; [apply String.eqb_refl|]. apply String.eqb_neq.
  by intros ?%(inj (String.append _)).
Qed.

Lemma vk_same t t' s c k k' :
  vk_rep t s (c, k) → same_stream fresh issued answers k k' → vk_rep t' s (c, k').
Proof.
  intros [Hnd Hp Hw Hh Hc] [Hf Hi _]. split; simpl in *; [done|done| |done|].
  - intros kind. by rewrite Hf.
  - intros id ct Hct. rewrite Hf, Hi. by eapply Hc.
Qed.

(** Marking jobs with another state than ready takes them out of those that
    wait. *)
Lemma waiting_mark kind p st s :
  is_ready st = false → waiting_of kind (mark p st s) = bfilter (λ x, negb (p (j_ID x.1))) (waiting_of kind s).
Proof.
  intros Hst. unfold waiting_of, bfilter, mark. induction s as [|[j st0] s IH]; [done|].
  cbn [List.map List.filter fst snd]. destruct (p (j_ID j)) eqn:Ep; cbn [fst snd]; rewrite ?Hst;
    destruct (is_ready st0 && String.eqb (j_Kind j) kind); cbn [andb List.filter fst]; rewrite ?Ep; cbn [negb]; by rewrite ?IH.
Qed.

Lemma waiting_kept kind id st s :
  is_ready st = false → (∀ j, (j, Ready) ∈ s → j_Kind j = kind → j_ID j ≠ id) →
  waiting_of kind (mark (String.eqb id) st s) = waiting_of kind s.
Proof.
  intros Hst Hid. rewrite waiting_mark by done. apply bfilter_true. intros [j st0] [Hj Hr]%elem_of_bfilter.
  simpl in *. apply andb_true_iff in Hr as [Hr Hk%String.eqb_eq]. destruct st0; try done.
  apply negb_true_iff, String.eqb_neq. intros ->. by apply (Hid j).
Qed.

(** The claim of a message takes the first job of the kind that waits. *)
Lemma vk_take t now s c k k' kind m rest :
  vk_rep t s (c, k) → fresh k (stream_of kind) = m :: rest →
  (∀ s', fresh k' s' = if String.eqb (stream_of kind) s' then rest else fresh k s') → (∀ s', issued k' s' = issued k s') →
  ∃ tk, m.2 ≫= unmarshal_task = Some tk ∧ T_Kind tk = kind ∧
    spec_step now s (Claimed [kind] (set_task TaskRunning (T_Error tk) tk)) (mark (String.eqb (T_ID tk)) Held s) ∧
    vk_rep now (mark (String.eqb (T_ID tk)) Held s) (<[T_ID tk := MkClaimed (stream_of kind) m.1]> c, k').
Proof.
  intros [Hnd Hp Hw Hh Hc] Hm Hf Hi. cbn [fst snd] in *. pose proof (Hw kind) as Hwk. rewrite Hm in Hwk.
  apply Forall2_cons_inv_r in Hwk as ([j st] & xs & (tk & Htk & Hj) & Hxs & Hwk). simpl in Hj. subst j.
  destruct (bfilter_first _ _ _ _ Hwk) as (s1 & s2 & -> & [Hr Hk%String.eqb_eq]%andb_true_iff & Hs1 & Hs2).
  simpl in Hr, Hk. destruct st; try done. exists tk. split; [done|]. split; [done|]. split.
  { apply (sp_claim _ _ _ (set_task TaskRunning (T_Error tk) tk) s1 Ready s2); [done|done|set_solver|done|].
    intros j st' Hj Hd Hjk. specialize (Hs1 _ Hj). simpl in Hs1, Hjk. rewrite Hjk, Hk, String.eqb_refl, andb_true_r in Hs1.
    destruct st' as [|a| |]; try done. by destruct (Hp j (Later a) ltac:(set_solver) a). }
  pose proof (fresh_nodup k (stream_of kind)) as Hfn. rewrite Hm in Hfn. cbn in Hfn. apply NoDup_cons in Hfn as [Hmr _].
  assert (Heq : ∀ kind', String.eqb (stream_of kind) (stream_of kind') = String.eqb kind kind') by (intros; apply stream_eqb).
  set (s := s1 ++ (job_of tk, Ready) :: s2) in *.
  assert ((job_of tk, Ready) ∈ s) as Hin by (unfold s; set_solver). split; cbn [fst snd].
  - by rewrite ids_mark.
  - intros j st (st0 & Hj & ->)%elem_of_mark. destruct (String.eqb (T_ID tk) (j_ID j)); [done|by apply (Hp j)].
  - intros kind'. rewrite Hf, Heq. destruct (String.eqb_spec kind kind') as [<-|Hne].
    + rewrite waiting_mark, Hwk by done. unfold bfilter. simpl. rewrite String.eqb_refl. simpl.
      fold (bfilter (λ x : job * jstate, negb (String.eqb (T_ID tk) (j_ID x.1))) xs). rewrite bfilter_true; [done|].
      intros [j st] Hj. rewrite <-Hs2 in Hj. apply elem_of_bfilter in Hj as [Hj _]. simpl. apply negb_true_iff, String.eqb_neq.
      apply (ids_split s1 (job_of tk) Ready s2 _ Hnd). right. apply elem_of_ids. eauto.
    + rewrite waiting_kept; [done|done|]. intros j Hj Hjk He. destruct (job_unique s j Ready (job_of tk) Ready Hnd Hj Hin He) as [-> _].
      simpl in Hjk. congruence.
  - intros id. rewrite held_mark. destruct (String.eqb_spec (T_ID tk) id) as [<-|Hne].
    + rewrite lookup_insert_eq. split; [eauto|]. intros _. split; [done|]. apply elem_of_ids. by exists (job_of tk), Ready.
    + by rewrite lookup_insert_ne.
  - intros id ct Hct. rewrite Hi, Hf. apply lookup_insert_Some in Hct as [[<- <-]|[_ Hct]]; cbn [ct_stream ct_msgID].
    + rewrite String.eqb_refl. split; [|done]. apply fresh_issued. rewrite Hm. left.
    + destruct (Hc id ct Hct) as [Hi1 Hi2]. split; [done|]. destruct (String.eqb_spec (stream_of kind) (ct_stream ct)) as [He|]; [|done].
      rewrite <-He, Hm in Hi2. set_solver.
Qed.

Lemma claim_more now s ks ks' t s' :
  spec_step now s (Claimed ks t) s' → (∀ k, k ∈ ks → k ∈ ks') → spec_step now s (Claimed ks' t) s'.
Proof. inversion 1; subst. intros Hk. econstructor; eauto. Qed.

Lemma empty_messages ms c k : (∀ x, x ∈ ms → x.2 = []) → claim_messages unmarshal_task ms c k = (None, c, k).
Proof.
  induction ms as [|[s l] ms IH]; intros He; [done|]. simpl. assert (l = []) as -> by apply (He (s, l)), list_elem_of_here.
  apply IH. intros x Hx. apply He. by right.
Qed.

Lemma vk_claim t now kinds : ∀ s c k,
  vk_rep t s (c, k) →
  match Claim unmarshal_task consumerID kinds c k with
  | (inr tk, c', k') => ∃ s', spec_step now s (Claimed kinds tk) s' ∧ vk_rep now s' (c', k')
  | (inl e, c', k') => e = ErrNoTasks ∧ vk_rep now s (c', k') ∧
      (answers k → ∀ j, (j, Ready) ∈ s → j_Kind j ∉ kinds)
  end.
Proof.
  induction kinds as [|kind kinds IH]; intros s c k Hr.
  { split; [done|]. split; [by destruct Hr|]. intros _ j _. apply not_elem_of_nil. }
  cbn [Claim]. unfold ensureGroup. fold (stream_of kind). pose proof (read_law k consumerID (stream_of kind)) as Hl.
  destruct (XReadGroup consumerID (stream_of kind) (XGroupCreate (stream_of kind) k)) as [res k'].
  assert (same_stream fresh issued answers k k' → fresh k (stream_of kind) = [] ∨ ¬ answers k →
    match Claim unmarshal_task consumerID kinds c k' with
    | (inr tk, c', k') => ∃ s', spec_step now s (Claimed (kind :: kinds) tk) s' ∧ vk_rep now s' (c', k')
    | (inl e, c', k') => e = ErrNoTasks ∧ vk_rep now s (c', k') ∧
        (answers k → ∀ j, (j, Ready) ∈ s → j_Kind j ∉ kind :: kinds)
    end) as Hnext.
  { intros Hsame Hempty. specialize (IH s c k' (vk_same _ _ _ _ _ _ Hr Hsame)).
    destruct (Claim unmarshal_task consumerID kinds c k') as [[[e|tk] c'] k2].
    - destruct IH as (-> & Hr' & Hn). split; [done|]. split; [done|]. intros Ha j Hj. apply not_elem_of_cons.
      split; [|by apply Hn; [apply Hsame|]]. intros <-. destruct Hempty as [He|]; [|done].
      pose proof (vk_waiting _ _ _ Hr (j_Kind j)) as Hw. simpl in Hw. rewrite He in Hw. apply Forall2_nil_inv_r in Hw.
      apply (proj1 (bfilter_nil_iff _ _) Hw) in Hj. simpl in Hj. by rewrite String.eqb_refl in Hj.
    - destruct IH as (s' & Hs' & Hr'). exists s'. split; [|done]. eapply claim_more; [done|]. intros x Hx. by right. }
  destruct res as [e|ms], (fresh k (stream_of kind)) as [|m rest] eqn:Em.
  - destruct Hl as [Hs Hl]. apply Hnext; [done|by left].
  - destruct Hl as [Hs Hl]. apply Hnext; [done|]. right. by intros ?%Hl.
  - destruct Hl as [Hs Hl]. rewrite empty_messages by done. apply Hnext; [done|by left].
  - destruct Hl as (-> & Hf & Hi & _). destruct (vk_take t now s c k k' kind m rest Hr Em Hf Hi) as (tk & Htk & Hk & Hs & Hr').
    destruct m as [mid data]. simpl in *. rewrite Htk. eexists. split; [|exact Hr']. eapply claim_more; [done|]. set_solver.
Qed.

Lemma vk_complete t now id s c k :
  vk_rep t s (c, k) →
  match Complete id c k with
  | (None, c', k') => held id s → vk_rep now (mark (String.eqb id) Gone s) (c', k')
  | (Some _, c', k') => vk_rep now s (c', k') ∧ ¬ held id s
  end.
Proof.
  intros [Hnd Hp Hw Hh Hc]. unfold Complete. cbn [fst snd] in *. destruct (c !! id) as [ct|] eqn:Ec.
  2: { split; [by split|]. rewrite Hh, Ec. by intros []. }
  intros Hid. unfold ackAndDel. destruct (ack_law k (ct_stream ct) (ct_msgID ct)) as [Hf1 Hi1 _].
  destruct (del_law (XAck (ct_stream ct) (ct_msgID ct) k) (ct_stream ct) (ct_msgID ct)) as (Hf2 & Hi2 & _).
  assert (∀ s', fresh (XDel (ct_stream ct) (ct_msgID ct) (XAck (ct_stream ct) (ct_msgID ct) k)) s' = fresh k s') as Hf.
  { intros s'. rewrite Hf2, !Hf1. destruct (String.eqb_spec (ct_stream ct) s') as [<-|]; [|done].
    apply bfilter_true. intros x Hx. apply negb_true_iff, String.eqb_neq. intros He.
    apply (Hc id ct Ec). rewrite <-He. by apply list_elem_of_fmap_2. }
  split; cbn [fst snd].
  - by rewrite ids_mark.
  - intros j st (st0 & Hj & ->)%elem_of_mark. destruct (String.eqb id (j_ID j)); [done|by apply (Hp j)].
  - intros kind. rewrite Hf, waiting_kept; [done|done|]. intros j Hj _ He.
    by pose proof (held_only id s j Ready Hnd Hid Hj He).
  - intros x. rewrite held_mark. destruct (String.eqb_spec id x) as [<-|Hne]; [|by rewrite lookup_delete_ne].
    rewrite lookup_delete_eq. split; [by intros []|by intros []].
  - intros x ct' [_ Hct']%lookup_delete_Some. rewrite Hf, Hi2, Hi1. by eapply Hc.
Qed.

Lemma vk_enqueue t now uid task s c k :
  vk_rep t s (c, k) →
  match Enqueue marshal_task uid now task k with
  | (None, k') => codec_ok (fresh_task uid now task) → T_ID (fresh_task uid now task) ∉ ids s →
      vk_rep now (s ++ [(job_of (fresh_task uid now task), Ready)]) (c, k')
  | (Some _, k') => vk_rep now s (c, k') ∧ ¬ answers k
  end.
Proof.
  intros Hr. unfold Enqueue, ensureGroup. set (tk := fresh_task uid now task). change (marshal_task tk) with (Some (print_json (marshal tk))).
  cbn [mbind]. fold (stream_of (T_Kind tk)). pose proof (group_law k (stream_of (T_Kind tk))) as Hg.
  pose proof (vk_same t now s c k _ Hr Hg) as Hr1. destruct Hg as [_ _ Ha]. set (k1 := XGroupCreate _ k) in *.
  pose proof (add_law k1 (stream_of (T_Kind tk)) (T_ID tk) (print_json (marshal tk))) as Hl.
  destruct (XAdd _ _ _ k1) as [[e|] k']; cbn [fmap option_fmap option_map].
  { destruct Hl as [Hs Hn]. split; [by eapply vk_same|]. intros ?%Ha. done. }
  destruct Hl as (m & Hm & Hf & Hi & _). destruct Hr1 as [Hnd Hp Hw Hh Hc]. cbn [fst snd] in *. intros Hok Hid. split; cbn [fst snd].
  - rewrite ids_app. apply NoDup_app. split_and!; [done|set_solver|apply NoDup_singleton].
  - intros j st [Hj|Hj%list_elem_of_singleton]%elem_of_app; [by apply (Hp j)|by simplify_eq].
  - intros kind. rewrite Hf, stream_eqb. unfold waiting_of. rewrite bfilter_app. fold (waiting_of kind s).
    unfold bfilter. cbn [List.filter fst snd is_ready andb j_Kind job_of]. destruct (String.eqb_spec (T_Kind tk) kind) as [<-|]; [|by rewrite app_nil_r].
    apply Forall2_app; [done|]. constructor; [|constructor]. exists tk. split; [|done].
    destruct (task_read tk Hok) as (data & [= <-] & Hu). exact Hu.
  - intros x. rewrite <-Hh. unfold held. setoid_rewrite elem_of_app. setoid_rewrite list_elem_of_singleton. naive_solver.
  - intros x ct Hct. destruct (Hc x ct Hct) as [H1 H2]. split; [by apply Hi|]. rewrite Hf.
    destruct (String.eqb_spec (stream_of (T_Kind tk)) (ct_stream ct)) as [He|]; [|done]. rewrite He in *.
    rewrite fmap_app, not_elem_of_app. split; [done|]. intros Hin%list_elem_of_singleton. simpl in Hin. by rewrite Hin in H1.
Qed.

#[global] Program Instance Valkey_Laws : TaskQueueLaws vqueue unit := {| rep := vk_rep |}.
Next Obligation.
  intros t. split; cbn [fst snd q_new Valkey_TaskQueue].
  - constructor.
  - by intros j st ?%elem_of_nil.
  - intros kind. rewrite fresh_new. constructor.
  - intros id. rewrite lookup_empty. split; [by intros (j & ?%elem_of_nil & _)|by intros []].
  - intros id ct. by rewrite lookup_empty.
Qed.
Next Obligation.
  intros [] uid last now task s [c k] Hr _. pose proof (vk_enqueue last now uid task s c k Hr) as He.
  cbn [q_enqueue q_accepts calm Valkey_TaskQueue fst snd]. destruct (Enqueue marshal_task uid now task k) as [[e|] k']; [|done].
  by destruct He.
Qed.
Next Obligation.
  intros [] last now kinds s [c k] Hr _ _. pose proof (vk_claim last now kinds s c k Hr) as Hc. cbn [q_claim calm Valkey_TaskQueue fst snd].
  destruct (Claim unmarshal_task consumerID kinds c k) as [[[e|tk] c'] k']; [|done].
  destruct Hc as (-> & Hr' & Hn). split; [done|]. intros Ha. split; [done|]. intros j st Hj Hk.
  destruct st as [|a| |]; try done; [by destruct (Hn Ha j Hj)|]. by destruct (vk_punctual _ _ _ Hr j (Later a) Hj a).
Qed.
Next Obligation.
  intros [] last now id s [c k] Hr _. pose proof (vk_complete last now id s c k Hr) as Hc. cbn [q_complete calm Valkey_TaskQueue fst snd].
  destruct (Complete id c k) as [[[e|] c'] k']; [|done]. by destruct Hc.
Qed.
Next Obligation.
  intros [] last now id reason s [c k] Hr _. pose proof (vk_complete last now id s c k Hr) as Hc. cbn [q_fail calm Valkey_TaskQueue fst snd].
  unfold Fail. destruct (Complete id c k) as [[[e|] c'] k']; [by destruct Hc|]. intros Hh. exists Gone. split; [by left|by apply Hc].
Qed.
Next Obligation.
  intros [] last now s [c k] Hr _. cbn [q_tick Valkey_TaskQueue]. split; [by intros id ?%elem_of_nil|].
  rewrite mark_none by done. by destruct Hr.
Qed.
End valkey.

(** * A server in memory

    A stream is the list of the messages ever added to it, each with a mark while
    no consumer was given it; its position is the id of a message. *)

Definition stream := list (string * bool).

Fixpoint unread (i : nat) (l : stream) : list (string * option string) :=
  match l with
  | [] => []
  | (d, true) :: l => (Itoa (Z.of_nat i), Some d) :: unread (S i) l
  | (_, false) :: l => unread (S i) l
  end.

Fixpoint read_first (l : stream) : stream :=
  match l with
  | [] => []
  | (d, true) :: l => (d, false) :: l
  | (d, false) :: l => (d, false) :: read_first l
  end.

Fixpoint drop_message (i : nat) (m : string) (l : stream) : stream :=
  match l with
  | [] => []
  | (d, b) :: l => (d, b && negb (String.eqb (Itoa (Z.of_nat i)) m)) :: drop_message (S i) m l
  end.

#[global] Instance MemValkey : Valkey (string → stream) := {
  XGroupCreate := λ _ k, k;
  XAdd := λ s _ data k, (None, λ s', if String.eqb s s' then k s ++ [(data, true)] else k s');
  XReadGroup := λ _ s k,
    match unread 0 (k s) with
    | [] => (inl "valkey nil message", k)
    | m :: _ => (inr [(s, [m])], λ s', if String.eqb s s' then read_first (k s) else k s')
    end;
  XAck := λ _ _ k, k;
  XDel := λ s m k s', if String.eqb s s' then drop_message 0 m (k s) else k s';
}.

Lemma unread_app i l d : unread i (l ++ [(d, true)]) = unread i l ++ [(Itoa (Z.of_nat (i + length l)), Some d)].
Proof.
  revert i. induction l as [|[d' []] l IH]; intros i; simpl; [by rewrite Nat.add_0_r|..]; rewrite IH, Nat.add_succ_r; done.
Qed.

Lemma unread_read_first i l : unread i (read_first l) = tail (unread i l).
Proof. revert i. induction l as [|[d []] l IH]; intros i; simpl; [done|done|apply IH]. Qed.

Lemma unread_drop i m l : unread i (drop_message i m l) = bfilter (λ x, negb (String.eqb x.1 m)) (unread i l).
Proof.
  unfold bfilter. revert i. induction l as [|[d []] l IH]; intros i; simpl; [done| |apply IH].
  destruct (String.eqb _ m); simpl; by rewrite IH.
Qed.

Lemma length_drop_message i m l : length (drop_message i m l) = length l.
Proof. revert i. induction l as [|[d b] l IH]; intros i; simpl; [done|]. by rewrite IH. Qed.

Lemma length_read_first l : length (read_first l) = length l.
Proof. induction l as [|[d []] l IH]; simpl; by rewrite ?IH. Qed.

(** The ids of the unread messages are positions in the stream. *)
Lemma unread_ids i l : (unread i l).*1 `sublist_of` ((λ n, Itoa (Z.of_nat n)) <$> seq i (length l)).
Proof. revert i. induction l as [|[d []] l IH]; intros i; simpl; [constructor|..]; constructor; apply IH. Qed.

Lemma Itoa_inj a b : Itoa a = Itoa b → a = b.
Proof. intros He. pose proof (parse_number_Itoa a) as Ha. rewrite He, parse_number_Itoa in Ha. by injection Ha. Qed.

Definition positions (n : nat) : list string := (λ n, Itoa (Z.of_nat n)) <$> seq 0 n.

Lemma NoDup_positions n : NoDup (positions n).
Proof. apply NoDup_fmap_2_strong; [|apply NoDup_seq]. intros a b _ _ He%Itoa_inj. lia. Qed.

#[global] Program Instance MemValkey_Server : ValkeyServer (string → stream) := {|
  k_new := λ _, [];
  fresh := λ k s, unread 0 (k s);
  issued := λ k s, list_to_set (positions (length (k s)));
  answers := λ _, True;
|}.
Next Obligation. done. Qed.
Next Obligation. intros k s. simpl. eapply sublist_NoDup; [apply NoDup_positions|apply unread_ids]. Qed.
Next Obligation. intros k s m Hm. simpl. apply elem_of_list_to_set. eapply elem_of_sublist; [done|apply unread_ids]. Qed.
Next Obligation. by intros k s. Qed.
Next Obligation.
  intros k s id data. simpl. exists (Itoa (Z.of_nat (length (k s)))). split_and!.
  - rewrite elem_of_list_to_set. unfold positions. intros (n & He%Itoa_inj & Hn%elem_of_seq)%list_elem_of_fmap. lia.
  - intros s'. destruct (String.eqb_spec s s') as [<-|]; [|done]. by rewrite unread_app.
  - intros s'. destruct (String.eqb_spec s s') as [<-|]; [|done]. rewrite length_app. intros x.
    rewrite !elem_of_list_to_set. unfold positions. rewrite seq_app, fmap_app. set_solver.
  - done.
Qed.
Next Obligation.
  intros k c s. simpl. destruct (unread 0 (k s)) as [|m rest] eqn:E; [split; [by split|done]|].
  split_and!; [done| | |done]; intros s'; destruct (String.eqb_spec s s') as [<-|]; try done.
  - by rewrite unread_read_first, E.
  - by rewrite length_read_first.
Qed.
Next Obligation. by intros k s m. Qed.
Next Obligation.
  intros k s m. simpl. split_and!; [| |done]; intros s'; destruct (String.eqb_spec s s') as [<-|]; try done.
  - apply unread_drop.
  - by rewrite length_drop_message.
Qed.

(** * The theorem *)


(** * Where the queues differ *)

(** A claim that names no kind gets any task from the in-memory and the PostgreSQL
    queue, and none from the Valkey queue. *)
Theorem no_kinds_differ {K : Type} `{Valkey K} unmarshal consumerID t r claimed (k : K) :
  T_Status t = TaskPending → R_Status r = TaskPending → RetryAfter r = None →
  (Mem.Claim [] [t]).1 = inr (set_task TaskRunning (T_Error t) t) ∧
  (Pg.Claim None None 0 [] ∅ [r]).1 = inr (Pg.to_task (set_claim 0 r)) ∧
  Valkey.Claim unmarshal consumerID [] claimed k = (inl ErrNoTasks, claimed, k).
Proof.
  intros Ht Hr Hn. split_and!; [|unfold Pg.Claim, Pg.candidates, Pg.eligible|done].
  - simpl. rewrite Ht. done.
  - unfold bfilter. simpl. rewrite Hr, Hn. done.
Qed.

(** ** A worker that dies *)

#[local] Existing Instance number_Formats.

Definition orders_server : string → stream :=
  (Valkey.Enqueue marshal_task "id-1" 5 (MkTask "" "order" 1 "n" "p" TaskPending "" 0) (λ _, [])).2.

(** The Valkey queue does not hand out the task of a worker that died: the process
    that takes over has no record of it, and the stream no fresh message. *)
Theorem dead_worker_keeps_task :
  let '(res, _, k) := Valkey.Claim unmarshal_task "worker-1" ["order"] ∅ orders_server in
  (∃ t, res = inr t ∧ T_ID t = "id-1") ∧ (Valkey.Claim unmarshal_task "worker-2" ["order"] ∅ k).1.1 = inl ErrNoTasks ∧
  (Valkey.Complete "id-1" ∅ k).1.1 = Some (ErrTaskUnclaimed "id-1").
Proof. vm_compute. split; [eexists; done|done]. Qed.

(** * Witnesses *)

Definition order_task (id : string) : Task := MkTask id "order" 1 "n" "p" TaskPending "" 0.


