(* ===== verification/Loops.v ===== *)
(** The background loops: the LISTEN connection of the PostgreSQL bus with its
    reconnections (src/events/pg_bus.go), the receiving side of the Valkey bus
    (src/events/valkey_bus.go) and the polling loop of the dispatcher
    (src/workflow/dispatcher.go), as step relations. *)

From S2P Require Import Prelude GoStrings GoJson JsonPrint Resource Gorm Store Columns Wire Registry Hooks Dispatch Events.

(** * The LISTEN connection *)

(** Where the goroutine of [listenLoop] is: not started, at the check of its
    context, connecting, waiting for a notification, in the pause before it
    reconnects, returned. *)
Inductive lphase := LIdle | LCheck | LConnect | LWait | LBackoff | LStopped.

#[global] Instance lphase_eq_dec : EqDecision lphase.
Proof. solve_decision. Defined.

(** The bus, the goroutine, whether its context is cancelled, and the
    notifications the server holds for the connection.  The rest is history: the
    goroutines started, the notifications sent and received, and the lengths of
    both when the connection last began to listen. *)
Record listener := MkListener {
  li_bus : PgBus;
  li_phase : lphase;
  li_cancelled : bool;
  li_queue : list string;
  li_loops : nat;
  li_sent : list string;
  li_received : list string;
  li_mark : nat * nat;
}.

Definition set_bus (b : PgBus) (s : listener) : listener :=
  MkListener b (li_phase s) (li_cancelled s) (li_queue s) (li_loops s) (li_sent s) (li_received s) (li_mark s).

(** A change of phase; the server drops what it holds for a connection that is
    not listening any more. *)
Definition goto (p : lphase) (s : listener) : listener :=
  MkListener (li_bus s) p (li_cancelled s) [] (li_loops s) (li_sent s) (li_received s)
    (length (li_sent s), length (li_received s)).

(** [Subscribe]: the first one starts the goroutine. *)
Definition bus_subscribe (id : nat) (kinds : list string) (s : listener) : listener :=
  if listening (li_bus s) then set_bus (PgSubscribe id kinds (li_bus s)) s
  else MkListener (PgSubscribe id kinds (li_bus s)) LCheck (li_cancelled s) (li_queue s) (S (li_loops s)) (li_sent s)
         (li_received s) (li_mark s).

(** [Close] cancels the context, when there is one. *)
Definition bus_close (s : listener) : listener :=
  MkListener (li_bus s) (li_phase s) (li_cancelled s || negb (li_loops s =? 0)%nat) (li_queue s) (li_loops s) (li_sent s)
    (li_received s) (li_mark s).

(** [pg_notify]: the server queues the notification for a connection that
    listens. *)
Definition notified (payload : option string) (b : PgBus) (s : listener) : listener :=
  match payload with
  | None => set_bus b s
  | Some p =>
      MkListener b (li_phase s) (li_cancelled s) (if bool_decide (li_phase s = LWait) then li_queue s ++ [p] else li_queue s)
        (li_loops s) (li_sent s ++ [p]) (li_received s) (li_mark s)
  end.

Section listening.
Context (marshal : notifyPayload → string) (unmarshal : string → option notifyPayload).
Context (uuid_string : uuid → string) (uuid_parse : string → option uuid).

Definition bus_publish (fault fault' : option dberr) (uid : string) (now : Time) (e : Event) (s : listener) : listener :=
  let '(_, p, b) := PgPublish marshal uuid_string fault fault' uid now e (li_bus s) in notified p b s.

Definition receive (now : Time) (p : string) (rest : list string) (s : listener) : listener :=
  MkListener (on_notification unmarshal uuid_parse now p (li_bus s)) (li_phase s) (li_cancelled s) rest (li_loops s)
    (li_sent s) (li_received s ++ [p]) (li_mark s).

Inductive listen_step : listener → listener → Prop :=
| ls_publish fault fault' uid now e s : listen_step s (bus_publish fault fault' uid now e s)
| ls_subscribe id kinds s :
    id ∉ closed (li_bus s) → id ∉ List.map ps_id (subs (li_bus s)) → listen_step s (bus_subscribe id kinds s)
| ls_cancel id s : listen_step s (set_bus (cancel_sub id (li_bus s)) s)
| ls_remove id s : listen_step s (set_bus (removeSub id (li_bus s)) s)
| ls_cleanup fault now retention s : listen_step s (set_bus (Cleanup fault now retention (li_bus s)) s)
| ls_close s : listen_step s (bus_close s)
(* the goroutine *)
| ls_check s : li_phase s = LCheck → listen_step s (goto (if li_cancelled s then LStopped else LConnect) s)
| ls_failed s : li_phase s = LConnect → listen_step s (goto LBackoff s)     (* Connect or LISTEN returns an error *)
| ls_listening s : li_phase s = LConnect → listen_step s (goto LWait s)
| ls_receive now p rest s : li_phase s = LWait → li_queue s = p :: rest → listen_step s (receive now p rest s)
| ls_lost s : li_phase s = LWait → listen_step s (goto LBackoff s)          (* WaitForNotification returns an error *)
| ls_timer s : li_phase s = LBackoff → listen_step s (goto LCheck s)
| ls_done s : li_phase s = LBackoff → li_cancelled s = true → listen_step s (goto LStopped s).

Definition new_listener (tb : list Event) : listener := MkListener (NewPgBus tb) LIdle false [] 0 [] [] (0, 0)%nat.

(** The invariant of the loop. *)
Record listener_inv (s : listener) : Prop := {
  inv_loops : li_loops s = if listening (li_bus s) then 1%nat else 0%nat;
  inv_idle : li_phase s = LIdle ↔ listening (li_bus s) = false;
  inv_queue : li_phase s ≠ LWait → li_queue s = [];
  inv_mark : ((li_mark s).1 ≤ length (li_sent s) ∧ (li_mark s).2 ≤ length (li_received s))%nat;
  inv_before : sublist (take (li_mark s).2 (li_received s)) (take (li_mark s).1 (li_sent s));
  inv_since : if bool_decide (li_phase s = LWait)
    then drop (li_mark s).1 (li_sent s) = drop (li_mark s).2 (li_received s) ++ li_queue s
    else sublist (li_received s) (li_sent s);
}.

Lemma inv_received s : listener_inv s → sublist (li_received s ++ li_queue s) (li_sent s).
Proof.
  intros [_ _ Hq _ Hb Hs]. case_bool_decide as Hp.
  - rewrite <-(take_drop (li_mark s).2 (li_received s)), <-(take_drop (li_mark s).1 (li_sent s)), Hs, <-app_assoc.
    by apply sublist_app.
  - by rewrite Hq, app_nil_r.
Qed.

Lemma listening_removeSub id b : listening (removeSub id b) = listening b.
Proof. unfold removeSub. by destruct (remove_first_sub _ _). Qed.

Lemma listening_Cleanup f n r b : listening (Cleanup f n r b) = listening b.
Proof. by destruct f. Qed.

Lemma inv_set_bus b s : listening b = listening (li_bus s) → listener_inv s → listener_inv (set_bus b s).
Proof. intros Hl [H1 H2 H3 H4 H5 H6]. split; simpl; rewrite ?Hl; done. Qed.

Lemma inv_goto p s : p ≠ LIdle → listening (li_bus s) = true → listener_inv s → listener_inv (goto p s).
Proof.
  intros Hp Hl Hinv. pose proof (inv_received s Hinv) as Hr. destruct Hinv as [H1 H2 H3 H4 H5 H6].
  assert (sublist (li_received s) (li_sent s)) as Hrs.
  { etrans; [|exact Hr]. apply sublist_inserts_r. done. }
  split; simpl; [done| |done|lia|by rewrite !firstn_all|].
  - split; [done|congruence].
  - destruct (bool_decide (p = LWait)); [by rewrite !drop_all|done].
Qed.

Lemma inv_notified p b s : listening b = listening (li_bus s) → listener_inv s → listener_inv (notified p b s).
Proof.
  intros Hl Hinv. destruct p as [p|]; [|by apply inv_set_bus]. destruct Hinv as [H1 H2 H3 H4 H5 H6].
  split; simpl; rewrite ?Hl; [done|done| | | |].
  - intros Hp. rewrite bool_decide_false by done. auto.
  - rewrite length_app. lia.
  - rewrite take_app_le by lia. done.
  - case_bool_decide.
    + by rewrite drop_app_le, H6, <-app_assoc by lia.
    + by apply sublist_inserts_r.
Qed.

Lemma PgPublish_listening fault fault' uid now e b :
  listening (PgPublish marshal uuid_string fault fault' uid now e b).2 = listening b.
Proof. unfold PgPublish. repeat case_match; simplify_eq/=; done. Qed.

Lemma listener_inv_step s s' : listen_step s s' → listener_inv s → listener_inv s'.
Proof.
  intros Hstep Hinv.
  assert (∀ p, li_phase s = p → p ≠ LIdle → listening (li_bus s) = true) as Hl.
  { intros p <- Hp. destruct (inv_idle s Hinv) as [_ Hi]. destruct (listening (li_bus s)); [done|]. by destruct Hp, Hi. }
  destruct Hstep as [fault fault' uid now e s|id kinds s|id s|id s|fault now retention s|s|s Hp|s Hp|s Hp|now p rest s Hp Hq|s Hp|s Hp|s Hp Hc];
    try (by (apply inv_goto; [by repeat case_match|by eapply Hl|])).
  - unfold bus_publish. pose proof (PgPublish_listening fault fault' uid now e (li_bus s)) as Hb.
    destruct (PgPublish _ _ _ _ _ _ _ _) as [[err p] b]. by apply inv_notified.
  - unfold bus_subscribe. destruct (listening (li_bus s)) eqn:El; [by apply inv_set_bus|].
    destruct Hinv as [H1 [_ H2] H3 H4 H5 H6]. rewrite El in *. specialize (H2 eq_refl).
    split; simpl; [by rewrite H1|done|intros _; apply H3; congruence|done|done|].
    rewrite bool_decide_false in H6 by congruence. done.
  - by apply inv_set_bus.
  - apply inv_set_bus; [apply listening_removeSub|done].
  - apply inv_set_bus; [apply listening_Cleanup|done].
  - by destruct Hinv.
  - destruct Hinv as [H1 H2 H3 H4 H5 H6]. unfold receive.
    assert (listening (on_notification unmarshal uuid_parse now p (li_bus s)) = listening (li_bus s)) as Hn
      by (unfold on_notification; by destruct (unmarshal p)).
    split; simpl; rewrite ?Hn; [done|done|done| | |].
    + rewrite length_app. lia.
    + rewrite take_app_le by lia. done.
    + rewrite Hp, bool_decide_true in * by done. rewrite H6, Hq, drop_app_le, <-app_assoc by lia. done.
Qed.

Lemma listener_inv_reachable tb s : rtc listen_step (new_listener tb) s → listener_inv s.
Proof.
  assert (∀ a b, rtc listen_step a b → listener_inv a → listener_inv b) as Hgen.
  { induction 1; eauto using listener_inv_step. }
  intros Hr. eapply Hgen; [exact Hr|]. split; simpl; done || lia || constructor.
Qed.


(** The channels of [b'] are new, or those of [b] as they were. *)
Definition same_channels (b b' : PgBus) : Prop :=
  ∀ s', s' ∈ subs b' → ps_ch s' = [] ∨ ∃ s, s ∈ subs b ∧ ps_id s = ps_id s' ∧ ps_ch s = ps_ch s'.

Lemma same_channels_subs b b' : subs b' = subs b → same_channels b b'.
Proof. intros Hb s Hs. right. exists s. by rewrite <-Hb. Qed.

Lemma same_channels_refl b : same_channels b b.
Proof. by apply same_channels_subs. Qed.

Lemma same_channels_trans a b c : same_channels a b → same_channels b c → same_channels a c.
Proof.
  intros Hab Hbc s Hs. destruct (Hbc s Hs) as [?|(s1 & Hs1 & Hi1 & Hc1)]; [by left|].
  destruct (Hab s1 Hs1) as [?|(s0 & Hs0 & Hi0 & Hc0)]; [left; congruence|]. right. exists s0. split_and!; congruence.
Qed.

Lemma same_channels_PgPublish fault fault' uid now e b :
  same_channels b (PgPublish marshal uuid_string fault fault' uid now e b).2.
Proof. apply same_channels_subs. unfold PgPublish. repeat case_match; simplify_eq/=; done. Qed.

Lemma same_channels_removeSub id b : same_channels b (removeSub id b).
Proof.
  unfold removeSub. destruct (remove_first_sub id (subs b)) as [l|] eqn:Er; [|apply same_channels_refl].
  apply remove_first_sub_spec in Er as (l1 & s & l2 & Hl & -> & _). intros s' Hs'. simpl in Hs'. right. exists s'.
  rewrite Hl. split; [set_solver|done].
Qed.

Lemma same_channels_cancel id b : same_channels b (cancel_sub id b).
Proof.
  intros s' Hs'. simpl in Hs'. apply list_elem_of_In, in_map_iff in Hs' as (s & <- & Hs%list_elem_of_In).
  right. exists s. by destruct (ps_id s =? id)%nat.
Qed.

Lemma same_channels_Subscribe id kinds b : same_channels b (PgSubscribe id kinds b).
Proof. intros s' [Hs'| ->%list_elem_of_singleton]%elem_of_app; [by apply same_channels_refl|by left]. Qed.

Lemma stopped_step s s' :
  listen_step s s' → listening (li_bus s) = true → li_phase s = LStopped →
  listening (li_bus s') = true ∧ li_phase s' = LStopped ∧ li_received s' = li_received s ∧
  same_channels (li_bus s) (li_bus s').
Proof.
  intros Hstep Hl Hp.
  destruct Hstep as [fault fault' uid now e s|id kinds s|id s|id s|fault now retention s|s|s Hp'|s Hp'|s Hp'|now p rest s Hp' Hq|s Hp'|s Hp'|s Hp' Hc];
    try (by congruence).
  - unfold bus_publish. pose proof (PgPublish_listening fault fault' uid now e (li_bus s)) as Hb.
    pose proof (same_channels_PgPublish fault fault' uid now e (li_bus s)) as Hs.
    destruct (PgPublish _ _ _ _ _ _ _ _) as [[err [p|]] b]; simpl in *; split_and!; congruence || done.
  - unfold bus_subscribe. rewrite Hl. simpl. split_and!; [done..|apply same_channels_Subscribe].
  - simpl. split_and!; [done..|apply same_channels_cancel].
  - simpl. rewrite listening_removeSub. split_and!; [done..|apply same_channels_removeSub].
  - simpl. rewrite listening_Cleanup. split_and!; [done..|]. apply same_channels_subs. by destruct fault.
  - simpl. split_and!; [done..|apply same_channels_refl].
Qed.

(** A closed bus stays silent.  Once the goroutine has returned, no event
    reaches a subscriber any more, not even one that subscribes later, and no new
    goroutine is started. *)
Theorem closed_bus_silent tb s s' :
  rtc listen_step (new_listener tb) s → li_phase s = LStopped → rtc listen_step s s' →
  li_phase s' = LStopped ∧ li_received s' = li_received s ∧ same_channels (li_bus s) (li_bus s').
Proof.
  intros Hinv%listener_inv_reachable Hp Hr.
  assert (listening (li_bus s) = true) as Hl.
  { destruct (inv_idle s Hinv) as [_ Hi]. destruct (listening (li_bus s)); [done|]. rewrite Hi in Hp; done. }
  clear Hinv. induction Hr as [s|s s1 s2 Hstep _ IH]; [split_and!; [done..|apply same_channels_refl]|].
  destruct (stopped_step _ _ Hstep Hl Hp) as (Hl1 & Hp1 & Hr1 & Hs1).
  destruct (IH Hp1 Hl1) as (? & ? & ?). split_and!; [done|congruence|by eapply same_channels_trans].
Qed.

(** An event published between two connections is not delivered.  It is in the
    table, the loop listens again and nothing is held for it, and the subscriber,
    which was there all the time, has nothing in its channel. *)
Theorem reconnection_gap e :
  ∃ s, rtc listen_step (new_listener []) s ∧ li_phase s = LWait ∧ li_queue s = [] ∧
    events_table (li_bus s) = [stamp "id" 1 (stamp "id" 1 e)] ∧ subs (li_bus s) = [MkPgSub 0 ∅ [] false].
Proof.
  eexists. split.
  { eapply rtc_l; [apply (ls_subscribe 0 []); apply not_elem_of_nil|].
    eapply rtc_l; [by apply ls_check|]. eapply rtc_l; [by apply ls_listening|]. eapply rtc_l; [by apply ls_lost|].
    eapply rtc_l; [apply (ls_publish None None "id" 1 e)|]. eapply rtc_l; [by apply ls_timer|].
    eapply rtc_l; [by apply ls_check|]. eapply rtc_l; [by apply ls_listening|]. apply rtc_refl. }
  done.
Qed.
End listening.

(** * What a notification carries *)

#[global] Program Instance notifyPayload_Codec : Codec notifyPayload :=
  struct_codec (MkNotify "" "" "" "" "")
    [fld "id" keep np_ID (λ v n, MkNotify v (np_OrgID n) (np_Kind n) (np_Name n) (np_Action n));
     fld "org_id" keep np_OrgID (λ v n, MkNotify (np_ID n) v (np_Kind n) (np_Name n) (np_Action n));
     fld "kind" keep np_Kind (λ v n, MkNotify (np_ID n) (np_OrgID n) v (np_Name n) (np_Action n));
     fld "name" keep np_Name (λ v n, MkNotify (np_ID n) (np_OrgID n) (np_Kind n) v (np_Action n));
     fld "action" keep np_Action (λ v n, MkNotify (np_ID n) (np_OrgID n) (np_Kind n) (np_Name n) v)] _ _ _.
Next Obligation. distinct_tags. Qed.
Next Obligation. by intros []. Qed.
Next Obligation. intros []. repeat (split; [done|]). done. Qed.

Section notification.
Context `{Formats}.

Definition marshal_notify (np : notifyPayload) : string := print_json (marshal np).
Definition unmarshal_notify (s : string) : option notifyPayload := json_Unmarshal Columns.zero s.

(** An event reaches the subscribers of every process that listens.  The payload
    that [Publish] sends is read back by the loop, and each live subscriber that
    wants the kind gets the event with its id, organization, kind, name and
    action; it gets it without the payload and with the time of the delivery, not
    that of the event. *)
Theorem notification_delivered uid now now' e0 b b0 p b1 :
  let e := stamp uid now e0 in
  str_ok (E_ID e) → str_ok (E_Kind e) → str_ok (E_Name e) → str_ok (E_Action e) → (E_OrgID e < 2 ^ 128)%N →
  PgPublish marshal_notify uuid_text None None uid now e0 b0 = (None, Some p, b1) →
  on_notification unmarshal_notify parse_uuid now' p b =
  MkPgBus (events_table b)
    (List.map (pg_deliver (MkEvent (E_ID e) (E_OrgID e) (E_Kind e) (E_Name e) (E_Action e) now' None)) (subs b))
    (listening b) (closed b).
Proof.
  intros e Hi Hk Hn Ha Ho Hp. destruct (uuid_law (E_OrgID e) Ho) as [Hu Hut].
  assert (p = marshal_notify (MkNotify (E_ID e) (uuid_text (E_OrgID e)) (E_Kind e) (E_Name e) (E_Action e))) as ->.
  { unfold PgPublish in Hp. destruct (PgStore.Save _ _ _ _ _) as [[|] ?]; [done|]. by injection Hp as <- _. }
  clear Hp. clearbody e.
  set (np := MkNotify _ _ _ _ _). unfold on_notification, unmarshal_notify, marshal_notify, json_Unmarshal.
  assert (codec_ok np) as Hok by (repeat (apply Forall_cons; split; [split; [done|discriminate]|]); constructor).
  destruct (codec_wf np Hok) as [Hwf Hh].
  rewrite parse_print; [|done|eapply Z.le_trans; [apply inj_le, Hh|done]]. cbn [mbind option_bind].
  rewrite (codec_read np (marshal np) Hok (jp_refl _)). simpl. by rewrite Hu.
Qed.
End notification.

(** * The receiving side of the Valkey bus *)

(** The channel, what was taken from it, the messages handled, and whether the
    context is done. *)
Record valkey_sub := MkValkeySub { vs_ch : list Event; vs_taken : list Event; vs_msgs : list string; vs_done : bool }.

Section valkey.
Context (decode : string → option Event).

(** The handler of a message sends to the channel when there is room, and waits
    for room or for the end of the context otherwise. *)
Inductive valkey_step : valkey_sub → valkey_sub → Prop :=
| vk_malformed m ch t ms d : decode m = None → valkey_step (MkValkeySub ch t ms d) (MkValkeySub ch t (ms ++ [m]) d)
| vk_send m e ch t ms d : decode m = Some e → (length ch < 100)%nat →
    valkey_step (MkValkeySub ch t ms d) (MkValkeySub (ch ++ [e]) t (ms ++ [m]) d)
| vk_drop m e ch t ms : decode m = Some e → valkey_step (MkValkeySub ch t ms true) (MkValkeySub ch t (ms ++ [m]) true)
| vk_take e ch t ms d : valkey_step (MkValkeySub (e :: ch) t ms d) (MkValkeySub ch (t ++ [e]) ms d)
| vk_done ch t ms d : valkey_step (MkValkeySub ch t ms d) (MkValkeySub ch t ms true).

Lemma omap_snoc (l : list string) m : omap decode (l ++ [m]) = omap decode l ++ option_list (decode m).
Proof. rewrite omap_app. simpl. by destruct (decode m). Qed.

(** Until its context is done a Valkey subscriber loses nothing: what it took and
    what is in its channel are the events of the messages handled so far, in order;
    after that, a subsequence of them.  The channel never holds more than 100. *)
Theorem valkey_lossless s :
  rtc valkey_step (MkValkeySub [] [] [] false) s →
  sublist (vs_taken s ++ vs_ch s) (omap decode (vs_msgs s)) ∧ (length (vs_ch s) ≤ 100)%nat ∧
  (vs_done s = false → vs_taken s ++ vs_ch s = omap decode (vs_msgs s)).
Proof.
  assert (∀ a b, rtc valkey_step a b →
    sublist (vs_taken a ++ vs_ch a) (omap decode (vs_msgs a)) ∧ (length (vs_ch a) ≤ 100)%nat ∧
      (vs_done a = false → vs_taken a ++ vs_ch a = omap decode (vs_msgs a)) →
    sublist (vs_taken b ++ vs_ch b) (omap decode (vs_msgs b)) ∧ (length (vs_ch b) ≤ 100)%nat ∧
      (vs_done b = false → vs_taken b ++ vs_ch b = omap decode (vs_msgs b))) as Hgen.
  { induction 1 as [|a b c Hab _ IH]; [done|]. intros (H1 & H2 & H3). apply IH. clear IH.
    destruct Hab as [m ch t ms d Hm|m e ch t ms d Hm Hl|m e ch t ms Hm|e ch t ms d|ch t ms d]; simpl in *;
      rewrite ?omap_snoc, ?Hm, ?length_app, <-?app_assoc; simpl; rewrite ?app_nil_r; try done.
    - rewrite app_assoc. split_and!; [by apply sublist_app|lia|intros ?; by rewrite H3].
    - split_and!; [by apply sublist_inserts_r|done|done].
    - split_and!; [done|lia|done]. }
  intros Hr. apply (Hgen _ _ Hr). split_and!; [constructor|simpl; lia|done].
Qed.
End valkey.

(** * The polling loop of the dispatcher *)

(** Where the goroutine of [StartPolling] is: in its [select], in a round with the
    runs of the snapshot still to poll, returned. *)
Inductive pphase := PWaiting | PPolling (rest : list TrackedRun) | PStopped.

Section polling.
Context `{SortSlice} {V E : Type} `{!Executor V E}.

(** The executor, the runs tracked, the goroutine, and as history the callbacks
    made and the ids of the runs ever tracked. *)
Record poller := MkPoller {
  po_exec : E;
  po_tracked : gmap string TrackedRun;
  po_phase : pphase;
  po_calls : list (TrackedRun * Run V);
  po_issued : gset string;
}.

(** The callback as it is seen from outside: it is called, and its error is only
    logged. *)
Definition called (fault : option string) (tr : TrackedRun) (run : Run V) (l : list (TrackedRun * Run V)) :=
  (fault, l ++ [(tr, run)]).

(** One run of a round. *)
Definition poll_one (fault : option string) (tr : TrackedRun) (rest : list TrackedRun) (p : poller) : poller :=
  let '(e, tracked, calls) := poll_loop (Some (called fault)) [tr] (po_exec p) (po_tracked p) (po_calls p) in
  MkPoller e tracked (PPolling rest) calls (po_issued p).

Definition set_phase (ph : pphase) (p : poller) : poller :=
  MkPoller (po_exec p) (po_tracked p) ph (po_calls p) (po_issued p).

(** Dispatches go on next to the loop; the executor gives every run an id of its
    own. *)
Inductive poll_step : poller → poller → Prop :=
| po_dispatch now t rt ev (input : gmap string V) opts p res e tracked :
    Dispatch now t rt ev input opts (po_exec p) (po_tracked p) = (res, e, tracked) →
    (∀ id tr, tracked !! id = Some tr → po_tracked p !! id = Some tr ∨ id ∉ po_issued p) →
    poll_step p (MkPoller e tracked (po_phase p) (po_calls p) (po_issued p ∪ dom tracked))
| po_tick runs p :
    po_phase p = PWaiting → (runs ≡ₚ (map_to_list (po_tracked p)).*2) → poll_step p (set_phase (PPolling runs) p)
| po_poll fault tr rest p : po_phase p = PPolling (tr :: rest) → poll_step p (poll_one fault tr rest p)
| po_round p : po_phase p = PPolling [] → poll_step p (set_phase PWaiting p)
| po_stop p : po_phase p = PWaiting → poll_step p (set_phase PStopped p).

Definition pending (ph : pphase) : list TrackedRun := match ph with PPolling rest => rest | _ => [] end.

(** The map of tracked runs is keyed by their ids. *)
Definition keyed (tracked : gmap string TrackedRun) : Prop := map_Forall (λ id tr, RunID tr = id) tracked.

Definition call_ids (p : poller) : list string := List.map (λ x, RunID x.1) (po_calls p).

Record poller_inv (p : poller) : Prop := {
  pi_keyed : keyed (po_tracked p);
  pi_issued : dom (po_tracked p) ⊆ po_issued p ∧ list_to_set (call_ids p) ⊆ po_issued p;
  pi_gone : ∀ id, id ∈ call_ids p → po_tracked p !! id = None;
  pi_calls : NoDup (call_ids p);
  pi_pending : NoDup (RunID <$> pending (po_phase p)) ∧
    ∀ tr, tr ∈ pending (po_phase p) → (RunID tr ∉ call_ids p) ∧ RunID tr ∈ po_issued p;
  pi_finished : Forall (λ x, terminal (Status x.2) = true) (po_calls p);
}.

Lemma main_loop_keyed now rt ev opts hs (input : gmap string V) (e : E) tracked :
  keyed tracked → keyed (main_loop now rt ev opts hs input e tracked).2.
Proof.
  intros Hk. induction hs as [|h hs IH] in e, tracked, Hk |- *; simpl; [done|].
  case_bool_decide; simpl; [|by apply IH]. destruct (Submit h input e) as [[err|run] e1]; simpl; [done|].
  repeat case_match; simpl; try done; by apply map_Forall_insert_2.
Qed.

Lemma Dispatch_keyed now t rt ev (input : gmap string V) opts (e : E) tracked :
  keyed tracked → keyed (Dispatch now t rt ev input opts e tracked).2.
Proof.
  intros Hk. unfold Dispatch. destruct (Lookup t rt ev) as [|h hs]; [done|].
  destruct (pre_loop _ _ _) as [[err|] e1]; [done|].
  pose proof (main_loop_keyed now rt ev opts (h :: hs) input e1 tracked Hk) as Hm.
  by destruct (main_loop _ _ _ _ _ _ _ _) as [[[err|run] e2] tracked'].
Qed.

Lemma keyed_ids (tracked : gmap string TrackedRun) :
  keyed tracked → RunID <$> (map_to_list tracked).*2 = (map_to_list tracked).*1.
Proof.
  intros Hk. rewrite <-list_fmap_compose. apply list_fmap_ext. intros i [id tr] Hi. simpl.
  apply (Hk id tr), elem_of_map_to_list. by eapply list_elem_of_lookup_2.
Qed.

Lemma poll_one_cases fault tr rest p :
  (∃ e, poll_one fault tr rest p = MkPoller e (po_tracked p) (PPolling rest) (po_calls p) (po_issued p)) ∨
  (∃ e run, terminal (Status run) = true ∧
     poll_one fault tr rest p =
     MkPoller e (delete (RunID tr) (po_tracked p)) (PPolling rest) (po_calls p ++ [(tr, run)]) (po_issued p)).
Proof.
  unfold poll_one. simpl. destruct (Poll (RunID tr) (po_exec p)) as [[err|run] e]; [eauto|].
  destruct (terminal (Status run)) eqn:Et; simpl; [right|left]; eauto.
Qed.

Lemma poller_inv_phase ph p : pending ph = [] → poller_inv p → poller_inv (set_phase ph p).
Proof.
  intros Hph [H1 H2 H3 H4 H5 H6]. split; simpl; rewrite ?Hph; try done. split; [constructor|by intros ? ?%elem_of_nil].
Qed.

Lemma poller_inv_dispatch p e tracked :
  keyed tracked → (∀ id tr, tracked !! id = Some tr → po_tracked p !! id = Some tr ∨ id ∉ po_issued p) →
  poller_inv p → poller_inv (MkPoller e tracked (po_phase p) (po_calls p) (po_issued p ∪ dom tracked)).
Proof.
  intros Hk Hnew [H1 [H2 H2'] H3 H4 [H5 H5'] H6]. split; simpl; [done|split; set_solver| |done| |done].
  - intros id Hid. destruct (tracked !! id) as [tr|] eqn:Et; [|done].
    destruct (Hnew id tr Et) as [Ho|Ho]; [rewrite H3 in Ho; done|].
    destruct Ho. apply H2', elem_of_list_to_set. exact Hid.
  - split; [done|]. intros tr Htr. destruct (H5' tr Htr). set_solver.
Qed.

Lemma poller_inv_tick runs p :
  po_phase p = PWaiting → (runs ≡ₚ (map_to_list (po_tracked p)).*2) → poller_inv p → poller_inv (set_phase (PPolling runs) p).
Proof.
  intros Hp Hr [H1 [H2 H2'] H3 H4 H5 H6]. split; simpl; try done.
  assert (RunID <$> runs ≡ₚ (map_to_list (po_tracked p)).*1) as Hids by (by rewrite Hr, keyed_ids).
  split; [rewrite Hids; apply NoDup_fst_map_to_list|].
  intros tr Htr. assert (is_Some (po_tracked p !! RunID tr)) as [tr' Hl].
  { assert (RunID tr ∈ (map_to_list (po_tracked p)).*1) as Hin by (rewrite <-Hids; by apply list_elem_of_fmap_2).
    apply list_elem_of_fmap in Hin as ([id v] & -> & Hv%elem_of_map_to_list). by exists v. }
  split; [|apply H2, elem_of_dom; eauto]. intros Hc. apply H3 in Hc. unfold set_phase in Hc. simpl in Hc. congruence.
Qed.

Lemma poller_inv_poll fault tr rest p :
  po_phase p = PPolling (tr :: rest) → poller_inv p → poller_inv (poll_one fault tr rest p).
Proof.
  intros Hp [H1 [H2 H2'] H3 H4 [H5 H5'] H6]. rewrite Hp in *. simpl in *. apply NoDup_cons in H5 as [Hn H5].
  destruct (H5' tr) as [Hnc Hi]; [left|].
  destruct (poll_one_cases fault tr rest p) as [[e ->]|(e & run & Ht & ->)].
  - split; simpl; try done. split; [done|]. intros tr' Htr'. apply H5'. by right.
  - assert (call_ids (MkPoller e (delete (RunID tr) (po_tracked p)) (PPolling rest) (po_calls p ++ [(tr, run)]) (po_issued p)) =
            call_ids p ++ [RunID tr]) as Hc by apply map_app.
    split; rewrite ?Hc; simpl.
    + by apply map_Forall_delete.
    + split; set_solver.
    + intros id [Hid| ->%list_elem_of_singleton]%elem_of_app; [|apply lookup_delete_eq].
      destruct (decide (id = RunID tr)) as [->|]; [apply lookup_delete_eq|]. rewrite lookup_delete_ne by done. by apply H3.
    + apply NoDup_app. split_and!; [done|set_solver|apply NoDup_singleton].
    + split; [done|]. intros tr' Htr'. destruct (H5' tr') as [? ?]; [by right|]. split; [|done].
      rewrite elem_of_app, list_elem_of_singleton. intros [?|Heq]; [done|]. apply Hn. rewrite <-Heq.
      by apply list_elem_of_fmap_2.
    + apply Forall_app. split; [done|]. by apply Forall_singleton.
Qed.

Lemma poller_inv_step p p' : poll_step p p' → poller_inv p → poller_inv p'.
Proof.
  intros Hs Hinv. destruct Hs as [now t rt ev input opts p res e tracked Hd Hnew|runs p Hp Hr|fault tr rest p Hp|p Hp|p Hp].
  - apply poller_inv_dispatch; [|done|done].
    pose proof (Dispatch_keyed now t rt ev input opts (po_exec p) (po_tracked p) (pi_keyed p Hinv)) as Hk. by rewrite Hd in Hk.
  - by apply poller_inv_tick.
  - by apply poller_inv_poll.
  - by apply poller_inv_phase.
  - by apply poller_inv_phase.
Qed.

Definition new_poller (e : E) : poller := MkPoller e ∅ PWaiting [] ∅.

(** C32: Each run is reported once.  However dispatches and rounds of polling
    interleave, the status callback is called at most once for a run, only for a
    run that completed or failed, and never again tracks or polls it; a run that is
    tracked or waits in the round has not been reported. *)
Theorem polled_once e p :
  rtc poll_step (new_poller e) p →
  NoDup (call_ids p) ∧ Forall (λ x, terminal (Status x.2) = true) (po_calls p) ∧
  (∀ id, id ∈ call_ids p → po_tracked p !! id = None ∧ (id ∉ RunID <$> pending (po_phase p))).
Proof.
  assert (∀ a b, rtc poll_step a b → poller_inv a → poller_inv b) as Hgen.
  { induction 1; eauto using poller_inv_step. }
  intros Hr. destruct (Hgen _ _ Hr) as [_ _ H3 H4 [_ H5] H6].
  { split; simpl; [apply map_Forall_empty|split; set_solver|by intros ? ?%elem_of_nil|constructor| |constructor].
    split; [constructor|by intros ? ?%elem_of_nil]. }
  split_and!; [done|done|]. intros id Hid. split; [by apply H3|].
  intros (tr & -> & Htr)%list_elem_of_fmap. by destruct (H5 tr Htr).
Qed.
End polling.

(** * Witnesses *)

Definition plain_marshal (np : notifyPayload) : string := np_ID np.


Definition build_table : DispatchTable := RegisterHandler (handler PhaseMain "build") NewDispatchTable.

Definition build_script : list (string + Run string) :=
  [inr (MkRun "r1" RunRunning None ""); inr (MkRun "r1" RunCompleted None "")].

Lemma polled_once_witness :
  ∃ p, rtc poll_step (new_poller build_script) p ∧ call_ids p = ["r1"] ∧ po_tracked p = ∅ ∧ NoDup (call_ids p).
Proof.
  assert (∃ p, rtc poll_step (new_poller build_script) p ∧ call_ids p = ["r1"] ∧ po_tracked p = ∅) as (p & Hr & Hc & Ht).
  { eexists. split.
    { eapply rtc_l.
      { eapply (po_dispatch 7 build_table "vm" "create" ∅ (Some (MkOpts 1 "n"))); [vm_compute; reflexivity|].
        intros id tr _. right. set_solver. }
      eapply rtc_l.
      { apply (po_tick [MkTracked "r1" "vm" 1 "n" "create" 7]); [reflexivity|]. vm_compute. reflexivity. }
      eapply rtc_l; [by apply (po_poll None)|]. apply rtc_refl. }
    split; [reflexivity|vm_compute; reflexivity]. }
  exists p. split; [exact Hr|]. split; [exact Hc|]. split; [exact Ht|]. apply (polled_once build_script p Hr).
Defined.
