(* ===== verification/Cli.v ===== *)
(** The command line client (src/cmd/infractl): the requests its commands build
    from their flags and arguments, what they do with the response, and what they
    print. *)

From S2P Require Import Prelude Registry External Start GoStrings GoJson JsonPrint Resource Gorm Models Nesting Store Columns Auth Rest Server Url Wire.
From Stdlib Require Import Ascii.

(** * Machines as the client sees them (machines.go) *)

Record machineSpec := MkSpec { c_Arch : string; c_CPUs : Z; c_MemoryMB : Z; c_DiskGB : Z; c_BMCAddr : string }.
Record machineStatus := MkStatus { c_Phase : string; c_Message : string }.

Record machineResource := MkMachineResource {
  m_OrgID : string;
  m_Name : string;
  m_Labels : option (gmap string string);
  m_Annotations : option (gmap string string);
  m_Generation : Z;
  m_ResourceVersion : Z;
  m_Owner : option string;
  m_CreatedAt : Time;
  m_UpdatedAt : Time;
  m_Spec : machineSpec;
  m_Status : machineStatus;
}.

Record machineListResponse := MkMachineList {
  l_Items : option (list machineResource);
  l_Continue : string;
  l_Total : Z;
}.

#[global] Instance machineSpec_Codec : Codec machineSpec :=
  struct! (MkSpec "" 0 0 0 "")
    [fld "arch" empty_string c_Arch (λ v s, MkSpec v (c_CPUs s) (c_MemoryMB s) (c_DiskGB s) (c_BMCAddr s));
     fld "cpus" zero_int c_CPUs (λ v s, MkSpec (c_Arch s) v (c_MemoryMB s) (c_DiskGB s) (c_BMCAddr s));
     fld "memory_mb" zero_int c_MemoryMB (λ v s, MkSpec (c_Arch s) (c_CPUs s) v (c_DiskGB s) (c_BMCAddr s));
     fld "disk_gb" zero_int c_DiskGB (λ v s, MkSpec (c_Arch s) (c_CPUs s) (c_MemoryMB s) v (c_BMCAddr s));
     fld "bmc_addr" empty_string c_BMCAddr (λ v s, MkSpec (c_Arch s) (c_CPUs s) (c_MemoryMB s) (c_DiskGB s) v)].

#[global] Instance machineStatus_Codec : Codec machineStatus :=
  struct! (MkStatus "" "")
    [fld "phase" keep c_Phase (λ v s, MkStatus v (c_Message s));
     fld "message" empty_string c_Message (λ v s, MkStatus (c_Phase s) v)].

(** Go's field assignments of [machineResource]. *)
Section assignments.
Implicit Types m : machineResource.

Definition set_OrgID v m := MkMachineResource v (m_Name m) (m_Labels m) (m_Annotations m) (m_Generation m)
  (m_ResourceVersion m) (m_Owner m) (m_CreatedAt m) (m_UpdatedAt m) (m_Spec m) (m_Status m).
Definition set_Name v m := MkMachineResource (m_OrgID m) v (m_Labels m) (m_Annotations m) (m_Generation m)
  (m_ResourceVersion m) (m_Owner m) (m_CreatedAt m) (m_UpdatedAt m) (m_Spec m) (m_Status m).
Definition set_Labels v m := MkMachineResource (m_OrgID m) (m_Name m) v (m_Annotations m) (m_Generation m)
  (m_ResourceVersion m) (m_Owner m) (m_CreatedAt m) (m_UpdatedAt m) (m_Spec m) (m_Status m).
Definition set_Annotations v m := MkMachineResource (m_OrgID m) (m_Name m) (m_Labels m) v (m_Generation m)
  (m_ResourceVersion m) (m_Owner m) (m_CreatedAt m) (m_UpdatedAt m) (m_Spec m) (m_Status m).
Definition set_Generation v m := MkMachineResource (m_OrgID m) (m_Name m) (m_Labels m) (m_Annotations m) v
  (m_ResourceVersion m) (m_Owner m) (m_CreatedAt m) (m_UpdatedAt m) (m_Spec m) (m_Status m).
Definition set_ResourceVersion v m := MkMachineResource (m_OrgID m) (m_Name m) (m_Labels m) (m_Annotations m)
  (m_Generation m) v (m_Owner m) (m_CreatedAt m) (m_UpdatedAt m) (m_Spec m) (m_Status m).
Definition set_Owner v m := MkMachineResource (m_OrgID m) (m_Name m) (m_Labels m) (m_Annotations m) (m_Generation m)
  (m_ResourceVersion m) v (m_CreatedAt m) (m_UpdatedAt m) (m_Spec m) (m_Status m).
Definition set_CreatedAt v m := MkMachineResource (m_OrgID m) (m_Name m) (m_Labels m) (m_Annotations m) (m_Generation m)
  (m_ResourceVersion m) (m_Owner m) v (m_UpdatedAt m) (m_Spec m) (m_Status m).
Definition set_UpdatedAt v m := MkMachineResource (m_OrgID m) (m_Name m) (m_Labels m) (m_Annotations m) (m_Generation m)
  (m_ResourceVersion m) (m_Owner m) (m_CreatedAt m) v (m_Spec m) (m_Status m).
Definition set_Spec v m := MkMachineResource (m_OrgID m) (m_Name m) (m_Labels m) (m_Annotations m) (m_Generation m)
  (m_ResourceVersion m) (m_Owner m) (m_CreatedAt m) (m_UpdatedAt m) v (m_Status m).
Definition set_Status v m := MkMachineResource (m_OrgID m) (m_Name m) (m_Labels m) (m_Annotations m) (m_Generation m)
  (m_ResourceVersion m) (m_Owner m) (m_CreatedAt m) (m_UpdatedAt m) (m_Spec m) v.
End assignments.

Section client.
Context `{Formats}.

Definition machineResource_fields : list (field machineResource) :=
  [fld "org_id" keep m_OrgID set_OrgID;
   fld "name" keep m_Name set_Name;
   fld "labels" empty_map m_Labels set_Labels;
   fld "annotations" empty_map m_Annotations set_Annotations;
   fld "generation" keep m_Generation set_Generation;
   fld "resource_version" keep m_ResourceVersion set_ResourceVersion;
   fld (H := string_option_Codec) "owner" empty_option m_Owner set_Owner;
   fld (H := time_Codec) "created_at" keep m_CreatedAt set_CreatedAt;
   fld (H := time_Codec) "updated_at" keep m_UpdatedAt set_UpdatedAt;
   fld "spec" keep m_Spec set_Spec;
   fld "status" keep m_Status set_Status].

Definition zero_machine : machineResource :=
  MkMachineResource "" "" None None 0 0 None 0 0 (Columns.zero) (Columns.zero).

#[global] Program Instance machineResource_Codec : Codec machineResource :=
  struct_codec zero_machine machineResource_fields _ _ _.
Next Obligation. distinct_tags. Qed.
Next Obligation. by intros []. Qed.
Next Obligation. intros []. repeat (split; [done|]). done. Qed.

#[global] Program Instance machineListResponse_Codec : Codec machineListResponse :=
  struct_codec (MkMachineList None "" 0)
    [fld "items" keep l_Items (λ v l, MkMachineList v (l_Continue l) (l_Total l));
     fld "continue" empty_string l_Continue (λ v l, MkMachineList (l_Items l) v (l_Total l));
     fld "total" keep l_Total (λ v l, MkMachineList (l_Items l) (l_Continue l) v)] _ _ _.
Next Obligation. distinct_tags. Qed.
Next Obligation. by intros []. Qed.
Next Obligation. intros []. repeat (split; [done|]). done. Qed.

(** * Requests *)

(** A URL, as far as its text is put together again: the part before the query,
    the query and the fragment. *)
Record URL := MkURL { u_Address : string; ForceQuery : bool; RawQuery : string; u_Fragment : string }.

Definition url_String (u : URL) : string :=
  u_Address u +:+ (if ForceQuery u || negb (String.eqb (RawQuery u) "") then "?" +:+ RawQuery u else "") +:+
  (if String.eqb (u_Fragment u) "" then "" else "#" +:+ u_Fragment u).

Definition path_of (segments : list string) : string := foldr (λ s r, "/" +:+ PathEscape s +:+ r) "" segments.

(** [url.Parse]: an error or the parts of the URL.  An address that can be the
    base of others ([base_ok]) followed by a path of escaped segments and an
    encoded query is split where the query begins. *)
Class UrlParser := {
  url_Parse : string → string + URL;
  base_ok : string → Prop;
  url_Parse_law : ∀ server segments (q : Values), base_ok server →
    let q := Values_Encode q in
    url_Parse (server +:+ path_of segments +:+ (if String.eqb q "" then "" else "?" +:+ q)) =
    inr (MkURL (server +:+ path_of segments) false q "");
}.

Record client_request := MkClientRequest {
  cr_Method : string;
  cr_URL : URL;
  cr_Header : header;
  cr_Body : string;
}.

(** The bytes of the body that were read, and the error that ended it early. *)
Record http_response := MkHttpResponse { StatusCode : Z; resp_Body : string * option string }.

(** yaml.v3: a document decoded into an [interface{}], whether it is a
    [map[string]interface{}], and its JSON, which fails for values JSON does not
    have; and the YAML of a decoded JSON value, which fails for a number out of
    the range of a float. *)
Class Yaml := {
  yaml_value : Type;
  yaml_Unmarshal : string → string + yaml_value;
  is_string_map : yaml_value → bool;
  yaml_json : yaml_value → string + string;
  yaml_of_json : json → string + string;
}.

(** The text of [time.Since] truncated to the second, and of a time in RFC 3339. *)
Class Clock := {
  age_text : Time → Time → string;
  rfc3339 : Time → string;
}.

Section commands.
Context `{!UrlParser, !Yaml, !Clock}.

(** The persistent flags (config.go, main.go). *)
Record config := MkConfig { server : string; orgID : string; output : string }.

Definition default_config : config := MkConfig "http://localhost:8080" "00000000-0000-0000-0000-000000000001" "table".

Definition NewRequest (method url body : string) : string + client_request :=
  match url_Parse url with
  | inl err => inl err
  | inr u => inr (MkClientRequest method u ∅ body)
  end.

Definition with_header (k v : string) (r : client_request) : client_request :=
  MkClientRequest (cr_Method r) (cr_URL r) (header_Set k v (cr_Header r)) (cr_Body r).

Record list_flags := MkListFlags { f_limit : Z; f_filter : string; f_continue : string }.

Definition list_query (fl : list_flags) (q : Values) : Values :=
  let q := if 0 <? f_limit fl then Values_Set "limit" (Itoa (f_limit fl)) q else q in
  let q := if negb (String.eqb (f_filter fl) "") then Values_Set "filter" (f_filter fl) q else q in
  if negb (String.eqb (f_continue fl) "") then Values_Set "continue" (f_continue fl) q else q.

Definition list_request (cfg : config) (fl : list_flags) : string + client_request :=
  let? u := url_Parse (server cfg +:+ "/api/v1/machines") in
  let q := list_query fl (ParseQuery (RawQuery u)) in
  let u := MkURL (u_Address u) (ForceQuery u) (Values_Encode q) (u_Fragment u) in
  let? req := NewRequest "GET" (url_String u) "" in
  inr (with_header "X-Org-ID" (orgID cfg) req).

Definition machine_request (cfg : config) (method name : string) : string + client_request :=
  let? req := NewRequest method (server cfg +:+ "/api/v1/machines/" +:+ PathEscape name) "" in
  inr (with_header "X-Org-ID" (orgID cfg) req).

(** The document as JSON when it is a YAML mapping, else as it is. *)
Definition create_body (data : string) : string + string :=
  match yaml_Unmarshal data with
  | inl _ => inr data
  | inr raw =>
      if is_string_map raw then
        match yaml_json raw with
        | inl err => inl ("converting YAML to JSON: " +:+ err)
        | inr data => inr data
        end
      else inr data
  end.

Definition create_request (cfg : config) (data : string) : string + client_request :=
  let? data := create_body data in
  let? req := NewRequest "POST" (server cfg +:+ "/api/v1/machines") data in
  inr (with_header "X-Org-ID" (orgID cfg) (with_header "Content-Type" "application/json" req)).

Definition capabilities_request (cfg : config) : string + client_request :=
  NewRequest "GET" (server cfg +:+ "/api/v1/capabilities") "".

(** * Responses *)

(** What a command writes to its standard output, as it is or through the
    tabwriter, to its standard error, and the error it returns. *)
Inductive text := Plain (s : string) | Tabbed (s : string).
Record result := MkResult { r_stdout : list text; r_stderr : string; r_err : option string }.

Definition fails (err : string) : result := MkResult [] "" (Some err).
Definition prints (l : list text) : result := MkResult l "" None.

Definition not_ok (status : Z) : bool := (status <? 200) || (300 <=? status).

Definition server_error (status : Z) (body : string) : string :=
  "server returned " +:+ Itoa status +:+ ": " +:+ body.

(** The body of a response that succeeded. *)
Definition read_response (resp : http_response) : string + string :=
  match resp_Body resp with
  | (_, Some err) => inl err
  | (body, None) => if not_ok (StatusCode resp) then inl (server_error (StatusCode resp) body) else inr body
  end.

Definition jsonToYAML (data : string) : result :=
  match parse_json data with
  | None => fails "invalid JSON"
  | Some obj => match yaml_of_json obj with inl err => fails err | inr out => prints [Plain out] end
  end.

Definition nl : string := String (chr 10) "".
Definition tab : string := String (chr 9) "".

(** One exchange with the server and the output in the chosen format; [table]
    prints a body that was decoded.  That a body does not decode is an error; the
    decoder's text of it is not modelled. *)
Definition run {T} `{Codec T} (cfg : config) (Do : client_request → string + http_response)
    (req : string + client_request) (table : T → result) : result :=
  match req with
  | inl err => fails err
  | inr req =>
      match Do req with
      | inl err => fails err
      | inr resp =>
          match read_response resp with
          | inl err => fails err
          | inr body =>
              if String.eqb (output cfg) "json" then prints [Plain (body +:+ nl)]
              else if String.eqb (output cfg) "yaml" then jsonToYAML body
              else match json_Unmarshal Columns.zero body with
                   | None => fails "json: cannot unmarshal value"
                   | Some x => table x
                   end
          end
      end
  end.

Definition line (cells : list string) : string := Join cells tab +:+ nl.

Definition machine_row (now : Time) (m : machineResource) : string :=
  line [m_Name m; c_Arch (m_Spec m); Itoa (c_CPUs (m_Spec m)); Itoa (c_MemoryMB (m_Spec m)); c_Phase (m_Status m);
        age_text now (m_CreatedAt m)].

Definition list_table (now : Time) (l : machineListResponse) : result :=
  MkResult
    [Tabbed (line ["NAME"; "ARCH"; "CPUS"; "MEMORY_MB"; "PHASE"; "AGE"] +:+
             Join (machine_row now <$> default [] (l_Items l)) "")]
    (if String.eqb (l_Continue l) "" then ""
     else nl +:+ "Use --continue=" +:+ l_Continue l +:+ " to fetch the next page" +:+ nl) None.

Definition get_table (m : machineResource) : result :=
  prints [Tabbed (Join (line <$>
    [["Name:"; m_Name m]; ["OrgID:"; m_OrgID m]; ["Arch:"; c_Arch (m_Spec m)]; ["CPUs:"; Itoa (c_CPUs (m_Spec m))];
     ["MemoryMB:"; Itoa (c_MemoryMB (m_Spec m))]; ["DiskGB:"; Itoa (c_DiskGB (m_Spec m))];
     ["BMCAddr:"; c_BMCAddr (m_Spec m)]; ["Phase:"; c_Phase (m_Status m)]; ["Message:"; c_Message (m_Status m)];
     ["Generation:"; Itoa (m_Generation m)]; ["ResourceVersion:"; Itoa (m_ResourceVersion m)];
     ["CreatedAt:"; rfc3339 (m_CreatedAt m)]; ["UpdatedAt:"; rfc3339 (m_UpdatedAt m)]]) "")].

(** * Commands *)

Definition machinesList cfg Do now fl : result := run cfg Do (list_request cfg fl) (list_table now).

Definition machinesGet cfg Do name : result := run cfg Do (machine_request cfg "GET" name) get_table.

(** [data] is what reading the file or the standard input gave. *)
Definition machinesCreate cfg Do (data : string + string) : result :=
  match data with
  | inl err => fails ("reading input: " +:+ err)
  | inr data =>
      run cfg Do (create_request cfg data)
        (λ m : machineResource, prints [Plain ("machine/" +:+ m_Name m +:+ " created" +:+ nl)])
  end.

Definition machinesDelete (cfg : config) (Do : client_request → string + http_response) (name : string) : result :=
  match machine_request cfg "DELETE" name with
  | inl err => fails err
  | inr req =>
      match Do req with
      | inl err => fails err
      | inr resp =>
          if not_ok (StatusCode resp) then fails (server_error (StatusCode resp) (resp_Body resp).1)
          else prints [Plain ("machine/" +:+ name +:+ " deleted" +:+ nl)]
      end
  end.

Definition string_le (a b : string) : Prop := Is_true (String.leb a b).
#[global] Instance string_le_dec : RelDecision string_le := λ a b, _.

(** The features in order with their providers. *)
Definition capabilities_table (caps : option (gmap string string)) : result :=
  let caps := default ∅ caps in
  let features := merge_sort string_le (map_to_list caps).*1 in
  prints [Tabbed (line ["FEATURE"; "PROVIDER"] +:+
                  Join ((λ f, line [f; default "" (caps !! f)]) <$> features) "")].

Definition capabilitiesCmd cfg Do : result := run cfg Do (capabilities_request cfg) capabilities_table.

(** The end of main: the error goes to the standard error, and the exit status
    tells it. *)
Definition exit_status (r : result) : Z := match r_err r with None => 0 | Some _ => 1 end.

(** * The requests on the server's side *)

(** The request a handler gets; the path and the parameters of the route are the
    router's. *)
Definition received (path : string) (params : string → string) (q : client_request) : request :=
  MkRequest (cr_Method q) path (λ k, default "" (cr_Header q !! CanonicalHeaderKey k))
    (Values_Get (ParseQuery (RawQuery (cr_URL q)))) params (cr_Body q).

Lemma received_org path params org q : r_Header (received path params (with_header "X-Org-ID" org q)) "X-Org-ID" = org.
Proof. simpl. unfold header_Set. by rewrite lookup_insert_eq. Qed.

Lemma list_query_values fl (q : Values) :
  map_Forall (λ _ vs, vs ≠ []) q → map_Forall (λ _ vs, vs ≠ []) (list_query fl q).
Proof.
  intros Hq. unfold list_query, Values_Set. repeat case_match; repeat apply map_Forall_insert_2; done.
Qed.

Lemma list_query_get fl :
  Values_Get (list_query fl ∅) "limit" = (if 0 <? f_limit fl then Itoa (f_limit fl) else "") ∧
  Values_Get (list_query fl ∅) "filter" = f_filter fl ∧
  Values_Get (list_query fl ∅) "continue" = f_continue fl.
Proof.
  unfold list_query, Values_Set, Values_Get.
  destruct (String.eqb_spec (f_filter fl) "") as [->|], (String.eqb_spec (f_continue fl) "") as [->|], (0 <? f_limit fl);
    simpl; split_and!; by simplify_map_eq.
Qed.

Lemma url_String_query address (q : Values) :
  url_String (MkURL address false (Values_Encode q) "") =
  address +:+ (if String.eqb (Values_Encode q) "" then "" else "?" +:+ Values_Encode q).
Proof. unfold url_String. simpl. rewrite sapp_nil_r. by destruct (String.eqb _ _). Qed.

Lemma Parse_path cfg segments :
  base_ok (server cfg) →
  url_Parse (server cfg +:+ path_of segments) = inr (MkURL (server cfg +:+ path_of segments) false "" "").
Proof.
  intros Hb. pose proof (url_Parse_law (server cfg) segments ∅ Hb) as Hp. cbn in Hp. by rewrite sapp_nil_r in Hp.
Qed.

Lemma list_request_built cfg fl :
  base_ok (server cfg) →
  list_request cfg fl = inr (with_header "X-Org-ID" (orgID cfg)
    (MkClientRequest "GET" (MkURL (server cfg +:+ "/api/v1/machines") false (Values_Encode (list_query fl ∅)) "") ∅ "")).
Proof.
  intros Hb. unfold list_request. change "/api/v1/machines" with (path_of ["api"; "v1"; "machines"]).
  rewrite Parse_path by done. cbn [u_Address ForceQuery RawQuery u_Fragment]. change (ParseQuery "") with (∅ : Values).
  rewrite url_String_query. unfold NewRequest. rewrite sapp_assoc, url_Parse_law by done. done.
Qed.

Lemma machine_request_built cfg method name :
  base_ok (server cfg) →
  machine_request cfg method name = inr (with_header "X-Org-ID" (orgID cfg)
    (MkClientRequest method (MkURL (server cfg +:+ "/api/v1/machines/" +:+ PathEscape name) false "" "") ∅ "")).
Proof.
  intros Hb. unfold machine_request, NewRequest.
  replace ("/api/v1/machines/" +:+ PathEscape name) with (path_of ["api"; "v1"; "machines"; name]).
  - by rewrite Parse_path.
  - simpl. by rewrite sapp_nil_r.
Qed.
End commands.

(** * Machines of the server as the client decodes them *)

Definition client_view (m : Machine) : machineResource :=
  let b := o_base m in
  MkMachineResource (uuid_text (OrgID b)) (Name b) (Labels b) (Annotations b) (Generation b) (ResourceVersion b)
    (Owner b) (CreatedAt b) (UpdatedAt b) Columns.zero Columns.zero.

Lemma spec_unread (x : machineSpec) (s : MachineSpec) : unmarshal x (marshal (MkJSONField s)) = Some x.
Proof. reflexivity. Qed.

Lemma status_unread (x : machineStatus) (s : MachineStatus) : unmarshal x (marshal (MkJSONField s)) = Some x.
Proof. reflexivity. Qed.

Lemma bind_step {A B} (o : option A) (a : A) (k : A → option B) r : o = Some a → k a = r → (o ≫= k) = r.
Proof. by intros -> <-. Qed.

Ltac same_field g' :=
  eapply bind_step;
  [eapply (assign_same _ _ _ _ _ _ _ _ g'); [reflexivity|eassumption|reflexivity|exact (λ H, H)|reflexivity]|].

Lemma decoded_view (m : Machine) : codec_ok m → unmarshal zero_machine (marshal m) = Some (client_view m).
Proof.
  intros Hok. cbn [unmarshal marshal machineResource_Codec Object_Codec struct_codec].
  unfold marshal_struct, unmarshal_struct. 
  unfold machineResource_fields at 2.
  cbn [assign_fields]. rewrite !matched_struct.

  eapply bind_step; [reflexivity|].
  same_field (λ m : Machine, Name (o_base m)).
  same_field (λ m : Machine, Labels (o_base m)).
  same_field (λ m : Machine, Annotations (o_base m)).
  same_field (λ m : Machine, Generation (o_base m)).
  same_field (λ m : Machine, ResourceVersion (o_base m)).
  same_field (λ m : Machine, Owner (o_base m)).
  same_field (λ m : Machine, CreatedAt (o_base m)).
  same_field (λ m : Machine, UpdatedAt (o_base m)).
  eapply bind_step; [reflexivity|]. eapply bind_step; reflexivity.
Qed.

Lemma decoded_views (l : list Machine) :
  Forall codec_ok l → unmarshal_elems (A := machineResource) [] (List.map marshal l) = Some (List.map client_view l).
Proof.
  induction 1 as [|m l Hm _ IH]; [done|]. cbn [List.map unmarshal_elems].
  eapply bind_step; [exact (decoded_view m Hm)|]. cbv beta. eapply bind_step; [exact IH|]. done.
Qed.

Definition list_view (p : page MachineSpec MachineStatus) : machineListResponse :=
  MkMachineList (option_map (List.map client_view) (p_Items p)) (p_Continue p) (p_Total p).

Lemma decoded_page (p : page MachineSpec MachineStatus) :
  codec_ok p → unmarshal (T := machineListResponse) Columns.zero (marshal p) = Some (list_view p).
Proof.
  intros Hok. cbn [unmarshal marshal machineListResponse_Codec page_Codec struct_codec Columns.zero].
  unfold marshal_struct, unmarshal_struct. cbn [assign_fields]. rewrite !matched_struct.
  eapply (bind_step _ (MkMachineList (option_map (List.map client_view) (p_Items p)) "" 0)).
  - assert (codec_ok (p_Items p)) as Hi by exact (proj1 (proj1 (proj1 (Forall_cons _ _ _) Hok))).
    destruct p as [[l|] tok n]; [|reflexivity]. transitivity
      (y ← (v ← (Some <$> unmarshal_elems (A := machineResource) [] (List.map marshal l)); Some (MkMachineList v "" 0));
       Some y);
      [reflexivity|]. by rewrite decoded_views.
  - same_field (λ p : page MachineSpec MachineStatus, p_Continue p).
    same_field (λ p : page MachineSpec MachineStatus, p_Total p). reflexivity.
Qed.

Lemma data_unread (x : JSONField MachineSpec) (s : machineSpec) : unmarshal x (marshal s) = Some x.
Proof.
  destruct x. cbn [unmarshal marshal JSONField_Codec machineSpec_Codec struct_codec]. unfold marshal_struct, unmarshal_struct.
  cbn [assign_fields]. by rewrite matched_struct.
Qed.

(** A document in the client's own format. *)
Definition document (name : string) (s : machineSpec) : json := JObj [("name", JStr name); ("spec", marshal s)].

Lemma document_wf name s :
  str_ok name → codec_ok s → wf_json (document name s) ∧ Z.of_nat (height (document name s)) ≤ max_depth.
Proof.
  intros Hn Hs. destruct (codec_wf s Hs) as [Hwf Hh]. split.
  - constructor; [distinct_tags|]. apply Forall_cons; split; [split; [exact (_ : TagLaw "name")|by constructor]|].
    apply Forall_singleton. split; [exact (_ : TagLaw "spec")|done].
  - change (height (document name s)) with (S (0 `max` (height (marshal s) `max` 0))).
    assert (codec_depth (T := machineSpec) = 1%nat) as He by reflexivity. change max_depth with 10000. lia.
Qed.

Lemma document_decoded name s :
  unmarshal (T := Machine) zero_Object (document name s) =
  Some (MkObject (SetName name zero_Resource) Columns.zero Columns.zero).
Proof.
  cbn [unmarshal Object_Codec struct_codec]. unfold unmarshal_struct, document, Object_fields at 2.
  cbn [List.map Resource_fields app assign_fields].
  do 14 (eapply bind_step; [reflexivity|]). cbv beta.
  eapply (bind_step _ (MkObject (SetName name zero_Resource) Columns.zero Columns.zero)).
  - transitivity (y ← (v ← unmarshal (MkJSONField Columns.zero : JSONField MachineSpec) (marshal s);
        Some (MkObject (SetName name zero_Resource) (Data v) Columns.zero : Machine)); Some y); [reflexivity|].
    by rewrite data_unread.
  - eapply bind_step; reflexivity.
Qed.

(** * The properties *)

Section properties.
Context `{!UrlParser, !Yaml, !Clock}.


(** Two results of one call are the same. *)
Ltac agree :=
  simplify_eq;
  repeat match goal with H1 : ?a = ?b, H2 : ?a = ?c |- _ => rewrite H1 in H2; simplify_eq end; try congruence; try lia.

(** The cases of a failure and of a success below. *)
Ltac failed :=
  simpl; split; [|split];
  [split; [done|]; intros (? & ? & ? & ? & ? & ? & ? & [?|[[? (? & ? & ? & ?)]|(? & ? & ? & ?)]]); agree
  |intros _; by split|intros; by agree].
Ltac succeeded :=
  simpl; split; [|split]; [split; [intros _|done]; do 3 eexists; split_and!; (done || lia || eauto 8)|intros []; done|intros; by agree].

(** A command succeeds exactly when the request could be made, the response was
    read to its end, its status is in 200..299 and its body is usable in the
    chosen format; a command that fails prints nothing, and a status outside the
    range is reported with the body. *)
Theorem client_outcome {T} `{Codec T} cfg Do req (table : T → result) :
  (∀ x, r_err (table x) = None) →
  let r := run cfg Do req table in
  (r_err r = None ↔ ∃ q resp body, req = inr q ∧ Do q = inr resp ∧ resp_Body resp = (body, None) ∧
     200 ≤ StatusCode resp < 300 ∧
     (output cfg = "json" ∨
      output cfg = "yaml" ∧ (∃ j out, parse_json body = Some j ∧ yaml_of_json j = inr out) ∨
      output cfg ≠ "json" ∧ output cfg ≠ "yaml" ∧ is_Some (json_Unmarshal (Columns.zero : T) body))) ∧
  (r_err r ≠ None → r_stdout r = [] ∧ r_stderr r = "") ∧
  (∀ q resp body, req = inr q → Do q = inr resp → resp_Body resp = (body, None) → not_ok (StatusCode resp) = true →
     r_err r = Some (server_error (StatusCode resp) body)).
Proof.
  intros Ht. unfold run. destruct req as [e|q]; [failed|].
  destruct (Do q) as [e|resp] eqn:Ed; [failed|].
  unfold read_response, not_ok. destruct (resp_Body resp) as [body [e|]] eqn:Eb; [failed|].
  destruct ((StatusCode resp <? 200) || (300 <=? StatusCode resp)) eqn:Es; [failed|].
  assert (200 ≤ StatusCode resp < 300) as Hs by lia.
  destruct (String.eqb_spec (output cfg) "json") as [Ej|Ej]; [succeeded|].
  destruct (String.eqb_spec (output cfg) "yaml") as [Ey|Ey].
  - unfold jsonToYAML. destruct (parse_json body) as [j|] eqn:Ep; [|failed].
    destruct (yaml_of_json j) as [e|out] eqn:Eo; [failed|succeeded].
  - destruct (json_Unmarshal _ _) as [x|] eqn:Eu; [|failed]. rewrite Ht. succeeded.
Qed.

Lemma run_table {T} `{Codec T} cfg q body (table : T → result) x :
  output cfg = "table" → json_Unmarshal Columns.zero body = Some x →
  run cfg (λ _, inr (MkHttpResponse 200 (body, None))) (inr q) table = table x.
Proof. intros Ho Hx. unfold run. simpl. rewrite Ho. simpl. by rewrite Hx. Qed.

Lemma decoded_line {T U} `{Codec T} `{Codec U} (x : T) (y : U) :
  codec_ok x → Z.of_nat (codec_depth (T := T)) ≤ max_depth → unmarshal Columns.zero (marshal x) = Some y →
  json_Unmarshal Columns.zero (encode_line (marshal x)) = Some y.
Proof.
  intros Hx Hd Hy. destruct (codec_wf x Hx). unfold json_Unmarshal. rewrite parse_encode_line by (done || lia). exact Hy.
Qed.

(** The client and the server do not agree on the JSON of a machine.  Of a
    machine the server sends, the client reads the metadata, and an empty spec and
    status whatever the machine has: the columns ARCH, CPUS, MEMORY_MB and PHASE of
    the list are always empty, and so are the lines of the get command.  Of a
    document in the client's format the server reads the name, and an empty spec. *)
Theorem client_drops_spec cfg :
  output cfg = "table" → base_ok (server cfg) →
  (∀ (m : Machine) name, codec_ok m →
     machinesGet cfg (λ _, inr (MkHttpResponse 200 (Encode m, None))) name = get_table (client_view m)) ∧
  (∀ (p : page MachineSpec MachineStatus) now fl, codec_ok p →
     machinesList cfg (λ _, inr (MkHttpResponse 200 (encode_line (marshal p), None))) now fl =
     list_table now (list_view p)) ∧
  ∀ name (s : machineSpec), str_ok name → codec_ok s →
    decode_body (print_json (document name s)) Rest.zero =
    inr (MkObject (SetName name zero_Resource) Columns.zero Columns.zero : Machine).
Proof.
  intros Ho Hb. split_and!.
  - intros m name Hm. unfold machinesGet. rewrite machine_request_built by done. apply run_table; [done|].
    apply decoded_line; [done|vm_compute; discriminate|by apply decoded_view].
  - intros p now fl Hp. unfold machinesList. rewrite list_request_built by done. apply run_table; [done|].
    apply decoded_line; [done|vm_compute; discriminate|by apply decoded_page].
  - intros name s Hn Hs. destruct (document_wf name s Hn Hs) as [Hwf Hh]. cbn [decode_body wire_Decoder]. unfold Decode.
    pose proof (value_print _ Hwf (2 * String.length (print_json (document name s)) + 2)%nat 0 "") as Hv.
    rewrite sapp_nil_r in Hv. rewrite Hv by (done || lia). cbn [Rest.zero wire_Decoder]. by rewrite document_decoded.
Qed.

(** What the client gets of a response. *)
Definition answer (c : conn) : http_response :=
  MkHttpResponse (match c_sent c with Some (status, _) => status | None => 0 end) (c_body c, None).

Lemma string_le_total : base.Total string_le.
Proof.
  intros a b. unfold string_le. destruct (String.leb_total a b) as [->| ->]; [by left|by right].
Qed.

Lemma capabilities_line (m : gmap string string) :
  map_Forall (λ k v, str_ok k ∧ str_ok v) m →
  json_Unmarshal Columns.zero (encode_line (map_json (JStr <$> m))) = Some (Some m).
Proof.
  intros Hm. unfold json_Unmarshal. rewrite parse_encode_line; [|by apply string_map_wf|apply string_map_height].
  cbn [mbind option_bind]. apply (codec_read (T := option (gmap string string)) (Some m)); [done|].
  eapply jp_obj; [apply Forall_Forall2_diag, Forall_forall; eauto using jp_refl|].
  rewrite !merge_sort_Permutation, map_to_list_fmap. apply Permutation_map. done.
Qed.

(** The capabilities command shows what the server has.  Against a server whose
    names are valid strings it prints, under the heading, one line for each feature
    the server answers with and its provider, in the order of the features. *)
Theorem capabilities_shown {P W} (r : Registry (world P W)) cfg new_id route path params :
  output cfg = "table" → base_ok (server cfg) →
  map_Forall (λ k v, str_ok k ∧ str_ok v) (capabilities r) →
  let Do q := inr (answer (serve new_id route (capabilitiesHandler r) (received path params q)).1.2) in
  ∃ features, Sorted string_le features ∧ NoDup features ∧ (∀ f, f ∈ features ↔ is_Some (capabilities r !! f)) ∧
    capabilitiesCmd cfg Do =
    prints [Tabbed (line ["FEATURE"; "PROVIDER"] +:+
                    Join ((λ f, line [f; default "" (capabilities r !! f)]) <$> features) "")].
Proof.
  intros Ho Hb Hok Do. exists (merge_sort string_le (map_to_list (capabilities r)).*1). split_and!.
  - pose proof string_le_total. apply Sorted_merge_sort; apply _.
  - rewrite merge_sort_Permutation. apply NoDup_fst_map_to_list.
  - intros f. rewrite merge_sort_Permutation, list_elem_of_fmap. split.
    + intros ([k v] & -> & Hkv%elem_of_map_to_list). by eexists.
    + intros [v Hv%elem_of_map_to_list]. by exists (f, v).
  - unfold capabilitiesCmd, capabilities_request, NewRequest.
    change "/api/v1/capabilities" with (path_of ["api"; "v1"; "capabilities"]). rewrite Parse_path by done.
    cbn [run]. subst Do. cbv beta. unfold capabilitiesHandler. rewrite serve_unfold.
    simpl. rewrite Ho. simpl. by rewrite capabilities_line.
Qed.
End properties.
End client.

(** * Witnesses *)

(** A parser that knows of queries only. *)
Lemma Cut_lacks s c : lacks c s = true → Cut s c = (s, "").
Proof.
  unfold lacks. induction s as [|d s IH]; simpl; [done|]. intros Hs. bprop. rewrite IH by done.
  destruct (Ascii.eqb_spec d c) as [->|]; [by rewrite Ascii.eqb_refl in *|done].
Qed.

Lemma path_of_lacks c segments : escaped_char PathSegment c = false → Ascii.eqb c "/" = false → lacks c (path_of segments) = true.
Proof.
  intros Hc Hs. induction segments as [|s l IH]; [done|]. cbn [path_of foldr]. rewrite !lacks_app.
  fold (path_of l). rewrite IH. unfold PathEscape. rewrite (escape_lacks _ _ _ Hc). cbn. by rewrite Hs.
Qed.

#[local] Program Instance query_UrlParser : UrlParser := {
  url_Parse := λ s, let '(a, q) := Cut s "?" in inr (MkURL a false q "");
  base_ok := λ s, lacks "?" s = true;
}.
Next Obligation.
  intros server segments q Hs. simpl. assert (lacks "?" (server +:+ path_of segments) = true) as Hl.
  { rewrite lacks_app, Hs. by apply path_of_lacks. }
  rewrite <-sapp_assoc. destruct (String.eqb_spec (Values_Encode q) "") as [->|_].
  - by rewrite sapp_nil_r, Cut_lacks.
  - by rewrite (Cut_app (server +:+ path_of segments) (Values_Encode q)).
Qed.

(** JSON in place of YAML, and numbers in place of texts of times. *)
#[local] Instance json_Yaml : Yaml := {
  yaml_value := json;
  yaml_Unmarshal := λ s, match parse_json s with Some j => inr j | None => inl "yaml: invalid" end;
  is_string_map := λ j, match j with JObj _ => true | _ => false end;
  yaml_json := λ j, inr (print_json j);
  yaml_of_json := λ j, inr (print_json j);
}.

#[local] Instance number_Clock : Clock := { age_text := λ now t, Itoa (now - t) +:+ "s"; rfc3339 := Itoa }.

#[local] Existing Instance number_Formats.

Definition some_flags : list_flags := MkListFlags 20 "name=a&b" "".


Lemma client_outcome_witness :
  r_err (run default_config (λ _, inr (MkHttpResponse 404 ("machine not found", None)))
           (machine_request default_config "GET" "m-1") get_table) = Some "server returned 404: machine not found".
Proof.
  destruct (client_outcome default_config (λ _, inr (MkHttpResponse 404 ("machine not found", None)))
    (machine_request default_config "GET" "m-1") get_table (λ _, eq_refl)) as (_ & _ & H).
  exact (H _ (MkHttpResponse 404 ("machine not found", None)) "machine not found" eq_refl eq_refl eq_refl eq_refl).
Defined.

Lemma client_drops_spec_witness :
  machinesGet default_config (λ _, inr (MkHttpResponse 200 (Encode rack_machine, None))) "m-1" =
    get_table (client_view rack_machine) ∧
  m_Spec (client_view rack_machine) = MkSpec "" 0 0 0 "" ∧ Models.Arch (o_spec rack_machine) = "x86_64" ∧
  decode_body (print_json (document "new-machine" (MkSpec "x86_64" 4 0 0 ""))) Rest.zero =
    inr (MkObject (SetName "new-machine" zero_Resource) Columns.zero Columns.zero : Machine).
Proof.
  destruct (client_drops_spec default_config) as (Hget & _ & Hcreate); [reflexivity|reflexivity|]. split_and!; [| | |].
  - apply Hget. exact rack_machine_ok.
  - reflexivity.
  - reflexivity.
  - apply Hcreate; concrete_ok.
Defined.

Lemma capabilities_shown_witness :
  ∃ features, "tenant" ∈ features ∧
    capabilitiesCmd default_config (λ q, inr (answer (serve "id" (λ _, "") (capabilitiesHandler tenant_resolved) (received "" (λ _, "") q)).1.2)) =
    prints [Tabbed (line ["FEATURE"; "PROVIDER"] +:+
                    Join ((λ f, line [f; default "" (capabilities tenant_resolved !! f)]) <$> features) "")].
Proof.
  destruct (capabilities_shown tenant_resolved default_config "id" (λ _, "") "" (λ _, "")) as (fs & _ & _ & Hin & Hc);
    [reflexivity|reflexivity| |].
  - change (capabilities tenant_resolved) with ({["tenant" := "tenant"]} : gmap string string).
    intros k v [<- <-]%lookup_singleton_Some. concrete_ok.
  - exists fs. split; [apply Hin; eexists; reflexivity|exact Hc].
Defined.
